(** * QBA (Quantum Based Allocation): a shallow embedding of
    [src/hotspot/share/runtime/qba.cpp] and the properties checked on it.

    Conventions of the embedding.
    - [uint64_t] values are integers in [0, 2^64); every arithmetic
      operation of the source on them is followed by an explicit [wrap64].
    - [int] values are plain integers; the one narrowing conversion of the
      source ([orderDiv] returns [(int)(value >> order)]) is written
      [to_int], and the products on [int] that take the size of the side
      data ([_sideDataSize * partitionIndex * MAX_PARTITION_QUANTUM],
      [index * _sideDataSize]) are written [mulInt].
    - Addresses ([void *], [Address]) are [uint64_t] values, [0] is
      [nullptr].
    - Objects that the source reaches through pointers ([Registry *],
      [Partition *], [Allocator *]) are reached through references into the
      one [Director] value that owns them.
    - Behaviour that C++ leaves undefined and that the model can detect (a
      shift by a count outside [0, 63], an index outside an array, a
      product that [int] does not hold) is a [Fault]; [assert]s are compiled out by [#define NDEBUG] and are
      therefore not checked.
    - [compare_exchange_weak] may fail spuriously; the outcomes of the
      upcoming compare-exchanges are read from a schedule, an empty
      schedule meaning success whenever the expected value matches.
    - Results of the operating system ([mmap]) are read from a second
      schedule; every system call is recorded in a trace. *)

From Stdlib Require Import ZArith List Bool Lia.
From stdpp Require Import base list.

Local Open Scope Z_scope.

(* ===================================================================== *)
(** ** Results, faults and the state monad                                 *)
(* ===================================================================== *)

Inductive Fault : Type :=
| ShiftOutOfRange (count : Z)
| BitsOutOfRange (wordIndex : Z)
| IndexOutOfRange (index : Z)
| NullPointer
| BadCast
| IntOverflow (value : Z)
| OutOfFuel.

Inductive Res (A : Type) : Type :=
| Ok (a : A)
| Err (f : Fault).

Arguments Ok {A} a.
Arguments Err {A} f.

Definition M (S A : Type) : Type := S -> Res (A * S).

Definition ret {S A : Type} (a : A) : M S A := fun s => Ok (a, s).

Definition bind {S A B : Type} (m : M S A) (k : A -> M S B) : M S B :=
  fun s => match m s with
           | Ok (a, s') => k a s'
           | Err f => Err f
           end.

Definition fault {S A : Type} (f : Fault) : M S A := fun _ => Err f.

Definition lift {S A : Type} (r : Res A) : M S A :=
  fun s => match r with Ok a => Ok (a, s) | Err f => Err f end.

Definition rbind {A B : Type} (r : Res A) (k : A -> Res B) : Res B :=
  match r with Ok a => k a | Err f => Err f end.

Definition get {S : Type} : M S S := fun s => Ok (s, s).
Definition gets {S A : Type} (f : S -> A) : M S A := fun s => Ok (f s, s).
Definition modify {S : Type} (f : S -> S) : M S unit := fun s => Ok (tt, f s).

Declare Scope qba_scope.
Delimit Scope qba_scope with qba.
Notation "x <- m ;; k" := (bind m (fun x => k))
  (at level 100, m at next level, right associativity) : qba_scope.
Notation "m ;;; k" := (bind m (fun _ => k))
  (at level 100, right associativity) : qba_scope.
Notation "x <~ r ;; k" := (rbind r (fun x => k))
  (at level 100, r at next level, right associativity) : qba_scope.
Local Open Scope qba_scope.

(* ===================================================================== *)
(** ** Global constants                                                    *)
(* ===================================================================== *)

Definition NOT_FOUND : Z := -1.
Definition ZERO : Z := 0.
Definition ALL_ONES : Z := 2 ^ 64 - 1.

Definition K : Z := 1024.
Definition MB : Z := K * K.

Definition BYTES_PER_WORD_ORDER : Z := 3.
Definition BITS_PER_WORD_ORDER : Z := 6.
Definition BYTES_PER_WORD : Z := 8.
Definition BITS_PER_WORD : Z := 64.
Definition PAGE_SIZE_ORDER : Z := 12.
Definition PAGE_SIZE : Z := 4096.
Definition BITS_MASK : Z := 63.

Definition MAX_ADDRESS_ORDER : Z := 52.
Definition MAX_ALLOCATION_ORDER : Z := MAX_ADDRESS_ORDER - 4.
Definition MAX_ORDER : Z := BITS_PER_WORD.
Definition MAX_ALLOCATION_SIZE : Z := 2 ^ MAX_ALLOCATION_ORDER.

Definition MAX_PARTITION_QUANTUM : Z := 16 * K.
Definition MAX_QUANTUM_ALLOCATORS : Z := 3.
Definition MAX_REGISTRY_BIT_COUNT : Z := MAX_PARTITION_QUANTUM.
Definition MAX_REGISTRY_WORD_COUNT : Z := 256.
Definition MAX_QUANTUM_ALLOCATOR_ORDERS : Z := 8.
Definition SMALLEST_SIZE_ORDER : Z := 3.
Definition LARGEST_SIZE_ORDER : Z :=
  SMALLEST_SIZE_ORDER + MAX_QUANTUM_ALLOCATORS * MAX_QUANTUM_ALLOCATOR_ORDERS - 1.
Definition QB_STATS_SIZE : Z := 64.
(** [MAP_FAILED] is [(void * )-1]. *)
Definition MAP_FAILED : Z := ALL_ONES.

(* ===================================================================== *)
(** ** Machine arithmetic                                                  *)
(* ===================================================================== *)

Definition wrap64 (z : Z) : Z := z mod 2 ^ 64.

(** Conversion of a 64-bit value to [int]. *)
Definition to_int (z : Z) : Z := (z + 2 ^ 31) mod 2 ^ 32 - 2 ^ 31.

(** [a * b] on [int]: a product that [int] does not hold is undefined. *)
Definition mulInt (a b : Z) : Res Z :=
  let product := a * b in
  if (- 2 ^ 31 <=? product) && (product <? 2 ^ 31)
  then Ok product
  else Err (IntOverflow product).

(** [value << count] and [value >> count] on [uint64_t]. *)
Definition shl64 (value count : Z) : Res Z :=
  if (0 <=? count) && (count <? 64)
  then Ok (wrap64 (Z.shiftl value count))
  else Err (ShiftOutOfRange count).

Definition shr64 (value count : Z) : Res Z :=
  if (0 <=? count) && (count <? 64)
  then Ok (Z.shiftr value count)
  else Err (ShiftOutOfRange count).

(** [~value] and [-value] on [uint64_t]. *)
Definition not64 (value : Z) : Z := Z.lxor value ALL_ONES.
Definition neg64 (value : Z) : Z := wrap64 (- value).

(** [MASK(POWER2)] is [(uint64_t)(POWER2) - 1UL]. *)
Definition MASK (power2 : Z) : Z := wrap64 (power2 - 1).

(** [__builtin_ctzll] and [__builtin_popcountll] on the binary digits. *)
Fixpoint ctz_pos (p : positive) : Z :=
  match p with
  | xO q => 1 + ctz_pos q
  | _ => 0
  end.

Fixpoint popcount_pos (p : positive) : Z :=
  match p with
  | xH => 1
  | xO q => popcount_pos q
  | xI q => 1 + popcount_pos q
  end.

Definition clz (value : Z) : Z :=
  if value =? 0 then BITS_PER_WORD else 63 - Z.log2 value.

Definition ctz (value : Z) : Z :=
  match value with
  | Zpos p => ctz_pos p
  | _ => BITS_PER_WORD
  end.

Definition popcount (value : Z) : Z :=
  match value with
  | Zpos p => popcount_pos p
  | _ => 0
  end.

Definition twoToOrder (order : Z) : Res Z := shl64 1 order.

Definition loMask (n : Z) : Res Z :=
  p <~ twoToOrder n ;; Ok (MASK p).

Definition hiMask (n : Z) : Res Z :=
  m <~ loMask (BITS_PER_WORD - n) ;; Ok (not64 m).

Definition isPowerOf2 (value : Z) : bool :=
  Z.land value (MASK value) =? ZERO.

Definition roundUp (value powerOf2 : Z) : Z :=
  let mask := MASK powerOf2 in
  Z.land (wrap64 (value + mask)) (not64 mask).

Definition roundUpPowerOf2 (value : Z) : Res Z :=
  if value =? 0 then Ok ZERO
  else shl64 1 (BITS_PER_WORD - clz (wrap64 (value - 1))).

Definition sizeToOrder (size : Z) : Z :=
  if 8 <? size then BITS_PER_WORD - clz (wrap64 (size - 1)) else 3.

Definition orderToSize (order : Z) : Res Z := shl64 1 order.

Definition orderMul (value order : Z) : Res Z := shl64 value order.

Definition orderDiv (value order : Z) : Res Z :=
  q <~ shr64 value order ;; Ok (to_int q).

Definition lowestZeroBit (value : Z) : Z :=
  let inverse := not64 value in
  Z.land inverse (neg64 inverse).

(** The [while (value != ALL_ONES)] loop fills at least one zero bit per
    round, so 64 rounds are enough. *)
Fixpoint lowestZeroBitsPosition_loop (rounds : nat) (value n : Z) : Res Z :=
  if value =? ALL_ONES then Ok NOT_FOUND
  else
    match rounds with
    | O => Err OutOfFuel
    | S rounds' =>
        let lowestBit := lowestZeroBit value in
        shifted <~ shl64 lowestBit n ;;
        let rangeMask := wrap64 (shifted - lowestBit) in
        if Z.land value rangeMask =? 0
        then Ok (BITS_PER_WORD - 1 - clz lowestBit)
        else lowestZeroBitsPosition_loop rounds'
               (Z.lor value (wrap64 (value - lowestBit))) n
    end.

Definition lowestZeroBitsPosition (value n : Z) : Res Z :=
  lowestZeroBitsPosition_loop 64 value n.

(* ===================================================================== *)
(** ** Registry: the atomic bitmap                                         *)
(* ===================================================================== *)

(** [class Registry]: [_maximumIndex], [_maximumWordIndex], [_lowestIndex]
    and [_bits[MAX_REGISTRY_WORD_COUNT]]. *)
Record Registry : Type := mkRegistry {
  maximumIndex : Z;
  maximumWordIndex : Z;
  lowestIndex : Z;
  bits : list Z
}.

(** A registry together with the outcomes of the upcoming
    [compare_exchange_weak] calls. *)
Record RegState : Type := mkRegState {
  reg : Registry;
  sched : list bool
}.

Module Registry.

Definition getWordIndex (index : Z) : Z := Z.shiftr index BITS_PER_WORD_ORDER.

Definition getBitIndex (index : Z) : Z := Z.land index BITS_MASK.

(** [(wordIndex << BITS_PER_WORD_ORDER) + bitIndex] on [int]. The sum
    on [Z] is the one [int] holds for a word index below [2^25] and a bit
    index from -1 to 64; the callers pass a word index that is at most
    [_maximumIndex], which is at most [MAX_REGISTRY_BIT_COUNT]. *)
Definition getIndex (wordIndex bitIndex : Z) : Z :=
  Z.shiftl wordIndex BITS_PER_WORD_ORDER + bitIndex.

Definition wordsNeeded (count : Z) : Res Z :=
  orderDiv (wrap64 (count + BITS_PER_WORD - 1)) BITS_PER_WORD_ORDER.

(** [Registry()], used for global data and left by zero-filled memory. *)
Definition empty : Registry :=
  mkRegistry 0 0 0 (replicate (Z.to_nat MAX_REGISTRY_WORD_COUNT) 0).

(** [Registry(int maximumIndex)]. *)
Definition create (maximumIndex : Z) : Res Registry :=
  words <~ wordsNeeded maximumIndex ;;
  Ok (mkRegistry maximumIndex words 0
        (replicate (Z.to_nat MAX_REGISTRY_WORD_COUNT) 0)).

(** *** Reads *)

Definition getBits (r : Registry) (wordIndex : Z) : Res Z :=
  if (0 <=? wordIndex) && (wordIndex <? MAX_REGISTRY_WORD_COUNT)
  then match bits r !! Z.to_nat wordIndex with
       | Some value => Ok value
       | None => Err (BitsOutOfRange wordIndex)
       end
  else Err (BitsOutOfRange wordIndex).

Definition isValidIndex (r : Registry) (index : Z) : bool :=
  (0 <=? index) && (index <? maximumIndex r).

Definition isValidCount (r : Registry) (count : Z) : bool :=
  (0 <=? count) && (count <=? maximumIndex r).

Definition isValidWordIndex (r : Registry) (wordIndex : Z) : bool :=
  (0 <=? wordIndex) && (wordIndex <=? maximumWordIndex r).

Definition isSet (r : Registry) (index : Z) : Res bool :=
  let wordIndex := getWordIndex index in
  let bitIndex := getBitIndex index in
  bit <~ twoToOrder bitIndex ;;
  value <~ getBits r wordIndex ;;
  Ok (negb (Z.land value bit =? 0)).

Fixpoint isEmpty_loop (r : Registry) (n : nat) (i : Z) : Res bool :=
  match n with
  | O => Ok true
  | S n' =>
      value <~ getBits r i ;;
      if negb (value =? ZERO) then Ok false else isEmpty_loop r n' (i + 1)
  end.

Definition isEmpty (r : Registry) : Res bool :=
  if lowestIndex r =? 0
  then isEmpty_loop r (Z.to_nat (maximumWordIndex r)) 0
  else Ok false.

Fixpoint count_loop (r : Registry) (n : nat) (i c : Z) : Res Z :=
  match n with
  | O => Ok c
  | S n' =>
      value <~ getBits r i ;;
      count_loop r n' (i + 1) (c + popcount value)
  end.

Definition count (r : Registry) : Res Z :=
  count_loop r (Z.to_nat (maximumWordIndex r)) 0 0.

(** *** Atomic updates *)

Definition R (A : Type) : Type := M RegState A.

Definition load {A : Type} (f : Registry -> Res A) : R A :=
  fun st => match f (reg st) with
            | Ok a => Ok (a, st)
            | Err e => Err e
            end.

Definition storeBits (wordIndex value : Z) : R unit :=
  fun st =>
    let r := reg st in
    if (0 <=? wordIndex) && (wordIndex <? MAX_REGISTRY_WORD_COUNT)
    then Ok (tt, mkRegState
                   (mkRegistry (maximumIndex r) (maximumWordIndex r)
                      (lowestIndex r)
                      (<[Z.to_nat wordIndex := value]> (bits r)))
                   (sched st))
    else Err (BitsOutOfRange wordIndex).

Definition storeLowestIndex (value : Z) : R unit :=
  fun st =>
    let r := reg st in
    Ok (tt, mkRegState
              (mkRegistry (maximumIndex r) (maximumWordIndex r) value (bits r))
              (sched st)).

(** The outcome of the next [compare_exchange_weak]: [false] is a spurious
    failure. *)
Definition nextCas : R bool :=
  fun st =>
    match sched st with
    | [] => Ok (true, st)
    | b :: rest => Ok (b, mkRegState (reg st) rest)
    end.

(** [swapBits(wordIndex, existing, value)]; the second component is
    [existing] after the call. *)
Definition swapBits (wordIndex existing value : Z) : R (bool * Z) :=
  current <- load (fun r => getBits r wordIndex) ;;
  ok <- nextCas ;;
  if ok && (current =? existing)
  then storeBits wordIndex value ;;; ret (true, existing)
  else ret (false, current).

Definition andBits (wordIndex value : Z) : R Z :=
  old <- load (fun r => getBits r wordIndex) ;;
  storeBits wordIndex (Z.land old value) ;;;
  ret old.

Definition orBits (wordIndex value : Z) : R Z :=
  old <- load (fun r => getBits r wordIndex) ;;
  storeBits wordIndex (Z.lor old value) ;;;
  ret old.

Definition getLowestIndex : R Z := load (fun r => Ok (lowestIndex r)).

Definition swapLowestIndex (existing value : Z) : R (bool * Z) :=
  current <- getLowestIndex ;;
  ok <- nextCas ;;
  if ok && (current =? existing)
  then storeLowestIndex value ;;; ret (true, existing)
  else ret (false, current).

Definition setMask (wordIndex mask : Z) : R bool :=
  if mask =? 0 then ret true
  else old <- orBits wordIndex mask ;;
       ret (Z.land old mask =? ZERO).

Definition clearMask (wordIndex mask : Z) : R bool :=
  if mask =? 0 then ret true
  else old <- andBits wordIndex (not64 mask) ;;
       ret (negb (Z.land old mask =? ZERO)).

Definition set (index : Z) : R bool :=
  let wordIndex := getWordIndex index in
  let bitIndex := getBitIndex index in
  bit <- lift (twoToOrder bitIndex) ;;
  setMask wordIndex bit.

Definition clear (index : Z) : R bool :=
  let wordIndex := getWordIndex index in
  let bitIndex := getBitIndex index in
  bit <- lift (twoToOrder bitIndex) ;;
  clearMask wordIndex bit.

(** [conditionallySetMask(wordIndex, value, mask)] with the previously
    known value; returns the result and [value] after the call. *)
Definition conditionallySetMask3 (wordIndex value mask : Z) : R (bool * Z) :=
  if negb (mask =? 0)
  then swapBits wordIndex value (Z.lor value mask)
  else ret (true, value).

(** [conditionallySetMask(wordIndex, mask)]. *)
Definition conditionallySetMask (wordIndex mask : Z) : R bool :=
  value <- load (fun r => getBits r wordIndex) ;;
  r <- conditionallySetMask3 wordIndex value mask ;;
  ret (fst r).

Fixpoint clearMaskRange_loop (n : nat) (firstWordIndex i : Z) : R unit :=
  match n with
  | O => ret tt
  | S n' =>
      clearMask (firstWordIndex + i + 1) ALL_ONES ;;;
      clearMaskRange_loop n' firstWordIndex (i + 1)
  end.

Definition clearMaskRange (firstWordIndex count firstMask lastMask : Z)
  : R unit :=
  clearMask firstWordIndex firstMask ;;;
  clearMaskRange_loop (Z.to_nat count) firstWordIndex 0 ;;;
  clearMask (firstWordIndex + count + 1) lastMask ;;;
  ret tt.

(** The loop over the middle words of [conditionallySetMaskRange]; [true]
    when every middle word was set, [false] after a failure and its
    roll back. *)
Fixpoint conditionallySetMaskRange_loop (n : nat)
  (firstWordIndex i firstMask : Z) : R bool :=
  match n with
  | O => ret true
  | S n' =>
      ok <- conditionallySetMask (firstWordIndex + i + 1) ALL_ONES ;;
      if negb ok
      then clearMaskRange firstWordIndex i firstMask ZERO ;;; ret false
      else conditionallySetMaskRange_loop n' firstWordIndex (i + 1) firstMask
  end.

Definition conditionallySetMaskRange
  (firstWordIndex count firstMask lastMask : Z) : R bool :=
  ok <- conditionallySetMask firstWordIndex firstMask ;;
  if negb ok then ret false
  else
    ok <- conditionallySetMaskRange_loop (Z.to_nat count)
            firstWordIndex 0 firstMask ;;
    if negb ok then ret false
    else
      ok <- conditionallySetMask (firstWordIndex + count + 1) lastMask ;;
      if negb ok
      then clearMaskRange firstWordIndex count firstMask ZERO ;;; ret false
      else ret true.

Definition incrementLowestFreeWordIndex (wordIndex : Z) : R Z :=
  let next := wordIndex + 1 in
  r <- swapLowestIndex wordIndex next ;;
  if fst r then ret next else ret (snd r).

(** The [while (true)] loop of [findFree]. A round either returns, moves
    to the next word or repeats after a failed compare-exchange, so the
    number of rounds is bounded by the number of words plus the number of
    scheduled failures; [findFree] supplies that bound. *)
Fixpoint findFree_loop (rounds : nat) (wordIndex : Z) : R Z :=
  match rounds with
  | O => fault OutOfFuel
  | S rounds' =>
      maximumWordIndex <- load (fun r => Ok (maximumWordIndex r)) ;;
      if wordIndex =? maximumWordIndex then ret NOT_FOUND
      else
        value <- load (fun r => getBits r wordIndex) ;;
        if value =? ALL_ONES
        then wordIndex' <- incrementLowestFreeWordIndex wordIndex ;;
             findFree_loop rounds' wordIndex'
        else
          let bitIndex := ctz (not64 value) in
          let index := getIndex wordIndex bitIndex in
          maximumIndex <- load (fun r => Ok (maximumIndex r)) ;;
          if maximumIndex <=? index then ret NOT_FOUND
          else
            bit <- lift (shl64 1 bitIndex) ;;
            r <- swapBits wordIndex value (Z.lor value bit) ;;
            if fst r then ret index
            else findFree_loop rounds' wordIndex
  end.

Definition retryBound (st : RegState) : nat :=
  (2 * Z.to_nat MAX_REGISTRY_WORD_COUNT + 2 * length (sched st) + 2)%nat.

Definition findFree : R Z :=
  fun st =>
    (wordIndex <- getLowestIndex ;;
     findFree_loop (retryBound st) wordIndex) st.

(** The [do ... while (!swapLowestIndex(...))] loop. *)
Fixpoint updateLowestFreeWordIndex_loop (rounds : nat)
  (lowestFreeIndex wordIndex : Z) : R unit :=
  match rounds with
  | O => fault OutOfFuel
  | S rounds' =>
      if lowestFreeIndex <=? wordIndex then ret tt
      else
        r <- swapLowestIndex lowestFreeIndex wordIndex ;;
        if negb (fst r)
        then updateLowestFreeWordIndex_loop rounds' (snd r) wordIndex
        else ret tt
  end.

Definition updateLowestFreeWordIndex (wordIndex : Z) : R unit :=
  fun st =>
    (lowestFreeIndex <- getLowestIndex ;;
     updateLowestFreeWordIndex_loop (retryBound st) lowestFreeIndex wordIndex) st.

Definition updateLowestIndex (index : Z) : R unit :=
  updateLowestFreeWordIndex (getWordIndex index).

Definition free (index : Z) : R unit :=
  clear index ;;;
  updateLowestIndex index.

(** One round of the [for] loop of [findFreeRange]: [Some index] when the
    function returns [index], [None] when the loop goes on. *)
Definition findFreeRange_body (count wordIndex : Z) : R (option Z) :=
  value <- load (fun r => getBits r wordIndex) ;;
  maximumIndex <- load (fun r => Ok (maximumIndex r)) ;;
  if count <=? BITS_PER_WORD then
    bitIndex <- lift (lowestZeroBitsPosition value count) ;;
    let index := getIndex wordIndex bitIndex in
    if maximumIndex - count <=? index then ret (Some NOT_FOUND)
    else if bitIndex + count <=? BITS_PER_WORD then
      lo <- lift (loMask count) ;;
      mask <- lift (shl64 lo bitIndex) ;;
      ok <- conditionallySetMask wordIndex mask ;;
      if ok then ret (Some index) else ret None
    else
      lo <- lift (loMask count) ;;
      firstMask <- lift (shl64 lo bitIndex) ;;
      lastMask <- lift (loMask (count - bitIndex)) ;;
      ok <- conditionallySetMaskRange wordIndex 0 firstMask lastMask ;;
      if ok then ret (Some index) else ret None
  else
    let leading := clz value in
    let index := getIndex wordIndex (BITS_PER_WORD - leading) in
    if maximumIndex - count <=? index then ret (Some NOT_FOUND)
    else
      let remaining := count - leading in
      let remainingWords := getWordIndex remaining in
      let remainingBits := getBitIndex remaining in
      leadingMask <- lift (hiMask leading) ;;
      trailingMask <- lift (loMask remainingBits) ;;
      ok <- conditionallySetMaskRange wordIndex remainingWords
              leadingMask trailingMask ;;
      if ok then ret (Some index) else ret None.

(** [for (wordIndex = getLowestIndex(); wordIndex < _maximumIndex;
    wordIndex++)]: the bound of the source is [_maximumIndex]. *)
Fixpoint findFreeRange_loop (n : nat) (count wordIndex : Z) : R Z :=
  match n with
  | O => ret NOT_FOUND
  | S n' =>
      r <- findFreeRange_body count wordIndex ;;
      match r with
      | Some index => ret index
      | None => findFreeRange_loop n' count (wordIndex + 1)
      end
  end.

Definition findFreeRange (count : Z) : R Z :=
  if count =? 0 then ret NOT_FOUND
  else if count =? 1 then findFree
  else
    wordIndex <- getLowestIndex ;;
    maximumIndex <- load (fun r => Ok (maximumIndex r)) ;;
    findFreeRange_loop (Z.to_nat (maximumIndex - wordIndex)) count wordIndex.

(** [freeRange(index, count)]. *)
Definition freeRange (index count : Z) : R unit :=
  let wordIndex := getWordIndex index in
  let bitIndex := getBitIndex index in
  (if bitIndex + count <=? BITS_PER_WORD then
     lo <- lift (loMask count) ;;
     mask <- lift (shl64 lo bitIndex) ;;
     clearMask wordIndex mask ;;;
     ret tt
   else if count <=? BITS_PER_WORD then
     lo <- lift (loMask count) ;;
     firstMask <- lift (shl64 lo bitIndex) ;;
     lastMask <- lift (loMask (count - bitIndex)) ;;
     clearMaskRange wordIndex 0 firstMask lastMask
   else
     let leading := BITS_PER_WORD - bitIndex in
     let remaining := count - leading in
     let remainingWords := getWordIndex remaining in
     let remainingBits := getBitIndex remaining in
     leadingMask <- lift (hiMask leading) ;;
     trailingMask <- lift (loMask remainingBits) ;;
     clearMaskRange wordIndex remainingWords leadingMask trailingMask) ;;;
  updateLowestFreeWordIndex wordIndex.

End Registry.

(** [class RegistryIsSetIterator]: the iterator is its field [_index];
    [nextSet] returns the bit found and [_index] after the call. *)
Module RegistryIsSetIterator.

Fixpoint nextSet_loop (r : Registry) (n : nat) (wordIndex bitIndex : Z)
  : Res (Z * Z) :=
  match n with
  | O => Ok (NOT_FOUND, maximumIndex r)
  | S n' =>
      word <~ Registry.getBits r wordIndex ;;
      bit <~ twoToOrder bitIndex ;;
      let value := Z.land word (not64 (MASK bit)) in
      if negb (value =? 0) then
        let bitIndex' := ctz value in
        let index := Registry.getIndex wordIndex bitIndex' in
        if maximumIndex r <=? index
        then Ok (NOT_FOUND, maximumIndex r)
        else Ok (index, index + 1)
      else nextSet_loop r n' (wordIndex + 1) 0
  end.

Definition nextSet (r : Registry) (_index : Z) : Res (Z * Z) :=
  let bitIndex := Registry.getBitIndex _index in
  let wordIndex := Registry.getWordIndex _index in
  nextSet_loop r (Z.to_nat (maximumWordIndex r - wordIndex)) wordIndex bitIndex.

End RegistryIsSetIterator.

(* ===================================================================== *)
(** ** Space and Arena                                                     *)
(* ===================================================================== *)

(** [class Space]: the range [[_base, _limit)]. *)
Record Space : Type := mkSpace {
  base : Z;
  limit : Z
}.

Module Space.

Definition empty : Space := mkSpace 0 0.

(** [Space(void *base, uint64_t size)]. *)
Definition create (base size : Z) : Space :=
  mkSpace base (wrap64 (base + size)).

Definition size (s : Space) : Z := wrap64 (limit s - base s).

(** [Space::in]. *)
Definition in_ (s : Space) (address : Z) : bool :=
  (base s <=? address) && (address <? limit s).

End Space.

(** [class Arena]: a [Space] and the next allocation address. *)
Record Arena : Type := mkArena {
  arena_space : Space;
  next : Z
}.

Module Arena.

(** [Arena()], the sizing arena. *)
Definition sizing : Arena := mkArena (Space.create 0 ALL_ONES) 0.

(** [Arena(void *base, uint64_t size)]. *)
Definition create (base size : Z) : Arena :=
  mkArena (Space.create base size) base.

(** [Arena::allocate]: the address, [nullptr] when out of space, and the
    arena after the call. *)
Definition allocate (a : Arena) (size : Z) : Z * Arena :=
  let address := next a in
  let alignedSize := roundUp size BYTES_PER_WORD in
  let next' := wrap64 (next a + alignedSize) in
  if limit (arena_space a) <? next' then (0, a)
  else (address, mkArena (arena_space a) next').

Definition allocated (a : Arena) : Z :=
  wrap64 (next a - base (arena_space a)).

End Arena.

(* ===================================================================== *)
(** ** System: the calls to the operating system                           *)
(* ===================================================================== *)

Inductive SysCall : Type :=
| SysReserve (size location result : Z)
| SysRelease (address size : Z)
| SysCommit (address size : Z)
| SysClear (address size : Z) (sharing : bool)
| SysCopy (src dst size : Z).

(** The environment of an allocator: the outcomes of the upcoming
    compare-exchanges, the values the upcoming [mmap] reservations return
    ([MAP_FAILED] once the list is used up) and the system calls made so
    far, latest first. *)
Record Env : Type := mkEnv {
  cas : list bool;
  os : list Z;
  trace : list SysCall
}.

Module System.

Definition call (c : SysCall) : M Env unit :=
  modify (fun e => mkEnv (cas e) (os e) (c :: trace e)).

Definition mmap : M Env Z :=
  fun e =>
    match os e with
    | [] => Ok (MAP_FAILED, e)
    | address :: rest => Ok (address, mkEnv (cas e) rest (trace e))
    end.

(** [System::reserve(size, location)] without a file descriptor. *)
Definition reserve (size location : Z) : M Env Z :=
  address <- mmap ;;
  call (SysReserve size location address) ;;;
  ret (if address =? MAP_FAILED then 0 else address).

Definition release (address size : Z) : M Env unit :=
  call (SysRelease address size).

Definition commit (address size : Z) : M Env unit :=
  call (SysCommit address size).

Definition clear (address size : Z) (sharing : bool) : M Env unit :=
  call (SysClear address size sharing).

Definition copy (src dst size : Z) : M Env unit :=
  call (SysCopy src dst size).

(** [System::reserveAligned]. [reserve] has already turned [MAP_FAILED]
    into [nullptr], so the test against [MAP_FAILED] is the one of the
    source. *)
Definition reserveAligned (size alignment : Z) : M Env Z :=
  let reserveSize := wrap64 (wrap64 (size + alignment) - PAGE_SIZE) in
  address <- reserve reserveSize 0 ;;
  if address =? MAP_FAILED then ret 0
  else
    let allocation := address in
    let base := roundUp address alignment in
    let prefixSize := wrap64 (base - allocation) in
    let postfixSize := wrap64 (wrap64 (reserveSize - size) - prefixSize) in
    (if negb (prefixSize =? 0) then release allocation prefixSize
     else ret tt) ;;;
    (if negb (postfixSize =? 0)
     then release (wrap64 (base + size)) postfixSize
     else ret tt) ;;;
    ret base.

End System.

(* ===================================================================== *)
(** ** The allocators and the Director that owns them                      *)
(* ===================================================================== *)

Definition NullAllocatorID : Z := 0.
Definition PartitionID : Z := 1.
Definition QuantumAllocatorID : Z := 2.
Definition SlabAllocatorID : Z := 3.

(** An [Allocator *]: [nullptr], the Director's [_nullAllocator], the
    quantum allocator [_quantumAllocators[i]], the partition
    [_partitions + partitionIndex] of a quantum allocator, or the slab
    allocator. *)
Inductive AllocatorRef : Type :=
| NullRef
| NullAllocatorRef
| QuantumAllocatorRef (allocator : Z)
| PartitionRef (allocator partitionIndex : Z)
| SlabAllocatorRef.

(** [class Allocator : public Space]. *)
Record Allocator : Type := mkAllocator {
  space : Space;
  ID : Z;
  smallestSizeOrder : Z;
  largestSizeOrder : Z
}.

(** [class Partition : public Allocator]. *)
Record Partition : Type := mkPartition {
  p_allocator : Allocator;
  p_sharing : bool;
  p_quantumAllocator : AllocatorRef;
  p_quantumSizeOrder : Z;
  p_registry : Registry;
  p_sideDataSize : Z;
  p_sidedata : Z
}.

(** [class QuantumAllocator : public Allocator]; its [_roster] is the
    roster of the Director. *)
Record QuantumAllocator : Type := mkQuantumAllocator {
  q_allocator : Allocator;
  q_sharing : bool;
  q_partitionSizeOrder : Z;
  q_partitionCount : Z;
  q_partitionSize : Z;
  q_smallestSizeOrder : Z;
  q_largestSizeOrder : Z;
  q_smallestSize : Z;
  q_largestSize : Z;
  q_partitions : list Partition;
  q_partitionRegistry : Registry;
  q_orderRegistry : list Registry;
  q_sideDataSize : Z;
  q_sideData : Z
}.

(** [class SlabAllocator : public Allocator]; a [Slab] is a [Space] (its
    field [_sideData] is never written nor read). *)
Record SlabAllocator : Type := mkSlabAllocator {
  s_allocator : Allocator;
  s_secure : bool;
  s_maxCount : Z;
  s_slabs : list Space;
  s_sideDataSize : Z;
  s_sideData : Z;
  s_registry : Registry
}.

(** [class Director : public Space]; [_linkName] only names the shared
    memory object and is left out. *)
Record Director : Type := mkDirector {
  d_space : Space;
  d_sharing : bool;
  d_secure : bool;
  d_roster : list AllocatorRef;
  d_quantumAllocators : list QuantumAllocator;
  d_slabAllocator : SlabAllocator;
  d_nullAllocator : Allocator;
  d_reference : Z
}.

(** A Director in its environment. *)
Record World : Type := mkWorld {
  director : Director;
  env : Env
}.

(** The sizes the compiler gives to the administrative classes. *)
Record Sizeof : Type := mkSizeof {
  sizeof_AllocatorRoster : Z;
  sizeof_pointer : Z;
  sizeof_Partition : Z;
  sizeof_QuantumAllocator : Z;
  sizeof_Slab : Z;
  sizeof_SlabAllocator : Z;
  sizeof_Director : Z
}.

(** *** Arrays *)

Definition lookupZ {A : Type} (l : list A) (i : Z) : Res A :=
  if 0 <=? i
  then match l !! Z.to_nat i with
       | Some a => Ok a
       | None => Err (IndexOutOfRange i)
       end
  else Err (IndexOutOfRange i).

Definition insertZ {A : Type} (l : list A) (i : Z) (a : A) : Res (list A) :=
  if (0 <=? i) && (i <? Z.of_nat (length l))
  then Ok (<[Z.to_nat i := a]> l)
  else Err (IndexOutOfRange i).

(** *** Access to the objects of a Director *)

Definition sys {A : Type} (m : M Env A) : M World A :=
  fun w => match m (env w) with
           | Ok (a, e) => Ok (a, mkWorld (director w) e)
           | Err f => Err f
           end.

Definition readDirector {A : Type} (f : Director -> Res A) : M World A :=
  fun w => match f (director w) with
           | Ok a => Ok (a, w)
           | Err e => Err e
           end.

Definition writeDirector (f : Director -> Res Director) : M World unit :=
  fun w => match f (director w) with
           | Ok d => Ok (tt, mkWorld d (env w))
           | Err e => Err e
           end.

Definition getQuantumAllocator (d : Director) (a : Z) : Res QuantumAllocator :=
  lookupZ (d_quantumAllocators d) a.

Definition setQuantumAllocator (a : Z) (q : QuantumAllocator) (d : Director)
  : Res Director :=
  qs <~ insertZ (d_quantumAllocators d) a q ;;
  Ok (mkDirector (d_space d) (d_sharing d) (d_secure d) (d_roster d) qs
        (d_slabAllocator d) (d_nullAllocator d) (d_reference d)).

Definition setSlabAllocator (s : SlabAllocator) (d : Director) : Director :=
  mkDirector (d_space d) (d_sharing d) (d_secure d) (d_roster d)
    (d_quantumAllocators d) s (d_nullAllocator d) (d_reference d).

Definition setRoster (r : list AllocatorRef) (d : Director) : Director :=
  mkDirector (d_space d) (d_sharing d) (d_secure d) r
    (d_quantumAllocators d) (d_slabAllocator d) (d_nullAllocator d)
    (d_reference d).

Definition setPartitions (ps : list Partition) (q : QuantumAllocator)
  : QuantumAllocator :=
  mkQuantumAllocator (q_allocator q) (q_sharing q) (q_partitionSizeOrder q)
    (q_partitionCount q) (q_partitionSize q) (q_smallestSizeOrder q)
    (q_largestSizeOrder q) (q_smallestSize q) (q_largestSize q) ps
    (q_partitionRegistry q) (q_orderRegistry q) (q_sideDataSize q)
    (q_sideData q).

Definition setPartitionRegistry (r : Registry) (q : QuantumAllocator)
  : QuantumAllocator :=
  mkQuantumAllocator (q_allocator q) (q_sharing q) (q_partitionSizeOrder q)
    (q_partitionCount q) (q_partitionSize q) (q_smallestSizeOrder q)
    (q_largestSizeOrder q) (q_smallestSize q) (q_largestSize q)
    (q_partitions q) r (q_orderRegistry q) (q_sideDataSize q) (q_sideData q).

Definition setOrderRegistry (rs : list Registry) (q : QuantumAllocator)
  : QuantumAllocator :=
  mkQuantumAllocator (q_allocator q) (q_sharing q) (q_partitionSizeOrder q)
    (q_partitionCount q) (q_partitionSize q) (q_smallestSizeOrder q)
    (q_largestSizeOrder q) (q_smallestSize q) (q_largestSize q)
    (q_partitions q) (q_partitionRegistry q) rs (q_sideDataSize q)
    (q_sideData q).

Definition setRegistry (r : Registry) (p : Partition) : Partition :=
  mkPartition (p_allocator p) (p_sharing p) (p_quantumAllocator p)
    (p_quantumSizeOrder p) r (p_sideDataSize p) (p_sidedata p).

Definition getPartitionAt (d : Director) (a partitionIndex : Z)
  : Res Partition :=
  q <~ getQuantumAllocator d a ;;
  lookupZ (q_partitions q) partitionIndex.

Definition setPartitionAt (a partitionIndex : Z) (p : Partition) (d : Director)
  : Res Director :=
  q <~ getQuantumAllocator d a ;;
  ps <~ insertZ (q_partitions q) partitionIndex p ;;
  setQuantumAllocator a (setPartitions ps q) d.

(** A [Registry *]: the quantum registry of a partition, the partition
    registry or one of the order registries of a quantum allocator, or the
    registry of the slab allocator. *)
Inductive RegistryRef : Type :=
| QuantumRegistry (allocator partitionIndex : Z)
| PartitionRegistry (allocator : Z)
| OrderRegistry (allocator orderIndex : Z)
| SlabRegistry.

Definition getRegistry (d : Director) (r : RegistryRef) : Res Registry :=
  match r with
  | QuantumRegistry a i =>
      p <~ getPartitionAt d a i ;; Ok (p_registry p)
  | PartitionRegistry a =>
      q <~ getQuantumAllocator d a ;; Ok (q_partitionRegistry q)
  | OrderRegistry a k =>
      q <~ getQuantumAllocator d a ;; lookupZ (q_orderRegistry q) k
  | SlabRegistry => Ok (s_registry (d_slabAllocator d))
  end.

Definition setRegistryAt (r : RegistryRef) (g : Registry) (d : Director)
  : Res Director :=
  match r with
  | QuantumRegistry a i =>
      p <~ getPartitionAt d a i ;;
      setPartitionAt a i (setRegistry g p) d
  | PartitionRegistry a =>
      q <~ getQuantumAllocator d a ;;
      setQuantumAllocator a (setPartitionRegistry g q) d
  | OrderRegistry a k =>
      q <~ getQuantumAllocator d a ;;
      rs <~ insertZ (q_orderRegistry q) k g ;;
      setQuantumAllocator a (setOrderRegistry rs q) d
  | SlabRegistry =>
      let s := d_slabAllocator d in
      Ok (setSlabAllocator
            (mkSlabAllocator (s_allocator s) (s_secure s) (s_maxCount s)
               (s_slabs s) (s_sideDataSize s) (s_sideData s) g) d)
  end.

(** Reading a registry of the Director. *)
Definition readRegistry {A : Type} (r : RegistryRef) (f : Registry -> Res A)
  : M World A :=
  readDirector (fun d => g <~ getRegistry d r ;; f g).

(** Running an atomic update on a registry of the Director. *)
Definition onRegistry {A : Type} (r : RegistryRef) (m : Registry.R A)
  : M World A :=
  fun w =>
    match getRegistry (director w) r with
    | Err f => Err f
    | Ok g =>
        match m (mkRegState g (cas (env w))) with
        | Err f => Err f
        | Ok (a, st) =>
            match setRegistryAt r (reg st) (director w) with
            | Err f => Err f
            | Ok d =>
                Ok (a, mkWorld d
                         (mkEnv (sched st) (os (env w)) (trace (env w))))
            end
        end
    end.

(** [class AllocatorRoster]: 64 allocators indexed by size order. *)
Module AllocatorRoster.

Definition getAllocator (d : Director) (order : Z) : Res AllocatorRef :=
  lookupZ (d_roster d) order.

Definition setAllocator (allocator : AllocatorRef) (order : Z) : M World unit :=
  writeDirector (fun d =>
    r <~ insertZ (d_roster d) order allocator ;; Ok (setRoster r d)).

Fixpoint setAllocators_loop (n : nat) (allocator : AllocatorRef) (i : Z)
  (roster : list AllocatorRef) : Res (list AllocatorRef) :=
  match n with
  | O => Ok roster
  | S n' =>
      roster' <~ insertZ roster i allocator ;;
      setAllocators_loop n' allocator (i + 1) roster'
  end.

Definition setAllocators (allocator : AllocatorRef) (loOrder hiOrder : Z)
  (roster : list AllocatorRef) : Res (list AllocatorRef) :=
  setAllocators_loop (Z.to_nat (hiOrder - loOrder)) allocator loOrder roster.

End AllocatorRoster.

(** The [Allocator] sub-object behind an [Allocator *]. *)
Definition allocatorAt (d : Director) (r : AllocatorRef) : Res Allocator :=
  match r with
  | NullRef => Err NullPointer
  | NullAllocatorRef => Ok (d_nullAllocator d)
  | QuantumAllocatorRef a =>
      q <~ getQuantumAllocator d a ;; Ok (q_allocator q)
  | PartitionRef a i =>
      p <~ getPartitionAt d a i ;; Ok (p_allocator p)
  | SlabAllocatorRef => Ok (s_allocator (d_slabAllocator d))
  end.

Definition isPartition (h : Allocator) : bool := ID h =? PartitionID.
Definition isQuantumAllocator (h : Allocator) : bool :=
  ID h =? QuantumAllocatorID.
Definition isSlabAllocator (h : Allocator) : bool := ID h =? SlabAllocatorID.

Definition asPartition (r : AllocatorRef) : Res (Z * Z) :=
  match r with PartitionRef a i => Ok (a, i) | _ => Err BadCast end.

Definition asQuantumAllocator (r : AllocatorRef) : Res Z :=
  match r with QuantumAllocatorRef a => Ok a | _ => Err BadCast end.

(** [uint64_t] arrays written through a pointer: [array[i] += value] and
    [array[i] = value]. *)
Definition addAt (array : list Z) (i value : Z) : Res (list Z) :=
  old <~ lookupZ array i ;;
  insertZ array i (wrap64 (old + value)).

(* ===================================================================== *)
(** ** Partition                                                           *)
(* ===================================================================== *)

(** [class AllocateBulkIterator] on the registry it scans; the iterator
    carries the address buffer and the number of addresses accumulated. *)
Module AllocateBulkIterator.

Record t : Type := mk {
  _base : Z;
  _order : Z;
  _count : Z;
  _addresses : list Z;
  _allocated : Z
}.

Definition foundFree (it : t) (index : Z) : Res (bool * t) :=
  if _allocated it <? _count it then
    offset <~ orderMul (wrap64 index) (_order it) ;;
    addresses <~ insertZ (_addresses it) (_allocated it)
                   (wrap64 (_base it + offset)) ;;
    Ok (true, mk (_base it) (_order it) (_count it) addresses
                (_allocated it + 1))
  else Ok (false, it).

(** [while (value != ALL_ONES && !conditionallySetMask(wordIndex, value,
    ALL_ONES))]: the snapshot of the word once it is claimed. *)
Fixpoint claim_loop (rounds : nat) (wordIndex value : Z) : Registry.R Z :=
  match rounds with
  | O => fault OutOfFuel
  | S rounds' =>
      if value =? ALL_ONES then ret value
      else
        r <- Registry.conditionallySetMask3 wordIndex value ALL_ONES ;;
        if fst r then ret (snd r)
        else claim_loop rounds' wordIndex (snd r)
  end.

(** [while (value != ALL_ONES)] over the free bits of the snapshot;
    [true] when [iterate] returns from inside the loop. *)
Fixpoint visit_loop (rounds : nat) (wordIndex value : Z) (it : t)
  : Registry.R (bool * Z * t) :=
  match rounds with
  | O => fault OutOfFuel
  | S rounds' =>
      if value =? ALL_ONES then ret (false, value, it)
      else
        let lowestBit := lowestZeroBit value in
        let bitIndex := BITS_PER_WORD - 1 - clz lowestBit in
        let index := Registry.getIndex wordIndex bitIndex in
        maximumIndex <- Registry.load (fun r => Ok (maximumIndex r)) ;;
        if maximumIndex <=? index then ret (false, value, it)
        else
          r <- lift (foundFree it index) ;;
          if negb (fst r) then
            (if negb (value =? ALL_ONES)
             then Registry.clearMask wordIndex (not64 value)
             else ret true) ;;;
            ret (true, value, snd r)
          else visit_loop rounds' wordIndex (Z.lor value lowestBit) (snd r)
  end.

Fixpoint iterate_loop (n : nat) (wordIndex : Z) (it : t) : Registry.R t :=
  match n with
  | O => ret it
  | S n' =>
      word <- Registry.load (fun r => Registry.getBits r wordIndex) ;;
      bound <- gets Registry.retryBound ;;
      value <- claim_loop bound wordIndex word ;;
      r <- visit_loop 65 wordIndex value it ;;
      let '(returned, value', it') := r in
      if returned then ret it'
      else
        (if negb (value' =? ALL_ONES)
         then Registry.clearMask wordIndex (not64 value')
         else ret true) ;;;
        iterate_loop n' (wordIndex + 1) it'
  end.

Definition iterate (it : t) : Registry.R t :=
  wordIndex <- Registry.getLowestIndex ;;
  maximumWordIndex <- Registry.load (fun r => Ok (maximumWordIndex r)) ;;
  iterate_loop (Z.to_nat (maximumWordIndex - wordIndex)) wordIndex it.

End AllocateBulkIterator.

(** The methods of a partition take [this] as the index [a] of its quantum
    allocator and its index [i] among the partitions of that allocator. *)
Module Partition.

(** The partition found in zero-filled memory, before any constructor. *)
Definition zero : Partition :=
  mkPartition (mkAllocator Space.empty 0 0 0) false NullRef 0
    Registry.empty 0 0.

(** [Partition(sharing, quantumAllocator, base, partitionSize, quantumSize,
    sideDataSize, sideData)]. *)
Definition create (sharing : bool) (quantumAllocator : AllocatorRef)
  (base partitionSize quantumSize sideDataSize sideData : Z) : Res Partition :=
  let order := sizeToOrder quantumSize in
  quanta <~ orderDiv partitionSize order ;;
  registry <~ Registry.create quanta ;;
  Ok (mkPartition
        (mkAllocator (Space.create base partitionSize) PartitionID order order)
        sharing quantumAllocator order registry sideDataSize sideData).

Definition quantumIndex (p : Partition) (address : Z) : Res Z :=
  orderDiv (wrap64 (address - base (space (p_allocator p))))
    (p_quantumSizeOrder p).

Definition quantumSize (p : Partition) : Res Z :=
  orderToSize (p_quantumSizeOrder p).

Definition isEmpty (p : Partition) : Res bool :=
  Registry.isEmpty (p_registry p).

Definition this (a i : Z) : M World Partition :=
  readDirector (fun d => getPartitionAt d a i).

Definition allocate (a i : Z) (size : Z) : M World Z :=
  index <- onRegistry (QuantumRegistry a i) Registry.findFree ;;
  if index =? NOT_FOUND then ret 0
  else
    p <- this a i ;;
    offset <- lift (orderMul (wrap64 index) (p_quantumSizeOrder p)) ;;
    ret (wrap64 (base (space (p_allocator p)) + offset)).

Definition deallocate (a i : Z) (address : Z) : M World unit :=
  p <- this a i ;;
  index <- lift (quantumIndex p address) ;;
  onRegistry (QuantumRegistry a i) (Registry.free index).

(** [allocateBulk(count, addresses)]. *)
Definition allocateBulk (a i : Z) (count : Z) (addresses : list Z)
  : M World (Z * list Z) :=
  p <- this a i ;;
  it <- onRegistry (QuantumRegistry a i)
          (AllocateBulkIterator.iterate
             (AllocateBulkIterator.mk (base (space (p_allocator p)))
                (p_quantumSizeOrder p) count addresses 0)) ;;
  ret (AllocateBulkIterator._allocated it,
       AllocateBulkIterator._addresses it).

Fixpoint synthesize (n : nat) (p : Partition) (index i : Z)
  (addresses : list Z) : Res (list Z) :=
  match n with
  | O => Ok addresses
  | S n' =>
      offset <~ orderMul (wrap64 (index + i)) (p_quantumSizeOrder p) ;;
      addresses' <~ insertZ addresses i
                      (wrap64 (base (space (p_allocator p)) + offset)) ;;
      synthesize n' p index (i + 1) addresses'
  end.

Definition allocateBulkContiguous (a i : Z) (count : Z) (addresses : list Z)
  : M World (Z * list Z) :=
  index <- onRegistry (QuantumRegistry a i) (Registry.findFreeRange count) ;;
  if index =? NOT_FOUND then ret (0, addresses)
  else
    p <- this a i ;;
    addresses' <- lift (synthesize (Z.to_nat count) p index 0 addresses) ;;
    ret (count, addresses').

Definition allocationSize (p : Partition) (address : Z) : Res Z :=
  quantumSize p.

Definition allocationBase (p : Partition) (address : Z) : Res Z :=
  size <~ quantumSize p ;;
  Ok (Z.land address (not64 (MASK size))).

Definition allocationSideData (p : Partition) (address : Z) : Res Z :=
  index <~ quantumIndex p address ;;
  offset <~ mulInt index (p_sideDataSize p) ;;
  Ok (wrap64 (p_sidedata p + offset)).

Definition clear (a i : Z) (address : Z) : M World unit :=
  p <- this a i ;;
  block <- lift (allocationBase p address) ;;
  size <- lift (quantumSize p) ;;
  sys (System.clear block size (p_sharing p)).

Definition stats (p : Partition) (counts sizes : list Z)
  : Res (list Z * list Z) :=
  count <~ Registry.count (p_registry p) ;;
  counts' <~ addAt counts (p_quantumSizeOrder p) count ;;
  bytes <~ orderMul (wrap64 count) (p_quantumSizeOrder p) ;;
  sizes' <~ addAt sizes (p_quantumSizeOrder p) bytes ;;
  Ok (counts', sizes').

End Partition.

(* ===================================================================== *)
(** ** QuantumAllocator                                                    *)
(* ===================================================================== *)

(** The methods take [this] as the index [a] of the allocator in
    [_quantumAllocators]. A [Partition *] is the index of the partition in
    [_partitions]; [None] is [nullptr]. *)
Module QuantumAllocator.

(** [QuantumAllocator(sharing, roster, smallestSizeOrder, largestSizeOrder,
    partitionSizeOrder, partitionCount, base, partitions, sideDataSize,
    sideData)] over zero-filled partitions. *)
Definition create (sharing : bool) (smallestSizeOrder largestSizeOrder
  partitionSizeOrder partitionCount base sideDataSize sideData : Z)
  : Res QuantumAllocator :=
  partitionSize <~ orderToSize partitionSizeOrder ;;
  smallestSize <~ orderToSize smallestSizeOrder ;;
  largestSize <~ orderToSize largestSizeOrder ;;
  partitionRegistry <~ Registry.create partitionCount ;;
  orderRegistry <~ Registry.create partitionCount ;;
  Ok (mkQuantumAllocator
        (mkAllocator
           (Space.create base (wrap64 (partitionSize * wrap64 partitionCount)))
           QuantumAllocatorID smallestSizeOrder largestSizeOrder)
        sharing partitionSizeOrder partitionCount partitionSize
        smallestSizeOrder largestSizeOrder smallestSize largestSize
        (replicate (Z.to_nat partitionCount) Partition.zero)
        partitionRegistry
        (replicate (Z.to_nat MAX_QUANTUM_ALLOCATOR_ORDERS) orderRegistry)
        sideDataSize sideData).

Definition this (a : Z) : M World QuantumAllocator :=
  readDirector (fun d => getQuantumAllocator d a).

Definition getOrderIndex (q : QuantumAllocator) (size : Z) : Z :=
  sizeToOrder size - smallestSizeOrder (q_allocator q).

Definition getPartitionIndex (q : QuantumAllocator) (address : Z) : Res Z :=
  orderDiv (wrap64 (address - base (space (q_allocator q))))
    (q_partitionSizeOrder q).

Definition partitionBase (q : QuantumAllocator) (partitionIndex : Z) : Res Z :=
  offset <~ orderMul (wrap64 partitionIndex) (q_partitionSizeOrder q) ;;
  Ok (wrap64 (base (space (q_allocator q)) + offset)).

Definition newPartition (a partitionIndex size : Z) : M World Z :=
  q <- this a ;;
  address <- lift (partitionBase q partitionIndex) ;;
  ofPartition <- lift (mulInt (q_sideDataSize q) partitionIndex) ;;
  offset <- lift (mulInt ofPartition MAX_PARTITION_QUANTUM) ;;
  p <- lift (Partition.create (q_sharing q) (QuantumAllocatorRef a) address
               (q_partitionSize q) size (q_sideDataSize q)
               (wrap64 (q_sideData q + offset))) ;;
  writeDirector (setPartitionAt a partitionIndex p) ;;;
  ret partitionIndex.

Definition onlinePartition (a partitionIndex orderIndex : Z) : M World unit :=
  onRegistry (OrderRegistry a orderIndex) (Registry.set partitionIndex) ;;;
  ret tt.

Definition offlinePartition (a partitionIndex orderIndex : Z) : M World bool :=
  q <- this a ;;
  cleared <- onRegistry (OrderRegistry a orderIndex)
               (Registry.clear partitionIndex) ;;
  AllocatorRoster.setAllocator (QuantumAllocatorRef a)
    (smallestSizeOrder (q_allocator q) + orderIndex) ;;;
  ret cleared.

Definition addToOrder (a orderIndex partition partitionIndex : Z)
  : M World unit :=
  q <- this a ;;
  onlinePartition a partitionIndex orderIndex ;;;
  AllocatorRoster.setAllocator (PartitionRef a partition)
    (smallestSizeOrder (q_allocator q) + orderIndex).

Definition allocatePartition (a : Z) : M World Z :=
  q <- this a ;;
  partitionIndex <- onRegistry (PartitionRegistry a) Registry.findFree ;;
  (if negb (partitionIndex =? NOT_FOUND) && negb (q_sharing q)
   then address <- lift (partitionBase q partitionIndex) ;;
        sys (System.commit address (q_partitionSize q))
   else ret tt) ;;;
  ret partitionIndex.

Definition freePartition (a partitionIndex : Z) : M World unit :=
  onRegistry (PartitionRegistry a) (Registry.clear partitionIndex) ;;;
  ret tt.

Definition newOrderPartition (a orderIndex : Z) : M World (option Z) :=
  q <- this a ;;
  partitionIndex <- allocatePartition a ;;
  if partitionIndex =? NOT_FOUND then ret None
  else
    size <- lift (orderToSize (orderIndex + smallestSizeOrder (q_allocator q))) ;;
    partition <- newPartition a partitionIndex size ;;
    addToOrder a orderIndex partition partitionIndex ;;;
    ret (Some partition).

(** [for (partitionIndex = _partitionCount - 1; 0 <= partitionIndex;
    partitionIndex--)]; [n] is [partitionIndex + 1]. *)
Fixpoint freeUpPartition_loop (n : nat) (a orderIndex : Z)
  : M World (option Z) :=
  match n with
  | O => ret None
  | S n' =>
      let partitionIndex := Z.of_nat n' in
      p <- Partition.this a partitionIndex ;;
      empty <- lift (Partition.isEmpty p) ;;
      if negb empty then freeUpPartition_loop n' a orderIndex
      else
        offline <- offlinePartition a partitionIndex orderIndex ;;
        stillEmpty <-
          (if negb offline then ret false
           else p' <- Partition.this a partitionIndex ;;
                lift (Partition.isEmpty p')) ;;
        if negb offline || negb stillEmpty then
          onlinePartition a partitionIndex orderIndex ;;;
          freeUpPartition_loop n' a orderIndex
        else
          q <- this a ;;
          size <- lift (orderToSize
                          (orderIndex + smallestSizeOrder (q_allocator q))) ;;
          partition <- newPartition a partitionIndex size ;;
          addToOrder a orderIndex partition partitionIndex ;;;
          ret (Some partition)
  end.

Definition freeUpPartition (a orderIndex : Z) : M World (option Z) :=
  q <- this a ;;
  freeUpPartition_loop (Z.to_nat (q_partitionCount q)) a orderIndex.

Definition getFreePartition (a orderIndex : Z) : M World (option Z) :=
  partition <- newOrderPartition a orderIndex ;;
  match partition with
  | Some i => ret (Some i)
  | None => freeUpPartition a orderIndex
  end.

(** [class PartitionIterator]; [_index] is the field of its
    [RegistryIsSetIterator]. *)
Module PartitionIterator.

Record t : Type := mk {
  _orderIndex : Z;
  _index : Z;
  _allocateNew : bool;
  _continuous : bool
}.

Definition create (q : QuantumAllocator) (size : Z)
  (allocateNew continuous : bool) : t :=
  mk (getOrderIndex q size) 0 allocateNew continuous.

Definition next (a : Z) (it : t) : M World (option Z * t) :=
  r <- readRegistry (OrderRegistry a (_orderIndex it))
         (fun g => RegistryIsSetIterator.nextSet g (_index it)) ;;
  let partitionIndex := fst r in
  let it' := mk (_orderIndex it) (snd r) (_allocateNew it) (_continuous it) in
  if negb (partitionIndex =? NOT_FOUND) then ret (Some partitionIndex, it')
  else if _allocateNew it' then
    let it'' := mk (_orderIndex it') (_index it')
                  (if negb (_continuous it') then false else _allocateNew it')
                  (_continuous it') in
    partition <- getFreePartition a (_orderIndex it'') ;;
    ret (partition, it'')
  else ret (None, it').

End PartitionIterator.

(** A bound on the rounds of the loops over a [PartitionIterator]: the
    partitions on line, then one partition brought on line by
    [getFreePartition], in which the allocation succeeds. *)
Definition rounds (q : QuantumAllocator) : nat :=
  S (S (Z.to_nat (q_partitionCount q))).

Fixpoint allocate_loop (rounds : nat) (a size : Z) (it : PartitionIterator.t)
  : M World Z :=
  match rounds with
  | O => fault OutOfFuel
  | S rounds' =>
      r <- PartitionIterator.next a it ;;
      match fst r with
      | None => ret 0
      | Some partition =>
          address <- Partition.allocate a partition size ;;
          if negb (address =? 0) then ret address
          else allocate_loop rounds' a size (snd r)
      end
  end.

Definition allocate (a size : Z) : M World Z :=
  q <- this a ;;
  allocate_loop (rounds q) a size (PartitionIterator.create q size true true).

Definition deallocate (a address : Z) : M World unit :=
  q <- this a ;;
  partitionIndex <- lift (getPartitionIndex q address) ;;
  Partition.deallocate a partitionIndex address.

Fixpoint allocateBulkContiguous_loop (rounds : nat) (a count : Z)
  (it : PartitionIterator.t) (allocated : Z) (addresses : list Z)
  : M World (Z * list Z) :=
  match rounds with
  | O => fault OutOfFuel
  | S rounds' =>
      if negb (allocated <? count) then ret (allocated, addresses)
      else
        r <- PartitionIterator.next a it ;;
        match fst r with
        | None => ret (allocated, addresses)
        | Some partition =>
            b <- Partition.allocateBulkContiguous a partition count addresses ;;
            allocateBulkContiguous_loop rounds' a count (snd r)
              (allocated + fst b) (snd b)
        end
  end.

(** [addresses + allocated] is the buffer from position [allocated] on. *)
Fixpoint allocateBulk_loop (rounds : nat) (a count : Z)
  (it : PartitionIterator.t) (allocated : Z) (addresses : list Z)
  : M World (Z * list Z) :=
  match rounds with
  | O => fault OutOfFuel
  | S rounds' =>
      if negb (allocated <? count) then ret (allocated, addresses)
      else
        r <- PartitionIterator.next a it ;;
        match fst r with
        | None => ret (allocated, addresses)
        | Some partition =>
            b <- Partition.allocateBulk a partition (count - allocated)
                   (drop (Z.to_nat allocated) addresses) ;;
            allocateBulk_loop rounds' a count (snd r) (allocated + fst b)
              (take (Z.to_nat allocated) addresses ++ snd b)
        end
  end.

Definition allocateBulk (a size count : Z) (addresses : list Z)
  (contiguous : bool) : M World (Z * list Z) :=
  q <- this a ;;
  let it := PartitionIterator.create q size true false in
  if contiguous then
    quanta <- lift (orderDiv (q_partitionSize q) (sizeToOrder size)) ;;
    if count <=? quanta
    then allocateBulkContiguous_loop (rounds q) a count it 0 addresses
    else ret (0, addresses)
  else allocateBulk_loop (rounds q) a count it 0 addresses.

Definition clear (a address : Z) : M World unit :=
  q <- this a ;;
  partitionIndex <- lift (getPartitionIndex q address) ;;
  Partition.clear a partitionIndex address.

Definition allocationSize (q : QuantumAllocator) (address : Z) : Res Z :=
  partitionIndex <~ getPartitionIndex q address ;;
  p <~ lookupZ (q_partitions q) partitionIndex ;;
  Partition.allocationSize p address.

Definition allocationBase (q : QuantumAllocator) (address : Z) : Res Z :=
  partitionIndex <~ getPartitionIndex q address ;;
  p <~ lookupZ (q_partitions q) partitionIndex ;;
  Partition.allocationBase p address.

Definition allocationSideData (q : QuantumAllocator) (address : Z) : Res Z :=
  partitionIndex <~ getPartitionIndex q address ;;
  p <~ lookupZ (q_partitions q) partitionIndex ;;
  Partition.allocationSideData p address.

Fixpoint stats_loop (n : nat) (q : QuantumAllocator) (i : Z)
  (counts sizes : list Z) : Res (list Z * list Z) :=
  match n with
  | O => Ok (counts, sizes)
  | S n' =>
      online <~ Registry.isSet (q_partitionRegistry q) i ;;
      r <~ (if online
            then p <~ lookupZ (q_partitions q) i ;;
                 Partition.stats p counts sizes
            else Ok (counts, sizes)) ;;
      stats_loop n' q (i + 1) (fst r) (snd r)
  end.

Definition stats (abi : Sizeof) (q : QuantumAllocator) (counts sizes : list Z)
  : Res (list Z * list Z) :=
  sizes' <~ addAt sizes 1
              (wrap64 (sizeof_QuantumAllocator abi +
                       wrap64 (q_partitionCount q) * sizeof_Partition abi)) ;;
  stats_loop (Z.to_nat (q_partitionCount q)) q 0 counts sizes'.

End QuantumAllocator.

(* ===================================================================== *)
(** ** SlabAllocator                                                       *)
(* ===================================================================== *)

Module SlabAllocator.

Definition SLAB_ALIGNMENT : Z := 2 ^ LARGEST_SIZE_ORDER.

(** [SlabAllocator(secure, maxCount, slabs, sideDataSize, sideData)] over
    zero-filled slabs. *)
Definition create (secure : bool) (maxCount sideDataSize sideData : Z)
  : Res SlabAllocator :=
  registry <~ Registry.create maxCount ;;
  Ok (mkSlabAllocator
        (mkAllocator (Space.create 0 ALL_ONES) SlabAllocatorID
           (LARGEST_SIZE_ORDER + 1) MAX_ALLOCATION_ORDER)
        secure maxCount (replicate (Z.to_nat maxCount) Space.empty)
        sideDataSize sideData registry).

Definition this : M World SlabAllocator :=
  readDirector (fun d => Ok (d_slabAllocator d)).

Definition setSlab (index : Z) (slab : Space) : M World unit :=
  writeDirector (fun d =>
    let s := d_slabAllocator d in
    slabs <~ insertZ (s_slabs s) index slab ;;
    Ok (setSlabAllocator
          (mkSlabAllocator (s_allocator s) (s_secure s) (s_maxCount s) slabs
             (s_sideDataSize s) (s_sideData s) (s_registry s)) d)).

Fixpoint find_loop (n : nat) (s : SlabAllocator) (i address : Z) : Res Z :=
  match n with
  | O => Ok NOT_FOUND
  | S n' =>
      slab <~ lookupZ (s_slabs s) i ;;
      found <~ (if Space.in_ slab address
                then Registry.isSet (s_registry s) i
                else Ok false) ;;
      if found then Ok i else find_loop n' s (i + 1) address
  end.

Definition find (s : SlabAllocator) (address : Z) : Res Z :=
  find_loop (Z.to_nat (s_maxCount s)) s 0 address.

Definition record (base size : Z) : M World Z :=
  index <- onRegistry SlabRegistry Registry.findFree ;;
  if index =? NOT_FOUND then ret NOT_FOUND
  else setSlab index (Space.create base size) ;;; ret index.

Definition erase (index : Z) : M World unit :=
  onRegistry SlabRegistry (Registry.free index).

Definition reserve (size : Z) : M World Z :=
  index <- onRegistry SlabRegistry Registry.findFree ;;
  if index =? NOT_FOUND then ret 0
  else
    s <- this ;;
    slab <- lift (lookupZ (s_slabs s) index) ;;
    let base := base slab in
    let slabSize := Space.size slab in
    (if size <? slabSize
     then sys (System.release (wrap64 (base + size)) (wrap64 (slabSize - size)))
     else ret tt) ;;;
    if size <=? slabSize then
      (if s_secure s then sys (System.commit base size) else ret tt) ;;;
      setSlab index (Space.create base size) ;;;
      ret base
    else
      (if negb (slabSize =? 0) then sys (System.release base slabSize)
       else ret tt) ;;;
      base' <- sys (System.reserveAligned size SLAB_ALIGNMENT) ;;
      if base' =? 0 then
        onRegistry SlabRegistry (Registry.free index) ;;;
        ret 0
      else
        sys (System.commit base' size) ;;;
        setSlab index (Space.create base' size) ;;;
        ret base'.

Definition allocate (size : Z) : M World Z :=
  reserve (roundUp size MB).

Definition deallocate (address : Z) : M World unit :=
  s <- this ;;
  index <- lift (find s address) ;;
  if index =? NOT_FOUND then ret tt
  else erase index.

Definition clear (address : Z) : M World unit :=
  s <- this ;;
  index <- lift (find s address) ;;
  if index =? NOT_FOUND then ret tt
  else
    slab <- lift (lookupZ (s_slabs s) index) ;;
    sys (System.clear (base slab) (Space.size slab) false).

Fixpoint allocateBulk_loop (n : nat) (base roundedSize count i : Z)
  (addresses : list Z) : M World (Z * list Z) :=
  match n with
  | O => ret (count, addresses)
  | S n' =>
      let address := wrap64 (base + wrap64 (wrap64 i * roundedSize)) in
      index <- record address roundedSize ;;
      if index =? NOT_FOUND then
        sys (System.release address (wrap64 (wrap64 (count - i) * roundedSize))) ;;;
        ret (i, addresses)
      else
        addresses' <- lift (insertZ addresses i address) ;;
        allocateBulk_loop n' base roundedSize count (i + 1) addresses'
  end.

Definition allocateBulk (size count : Z) (addresses : list Z)
  (contiguous : bool) : M World (Z * list Z) :=
  let roundedSize := roundUp size SLAB_ALIGNMENT in
  let total := wrap64 (roundedSize * wrap64 count) in
  base <- sys (System.reserveAligned total SLAB_ALIGNMENT) ;;
  sys (System.commit base total) ;;;
  if base =? 0 then ret (0, addresses)
  else allocateBulk_loop (Z.to_nat count) base roundedSize count 0 addresses.

Definition allocationSize (s : SlabAllocator) (address : Z) : Res Z :=
  index <~ find s address ;;
  if index =? NOT_FOUND then Ok ZERO
  else slab <~ lookupZ (s_slabs s) index ;; Ok (Space.size slab).

Definition allocationBase (s : SlabAllocator) (address : Z) : Res Z :=
  index <~ find s address ;;
  if index =? NOT_FOUND then Ok 0
  else slab <~ lookupZ (s_slabs s) index ;; Ok (base slab).

Definition allocationSideData (s : SlabAllocator) (address : Z) : Res Z :=
  index <~ find s address ;;
  if index =? NOT_FOUND then Ok 0
  else
    offset <~ mulInt index (s_sideDataSize s) ;;
    Ok (wrap64 (s_sideData s + offset)).

Fixpoint stats_loop (n : nat) (s : SlabAllocator) (i : Z)
  (counts sizes : list Z) : Res (list Z * list Z) :=
  match n with
  | O => Ok (counts, sizes)
  | S n' =>
      live <~ Registry.isSet (s_registry s) i ;;
      r <~ (if live
            then slab <~ lookupZ (s_slabs s) i ;;
                 let size := Space.size slab in
                 let order := sizeToOrder size in
                 counts' <~ addAt counts order 1 ;;
                 sizes' <~ addAt sizes order size ;;
                 Ok (counts', sizes')
            else Ok (counts, sizes)) ;;
      stats_loop n' s (i + 1) (fst r) (snd r)
  end.

Definition stats (abi : Sizeof) (s : SlabAllocator) (counts sizes : list Z)
  : Res (list Z * list Z) :=
  sizes' <~ addAt sizes 1
              (wrap64 (sizeof_SlabAllocator abi +
                       wrap64 (s_maxCount s) * sizeof_Slab abi)) ;;
  stats_loop (Z.to_nat (s_maxCount s)) s 0 counts sizes'.

End SlabAllocator.

(* ===================================================================== *)
(** ** FitSize                                                             *)
(* ===================================================================== *)

Definition MAX_FIT_DEGREE : Z := 4.

(** [class FitSize]: [_order], [_size] and [_count]. *)
Record FitSize : Type := mkFitSize {
  f_order : Z;
  f_size : Z;
  f_count : Z
}.

Module FitSize.

(** [FitSize(size, degree)]. Where the constructor clips [lowOrder] it
    also assigns [degree], which it does not read afterwards. *)
Definition create (size degree : Z) : Res FitSize :=
  let order := sizeToOrder size in
  wholeSize <~ orderToSize order ;;
  let lowOrder := order - degree in
  let lowOrder :=
    if lowOrder <? SMALLEST_SIZE_ORDER then SMALLEST_SIZE_ORDER
    else lowOrder in
  lowSize <~ orderToSize lowOrder ;;
  let roundedSize := wrap64 (wrap64 (size + lowSize) - 1) in
  scaledSize <~ shr64 roundedSize lowOrder ;;
  let zeroes := ctz scaledSize in
  count <~ orderDiv scaledSize zeroes ;;
  if 1 <? count
  then downSize <~ orderToSize (lowOrder + zeroes) ;;
       Ok (mkFitSize order downSize count)
  else Ok (mkFitSize order wholeSize 1).

End FitSize.

(* ===================================================================== *)
(** ** Director                                                            *)
(* ===================================================================== *)

Module Director.

(** The [NullAllocator()] sub-object. *)
Definition nullAllocator : Allocator :=
  mkAllocator (Space.create 0 ZERO) NullAllocatorID 0 0.

(** The loop of the constructor over [_quantumAllocators]. *)
Fixpoint construct_loop (n : nat) (quantumAllocators : list QuantumAllocator)
  (i : Z) (roster : list AllocatorRef) : Res (list AllocatorRef) :=
  match n with
  | O => Ok roster
  | S n' =>
      q <~ lookupZ quantumAllocators i ;;
      roster' <~ AllocatorRoster.setAllocators (QuantumAllocatorRef i)
                   (smallestSizeOrder (q_allocator q))
                   (largestSizeOrder (q_allocator q) + 1) roster ;;
      construct_loop n' quantumAllocators (i + 1) roster'
  end.

(** [Director(base, size, sharing, secure, roster, quantumAllocators,
    slabAllocator, linkName)]: the constructor fills out the roster. *)
Definition construct (base size : Z) (sharing secure : bool)
  (roster : list AllocatorRef) (quantumAllocators : list QuantumAllocator)
  (slabAllocator : SlabAllocator) : Res Director :=
  r1 <~ AllocatorRoster.setAllocators NullAllocatorRef 0 SMALLEST_SIZE_ORDER
          roster ;;
  r2 <~ AllocatorRoster.setAllocators (QuantumAllocatorRef 0) 1
          (SMALLEST_SIZE_ORDER + 1) r1 ;;
  r3 <~ construct_loop (Z.to_nat MAX_QUANTUM_ALLOCATORS) quantumAllocators 0
          r2 ;;
  r4 <~ AllocatorRoster.setAllocators SlabAllocatorRef
          (LARGEST_SIZE_ORDER + 1) MAX_ALLOCATION_ORDER r3 ;;
  r5 <~ AllocatorRoster.setAllocators NullAllocatorRef MAX_ALLOCATION_ORDER
          MAX_ORDER r4 ;;
  Ok (mkDirector (Space.create base size) sharing secure r5 quantumAllocators
        slabAllocator nullAllocator 0).

(** An administrative structure is constructed in place at the address the
    arena returned. *)
Definition placement {A : Type} (address : Z) (object : Res A) : Res A :=
  if address =? 0 then Err NullPointer else object.

(** The first loop of [createDirector], from the last quantum allocator to
    the first: the base addresses of the regions of the quantum
    allocators, first allocator first. *)
Fixpoint regions (n : nat) (arena : Arena) (partitionCounts : list Z)
  (smallestSizeOrder : Z) (bases : list Z) : Res (list Z * Arena) :=
  match n with
  | O => Ok (bases, arena)
  | S i =>
      partitionSize <~ orderMul MAX_PARTITION_QUANTUM smallestSizeOrder ;;
      let partitionSizeOrder := sizeToOrder partitionSize in
      count <~ lookupZ partitionCounts (Z.of_nat i) ;;
      size <~ orderMul (wrap64 count) partitionSizeOrder ;;
      let '(address, arena') := Arena.allocate arena size in
      regions i arena' partitionCounts
        (smallestSizeOrder - MAX_QUANTUM_ALLOCATOR_ORDERS) (address :: bases)
  end.

(** The second loop of [createDirector]: the quantum allocators, first
    allocator first; [table] is the address of [quantumAllocators]. *)
Fixpoint quantumAllocators (abi : Sizeof) (n : nat) (arena : Arena)
  (creating sharing : bool) (partitionCounts bases : list Z)
  (sideDataSize table i smallestSizeOrder largestSizeOrder : Z)
  : Res (list QuantumAllocator * Arena) :=
  match n with
  | O => Ok ([], arena)
  | S n' =>
      partitionSize <~ orderMul MAX_PARTITION_QUANTUM smallestSizeOrder ;;
      let partitionSizeOrder := sizeToOrder partitionSize in
      count <~ lookupZ partitionCounts i ;;
      base <~ lookupZ bases i ;;
      let '(sideData, arena1) :=
        Arena.allocate arena
          (wrap64 (wrap64 count * wrap64 sideDataSize * MAX_PARTITION_QUANTUM)) in
      let '(partitions, arena2) :=
        Arena.allocate arena1 (wrap64 (sizeof_Partition abi * wrap64 count)) in
      let '(allocator, arena3) :=
        Arena.allocate arena2 (sizeof_QuantumAllocator abi) in
      created <~ (if creating then
                    q <~ placement allocator
                           (placement partitions
                              (QuantumAllocator.create sharing
                                 smallestSizeOrder largestSizeOrder
                                 partitionSizeOrder count base sideDataSize
                                 sideData)) ;;
                    placement table (Ok [q])
                  else Ok []) ;;
      rest <~ quantumAllocators abi n' arena3 creating sharing partitionCounts
                bases sideDataSize table (i + 1)
                (smallestSizeOrder + MAX_QUANTUM_ALLOCATOR_ORDERS)
                (largestSizeOrder + MAX_QUANTUM_ALLOCATOR_ORDERS) ;;
      Ok (created ++ fst rest, snd rest)
  end.

(** [createDirector(arena, creating, sharing, secure, partitionCounts,
    maxSlabCount, sideDataSize, linkName)]: the arena after the call and,
    when [creating], the Director. *)
Definition createDirector (abi : Sizeof) (arena : Arena)
  (creating sharing secure : bool) (partitionCounts : list Z)
  (maxSlabCount sideDataSize : Z) : M Env (Arena * option Director) :=
  r <- lift (regions (Z.to_nat MAX_QUANTUM_ALLOCATORS) arena partitionCounts
               (LARGEST_SIZE_ORDER - MAX_QUANTUM_ALLOCATOR_ORDERS + 1) []) ;;
  let '(bases, arena0) := r in
  (if creating && negb sharing
   then System.commit (fst (Arena.allocate arena0 0))
          (wrap64 (Space.size (arena_space arena0) - Arena.allocated arena0))
   else ret tt) ;;;
  let '(roster, arena1) :=
    Arena.allocate arena0 (sizeof_AllocatorRoster abi) in
  lift (if creating then placement roster (Ok tt) else Ok tt) ;;;
  let '(table, arena2) :=
    Arena.allocate arena1
      (wrap64 (MAX_QUANTUM_ALLOCATORS * sizeof_pointer abi)) in
  qs <- lift (quantumAllocators abi (Z.to_nat MAX_QUANTUM_ALLOCATORS) arena2
                creating sharing partitionCounts bases sideDataSize table 0
                SMALLEST_SIZE_ORDER
                (SMALLEST_SIZE_ORDER + MAX_QUANTUM_ALLOCATOR_ORDERS - 1)) ;;
  let '(allocators, arena3) := qs in
  let '(slabs, arena4) :=
    Arena.allocate arena3 (wrap64 (wrap64 maxSlabCount * sizeof_Slab abi)) in
  let '(slabSideData, arena5) :=
    Arena.allocate arena4 (wrap64 (maxSlabCount * sideDataSize)) in
  let '(slabAllocator, arena6) :=
    Arena.allocate arena5 (sizeof_SlabAllocator abi) in
  let '(director, arena7) :=
    Arena.allocate arena6 (sizeof_Director abi) in
  if creating then
    d <- lift (
      s <~ placement slabAllocator (placement slabs
             (SlabAllocator.create secure maxSlabCount sideDataSize
                slabSideData)) ;;
      placement director
        (construct (base (arena_space arena7))
           (Space.size (arena_space arena7)) sharing secure
           (replicate (Z.to_nat MAX_ORDER) NullRef) allocators s)) ;;
    ret (arena7, Some d)
  else ret (arena7, None).

(** [Director::create] for a Director that is not shared ([linkName] is
    [nullptr]); [None] is the [nullptr] result. *)
Definition create (abi : Sizeof) (address : Z) (secure : bool)
  (smallPartitionCount mediumPartitionCount largePartitionCount
   maxSlabCount sideDataSize : Z) : M Env (option Director) :=
  let partitionCounts :=
    [smallPartitionCount; mediumPartitionCount; largePartitionCount] in
  let sharing := false in
  dry <- createDirector abi Arena.sizing false sharing secure partitionCounts
           maxSlabCount sideDataSize ;;
  let size := roundUp (Arena.allocated (fst dry)) PAGE_SIZE in
  base <- (if address =? ZERO
           then System.reserveAligned size (2 ^ LARGEST_SIZE_ORDER)
           else System.reserve size address) ;;
  if base =? 0 then ret None
  else
    r <- createDirector abi (Arena.create base size) true sharing secure
           partitionCounts maxSlabCount sideDataSize ;;
    ret (snd r).

(** [Director::createSize]. *)
Definition createSize (abi : Sizeof) (secure : bool)
  (smallPartitionCount mediumPartitionCount largePartitionCount
   maxSlabCount sideDataSize : Z) : M Env Z :=
  dry <- createDirector abi Arena.sizing false false secure
           [smallPartitionCount; mediumPartitionCount; largePartitionCount]
           maxSlabCount sideDataSize ;;
  ret (roundUp (Arena.allocated (fst dry)) PAGE_SIZE).

Definition findAllocatorBySize (d : Director) (size : Z) : Res AllocatorRef :=
  AllocatorRoster.getAllocator d (sizeToOrder size).

(** The loop [for (i = 0; i < MAX_QUANTUM_ALLOCATORS; i++)] that the
    methods taking an address start with: the first quantum allocator
    whose space holds the address. *)
Fixpoint quantumAllocatorOf_loop (n : nat) (d : Director) (i address : Z)
  : Res (option Z) :=
  match n with
  | O => Ok None
  | S n' =>
      q <~ getQuantumAllocator d i ;;
      if Space.in_ (space (q_allocator q)) address then Ok (Some i)
      else quantumAllocatorOf_loop n' d (i + 1) address
  end.

Definition quantumAllocatorOf (d : Director) (address : Z) : Res (option Z) :=
  quantumAllocatorOf_loop (Z.to_nat MAX_QUANTUM_ALLOCATORS) d 0 address.

Definition allocate (size : Z) : M World Z :=
  alignedSize <- lift (roundUpPowerOf2 size) ;;
  allocator <- readDirector (fun d => findAllocatorBySize d alignedSize) ;;
  h <- readDirector (fun d => allocatorAt d allocator) ;;
  r <- (if isPartition h then
          partition <- lift (asPartition allocator) ;;
          address <- Partition.allocate (fst partition) (snd partition)
                       alignedSize ;;
          if negb (address =? 0) then ret (Some address, allocator)
          else
            p <- Partition.this (fst partition) (snd partition) ;;
            ret (None, p_quantumAllocator p)
        else ret (None, allocator)) ;;
  match fst r with
  | Some address => ret address
  | None =>
      let allocator := snd r in
      h <- readDirector (fun d => allocatorAt d allocator) ;;
      if isQuantumAllocator h then
        a <- lift (asQuantumAllocator allocator) ;;
        QuantumAllocator.allocate a alignedSize
      else if isSlabAllocator h then SlabAllocator.allocate alignedSize
      else ret 0
  end.

Definition deallocate (address : Z) : M World unit :=
  found <- readDirector (fun d => quantumAllocatorOf d address) ;;
  match found with
  | Some a =>
      secure <- readDirector (fun d => Ok (d_secure d)) ;;
      (if secure then QuantumAllocator.clear a address else ret tt) ;;;
      QuantumAllocator.deallocate a address
  | None => SlabAllocator.deallocate address
  end.

Definition clear (address : Z) : M World unit :=
  found <- readDirector (fun d => quantumAllocatorOf d address) ;;
  match found with
  | Some a => QuantumAllocator.clear a address
  | None => SlabAllocator.clear address
  end.

Definition allocationSize (d : Director) (address : Z) : Res Z :=
  found <~ quantumAllocatorOf d address ;;
  match found with
  | Some a =>
      q <~ getQuantumAllocator d a ;;
      QuantumAllocator.allocationSize q address
  | None => SlabAllocator.allocationSize (d_slabAllocator d) address
  end.

Definition allocationBase (d : Director) (address : Z) : Res Z :=
  found <~ quantumAllocatorOf d address ;;
  match found with
  | Some a =>
      q <~ getQuantumAllocator d a ;;
      QuantumAllocator.allocationBase q address
  | None => SlabAllocator.allocationBase (d_slabAllocator d) address
  end.

Definition allocationSideData (d : Director) (address : Z) : Res Z :=
  found <~ quantumAllocatorOf d address ;;
  match found with
  | Some a =>
      q <~ getQuantumAllocator d a ;;
      QuantumAllocator.allocationSideData q address
  | None => SlabAllocator.allocationSideData (d_slabAllocator d) address
  end.

Definition reallocate (oldAddress newSize : Z) : M World Z :=
  if oldAddress =? 0 then allocate newSize
  else
    oldSize <- readDirector (fun d => allocationSize d oldAddress) ;;
    rounded <- lift (roundUpPowerOf2 newSize) ;;
    if (oldSize <? rounded) || (sizeToOrder newSize <? sizeToOrder oldSize)
    then
      newAddress <- allocate newSize ;;
      (if negb (newAddress =? 0) && negb (oldSize =? ZERO)
       then sys (System.copy oldAddress newAddress oldSize) ;;;
            deallocate oldAddress
       else ret tt) ;;;
      ret newAddress
    else ret oldAddress.

(** The quantum allocator [allocateBulk] routes a size order to. *)
Fixpoint allocateBulk_loop (n : nat) (d : Director) (i order : Z)
  : Res (option Z) :=
  match n with
  | O => Ok None
  | S n' =>
      q <~ getQuantumAllocator d i ;;
      if order <=? largestSizeOrder (q_allocator q) then Ok (Some i)
      else allocateBulk_loop n' d (i + 1) order
  end.

Definition allocateBulk (size count : Z) (addresses : list Z)
  (contiguous : bool) : M World (Z * list Z) :=
  let order := sizeToOrder size in
  found <- readDirector (fun d =>
             allocateBulk_loop (Z.to_nat MAX_QUANTUM_ALLOCATORS) d 0 order) ;;
  match found with
  | Some a => QuantumAllocator.allocateBulk a size count addresses contiguous
  | None => SlabAllocator.allocateBulk size count addresses contiguous
  end.

Fixpoint stats_loop (abi : Sizeof) (n : nat) (d : Director) (i : Z)
  (counts sizes : list Z) : Res (list Z * list Z) :=
  match n with
  | O => Ok (counts, sizes)
  | S n' =>
      q <~ getQuantumAllocator d i ;;
      r <~ QuantumAllocator.stats abi q counts sizes ;;
      stats_loop abi n' d (i + 1) (fst r) (snd r)
  end.

(** [for (i = 1; i < QB_STATS_SIZE; i++)]: the sum of the slots from [i]
    on. *)
Fixpoint sum_loop (n : nat) (array : list Z) (i total : Z) : Res Z :=
  match n with
  | O => Ok total
  | S n' =>
      value <~ lookupZ array i ;;
      sum_loop n' array (i + 1) (wrap64 (total + value))
  end.

(** [Director::stats] into zeroed [counts] and [sizes]; the result is the
    two arrays. *)
Definition stats (abi : Sizeof) (d : Director) : Res (list Z * list Z) :=
  let counts := replicate (Z.to_nat QB_STATS_SIZE) 0 in
  let sizes := replicate (Z.to_nat QB_STATS_SIZE) 0 in
  counts1 <~ addAt counts 1 1 ;;
  sizes1 <~ addAt sizes 1 (sizeof_Director abi) ;;
  r <~ stats_loop abi (Z.to_nat MAX_QUANTUM_ALLOCATORS) d 0 counts1 sizes1 ;;
  r' <~ SlabAllocator.stats abi (d_slabAllocator d) (fst r) (snd r) ;;
  count <~ sum_loop (Z.to_nat (QB_STATS_SIZE - 1)) (fst r') 1 0 ;;
  size <~ sum_loop (Z.to_nat (QB_STATS_SIZE - 1)) (snd r') 1 0 ;;
  counts' <~ insertZ (fst r') 0 count ;;
  sizes' <~ insertZ (snd r') 0 size ;;
  Ok (counts', sizes').

End Director.

(* ===================================================================== *)
(** ** Definitions used to state and prove the properties                  *)
(* ===================================================================== *)

(** The result of a computation, without the final state. *)
Definition outcome {S A : Type} (r : Res (A * S)) : Res A :=
  match r with
  | Ok (a, _) => Ok a
  | Err f => Err f
  end.

(** [isValidAddress]: not null, below [MAX_ADDRESS_SIZE] and aligned on 8
    bytes. *)
Definition VALID_ADDRESS_MASK : Z :=
  Z.land (MASK (2 ^ MAX_ADDRESS_ORDER)) (not64 (MASK 8)).

Definition isValidAddress (address : Z) : bool :=
  negb (address =? 0) && (Z.land address (not64 VALID_ADDRESS_MASK) =? 0).

(** A registry of the model is well formed when [_bits] has its 256 words
    and every word is a 64-bit value. *)
Definition wellFormed (r : Registry) : bool :=
  (Z.of_nat (length (bits r)) =? MAX_REGISTRY_WORD_COUNT) &&
  forallb (fun v => (0 <=? v) && (v <? 2 ^ 64)) (bits r).

(** The registry [r] with [f] applied to its word [w]. *)
Definition alterWord (f : Z -> Z) (w : Z) (r : Registry) : Registry :=
  mkRegistry (maximumIndex r) (maximumWordIndex r) (lowestIndex r)
    (alter f (Z.to_nat w) (bits r)).

(** The registry [r] is [r0] once [conditionallySetMaskRange] has set the
    mask [fm] in the word [first] and [i] middle words to [ALL_ONES]. *)
Definition isSetTo (r0 : Registry) (first fm : Z) (i : nat) (r : Registry)
  : Prop :=
  maximumIndex r = maximumIndex r0 /\
  maximumWordIndex r = maximumWordIndex r0 /\
  lowestIndex r = lowestIndex r0 /\
  forall p : nat,
    bits r !! p =
      if decide (p = Z.to_nat first)
      then (fun v => Z.lor v fm) <$> bits r0 !! p
      else if decide (Z.to_nat first < p <= Z.to_nat first + i)%nat
           then (fun _ => ALL_ONES) <$> bits r0 !! p
           else bits r0 !! p.

(** [n] calls of [findFree] in a row; the indices found, latest first. *)
Fixpoint findFreeTimes (n : nat) (found : list Z) : Registry.R (list Z) :=
  match n with
  | O => ret found
  | S n' => index <- Registry.findFree ;; findFreeTimes n' (index :: found)
  end.

(** *** The Director as [createDirector] constructs it *)

Definition wordsFor (count : Z) : Z :=
  to_int (Z.shiftr (wrap64 (count + BITS_PER_WORD - 1)) BITS_PER_WORD_ORDER).

Definition freshRegistry (count : Z) : Registry :=
  mkRegistry count (wordsFor count) 0
    (replicate (Z.to_nat MAX_REGISTRY_WORD_COUNT) 0).

(** The quantum allocator [i] over [count] partitions. *)
Definition freshTier (sharing : bool) (i count base sideDataSize sideData : Z)
  : QuantumAllocator :=
  let smallest := SMALLEST_SIZE_ORDER + i * MAX_QUANTUM_ALLOCATOR_ORDERS in
  let partitionSizeOrder := smallest + 14 in
  mkQuantumAllocator
    (mkAllocator
       (Space.create base (wrap64 (2 ^ partitionSizeOrder * wrap64 count)))
       QuantumAllocatorID smallest (smallest + 7))
    sharing partitionSizeOrder count (2 ^ partitionSizeOrder)
    smallest (smallest + 7) (2 ^ smallest) (2 ^ (smallest + 7))
    (replicate (Z.to_nat count) Partition.zero)
    (freshRegistry count)
    (replicate (Z.to_nat MAX_QUANTUM_ALLOCATOR_ORDERS) (freshRegistry count))
    sideDataSize sideData.

Definition freshSlabAllocator (secure : bool)
  (maxCount sideDataSize sideData : Z) : SlabAllocator :=
  mkSlabAllocator
    (mkAllocator (Space.create 0 ALL_ONES) SlabAllocatorID
       (LARGEST_SIZE_ORDER + 1) MAX_ALLOCATION_ORDER)
    secure maxCount (replicate (Z.to_nat maxCount) Space.empty)
    sideDataSize sideData (freshRegistry maxCount).

(** The roster the constructor of the Director leaves: order 0 to the
    null allocator, orders 1 to 10 to the first quantum allocator, 11 to
    18 to the second, 19 to 26 to the third, 27 to 47 to the slab
    allocator and 48 to 63 to the null allocator. *)
Definition initialRoster : list AllocatorRef :=
  [NullAllocatorRef] ++ replicate 10 (QuantumAllocatorRef 0) ++
  replicate 8 (QuantumAllocatorRef 1) ++ replicate 8 (QuantumAllocatorRef 2) ++
  replicate 21 SlabAllocatorRef ++ replicate 16 NullAllocatorRef.

Definition freshDirector (space : Space) (sharing secure : bool)
  (small medium large maxSlabCount sideDataSize : Z)
  (base0 base1 base2 sideData0 sideData1 sideData2 slabSideData : Z)
  : Director :=
  mkDirector space sharing secure initialRoster
    [freshTier sharing 0 small base0 sideDataSize sideData0;
     freshTier sharing 1 medium base1 sideDataSize sideData1;
     freshTier sharing 2 large base2 sideDataSize sideData2]
    (freshSlabAllocator secure maxSlabCount sideDataSize slabSideData)
    Director.nullAllocator 0.

(** *** Examples *)

(** Sizes of the administrative classes as g++ lays them out on x86-64
    ([sizeof(Partition)] is 2128: its [bool] lies in the tail padding of
    [Allocator]); they only place the administrative structures in the
    arena. *)
Definition lp64 : Sizeof := mkSizeof 512 8 2128 18680 24 2136 344.

(** A client of a Director created with [Director::create]: [None] when
    [create] returns [nullptr]. *)
Definition withDirector {A : Type} (abi : Sizeof) (address : Z)
  (secure : bool) (smallPartitionCount mediumPartitionCount
  largePartitionCount maxSlabCount sideDataSize : Z) (client : M World A)
  : M Env (option A) :=
  fun e =>
    match Director.create abi address secure smallPartitionCount
            mediumPartitionCount largePartitionCount maxSlabCount
            sideDataSize e with
    | Err f => Err f
    | Ok (None, e') => Ok (None, e')
    | Ok (Some d, e') =>
        match client (mkWorld d e') with
        | Ok (a, w) => Ok (Some a, env w)
        | Err f => Err f
        end
    end.

(** An environment without spurious compare-exchange failures in which
    the operating system answers the reservations with the given
    addresses. *)
Definition quiet (addresses : list Z) : Env := mkEnv [] addresses [].

(** A registry of 16384 bits, as a partition of the smallest order of a
    tier has, in which every bit is claimed with [findFree] and one more
    [findFree] has failed: the result of the last call and
    [_lowestIndex] after it. *)
Definition fill : Registry.R (Z * Z) :=
  found <- findFreeTimes (Z.to_nat 16385) [] ;;
  lowest <- Registry.getLowestIndex ;;
  ret (hd 0 found, lowest).

(** A client that allocates 16 bytes, frees them, and asks twice for 32
    bytes: the three addresses and the size of the last block. *)
Definition undersized : M World (Z * Z * Z * Z) :=
  a <- Director.allocate 16 ;;
  Director.deallocate a ;;;
  b <- Director.allocate 32 ;;
  c <- Director.allocate 32 ;;
  size <- readDirector (fun d => Director.allocationSize d c) ;;
  ret (a, b, c, size).

(** A client that reads the roster entry of an order. *)
Definition rosterEntry (order : Z) : M World AllocatorRef :=
  readDirector (fun d => AllocatorRoster.getAllocator d order).

(** The sum of the slots [lo] to [hi] of a statistics array. *)
Definition sumSlots (array : list Z) (lo hi : Z) : Z :=
  fold_right Z.add 0
    (take (Z.to_nat (hi - lo + 1)) (drop (Z.to_nat lo) array)).

(** A client that allocates 17 bytes and asks for the statistics: slot 0
    of the counts, and the sum of the slots 3 to 52. *)
Definition census (abi : Sizeof) : M World (Z * Z) :=
  Director.allocate 17 ;;;
  r <- readDirector (Director.stats abi) ;;
  total <- lift (lookupZ (fst r) 0) ;;
  ret (total, sumSlots (fst r) 3 52).

(** *** Addresses the Director does not manage *)

(** The slab [i] is live and holds the address. *)
Definition inLiveSlab (s : SlabAllocator) (address i : Z) : bool :=
  match lookupZ (s_slabs s) i, Registry.isSet (s_registry s) i with
  | Ok slab, Ok live => Space.in_ slab address && live
  | _, _ => false
  end.

(** The address lies in memory the Director manages: in the region of one
    of its quantum allocators or in a live slab. *)
Definition managed (d : Director) (address : Z) : bool :=
  existsb (fun q => Space.in_ (space (q_allocator q)) address)
    (d_quantumAllocators d) ||
  existsb (fun i => inLiveSlab (d_slabAllocator d) address (Z.of_nat i))
    (seq 0 (Z.to_nat (s_maxCount (d_slabAllocator d)))).

(** The shape [createDirector] gives a Director:
    [MAX_QUANTUM_ALLOCATORS] quantum allocators, [_maxCount] slabs, at most
    [MAX_REGISTRY_BIT_COUNT] of them, and a slab registry of
    [MAX_REGISTRY_WORD_COUNT] words. *)
Definition laidOut (d : Director) : bool :=
  let s := d_slabAllocator d in
  (Z.of_nat (length (d_quantumAllocators d)) =? MAX_QUANTUM_ALLOCATORS) &&
  (length (s_slabs s) =? Z.to_nat (s_maxCount s))%nat &&
  (s_maxCount s <=? MAX_REGISTRY_BIT_COUNT) &&
  wellFormed (s_registry s).

(** *** The parameters of [Director::create] *)

(** The sizes of the administrative classes are those of a 64-bit
    target: no class takes more than 4 GB. *)
Definition sizesFit (abi : Sizeof) : bool :=
  forallb (fun size => (0 <=? size) && (size <=? 2 ^ 32))
    [sizeof_AllocatorRoster abi; sizeof_pointer abi; sizeof_Partition abi;
     sizeof_QuantumAllocator abi; sizeof_Slab abi; sizeof_SlabAllocator abi;
     sizeof_Director abi].

(** The configuration of [Director::create] is in range: no more
    partitions in a quantum allocator and no more slabs than a registry
    has bits, and side data of at most 64 KB per block. *)
Definition inRange (small medium large maxSlabCount sideDataSize : Z) : bool :=
  forallb (fun count => (0 <=? count) && (count <=? MAX_REGISTRY_BIT_COUNT))
    [small; medium; large; maxSlabCount] &&
  (0 <=? sideDataSize) && (sideDataSize <=? 2 ^ 16).

(** The operating system maps memory at addresses that
    [MAX_ADDRESS_ORDER] bits hold. *)
Definition addressable (e : Env) : bool :=
  forallb (fun address => (0 <=? address) && (address <? 2 ^ MAX_ADDRESS_ORDER))
    (os e).

(** The outcomes of compare-exchange left once a retry loop has got
    through: the failures it met and the success that ended them are
    consumed. *)
Fixpoint settle (schedule : list bool) : list bool :=
  match schedule with
  | [] => []
  | true :: rest => rest
  | false :: rest => settle rest
  end.

(** *** Registries at rest *)

(** The fields of a registry are in range: [_lowestIndex] is at most
    [_maximumWordIndex], which is at most the number of words of [_bits],
    and the words hold [_maximumIndex] bits at least. *)
Definition inBounds (r : Registry) : bool :=
  (0 <=? lowestIndex r) && (lowestIndex r <=? maximumWordIndex r) &&
  (maximumWordIndex r <=? MAX_REGISTRY_WORD_COUNT) &&
  (0 <=? maximumIndex r) &&
  (maximumIndex r <=? BITS_PER_WORD * maximumWordIndex r).

(** Every word below [_lowestIndex] is full, which is what the comment
    on [getLowestIndex] says of it: the index of the lowest word that has
    free bits. *)
Definition tight (r : Registry) : bool :=
  forallb (fun v => v =? ALL_ONES) (take (Z.to_nat (lowestIndex r)) (bits r)).

(** The words of [r] below the word [w] are full. *)
Definition fullBelow (r : Registry) (w : Z) : Prop :=
  forall k, 0 <= k < w -> Registry.getBits r k = Ok ALL_ONES.

(** What a call of [findFree] that returns [index] has done to the
    registry [r]: nothing to the bits when it found none, and otherwise
    it has set the bit [index], which was clear; if the words below
    [_lowestIndex] were full they still are, and every bit below the one
    returned (every bit of the registry, when none was found) is set. *)
Definition found (r r' : Registry) (index : Z) : Prop :=
  maximumIndex r' = maximumIndex r /\
  maximumWordIndex r' = maximumWordIndex r /\
  lowestIndex r <= lowestIndex r' <= maximumWordIndex r /\
  (if index =? NOT_FOUND then bits r' = bits r
   else
     0 <= index < maximumIndex r /\ lowestIndex r' = index / 64 /\
     exists v,
       Registry.getBits r (index / 64) = Ok v /\
       Z.testbit v (index mod 64) = false /\
       bits r' = <[Z.to_nat (index / 64) := Z.lor v (2 ^ (index mod 64))]>
                   (bits r)) /\
  (fullBelow r (lowestIndex r) ->
   fullBelow r' (lowestIndex r') /\
   forall j, 0 <= j < (if index =? NOT_FOUND then maximumIndex r else index) ->
             Registry.isSet r j = Ok true).

(** The computation [m] on a registry leaves [_maximumIndex] as it is. *)
Definition keeps {A : Type} (m : Registry.R A) : Prop :=
  forall st a st', m st = Ok (a, st') ->
                   maximumIndex (reg st') = maximumIndex (reg st).

(** The registry [r] with the words [b]. *)
Definition withBits (r : Registry) (b : list Z) : Registry :=
  mkRegistry (maximumIndex r) (maximumWordIndex r) (lowestIndex r) b.

(** A partition of 8192 quanta of 16 bytes at the address [2^32], none
    of them in use, and a Director whose first quantum allocator has this
    one partition. *)
Definition partitionOf16 : Partition :=
  mkPartition (mkAllocator (Space.create (2 ^ 32) (2 ^ 17)) PartitionID 4 4)
    false (QuantumAllocatorRef 0) 4 (freshRegistry 8192) 0 0.

Definition worldOf16 (schedule : list bool) : World :=
  mkWorld
    (mkDirector Space.empty false false initialRoster
       [setPartitions [partitionOf16] (freshTier false 0 1 (2 ^ 32) 0 0)]
       (freshSlabAllocator false 0 0 0) Director.nullAllocator 0)
    (mkEnv schedule [] []).

(** *** Slabs *)

(** The Director [d] with [slab] in the slot 0 of its slab allocator and
    [word] as the word 0 of the slab registry. *)
Definition withSlab (d : Director) (slab : Space) (word : Z) : Director :=
  let s := d_slabAllocator d in
  setSlabAllocator
    (mkSlabAllocator (s_allocator s) (s_secure s) (s_maxCount s)
       (<[0%nat := slab]> (s_slabs s)) (s_sideDataSize s) (s_sideData s)
       (withBits (s_registry s) (<[0%nat := word]> (bits (s_registry s)))))
    d.

(** *** Runs of free bits in a word *)

(** The bits of [value] from [position] up are clear, [n] of them or
    all of them up to the top of the word. *)
Definition freeRun (value position n : Z) : Prop :=
  forall k, position <= k < Z.min (position + n) BITS_PER_WORD ->
            Z.testbit value k = false.

(** *** Schedules of compare-exchange outcomes *)

(** The spurious failures in a schedule, and those ahead of its first
    success. *)
Fixpoint failures (schedule : list bool) : nat :=
  match schedule with
  | [] => O
  | true :: rest => failures rest
  | false :: rest => S (failures rest)
  end.

Fixpoint failuresAhead (schedule : list bool) : nat :=
  match schedule with
  | false :: rest => S (failuresAhead rest)
  | _ => O
  end.

(** *** The slabs of a Director at work *)

(** A size that is a power of two; zero is the size of a slab slot that
    was never used and of an address that is not managed. *)
Definition powerOfTwoOrZero (size : Z) : Prop :=
  size = 0 \/ exists k, 0 <= k < 64 /\ size = 2 ^ k.

Definition slabsSound (d : Director) : Prop :=
  Forall (fun slab => powerOfTwoOrZero (Space.size slab))
    (s_slabs (d_slabAllocator d)).

(** A computation that leaves the slabs as they are, and one that keeps
    the size of every slab a power of two. *)
Definition keepsSlabs {A : Type} (m : M World A) : Prop :=
  forall w a w', m w = Ok (a, w') ->
    s_slabs (d_slabAllocator (director w'))
    = s_slabs (d_slabAllocator (director w)).

Definition keepsSound {A : Type} (m : M World A) : Prop :=
  forall w a w', slabsSound (director w) -> m w = Ok (a, w') ->
                 slabsSound (director w').

(** A call of [allocate], [deallocate], [reallocate], [clear] or
    [allocateBulk] that returns; the size given to [allocateBulk] is a
    power of two, as the comment on it asks. These are the calls whose
    blocks [reallocate] takes: a block of [allocateCount] or [allocateFit]
    is for [deallocateCount], [deallocateFit] and the side data only. *)
Inductive step : World -> World -> Prop :=
| step_allocate size a w w' :
    Director.allocate size w = Ok (a, w') -> step w w'
| step_deallocate address w w' :
    Director.deallocate address w = Ok (tt, w') -> step w w'
| step_reallocate address size a w w' :
    Director.reallocate address size w = Ok (a, w') -> step w w'
| step_clear address w w' :
    Director.clear address w = Ok (tt, w') -> step w w'
| step_allocateBulk order count addresses contiguous r w w' :
    0 <= order < 64 ->
    Director.allocateBulk (2 ^ order) count addresses contiguous w
    = Ok (r, w') ->
    step w w'.

(** The states that a sequence of such calls leads to. *)
Inductive reachable (w0 : World) : World -> Prop :=
| reachable_first : reachable w0 w0
| reachable_next w w' : reachable w0 w -> step w w' -> reachable w0 w'.

(** *** Blocks in use in the way of a range *)

(** A client that allocates [n] blocks of a size, and one that
    deallocates the blocks of a list. *)
Fixpoint allocateTimes (n : nat) (size : Z) : M World (list Z) :=
  match n with
  | O => ret []
  | S n' =>
      a <- Director.allocate size ;;
      rest <- allocateTimes n' size ;;
      ret (a :: rest)
  end.

Fixpoint deallocateAll (addresses : list Z) : M World unit :=
  match addresses with
  | [] => ret tt
  | a :: rest => Director.deallocate a ;;; deallocateAll rest
  end.

(** A client that allocates 67 blocks of 128 bytes, keeps the blocks 64
    and 66 and deallocates the others, and asks [allocateBulk] for 130
    contiguous blocks: the two blocks it kept, the result of
    [allocateBulk] and the first three addresses in the buffer. *)
Definition overlapped : M World (Z * Z * Z * list Z) :=
  blocks <- allocateTimes 67 128 ;;
  deallocateAll (take 64 blocks ++ [nth 65 blocks 0]) ;;;
  r <- Director.allocateBulk 128 130 (replicate 130 0) true ;;
  ret (nth 64 blocks 0, nth 66 blocks 0, fst r, take 3 (snd r)).

(* ===================================================================== *)
(** * Properties                                                           *)
(* ===================================================================== *)

(** ** Computations that return *)

Lemma bind_Ok {S A B} (m : M S A) (k : A -> M S B) s b s' :
  bind m k s = Ok (b, s') ->
  exists a s1, m s = Ok (a, s1) /\ k a s1 = Ok (b, s').
Proof.
  unfold bind. destruct (m s) as [[a s1]|f]; [|discriminate].
  intros H. exists a, s1. split; [reflexivity|exact H].
Qed.

Lemma rbind_Ok {A B} (r : Res A) (k : A -> Res B) b :
  rbind r k = Ok b -> exists a, r = Ok a /\ k a = Ok b.
Proof. destruct r as [a|f]; [|discriminate]. intros H. exists a. split; [reflexivity|exact H]. Qed.

Tactic Notation "inv_bind" hyp(H) "as" ident(a) ident(s) ident(E) :=
  apply bind_Ok in H; destruct H as (a & s & E & H).

Lemma getBits_Some r w v :
  Registry.getBits r w = Ok v -> 0 <= w /\ bits r !! Z.to_nat w = Some v.
Proof.
  unfold Registry.getBits.
  destruct ((0 <=? w) && (w <? MAX_REGISTRY_WORD_COUNT)) eqn:E; [|discriminate].
  destruct (bits r !! Z.to_nat w) eqn:L; [|discriminate].
  intros [= ->]. apply andb_true_iff in E. split; [lia|reflexivity].
Qed.

Lemma load_Ok {A} (f : Registry -> Res A) st a st' :
  Registry.load f st = Ok (a, st') -> f (reg st) = Ok a /\ st' = st.
Proof.
  unfold Registry.load. destruct (f (reg st)); [|discriminate].
  intros [= -> ->]. auto.
Qed.

Lemma storeBits_read w v f st st' :
  Registry.getBits (reg st) w = Ok v ->
  Registry.storeBits w (f v) st = Ok (tt, st') ->
  reg st' = alterWord f w (reg st) /\ sched st' = sched st.
Proof.
  intros G. unfold Registry.storeBits.
  destruct ((0 <=? w) && (w <? MAX_REGISTRY_WORD_COUNT)); [|discriminate].
  intros [= <-]. cbn. split; [|reflexivity].
  unfold alterWord. f_equal.
  apply getBits_Some in G as [_ G].
  apply list_eq. intros i.
  destruct (decide (i = Z.to_nat w)) as [->|Hne].
  - rewrite list_lookup_insert_eq by (eapply lookup_lt_Some; eauto).
    rewrite list_lookup_alter_eq, G. reflexivity.
  - rewrite list_lookup_insert_ne by congruence.
    rewrite list_lookup_alter_ne by congruence. reflexivity.
Qed.

Lemma nextCas_Ok st b st' :
  Registry.nextCas st = Ok (b, st') -> reg st' = reg st.
Proof.
  unfold Registry.nextCas. destruct (sched st); intros [= <- <-]; reflexivity.
Qed.

Lemma ret_Ok {S A} (a : A) (s : S) b s' : ret a s = Ok (b, s') -> b = a /\ s' = s.
Proof. intros [= <- <-]. auto. Qed.

Lemma clearMask_Ok w m st b st' :
  Registry.clearMask w m st = Ok (b, st') ->
  reg st' = if m =? 0 then reg st
            else alterWord (fun v => Z.land v (not64 m)) w (reg st).
Proof.
  unfold Registry.clearMask. destruct (m =? 0).
  - intros [= _ <-]. reflexivity.
  - unfold Registry.andBits. intros H.
    inv_bind H as old s1 E. inv_bind E as v s2 L. apply load_Ok in L as [G ->].
    inv_bind E as u s3 S. apply ret_Ok in E as [-> ->]. apply ret_Ok in H as [_ ->].
    destruct u.
    eapply (storeBits_read w v (fun v => Z.land v (not64 m))) in S as [S _]; eauto.
Qed.

Lemma conditionallySetMask_Ok w m st b st' :
  Registry.conditionallySetMask w m st = Ok (b, st') ->
  (exists v, Registry.getBits (reg st) w = Ok v) /\
  reg st' = if b && negb (m =? 0)
            then alterWord (fun v => Z.lor v m) w (reg st)
            else reg st.
Proof.
  unfold Registry.conditionallySetMask, Registry.conditionallySetMask3. intros H.
  inv_bind H as v s1 L. apply load_Ok in L as [G ->]. split; [eauto|].
  inv_bind H as r s2 E. apply ret_Ok in H as [-> ->].
  destruct (m =? 0); cbn in E.
  - apply ret_Ok in E as [-> ->]. cbn. reflexivity.
  - unfold Registry.swapBits in E. inv_bind E as c s3 L. apply load_Ok in L as [G' ->].
    rewrite G in G'. injection G' as <-.
    inv_bind E as ok s4 N. apply nextCas_Ok in N. rewrite <- N.
    destruct (ok && (v =? v)).
    + inv_bind E as u s5 S. apply ret_Ok in E as [-> ->]. destruct u. cbn.
      rewrite <- N in G.
      eapply (storeBits_read w v (fun v => Z.lor v m)) in S as [S _]; eauto.
    + apply ret_Ok in E as [-> ->]. reflexivity.
Qed.

Lemma land_lor_not64 v m :
  0 <= v < 2 ^ 64 -> 0 <= m < 2 ^ 64 -> Z.land v m = 0 ->
  Z.land (Z.lor v m) (not64 m) = v.
Proof.
  intros Hv Hm H. apply Z.bits_inj'. intros j Hj.
  unfold not64, ALL_ONES.
  replace (2 ^ 64 - 1) with (Z.ones 64) by reflexivity.
  rewrite Z.land_spec, Z.lor_spec, Z.lxor_spec, Z.testbit_ones_nonneg by lia.
  assert (Hb : Z.testbit v j && Z.testbit m j = false).
  { rewrite <- Z.land_spec, H. apply Z.bits_0. }
  destruct (j <? 64) eqn:E.
  - destruct (Z.testbit v j), (Z.testbit m j); cbn in *; congruence.
  - apply Z.ltb_ge in E.
    assert (Z.testbit v j = false).
    { destruct (Z.eq_dec v 0) as [->|]; [apply Z.bits_0|].
      apply Z.bits_above_log2; [lia|].
      assert (Z.log2 v < 64) by (apply Z.log2_lt_pow2; lia). lia. }
    assert (Z.testbit m j = false).
    { destruct (Z.eq_dec m 0) as [->|]; [apply Z.bits_0|].
      apply Z.bits_above_log2; [lia|].
      assert (Z.log2 m < 64) by (apply Z.log2_lt_pow2; lia). lia. }
    rewrite H0, H1. reflexivity.
Qed.

Lemma clearMaskRange_loop_Ok n : forall first j st u st',
  0 <= first -> 0 <= j ->
  Registry.clearMaskRange_loop n first j st = Ok (u, st') ->
  maximumIndex (reg st') = maximumIndex (reg st) /\
  maximumWordIndex (reg st') = maximumWordIndex (reg st) /\
  lowestIndex (reg st') = lowestIndex (reg st) /\
  forall p : nat,
    bits (reg st') !! p =
      if decide (Z.to_nat (first + j) < p <= Z.to_nat (first + j) + n)%nat
      then (fun _ => 0) <$> bits (reg st) !! p
      else bits (reg st) !! p.
Proof.
  induction n as [|n IH]; intros first j st u st' Hf Hj H.
  - apply ret_Ok in H as [_ ->]. repeat split.
    intros p. destruct (decide _); [lia|reflexivity].
  - cbn [Registry.clearMaskRange_loop] in H. inv_bind H as b s E.
    apply clearMask_Ok in E.
    change (ALL_ONES =? 0) with false in E. cbv iota in E.
    apply IH in H; [|lia|lia]. destruct H as (H1 & H2 & H3 & H4).
    rewrite E in H1, H2, H3. cbn in H1, H2, H3. repeat split; try assumption.
    intros p. rewrite H4, E. cbn.
    replace (Z.to_nat (first + (j + 1))) with (S (Z.to_nat (first + j))) by lia.
    destruct (decide (p = Z.to_nat (first + j + 1))) as [->|Hne].
    + rewrite list_lookup_alter_eq.
      destruct (decide _) as [?|?]; [lia|].
      destruct (decide _) as [?|?]; [|lia].
      destruct (bits (reg st) !! Z.to_nat (first + j + 1)); cbn; [|reflexivity].
      change (not64 ALL_ONES) with 0. rewrite Z.land_0_r. reflexivity.
    + rewrite list_lookup_alter_ne by congruence.
      destruct (decide _), (decide _); try reflexivity; lia.
Qed.

Section Rollback.

Variable r0 : Registry.
Variables first fm : Z.
Variable count : nat.
Hypothesis first_nonneg : 0 <= first.
Hypothesis fm_range : 0 <= fm < 2 ^ 64.
Hypothesis first_clear : forall v,
  bits r0 !! Z.to_nat first = Some v -> 0 <= v < 2 ^ 64 /\ Z.land v fm = 0.
Hypothesis middle_clear : forall p v,
  (Z.to_nat first < p <= Z.to_nat first + count)%nat ->
  bits r0 !! p = Some v -> v = 0.

Lemma registry_eq (r : Registry) :
  maximumIndex r = maximumIndex r0 ->
  maximumWordIndex r = maximumWordIndex r0 ->
  lowestIndex r = lowestIndex r0 ->
  (forall p, bits r !! p = bits r0 !! p) ->
  r = r0.
Proof.
  destruct r, r0. cbn. intros -> -> -> H. f_equal. apply list_eq, H.
Qed.

Lemma clearMaskRange_restores i st u st' :
  (i <= count)%nat ->
  isSetTo r0 first fm i (reg st) ->
  Registry.clearMaskRange first (Z.of_nat i) fm ZERO st = Ok (u, st') ->
  reg st' = r0.
Proof.
  intros Hi (I1 & I2 & I3 & I4) H. unfold Registry.clearMaskRange in H.
  inv_bind H as b1 s E.
  apply clearMask_Ok in E.
  inv_bind H as u2 s2 E0. rewrite Nat2Z.id in E0.
  apply clearMaskRange_loop_Ok in E0; [|lia|lia].
  destruct E0 as (L1 & L2 & L3 & L4).
  inv_bind H as b3 s3 E1. apply clearMask_Ok in E1. cbn in E1.
  apply ret_Ok in H as [_ ->]. rewrite E1.
  assert (F : maximumIndex (reg s) = maximumIndex (reg st) /\
              maximumWordIndex (reg s) = maximumWordIndex (reg st) /\
              lowestIndex (reg s) = lowestIndex (reg st)).
  { rewrite E. destruct (fm =? 0); cbn; auto. }
  destruct F as (F1 & F2 & F3).
  apply registry_eq; try congruence.
  intros p. rewrite L4, Z.add_0_r.
  assert (B : bits (reg s) !! p =
              if decide (p = Z.to_nat first)
              then bits r0 !! p
              else bits (reg st) !! p).
  { rewrite E. destruct (fm =? 0) eqn:Z0.
    - apply Z.eqb_eq in Z0. subst fm.
      destruct (decide _) as [->|]; [|reflexivity].
      rewrite I4. destruct (decide _); [|congruence].
      destruct (bits r0 !! Z.to_nat first) eqn:L; cbn; [|reflexivity].
      f_equal. apply Z.lor_0_r.
    - cbn. destruct (decide (p = Z.to_nat first)) as [->|Hne].
      + rewrite list_lookup_alter_eq, I4. destruct (decide _); [|congruence].
        destruct (bits r0 !! Z.to_nat first) eqn:L; cbn; [|reflexivity].
        destruct (first_clear _ eq_refl). f_equal. apply land_lor_not64; auto.
      + rewrite list_lookup_alter_ne by congruence. reflexivity. }
  rewrite B, I4.
  destruct (decide (p = Z.to_nat first)) as [->|Hne].
  - destruct (decide _); [lia|reflexivity].
  - destruct (decide (Z.to_nat first < p <= Z.to_nat first + i)%nat) as [Hin|Hout].
    + destruct (bits r0 !! p) eqn:L; cbn; [|reflexivity].
      f_equal. symmetry. eapply middle_clear; [|exact L]. lia.
    + reflexivity.
Qed.

Lemma conditionallySetMaskRange_loop_Ok n : forall i st b st',
  (i + n <= count)%nat ->
  isSetTo r0 first fm i (reg st) ->
  Registry.conditionallySetMaskRange_loop n first (Z.of_nat i) fm st
    = Ok (b, st') ->
  if b then isSetTo r0 first fm (i + n) (reg st') else reg st' = r0.
Proof.
  induction n as [|n IH]; intros i st b st' Hi I H.
  - apply ret_Ok in H as [-> ->]. rewrite Nat.add_0_r. exact I.
  - cbn [Registry.conditionallySetMaskRange_loop] in H. inv_bind H as a s E.
    apply conditionallySetMask_Ok in E as [[v G] E].
    change (ALL_ONES =? 0) with false in E.
    destruct a; cbn [andb negb] in E; cbn in H.
    + replace (Z.of_nat i + 1) with (Z.of_nat (S i)) in H by lia.
      apply IH in H; [|lia|].
      * replace (i + S n)%nat with (S i + n)%nat by lia. exact H.
      * destruct I as (I1 & I2 & I3 & I4). rewrite E.
        unfold isSetTo, alterWord.
        cbn [maximumIndex maximumWordIndex lowestIndex bits].
        repeat split; try assumption. intros p.
        replace (Z.to_nat (first + Z.of_nat i + 1))
          with (S (Z.to_nat first + i)) by lia.
        destruct (decide (p = S (Z.to_nat first + i))) as [->|Hne].
        -- rewrite list_lookup_alter_eq, I4.
           destruct (decide _); [lia|].
           destruct (decide _); [lia|].
           destruct (decide _); [|lia].
           destruct (bits r0 !! S (Z.to_nat first + i)) eqn:L; cbn; [|reflexivity].
           erewrite (middle_clear _ _ _ L). reflexivity.
           Unshelve. lia.
        -- rewrite list_lookup_alter_ne by congruence. rewrite I4.
           destruct (decide _); [reflexivity|].
           destruct (decide _), (decide _); try reflexivity; lia.
    + inv_bind H as u s2 E0. apply ret_Ok in H as [-> ->].
      rewrite <- E in I.
      eapply clearMaskRange_restores; [|exact I|exact E0]. lia.
Qed.

Lemma conditionallySetMaskRange_false lm st st' :
  reg st = r0 ->
  Registry.conditionallySetMaskRange first (Z.of_nat count) fm lm st
    = Ok (false, st') ->
  reg st' = r0.
Proof.
  intros R H. unfold Registry.conditionallySetMaskRange in H.
  inv_bind H as a s E. apply conditionallySetMask_Ok in E as [[v G] E].
  destruct a; cbn in E, H.
  - assert (I : isSetTo r0 first fm 0 (reg s)).
    { rewrite E, R. repeat split; try (destruct (fm =? 0); reflexivity).
      intros p. destruct (fm =? 0) eqn:Z0; cbn.
      - apply Z.eqb_eq in Z0. subst fm.
        destruct (decide _) as [->|]; [|destruct (decide _); [lia|reflexivity]].
        destruct (bits r0 !! Z.to_nat first); cbn; [|reflexivity].
        f_equal. symmetry. apply Z.lor_0_r.
      - destruct (decide (p = Z.to_nat first)) as [->|Hne].
        + rewrite list_lookup_alter_eq. reflexivity.
        + rewrite list_lookup_alter_ne by congruence.
          destruct (decide _); [lia|reflexivity]. }
    inv_bind H as a2 s2 E0. rewrite Nat2Z.id in E0.
    apply (conditionallySetMaskRange_loop_Ok count 0%nat) in E0; [|lia|exact I].
    destruct a2; cbn in H.
    + inv_bind H as a3 s3 E1. apply conditionallySetMask_Ok in E1 as [_ E1].
      destruct a3; cbn in H.
      * apply ret_Ok in H as [? _]. discriminate.
      * cbn in E1. inv_bind H as u4 s4 E2. apply ret_Ok in H as [_ ->].
        rewrite <- E1 in E0.
        eapply clearMaskRange_restores; [|exact E0|exact E2]. lia.
    + apply ret_Ok in H as [_ ->]. exact E0.
  - apply ret_Ok in H as [_ ->]. congruence.
Qed.

End Rollback.

(** Reading a word of a well-formed registry. *)
Lemma wellFormed_word r p v :
  wellFormed r = true -> bits r !! p = Some v ->
  (p < 256)%nat /\ 0 <= v < 2 ^ 64.
Proof.
  unfold wellFormed. intros W L. apply andb_true_iff in W as [Wl Wv].
  apply Z.eqb_eq in Wl. split.
  - apply lookup_lt_Some in L. unfold MAX_REGISTRY_WORD_COUNT in Wl. lia.
  - rewrite forallb_forall in Wv. specialize (Wv v).
    assert (I : In v (bits r)) by (apply list_elem_of_In, list_elem_of_lookup; eauto).
    apply Wv, andb_true_iff in I as [I1 I2]. lia.
Qed.

Lemma getBits_lookup r w v :
  0 <= w < MAX_REGISTRY_WORD_COUNT -> bits r !! Z.to_nat w = Some v ->
  Registry.getBits r w = Ok v.
Proof.
  intros Hw L. unfold Registry.getBits.
  replace ((0 <=? w) && (w <? MAX_REGISTRY_WORD_COUNT)) with true
    by (symmetry; apply andb_true_iff; lia).
  rewrite L. reflexivity.
Qed.

(** C6 fails on the code. The roll back of [conditionallySetMaskRange]
    is an unconditional [clearMaskRange], and the compare-exchange on a
    word succeeds whether or not bits of the mask are set in it already,
    so that the roll back clears bits that were in use on entry.
    [findFreeRange(130)] on a registry whose word 0 is free and whose
    word 1 holds the bits 64 and 66 of other owners calls
    [conditionallySetMaskRange(0, 1, ALL_ONES, 3)], for it never looks at
    the middle words. The call sets the words 0 and 1, the
    compare-exchange on the word 2 fails, and the roll back leaves the
    word 1 empty: the bits 64 and 66 are free though their blocks are in
    use, and the scan goes on to hand them out in the range that starts
    at bit 64. A client reaches that state with [allocate], [deallocate]
    and [allocateBulk]: of 67 blocks of 128 bytes it keeps the blocks 64
    and 66, and when the third compare-exchange of the scan fails, the
    130 blocks of [allocateBulk] start at the block 64. *)
Theorem rollback_clears_live_bits :
  let r := mkRegistry 1024 16 0 ([0; 5] ++ replicate 254 0) in
  let st := mkRegState r [true; true; false] in
  (exists st',
     Registry.conditionallySetMaskRange 0 1 ALL_ONES 3 st = Ok (false, st') /\
     Registry.findFreeRange_body 130 0 st = Ok (None, st') /\
     Registry.isSet (reg st) 64 = Ok true /\
     Registry.isSet (reg st) 66 = Ok true /\
     Registry.isSet (reg st') 64 = Ok false /\
     Registry.isSet (reg st') 66 = Ok false /\
     outcome (Registry.findFreeRange 130 st) = Ok 64) /\
  outcome (withDirector lp64 0 false 1 0 0 0 0 overlapped
             (mkEnv (replicate 72 true ++ [false]) [2 ^ 32] []))
  = Ok (Some (2 ^ 32 + 64 * 128, 2 ^ 32 + 66 * 128, 130,
              [2 ^ 32 + 64 * 128; 2 ^ 32 + 65 * 128; 2 ^ 32 + 66 * 128])).
Proof.
  intros r st. split.
  - eexists. split; [lazy; reflexivity|].
    split; [vm_compute; reflexivity|].
    split; [reflexivity|]. split; [reflexivity|].
    split; [reflexivity|]. split; [reflexivity|].
    vm_compute. reflexivity.
  - vm_compute. reflexivity.
Qed.

(** ** C8: the scan of [findFreeRange] *)

(** C8 fails on the code. The loop of [findFreeRange] runs while
    [wordIndex < _maximumIndex], the number of bits, where [findFree]
    stops at [_maximumWordIndex], the number of words. Once every bit of a
    registry of 16384 bits is claimed and a further [findFree] has moved
    [_lowestIndex] to [_maximumWordIndex = 256], [findFreeRange(2)] reads
    [_bits[256]], one word past the array. *)
Theorem findFreeRange_reads_past_the_bitmap :
  let st := mkRegState (freshRegistry 16384) [] in
  maximumWordIndex (reg st) = 256 /\
  outcome (fill st) = Ok (NOT_FOUND, 256) /\
  outcome ((fill ;;; Registry.findFreeRange 2) st)
  = Err (BitsOutOfRange 256).
Proof. vm_compute. repeat split; reflexivity. Qed.

(** ** C9: the commit of [SlabAllocator::allocateBulk] *)

Lemma roundUp_null_SLAB_ALIGNMENT :
  roundUp 0 SlabAllocator.SLAB_ALIGNMENT = 0.
Proof. reflexivity. Qed.

(** C9 fails on the code. [allocateBulk] calls [System::commit] before it
    tests [base]: when the operating system refuses the reservation,
    [reserveAligned] returns [nullptr], the function commits [total] bytes
    at address 0 and only then returns 0. The Director is unchanged and
    the commit is the last system call made. *)
Theorem allocateBulk_commits_at_null :
  forall (d : Director) (schedule : list bool) (rest : list Z)
         (calls : list SysCall) (size count : Z) (addresses : list Z)
         (contiguous : bool),
    let w := mkWorld d (mkEnv schedule (MAP_FAILED :: rest) calls) in
    let total :=
      wrap64 (roundUp size SlabAllocator.SLAB_ALIGNMENT * wrap64 count) in
    exists w',
      SlabAllocator.allocateBulk size count addresses contiguous w
        = Ok ((0, addresses), w') /\
      director w' = d /\
      head (trace (env w')) = Some (SysCommit 0 total).
Proof.
  intros d schedule rest calls size count addresses contiguous w total.
  unfold SlabAllocator.allocateBulk, System.reserveAligned, System.reserve,
    System.mmap, System.commit, System.release, System.call, sys, bind,
    modify, ret.
  cbn [env os cas trace director w].
  change (MAP_FAILED =? MAP_FAILED) with true. cbv iota.
  change (0 =? MAP_FAILED) with false. cbv iota.
  rewrite roundUp_null_SLAB_ALIGNMENT.
  change (wrap64 (0 - 0)) with 0. change (negb (0 =? 0)) with false.
  cbv iota. fold total.
  destruct (negb _); cbn; eexists; repeat split.
Qed.

(** ** C1: the size of the block [allocate] returns *)

(** C1 fails on the code. With one small partition, [allocate(16)] brings
    the partition on line for order 4 and [deallocate] empties it. The
    first [allocate(32)] finds no free partition and calls
    [freeUpPartition], which takes the partition off line in the order
    registry of the order asked for, 5, where it never was, and so puts it
    on line there although its quantum is still 16 bytes; the call returns
    [nullptr]. The second [allocate(32)] finds the partition in the order
    registry of order 5 and returns a block of it: an address that is not
    null whose [allocationSize] is 16, less than the 32 bytes asked
    for. *)
Theorem allocate_returns_undersized_block :
  outcome (withDirector lp64 0 false 1 0 0 0 0 undersized (quiet [2 ^ 32]))
  = Ok (Some (2 ^ 32, 0, 2 ^ 32, 16)).
Proof. vm_compute. reflexivity. Qed.

(** ** The Director just created *)

Lemma lift_Ok {S A} (r : Res A) (s : S) a s' :
  lift r s = Ok (a, s') -> r = Ok a /\ s' = s.
Proof. unfold lift. destruct r; [|discriminate]. intros [= -> ->]. auto. Qed.

Lemma placement_Ok {A} address (r : Res A) a :
  Director.placement address r = Ok a -> r = Ok a.
Proof.
  unfold Director.placement. destruct (address =? 0); [discriminate|auto].
Qed.

Lemma call_env c e u e' :
  System.call c e = Ok (u, e') -> cas e' = cas e /\ os e' = os e.
Proof. intros [= _ <-]. auto. Qed.

Lemma tier0_created sharing count base sideDataSize sideData :
  QuantumAllocator.create sharing 3 10 17 count base sideDataSize sideData
  = Ok (freshTier sharing 0 count base sideDataSize sideData).
Proof. reflexivity. Qed.

Lemma tier1_created sharing count base sideDataSize sideData :
  QuantumAllocator.create sharing 11 18 25 count base sideDataSize sideData
  = Ok (freshTier sharing 1 count base sideDataSize sideData).
Proof. reflexivity. Qed.

Lemma tier2_created sharing count base sideDataSize sideData :
  QuantumAllocator.create sharing 19 26 33 count base sideDataSize sideData
  = Ok (freshTier sharing 2 count base sideDataSize sideData).
Proof. reflexivity. Qed.

(** Whatever the arena, [createDirector] constructs the same Director up
    to the addresses the arena returned. *)
Lemma createDirector_fresh abi arena sharing secure small medium large
  maxSlabCount sideDataSize e arena' d e' :
  Director.createDirector abi arena true sharing secure
    [small; medium; large] maxSlabCount sideDataSize e
  = Ok ((arena', Some d), e') ->
  exists space arena0 base0 base1 base2 sideData0 sideData1 sideData2
         slabSideData,
    Director.regions (Z.to_nat MAX_QUANTUM_ALLOCATORS) arena
      [small; medium; large]
      (LARGEST_SIZE_ORDER - MAX_QUANTUM_ALLOCATOR_ORDERS + 1) []
    = Ok ([base0; base1; base2], arena0) /\
    d = freshDirector space sharing secure small medium large
          maxSlabCount sideDataSize base0 base1 base2 sideData0 sideData1
          sideData2 slabSideData /\
    cas e' = cas e /\ os e' = os e.
Proof.
  unfold Director.createDirector. intros H.
  apply bind_Ok in H as (r & e1 & R & H).
  apply lift_Ok in R as [R ->]. pose proof R as Regions. simpl in R.
  destruct (Arena.allocate arena _) as [base2 a1].
  destruct (Arena.allocate a1 _) as [base1 a2].
  destruct (Arena.allocate a2 _) as [base0 a3].
  injection R as <-.
  apply bind_Ok in H as (u & e2 & C & H).
  assert (Ee : cas e2 = cas e /\ os e2 = os e).
  { destruct (true && negb sharing); [eapply call_env; exact C|].
    apply ret_Ok in C as [_ ->]. auto. }
  clear C.
  destruct (Arena.allocate a3 _) as [roster a4].
  apply bind_Ok in H as (u1 & e3 & P & H).
  apply lift_Ok in P as [_ ->].
  destruct (Arena.allocate a4 _) as [table a5].
  apply bind_Ok in H as (qs & e4 & Q & H).
  apply lift_Ok in Q as [Q ->]. simpl in Q.
  destruct (Arena.allocate a5 _) as [sideData0 a6].
  destruct (Arena.allocate a6 _) as [partitions0 a7].
  destruct (Arena.allocate a7 _) as [allocator0 a8].
  apply rbind_Ok in Q as (c0 & Q0 & Q).
  apply rbind_Ok in Q0 as (q0 & Q0 & T0).
  do 2 apply placement_Ok in Q0. apply placement_Ok in T0.
  injection T0 as <-.
  destruct (Arena.allocate a8 _) as [sideData1 a9].
  destruct (Arena.allocate a9 _) as [partitions1 a10].
  destruct (Arena.allocate a10 _) as [allocator1 a11].
  apply rbind_Ok in Q as (rest0 & Q & R0).
  apply rbind_Ok in Q as (c1 & Q1 & Q).
  apply rbind_Ok in Q1 as (q1 & Q1 & T1).
  do 2 apply placement_Ok in Q1. apply placement_Ok in T1.
  injection T1 as <-.
  destruct (Arena.allocate a11 _) as [sideData2 a12].
  destruct (Arena.allocate a12 _) as [partitions2 a13].
  destruct (Arena.allocate a13 _) as [allocator2 a14].
  apply rbind_Ok in Q as (rest1 & Q & R1).
  apply rbind_Ok in Q as (c2 & Q2 & Q).
  apply rbind_Ok in Q2 as (q2 & Q2 & T2).
  do 2 apply placement_Ok in Q2. apply placement_Ok in T2.
  injection T2 as <-.
  injection Q as <-. injection R1 as <-. injection R0 as <-.
  simpl in H.
  destruct (Arena.allocate a14 _) as [slabs a15].
  destruct (Arena.allocate a15 _) as [slabSideData a16].
  destruct (Arena.allocate a16 _) as [slabAllocator a17].
  destruct (Arena.allocate a17 _) as [director a18].
  apply bind_Ok in H as (d' & e5 & D & H).
  apply ret_Ok in H as [[= -> ->] ->].
  apply lift_Ok in D as [D ->].
  apply rbind_Ok in D as (s & S & D).
  do 2 apply placement_Ok in S. apply placement_Ok in D.
  exists (Space.create (base (arena_space a18)) (Space.size (arena_space a18))),
    a3, base0, base1, base2, sideData0, sideData1, sideData2, slabSideData.
  split; [exact Regions|]. split; [|exact Ee].
  assert (E0 : Ok (freshTier sharing 0 small base0 sideDataSize sideData0)
               = Ok q0) by exact Q0.
  assert (E1 : Ok (freshTier sharing 1 medium base1 sideDataSize sideData1)
               = Ok q1) by exact Q1.
  assert (E2 : Ok (freshTier sharing 2 large base2 sideDataSize sideData2)
               = Ok q2) by exact Q2.
  injection E0 as <-. injection E1 as <-. injection E2 as <-.
  injection S as <-.
  assert (E : Ok (freshDirector
                    (Space.create (base (arena_space a18))
                       (Space.size (arena_space a18)))
                    sharing secure small medium large maxSlabCount
                    sideDataSize base0 base1 base2 sideData0 sideData1
                    sideData2 slabSideData) = Ok d') by exact D.
  injection E as <-. reflexivity.
Qed.

Lemma reserve_env size location e address e' :
  System.reserve size location e = Ok (address, e') -> cas e' = cas e.
Proof.
  unfold System.reserve, System.mmap. intros H.
  apply bind_Ok in H as (a & e1 & A & H).
  apply bind_Ok in H as (u & e2 & C & H).
  apply ret_Ok in H as [_ ->]. apply call_env in C as [C _].
  destruct (os e); injection A as <- <-; exact C.
Qed.

Lemma reserveAligned_env size alignment e address e' :
  System.reserveAligned size alignment e = Ok (address, e') ->
  cas e' = cas e.
Proof.
  unfold System.reserveAligned. intros H.
  apply bind_Ok in H as (a & e1 & A & H). apply reserve_env in A.
  destruct (a =? MAP_FAILED).
  - apply ret_Ok in H as [_ ->]. exact A.
  - apply bind_Ok in H as (u1 & e2 & C1 & H).
    apply bind_Ok in H as (u2 & e3 & C2 & H).
    apply ret_Ok in H as [_ ->].
    unfold System.release in C1, C2.
    assert (cas e2 = cas e1).
    { match type of C1 with (if ?c then _ else _) _ = _ => destruct c end;
        [apply call_env in C1 as [C1 _]; exact C1|].
      apply ret_Ok in C1 as [_ ->]. reflexivity. }
    assert (cas e3 = cas e2).
    { match type of C2 with (if ?c then _ else _) _ = _ => destruct c end;
        [apply call_env in C2 as [C2 _]; exact C2|].
      apply ret_Ok in C2 as [_ ->]. reflexivity. }
    congruence.
Qed.

Lemma createDirector_dry abi arena sharing secure counts maxSlabCount
  sideDataSize e r e' :
  Director.createDirector abi arena false sharing secure counts maxSlabCount
    sideDataSize e = Ok (r, e') -> e' = e.
Proof.
  unfold Director.createDirector. intros H.
  apply bind_Ok in H as (x & e1 & R & H).
  apply lift_Ok in R as [_ ->]. destruct x as [bases arena0].
  apply bind_Ok in H as (u & e2 & C & H). cbn in C.
  apply ret_Ok in C as [_ ->].
  destruct (Arena.allocate arena0 _) as [roster a1].
  apply bind_Ok in H as (u1 & e3 & P & H). apply lift_Ok in P as [_ ->].
  destruct (Arena.allocate a1 _) as [table a2].
  apply bind_Ok in H as (qs & e4 & Q & H). apply lift_Ok in Q as [_ ->].
  destruct qs as [allocators a3].
  destruct (Arena.allocate a3 _) as [slabs a4].
  destruct (Arena.allocate a4 _) as [slabSideData a5].
  destruct (Arena.allocate a5 _) as [slabAllocator a6].
  destruct (Arena.allocate a6 _) as [director a7].
  apply ret_Ok in H as [_ ->]. reflexivity.
Qed.

(** A Director returned by [create] is the fresh Director, and [create]
    consumes no compare-exchange outcome. *)
Lemma create_fresh abi address secure small medium large maxSlabCount
  sideDataSize e d e' :
  Director.create abi address secure small medium large maxSlabCount
    sideDataSize e = Ok (Some d, e') ->
  exists space base0 base1 base2 sideData0 sideData1 sideData2 slabSideData,
    d = freshDirector space false secure small medium large
          maxSlabCount sideDataSize base0 base1 base2 sideData0 sideData1
          sideData2 slabSideData /\
    cas e' = cas e.
Proof.
  unfold Director.create. intros H.
  apply bind_Ok in H as (dry & e1 & D & H).
  apply createDirector_dry in D as ->.
  apply bind_Ok in H as (b & e2 & B & H).
  assert (Ec : cas e2 = cas e).
  { destruct (address =? ZERO);
      [eapply reserveAligned_env|eapply reserve_env]; exact B. }
  destruct (b =? 0); [apply ret_Ok in H as [[=] _]|].
  apply bind_Ok in H as (r & e3 & C & H).
  apply ret_Ok in H as [Hd ->]. destruct r as [arena' od]. cbn in Hd.
  subst od.
  apply createDirector_fresh in C
    as (sp & a0 & b0 & b1 & b2 & s0 & s1 & s2 & ss & _ & -> & Ec' & _).
  exists sp, b0, b1, b2, s0, s1, s2, ss. split; [reflexivity|congruence].
Qed.

(** ** C3: the roster after construction *)

(** C3 (as amended). Of the roster entries below [SMALLEST_SIZE_ORDER] of
    a Director just created, only the entry of order 0 is the null
    allocator; the constructor then assigns orders 1 to 3 to the first
    quantum allocator, so the entries of orders 1 and 2 are that
    allocator. The whole roster is [initialRoster]. *)
Theorem roster_after_construction :
  forall abi address secure small medium large maxSlabCount sideDataSize
         e d e',
    Director.create abi address secure small medium large maxSlabCount
      sideDataSize e = Ok (Some d, e') ->
    d_roster d = initialRoster /\
    AllocatorRoster.getAllocator d 0 = Ok NullAllocatorRef /\
    AllocatorRoster.getAllocator d 1 = Ok (QuantumAllocatorRef 0) /\
    AllocatorRoster.getAllocator d 2 = Ok (QuantumAllocatorRef 0).
Proof.
  intros abi address secure small medium large maxSlabCount sideDataSize
    e d e' H.
  apply create_fresh in H as (sp & b0 & b1 & b2 & s0 & s1 & s2 & ss & -> & _).
  repeat split.
Qed.

(** An instance of C3: the Director of the first scenario of the
    specification. *)
Lemma roster_after_construction_witness :
  exists d e',
    Director.create lp64 0 false 4 4 2 16 0 (quiet [2 ^ 32])
    = Ok (Some d, e') /\
    d_roster d = initialRoster.
Proof.
  assert (H : exists d e',
             Director.create lp64 0 false 4 4 2 16 0 (quiet [2 ^ 32])
             = Ok (Some d, e')).
  { eexists _, _. lazy. reflexivity. }
  destruct H as (d & e' & H). exists d, e'. split; [exact H|].
  apply (roster_after_construction _ _ _ _ _ _ _ _ _ _ _ H).
Defined.

(** C3 (as stated) fails: the roster entry of order 1 of a Director just
    created is the first quantum allocator, not the null allocator. *)
Lemma roster_after_construction_counterexample :
  outcome (withDirector lp64 0 false 4 4 2 16 0 (rosterEntry 1)
             (quiet [2 ^ 32]))
  = Ok (Some (QuantumAllocatorRef 0)).
Proof. vm_compute. reflexivity. Qed.

(** ** Statistics *)

Lemma lookupZ_Some {A} (l : list A) i a :
  lookupZ l i = Ok a -> 0 <= i /\ l !! Z.to_nat i = Some a.
Proof.
  unfold lookupZ. destruct (0 <=? i) eqn:E; [|discriminate].
  destruct (l !! Z.to_nat i); [|discriminate].
  intros [= ->]. split; [lia|reflexivity].
Qed.

Lemma insertZ_Ok {A} (l l' : list A) i a :
  insertZ l i a = Ok l' ->
  0 <= i < Z.of_nat (length l) /\ l' = <[Z.to_nat i := a]> l.
Proof.
  unfold insertZ.
  destruct ((0 <=? i) && (i <? Z.of_nat (length l))) eqn:E; [|discriminate].
  intros [= <-]. apply andb_true_iff in E. split; [lia|reflexivity].
Qed.

Lemma sum_loop_Ok n : forall array i t r,
  0 <= i ->
  Director.sum_loop n array i (wrap64 t) = Ok r ->
  r = wrap64 (t + fold_right Z.add 0 (take n (drop (Z.to_nat i) array))).
Proof.
  induction n as [|n IH]; intros array i t r Hi H.
  - injection H as <-. rewrite take_0. cbn [fold_right]. f_equal. lia.
  - cbn [Director.sum_loop] in H. apply rbind_Ok in H as (v & L & H).
    apply lookupZ_Some in L as [_ L].
    replace (wrap64 (wrap64 t + v)) with (wrap64 (t + v)) in H
      by (unfold wrap64; rewrite Z.add_mod_idemp_l by lia; reflexivity).
    apply IH in H; [|lia].
    rewrite (drop_S _ _ _ L). cbn [take fold_right].
    replace (Z.to_nat (i + 1)) with (S (Z.to_nat i)) in H by lia.
    rewrite H. f_equal. lia.
Qed.

Lemma slot0_is_total array array' total :
  Director.sum_loop (Z.to_nat (QB_STATS_SIZE - 1)) array 1 0 = Ok total ->
  insertZ array 0 total = Ok array' ->
  lookupZ array' 0 = Ok (wrap64 (sumSlots array' 1 63)).
Proof.
  intros S I. apply (sum_loop_Ok _ _ 1 0) in S; [|lia].
  apply insertZ_Ok in I as [R ->]. unfold lookupZ, sumSlots.
  cbn [Z.leb Z.compare Z.to_nat].
  rewrite list_lookup_insert_eq by lia.
  rewrite drop_insert_lt by (cbn; lia).
  rewrite S. reflexivity.
Qed.

(** C4 (amended): after [stats(counts, sizes)], slot 0 of each array is the
    sum, on 64 bits, of all its other slots, 1 to 63: for the counts, of
    the administrative slot 1 and of the counts by order. *)
Theorem stats_slot0_is_the_sum_of_slots_1_to_63 :
  forall abi d counts sizes,
    Director.stats abi d = Ok (counts, sizes) ->
    lookupZ counts 0 = Ok (wrap64 (sumSlots counts 1 63)) /\
    lookupZ sizes 0 = Ok (wrap64 (sumSlots sizes 1 63)).
Proof.
  intros abi d counts sizes H. unfold Director.stats in H.
  apply rbind_Ok in H as (counts1 & _ & H).
  apply rbind_Ok in H as (sizes1 & _ & H).
  apply rbind_Ok in H as (r & _ & H).
  apply rbind_Ok in H as (r' & _ & H).
  apply rbind_Ok in H as (count & C & H).
  apply rbind_Ok in H as (size & S & H).
  apply rbind_Ok in H as (counts' & IC & H).
  apply rbind_Ok in H as (sizes' & IS & H).
  injection H as <- <-.
  split; [exact (slot0_is_total _ _ _ C IC)|exact (slot0_is_total _ _ _ S IS)].
Qed.

Lemma stats_slot0_is_the_sum_of_slots_1_to_63_witness :
  exists d e' counts sizes,
    Director.create lp64 0 false 1 0 0 0 0 (quiet [2 ^ 32]) = Ok (Some d, e') /\
    Director.stats lp64 d = Ok (counts, sizes) /\
    lookupZ counts 0 = Ok (wrap64 (sumSlots counts 1 63)).
Proof.
  assert (H : exists d e' counts sizes,
             Director.create lp64 0 false 1 0 0 0 0 (quiet [2 ^ 32])
             = Ok (Some d, e') /\
             Director.stats lp64 d = Ok (counts, sizes)).
  { eexists _, _, _, _. split; [lazy; reflexivity|vm_compute; reflexivity]. }
  destruct H as (d & e' & counts & sizes & C & H).
  exists d, e', counts, sizes. split; [exact C|]. split; [exact H|].
  apply (stats_slot0_is_the_sum_of_slots_1_to_63 _ _ _ _ H).
Defined.

(** C4 (as stated) fails: with one block of 32 bytes live, slot 0 of the
    counts is 2, and the slots 3 to 52 add up to 1; the difference is the
    administrative slot 1. *)
Lemma stats_slot0_counterexample :
  outcome (withDirector lp64 0 false 1 0 0 0 0 (census lp64) (quiet [2 ^ 32]))
  = Ok (Some (2, 1)).
Proof. vm_compute. reflexivity. Qed.

(** ** Sizes that are powers of two *)

Lemma roundUpPowerOf2_twoToOrder k :
  0 <= k < 64 -> roundUpPowerOf2 (2 ^ k) = Ok (2 ^ k).
Proof.
  intros H. rewrite <- (Z2Nat.id k) by lia.
  assert (B : (Z.to_nat k < 64)%nat) by lia. revert B.
  generalize (Z.to_nat k) as n. intros n B.
  do 64 (destruct n as [|n]; [reflexivity|]). lia.
Qed.

(** ** A Director just created, at work *)

(** The methods are run on the fresh Director, whose partition counts and
    addresses are variables: a computation is unfolded and simplified up
    to the next test on a variable, which a lemma or [lia] decides. *)

Lemma bind_eq {S A B} (m : M S A) (k : A -> M S B) s a s1 :
  m s = Ok (a, s1) -> bind m k s = k a s1.
Proof. intros H. unfold bind. rewrite H. reflexivity. Qed.

Lemma bind_step {S A B} (m : M S A) (k : A -> M S B) s a s1 r :
  m s = Ok (a, s1) -> k a s1 = r -> bind m k s = r.
Proof. intros H <-. apply bind_eq. exact H. Qed.

Lemma onRegistry_eq {A} (r : RegistryRef) (m : Registry.R A) w g a st d :
  getRegistry (director w) r = Ok g ->
  m (mkRegState g (cas (env w))) = Ok (a, st) ->
  setRegistryAt r (reg st) (director w) = Ok d ->
  onRegistry r m w
  = Ok (a, mkWorld d (mkEnv (sched st) (os (env w)) (trace (env w)))).
Proof.
  intros G R S. unfold onRegistry. rewrite G, R, S. reflexivity.
Qed.

Lemma wrap64_small x : 0 <= x < 2 ^ 64 -> wrap64 x = x.
Proof. intros H. unfold wrap64. apply Z.mod_small. exact H. Qed.

Lemma wordsFor_range count :
  1 <= count <= MAX_REGISTRY_BIT_COUNT ->
  1 <= wordsFor count <= MAX_REGISTRY_WORD_COUNT.
Proof.
  intros H. unfold wordsFor, wrap64, to_int, BITS_PER_WORD, BITS_PER_WORD_ORDER.
  change MAX_REGISTRY_BIT_COUNT with 16384 in H.
  change MAX_REGISTRY_WORD_COUNT with 256.
  rewrite (Z.mod_small (count + 64 - 1) (2 ^ 64)) by lia.
  rewrite Z.shiftr_div_pow2 by lia. change (2 ^ 6) with 64.
  assert (1 <= (count + 64 - 1) / 64 <= 256).
  { split.
    - apply Z.div_le_lower_bound; lia.
    - assert ((count + 64 - 1) / 64 < 257); [|lia].
      apply Z.div_lt_upper_bound; lia. }
  rewrite Z.mod_small by lia. lia.
Qed.

(** [findFree] on a word with a free bit: the rounds that a failed
    compare-exchange ends are repeated, and the lowest free bit is
    claimed. *)
Lemma findFree_loop_claims schedule : forall n w r v,
  (length schedule < n)%nat ->
  Registry.getBits r w = Ok v ->
  w <> maximumWordIndex r ->
  v <> ALL_ONES ->
  0 <= ctz (not64 v) < 64 ->
  Registry.getIndex w (ctz (not64 v)) < maximumIndex r ->
  Registry.findFree_loop n w (mkRegState r schedule)
  = Ok (Registry.getIndex w (ctz (not64 v)),
        mkRegState
          (mkRegistry (maximumIndex r) (maximumWordIndex r) (lowestIndex r)
             (<[Z.to_nat w := Z.lor v (wrap64 (Z.shiftl 1 (ctz (not64 v))))]>
                (bits r)))
          (settle schedule)).
Proof.
  induction schedule as [|outcome rest IH]; intros n w r v Hf Hv Hw Hn Hb Hi;
    (destruct n as [|n]; [cbn in Hf; lia|]);
    cbn [Registry.findFree_loop];
    unfold bind, Registry.load, lift, Registry.swapBits, Registry.nextCas,
      Registry.storeBits, ret, bind, Registry.load, shl64;
    lazy beta iota delta [reg sched fst snd];
    (destruct (w =? maximumWordIndex r) eqn:E; [lia|]);
    rewrite Hv; lazy beta iota delta [reg sched fst snd];
    (destruct (v =? ALL_ONES) eqn:E2; [lia|]);
    (destruct (maximumIndex r <=? _) eqn:E3; [lia|]);
    (destruct ((0 <=? ctz (not64 v)) && (ctz (not64 v) <? 64)) eqn:E4;
     [|lia]);
    lazy beta iota delta [reg sched fst snd];
    rewrite Hv; lazy beta iota delta [reg sched fst snd];
    pose proof Hv as G; unfold Registry.getBits in G;
    (destruct ((0 <=? w) && (w <? MAX_REGISTRY_WORD_COUNT)); [|discriminate]);
    rewrite Z.eqb_refl.
  - reflexivity.
  - destruct outcome; [reflexivity|].
    cbn [andb fst settle]. apply IH; try assumption. cbn in Hf. lia.
Qed.

Lemma findFree_first_bit r schedule :
  lowestIndex r = 0 ->
  Registry.getBits r 0 = Ok 0 ->
  maximumWordIndex r <> 0 ->
  0 < maximumIndex r ->
  Registry.findFree (mkRegState r schedule)
  = Ok (0, mkRegState
             (mkRegistry (maximumIndex r) (maximumWordIndex r) 0
                (<[0%nat := 1]> (bits r)))
             (settle schedule)).
Proof.
  intros L G W I. unfold Registry.findFree.
  rewrite (bind_eq _ _ _ 0 (mkRegState r schedule))
    by (unfold Registry.getLowestIndex, Registry.load; cbn; rewrite L;
        reflexivity).
  rewrite (findFree_loop_claims schedule _ 0 r 0).
  - rewrite L. reflexivity.
  - unfold Registry.retryBound. cbn [sched]. lia.
  - exact G.
  - lia.
  - discriminate.
  - change (ctz (not64 0)) with 0. lia.
  - change (ctz (not64 0)) with 0. exact I.
Qed.

Lemma fresh_findFree count schedule :
  1 <= count <= MAX_REGISTRY_BIT_COUNT ->
  Registry.findFree (mkRegState (freshRegistry count) schedule)
  = Ok (0, mkRegState
             (mkRegistry count (wordsFor count) 0
                (<[0%nat := 1]>
                   (replicate (Z.to_nat MAX_REGISTRY_WORD_COUNT) 0)))
             (settle schedule)).
Proof.
  intros H. pose proof (wordsFor_range count H).
  apply (findFree_first_bit (freshRegistry count)); try reflexivity.
  - unfold freshRegistry. cbn [maximumWordIndex]. lia.
  - unfold freshRegistry. cbn [maximumIndex]. lia.
Qed.

Lemma nextSet_loop_fresh count words lowest n : forall w,
  0 <= w -> w + Z.of_nat n <= MAX_REGISTRY_WORD_COUNT ->
  RegistryIsSetIterator.nextSet_loop
    (mkRegistry count words lowest
       (replicate (Z.to_nat MAX_REGISTRY_WORD_COUNT) 0)) n w 0
  = Ok (NOT_FOUND, count).
Proof.
  induction n as [|n IH]; intros w Hw Hn; [reflexivity|].
  cbn [RegistryIsSetIterator.nextSet_loop].
  unfold Registry.getBits. cbn [bits].
  destruct ((0 <=? w) && (w <? MAX_REGISTRY_WORD_COUNT)) eqn:E;
    [|change MAX_REGISTRY_WORD_COUNT with 256 in *; lia].
  rewrite lookup_replicate_2
    by (change MAX_REGISTRY_WORD_COUNT with 256 in *; lia).
  cbn [rbind]. change (twoToOrder 0) with (Ok 1). cbn [rbind].
  change (Z.land 0 (not64 (MASK 1))) with 0.
  cbn [Z.eqb negb]. apply IH; lia.
Qed.

Lemma nextSet_fresh count :
  0 <= count <= MAX_REGISTRY_BIT_COUNT ->
  RegistryIsSetIterator.nextSet (freshRegistry count) 0 = Ok (NOT_FOUND, count).
Proof.
  intros H. unfold RegistryIsSetIterator.nextSet, freshRegistry.
  cbn [maximumWordIndex].
  change (Registry.getBitIndex 0) with 0. change (Registry.getWordIndex 0) with 0.
  apply nextSet_loop_fresh; [lia|].
  destruct (Z.eq_dec count 0) as [->|].
  - change (wordsFor 0) with 0. change MAX_REGISTRY_WORD_COUNT with 256. lia.
  - pose proof (wordsFor_range count ltac:(lia)). lia.
Qed.

Lemma allocate_loop_S n a size it :
  QuantumAllocator.allocate_loop (S n) a size it
  = (r <- QuantumAllocator.PartitionIterator.next a it ;;
     match fst r with
     | None => ret 0
     | Some partition =>
         address <- Partition.allocate a partition size ;;
         if negb (address =? 0) then ret address
         else QuantumAllocator.allocate_loop n a size (snd r)
     end).
Proof. reflexivity. Qed.

Lemma allocateBulkContiguous_loop_S n a count it allocated addresses :
  QuantumAllocator.allocateBulkContiguous_loop (S n) a count it allocated
    addresses
  = (if negb (allocated <? count) then ret (allocated, addresses)
     else
       r <- QuantumAllocator.PartitionIterator.next a it ;;
       match fst r with
       | None => ret (allocated, addresses)
       | Some partition =>
           b <- Partition.allocateBulkContiguous a partition count addresses ;;
           QuantumAllocator.allocateBulkContiguous_loop n a count (snd r)
             (allocated + fst b) (snd b)
       end).
Proof. reflexivity. Qed.

Arguments Registry.findFree : simpl never.
Arguments Registry.findFreeRange : simpl never.
Arguments Registry.findFree_loop : simpl never.
Arguments RegistryIsSetIterator.nextSet : simpl never.
Arguments QuantumAllocator.freeUpPartition : simpl never.
Arguments QuantumAllocator.allocate_loop : simpl never.
Arguments QuantumAllocator.allocateBulkContiguous_loop : simpl never.
Arguments wrap64 : simpl never.
Arguments freshRegistry : simpl never.

Ltac positive_literal p :=
  lazymatch p with
  | xH => idtac
  | xO ?q => positive_literal q
  | xI ?q => positive_literal q
  end.

Ltac literal z :=
  lazymatch z with
  | Z0 => idtac
  | Zpos ?p => positive_literal p
  | Zneg ?p => positive_literal p
  end.

Ltac evaluate t := let v := eval vm_compute in t in change t with v.

(** Evaluation of the arithmetic on literals, which [simpl] leaves. *)
Ltac arith :=
  repeat match goal with
    | |- context [?a + ?b] => literal a; literal b; evaluate (a + b)
    | |- context [?a - ?b] => literal a; literal b; evaluate (a - b)
    | |- context [?a * ?b] => literal a; literal b; evaluate (a * b)
    | |- context [?a ^ ?b] => literal a; literal b; evaluate (a ^ b)
    | |- context [Z.shiftl ?a ?b] =>
        literal a; literal b; evaluate (Z.shiftl a b)
    | |- context [Z.shiftr ?a ?b] =>
        literal a; literal b; evaluate (Z.shiftr a b)
    | |- context [wrap64 ?a] => literal a; evaluate (wrap64 a)
    | |- context [to_int ?a] => literal a; evaluate (to_int a)
    | |- context [sizeToOrder ?a] => literal a; evaluate (sizeToOrder a)
    | |- context [Registry.getIndex ?a ?b] =>
        literal a; literal b; evaluate (Registry.getIndex a b)
    end.

Ltac constants :=
  change SMALLEST_SIZE_ORDER with 3;
  change MAX_QUANTUM_ALLOCATOR_ORDERS with 8;
  change NOT_FOUND with (-1);
  change ZERO with 0;
  change BITS_PER_WORD with 64;
  change BITS_PER_WORD_ORDER with 6;
  change MAX_PARTITION_QUANTUM with 16384.

Ltac exec :=
  unfold readRegistry, onRegistry, bind, lift, readDirector, writeDirector,
    sys, ret;
  simpl; constants; arith; simpl.

Lemma mulInt_0_r a : mulInt a 0 = Ok 0.
Proof. unfold mulInt. rewrite Z.mul_0_r. reflexivity. Qed.

Lemma mulInt_0_l b : mulInt 0 b = Ok 0.
Proof. unfold mulInt. rewrite Z.mul_0_l. reflexivity. Qed.

(** [PartitionIterator::next] on a quantum allocator without a partition
    on line brings the partition 0 on line; the rest of the round is run
    by [exec]. *)
Ltac firstPartition base :=
  unfold QuantumAllocator.PartitionIterator.next; exec;
  rewrite nextSet_fresh by lia; simpl;
  unfold QuantumAllocator.getFreePartition,
    QuantumAllocator.newOrderPartition, QuantumAllocator.allocatePartition,
    QuantumAllocator.this;
  exec;
  rewrite fresh_findFree by lia;
  exec;
  unfold QuantumAllocator.newPartition, QuantumAllocator.this; exec;
  rewrite ?mulInt_0_r; exec; rewrite ?mulInt_0_l; exec;
  rewrite (Z.add_0_r base), (wrap64_small base) by lia;
  exec; reflexivity.

Lemma allocate_zero_fresh sp secure small medium large maxSlabCount
  sideDataSize base0 base1 base2 sideData0 sideData1 sideData2 slabSideData
  schedule os trace :
  1 <= small <= MAX_REGISTRY_BIT_COUNT ->
  0 < base0 -> base0 + 2 ^ 17 * small < 2 ^ 64 ->
  exists w',
    Director.allocate 0
      (mkWorld
         (freshDirector sp false secure small medium large maxSlabCount
            sideDataSize base0 base1 base2 sideData0 sideData1 sideData2
            slabSideData)
         (mkEnv schedule os trace))
    = Ok (base0, w') /\
    Director.allocationSize (director w') base0 = Ok 8.
Proof.
  intros Hs Hb Hl.
  assert (En : exists n, Z.to_nat small = S n)
    by (exists (Z.to_nat (small - 1)); lia).
  destruct En as [n En].
  eexists. split.
  - unfold freshDirector. unfold freshTier at 1. constants. arith.
    rewrite En.
    unfold Director.allocate. exec.
    unfold QuantumAllocator.allocate, QuantumAllocator.this,
      QuantumAllocator.PartitionIterator.create,
      QuantumAllocator.getOrderIndex.
    exec.
    unfold QuantumAllocator.rounds. simpl. rewrite allocate_loop_S.
    eapply bind_step.
    { firstPartition base0. }
    cbv beta iota delta [fst snd].
    eapply bind_step.
    { unfold Partition.allocate. eapply bind_step.
      { eapply onRegistry_eq.
        - simpl. reflexivity.
        - cbn [env cas]. apply findFree_first_bit; try reflexivity.
          cbn [maximumWordIndex]. discriminate.
        - simpl. reflexivity. }
      cbv beta. unfold Partition.this. exec.
      rewrite (Z.add_0_r base0), (wrap64_small base0) by lia.
      reflexivity. }
    cbv beta. rewrite (proj2 (Z.eqb_neq base0 0)) by lia. reflexivity.
  - cbn [director]. unfold Director.allocationSize, Director.quantumAllocatorOf.
    simpl. unfold Space.in_, Space.create. cbn [base limit].
    rewrite (wrap64_small small), (wrap64_small (131072 * small)),
      (wrap64_small (base0 + 131072 * small)) by lia.
    rewrite Z.leb_refl, (proj2 (Z.ltb_lt base0 (base0 + 131072 * small)))
      by lia.
    simpl.
    unfold QuantumAllocator.allocationSize, QuantumAllocator.getPartitionIndex.
    cbn [base space q_allocator setPartitions setOrderRegistry
         setPartitionRegistry q_partitionSizeOrder].
    rewrite Z.sub_diag. unfold orderDiv, shr64. arith. simpl. arith. simpl.
    reflexivity.
Qed.

(** ** The placement of a Director just created *)

Lemma roundUp_twoToOrder k x :
  0 <= k < 64 -> 0 <= x -> x + 2 ^ k <= 2 ^ 64 ->
  roundUp x (2 ^ k) = (x + 2 ^ k - 1) / 2 ^ k * 2 ^ k.
Proof.
  intros Hk Hx Hb.
  assert (P : 0 < 2 ^ k) by (apply Z.pow_pos_nonneg; lia).
  assert (Q : 2 ^ k < 2 ^ 64) by (apply Z.pow_lt_mono_r; lia).
  unfold roundUp, MASK.
  rewrite (wrap64_small (2 ^ k - 1)) by lia.
  rewrite (wrap64_small (x + (2 ^ k - 1))) by lia.
  replace (x + (2 ^ k - 1)) with (x + 2 ^ k - 1) by lia.
  set (y := x + 2 ^ k - 1). assert (Hy : 0 <= y < 2 ^ 64) by (unfold y; lia).
  rewrite <- Z.shiftr_div_pow2, <- Z.shiftl_mul_pow2 by lia.
  apply Z.bits_inj'. intros i Hi.
  unfold not64, ALL_ONES.
  replace (2 ^ 64 - 1) with (Z.ones 64) by reflexivity.
  replace (2 ^ k - 1) with (Z.ones k)
    by (rewrite Z.ones_equiv; lia).
  rewrite Z.land_spec, Z.lxor_spec, !Z.testbit_ones_nonneg by lia.
  destruct (Z.ltb_spec i k) as [Lk|Lk].
  - rewrite Z.shiftl_spec_low by lia.
    destruct (Z.ltb_spec i 64); [|lia]. apply andb_false_r.
  - rewrite Z.shiftl_spec, Z.shiftr_spec by lia.
    replace (i - k + k) with i by lia.
    destruct (Z.ltb_spec i 64) as [L|L]; [apply andb_true_r|].
    cbn [xorb]. rewrite andb_false_r. symmetry.
    destruct (Z.eq_dec y 0) as [->|]; [apply Z.bits_0|].
    apply Z.bits_above_log2; [lia|].
    assert (Z.log2 y < 64) by (apply Z.log2_lt_pow2; lia). lia.
Qed.

Lemma roundUp_bounds k x :
  0 <= k < 64 -> 0 <= x -> x + 2 ^ k <= 2 ^ 64 ->
  x <= roundUp x (2 ^ k) < x + 2 ^ k.
Proof.
  intros Hk Hx Hb. rewrite roundUp_twoToOrder by assumption.
  assert (P : 0 < 2 ^ k) by (apply Z.pow_pos_nonneg; lia).
  pose proof (Z.div_mod (x + 2 ^ k - 1) (2 ^ k) ltac:(lia)) as D.
  pose proof (Z.mod_pos_bound (x + 2 ^ k - 1) (2 ^ k) P) as M.
  lia.
Qed.

Lemma roundUp_multiple k n :
  0 <= k < 64 -> 0 <= n -> n * 2 ^ k + 2 ^ k <= 2 ^ 64 ->
  roundUp (n * 2 ^ k) (2 ^ k) = n * 2 ^ k.
Proof.
  intros Hk Hn Hb.
  assert (P : 0 < 2 ^ k) by (apply Z.pow_pos_nonneg; lia).
  rewrite roundUp_twoToOrder by (try assumption; nia).
  f_equal.
  replace (n * 2 ^ k + 2 ^ k - 1) with ((2 ^ k - 1) + n * 2 ^ k) by lia.
  rewrite Z.div_add by lia. rewrite Z.div_small by lia. lia.
Qed.

(** *** The arena *)

Lemma allocate_fits a size :
  0 <= next a -> 0 <= size -> next a + size + 8 <= 2 ^ 64 ->
  next a + roundUp size 8 <= limit (arena_space a) ->
  Arena.allocate a size
  = (next a, mkArena (arena_space a) (next a + roundUp size 8)).
Proof.
  intros Hn Hs Hb Hl. unfold Arena.allocate.
  change BYTES_PER_WORD with (2 ^ 3) in *. change 8 with (2 ^ 3) in *.
  pose proof (roundUp_bounds 3 size ltac:(lia) Hs ltac:(lia)) as R.
  rewrite wrap64_small by lia.
  destruct (limit (arena_space a) <? next a + roundUp size (2 ^ 3)) eqn:E;
    [lia|reflexivity].
Qed.

(** In the sizing arena every allocation succeeds. *)
Lemma sizing_allocate a size bound :
  limit (arena_space a) = ALL_ONES ->
  0 <= next a -> 0 <= size <= bound -> next a + bound + 8 <= 2 ^ 64 ->
  exists a',
    Arena.allocate a size = (next a, a') /\
    arena_space a' = arena_space a /\
    next a <= next a' <= next a + bound + 8.
Proof.
  intros Hl Hn Hs Hb.
  pose proof (roundUp_bounds 3 size ltac:(lia) ltac:(lia) ltac:(lia)) as R.
  change (2 ^ 3) with 8 in R.
  eexists. split; [apply allocate_fits; try lia|].
  - rewrite Hl. unfold ALL_ONES. lia.
  - cbn [arena_space next]. split; [reflexivity|lia].
Qed.

Lemma orderMul_count count order :
  0 <= count <= MAX_REGISTRY_BIT_COUNT -> 0 <= order <= 33 ->
  orderMul (wrap64 count) order = Ok (count * 2 ^ order).
Proof.
  intros Hc Ho. change MAX_REGISTRY_BIT_COUNT with 16384 in Hc.
  unfold orderMul, shl64.
  destruct ((0 <=? order) && (order <? 64)) eqn:E; [|lia].
  assert (0 < 2 ^ order <= 2 ^ 33).
  { split; [apply Z.pow_pos_nonneg; lia|apply Z.pow_le_mono_r; lia]. }
  rewrite (wrap64_small count), Z.shiftl_mul_pow2 by lia.
  rewrite wrap64_small by nia. reflexivity.
Qed.

(** The regions of the three quantum allocators, in an arena that has
    room for them. *)
Lemma regions_placed a small medium large :
  0 <= small <= MAX_REGISTRY_BIT_COUNT ->
  0 <= medium <= MAX_REGISTRY_BIT_COUNT ->
  0 <= large <= MAX_REGISTRY_BIT_COUNT ->
  0 <= next a ->
  next a + 2 ^ 33 * large + 2 ^ 25 * medium + 2 ^ 17 * small
    <= limit (arena_space a) ->
  next a + 2 ^ 33 * large + 2 ^ 25 * medium + 2 ^ 17 * small + 8 <= 2 ^ 64 ->
  Director.regions (Z.to_nat MAX_QUANTUM_ALLOCATORS) a [small; medium; large]
    (LARGEST_SIZE_ORDER - MAX_QUANTUM_ALLOCATOR_ORDERS + 1) []
  = Ok ([next a + 2 ^ 33 * large + 2 ^ 25 * medium;
         next a + 2 ^ 33 * large;
         next a],
        mkArena (arena_space a)
          (next a + 2 ^ 33 * large + 2 ^ 25 * medium + 2 ^ 17 * small)).
Proof.
  intros Hs Hm Hl Hn Hr Hb.
  change (Z.to_nat MAX_QUANTUM_ALLOCATORS) with 3%nat.
  change (LARGEST_SIZE_ORDER - MAX_QUANTUM_ALLOCATOR_ORDERS + 1) with 19.
  cbn [Director.regions].
  change (orderMul MAX_PARTITION_QUANTUM 19) with (Ok (2 ^ 33)).
  change (orderMul MAX_PARTITION_QUANTUM (19 - MAX_QUANTUM_ALLOCATOR_ORDERS))
    with (Ok (2 ^ 25)).
  change (orderMul MAX_PARTITION_QUANTUM
            (19 - MAX_QUANTUM_ALLOCATOR_ORDERS - MAX_QUANTUM_ALLOCATOR_ORDERS))
    with (Ok (2 ^ 17)).
  cbn [rbind].
  change (sizeToOrder (2 ^ 33)) with 33. change (sizeToOrder (2 ^ 25)) with 25.
  change (sizeToOrder (2 ^ 17)) with 17.
  change (lookupZ [small; medium; large] (Z.of_nat 2)) with (Ok large).
  change (lookupZ [small; medium; large] (Z.of_nat 1)) with (Ok medium).
  change (lookupZ [small; medium; large] (Z.of_nat 0)) with (Ok small).
  cbn [rbind]. rewrite !orderMul_count by lia. cbn [rbind].
  change MAX_REGISTRY_BIT_COUNT with 16384 in *.
  assert (R2 : roundUp (large * 2 ^ 33) 8 = large * 2 ^ 33).
  { replace (large * 2 ^ 33) with (large * 2 ^ 30 * 2 ^ 3) by lia.
    change 8 with (2 ^ 3). apply roundUp_multiple; lia. }
  assert (R1 : roundUp (medium * 2 ^ 25) 8 = medium * 2 ^ 25).
  { replace (medium * 2 ^ 25) with (medium * 2 ^ 22 * 2 ^ 3) by lia.
    change 8 with (2 ^ 3). apply roundUp_multiple; lia. }
  assert (R0 : roundUp (small * 2 ^ 17) 8 = small * 2 ^ 17).
  { replace (small * 2 ^ 17) with (small * 2 ^ 14 * 2 ^ 3) by lia.
    change 8 with (2 ^ 3). apply roundUp_multiple; lia. }
  rewrite allocate_fits by (rewrite ?R2; lia). rewrite R2.
  rewrite allocate_fits by (cbn [next arena_space]; rewrite ?R1; lia).
  cbn [next arena_space]. rewrite R1.
  rewrite allocate_fits by (cbn [next arena_space]; rewrite ?R0; lia).
  cbn [next arena_space]. rewrite R0.
  rewrite (Z.mul_comm large), (Z.mul_comm medium), (Z.mul_comm small).
  reflexivity.
Qed.

Lemma sizesFit_bounds abi :
  sizesFit abi = true ->
  (0 <= sizeof_AllocatorRoster abi <= 2 ^ 32) /\
  (0 <= sizeof_pointer abi <= 2 ^ 32) /\
  (0 <= sizeof_Partition abi <= 2 ^ 32) /\
  (0 <= sizeof_QuantumAllocator abi <= 2 ^ 32) /\
  (0 <= sizeof_Slab abi <= 2 ^ 32) /\
  (0 <= sizeof_SlabAllocator abi <= 2 ^ 32) /\
  (0 <= sizeof_Director abi <= 2 ^ 32).
Proof.
  unfold sizesFit. cbn [forallb]. rewrite !andb_true_iff. lia.
Qed.

Lemma inRange_bounds small medium large maxSlabCount sideDataSize :
  inRange small medium large maxSlabCount sideDataSize = true ->
  (0 <= small <= 16384) /\ (0 <= medium <= 16384) /\
  (0 <= large <= 16384) /\ (0 <= maxSlabCount <= 16384) /\
  (0 <= sideDataSize <= 2 ^ 16).
Proof.
  unfold inRange. cbn [forallb]. change MAX_REGISTRY_BIT_COUNT with 16384.
  rewrite !andb_true_iff. lia.
Qed.

Lemma sideData_bound count sideDataSize :
  0 <= count <= 16384 -> 0 <= sideDataSize <= 2 ^ 16 ->
  0 <= wrap64 (wrap64 count * wrap64 sideDataSize * MAX_PARTITION_QUANTUM)
    <= 2 ^ 46.
Proof.
  intros Hc Hs. change MAX_PARTITION_QUANTUM with 16384.
  rewrite (wrap64_small count), (wrap64_small sideDataSize) by lia.
  assert (0 <= count * sideDataSize <= 16384 * 2 ^ 16) by nia.
  rewrite wrap64_small by lia. lia.
Qed.

Lemma partitions_bound size count :
  0 <= size <= 2 ^ 32 -> 0 <= count <= 16384 ->
  0 <= wrap64 (size * wrap64 count) <= 2 ^ 46.
Proof.
  intros Hs Hc. rewrite (wrap64_small count) by lia.
  assert (0 <= size * count <= 2 ^ 32 * 16384) by nia.
  rewrite wrap64_small by lia. lia.
Qed.

Lemma slabs_bound size count :
  0 <= size <= 2 ^ 32 -> 0 <= count <= 16384 ->
  0 <= wrap64 (wrap64 count * size) <= 2 ^ 46.
Proof.
  intros Hs Hc. rewrite (wrap64_small count) by lia.
  assert (0 <= count * size <= 16384 * 2 ^ 32) by nia.
  rewrite wrap64_small by lia. lia.
Qed.

Lemma slabSideData_bound sideDataSize count :
  0 <= sideDataSize <= 2 ^ 16 -> 0 <= count <= 16384 ->
  0 <= wrap64 (count * sideDataSize) <= 2 ^ 46.
Proof.
  intros Hs Hc.
  assert (0 <= count * sideDataSize <= 16384 * 2 ^ 16) by nia.
  rewrite wrap64_small by lia. lia.
Qed.

Lemma table_bound size :
  0 <= size <= 2 ^ 32 ->
  0 <= wrap64 (MAX_QUANTUM_ALLOCATORS * size) <= 2 ^ 46.
Proof.
  intros Hs. change MAX_QUANTUM_ALLOCATORS with 3.
  rewrite wrap64_small by lia. lia.
Qed.

(** The next allocation of the sizing arena goes through. *)
Ltac sizing :=
  match goal with
  | |- context [Arena.allocate ?a ?s] =>
      let a' := fresh "a" in
      let E := fresh "E" in
      let Sp := fresh "Sp" in
      let Nx := fresh "Nx" in
      destruct (sizing_allocate a s (2 ^ 46)) as (a' & E & Sp & Nx);
      [ try (cbn [arena_space]; congruence)
      | try (cbn [next]; lia)
      | first [ solve [apply sideData_bound; lia]
              | solve [apply partitions_bound; lia]
              | solve [apply slabs_bound; lia]
              | solve [apply slabSideData_bound; lia]
              | solve [apply table_bound; lia]
              | lia ]
      | try (cbn [next]; lia)
      | rewrite E; clear E ]
  end.

(** The dry run of [createDirector] in the sizing arena: the size of the
    administrative structures and of the regions. *)
Lemma createDirector_sizing abi sharing secure small medium large
  maxSlabCount sideDataSize e :
  sizesFit abi = true ->
  inRange small medium large maxSlabCount sideDataSize = true ->
  exists arena',
    Director.createDirector abi Arena.sizing false sharing secure
      [small; medium; large] maxSlabCount sideDataSize e
    = Ok ((arena', None), e) /\
    2 ^ 33 * large + 2 ^ 25 * medium + 2 ^ 17 * small
      <= Arena.allocated arena' <= 2 ^ 51.
Proof.
  intros Ha Hr.
  apply sizesFit_bounds in Ha as (A1 & A2 & A3 & A4 & A5 & A6 & A7).
  apply inRange_bounds in Hr as (Hs & Hm & Hl & Hc & Hd).
  unfold Director.createDirector.
  change Arena.sizing with (mkArena (mkSpace 0 ALL_ONES) 0).
  erewrite bind_eq; cycle 1.
  { unfold lift. rewrite regions_placed;
      try (change MAX_REGISTRY_BIT_COUNT with 16384; lia);
      try (cbn [next arena_space limit]; unfold ALL_ONES; lia).
    reflexivity. }
  cbn [andb]. rewrite (bind_eq _ _ _ tt e) by reflexivity.
  set (a0 := mkArena _ _).
  assert (Sp0 : limit (arena_space a0) = ALL_ONES) by reflexivity.
  assert (Bs0 : base (arena_space a0) = 0) by reflexivity.
  assert (Nx0 : next a0
                = 2 ^ 33 * large + 2 ^ 25 * medium + 2 ^ 17 * small)
    by (cbn; lia).
  clearbody a0.
  sizing.
  rewrite (bind_eq _ _ _ tt e) by reflexivity.
  sizing.
  unfold bind at 1. unfold lift at 1.
  change (Z.to_nat MAX_QUANTUM_ALLOCATORS) with 3%nat.
    cbn [Director.quantumAllocators].
    change (orderMul MAX_PARTITION_QUANTUM SMALLEST_SIZE_ORDER)
      with (Ok (2 ^ 17)).
    change (orderMul MAX_PARTITION_QUANTUM
              (SMALLEST_SIZE_ORDER + MAX_QUANTUM_ALLOCATOR_ORDERS))
      with (Ok (2 ^ 25)).
    change (orderMul MAX_PARTITION_QUANTUM
              (SMALLEST_SIZE_ORDER + MAX_QUANTUM_ALLOCATOR_ORDERS +
               MAX_QUANTUM_ALLOCATOR_ORDERS))
      with (Ok (2 ^ 33)).
    cbn [rbind].
    change (lookupZ [small; medium; large] 0) with (Ok small).
    change (lookupZ [small; medium; large] (0 + 1)) with (Ok medium).
    change (lookupZ [small; medium; large] (0 + 1 + 1)) with (Ok large).
    cbn [rbind]. unfold lookupZ at 1 2 3.
    change (0 <=? 0) with true. change (0 <=? 0 + 1) with true.
    change (0 <=? 0 + 1 + 1) with true.
    change (Z.to_nat 0) with 0%nat. change (Z.to_nat (0 + 1)) with 1%nat.
    change (Z.to_nat (0 + 1 + 1)) with 2%nat.
    cbn [lookup list_lookup rbind].
  do 9 sizing.
  cbn [rbind app fst snd].
  do 4 sizing.
  eexists. split; [reflexivity|].
  unfold Arena.allocated.
  replace (arena_space a14) with (arena_space a0) by congruence.
  rewrite Bs0, Z.sub_0_r, wrap64_small by lia. lia.
Qed.

(** *** The reservation *)

Lemma mmap_address e m e' :
  System.mmap e = Ok (m, e') -> addressable e = true ->
  m = MAP_FAILED \/ 0 <= m < 2 ^ MAX_ADDRESS_ORDER.
Proof.
  unfold System.mmap, addressable. destruct (os e) as [|a rest].
  - intros [= <- _] _. left. reflexivity.
  - intros [= <- _] A. cbn [forallb] in A. right.
    apply andb_true_iff in A as [A _]. lia.
Qed.

Lemma reserve_address size location e b e' :
  System.reserve size location e = Ok (b, e') -> addressable e = true ->
  0 <= b < 2 ^ MAX_ADDRESS_ORDER.
Proof.
  unfold System.reserve. intros H A.
  apply bind_Ok in H as (m & e1 & M & H).
  apply bind_Ok in H as (u & e2 & _ & H). apply ret_Ok in H as [-> _].
  change MAX_ADDRESS_ORDER with 52 in *.
  destruct (mmap_address _ _ _ M A) as [->|R]; [rewrite Z.eqb_refl; lia|].
  change MAX_ADDRESS_ORDER with 52 in R.
  destruct (m =? MAP_FAILED); lia.
Qed.

Lemma reserveAligned_address size e b e' :
  System.reserveAligned size (2 ^ LARGEST_SIZE_ORDER) e = Ok (b, e') ->
  addressable e = true ->
  0 <= b < 2 ^ 53.
Proof.
  unfold System.reserveAligned. intros H A.
  apply bind_Ok in H as (m & e1 & M & H).
  apply reserve_address in M; [|exact A].
  change MAX_ADDRESS_ORDER with 52 in M.
  destruct (m =? MAP_FAILED); [apply ret_Ok in H as [-> _]; lia|].
  apply bind_Ok in H as (u1 & e2 & _ & H).
  apply bind_Ok in H as (u2 & e3 & _ & H).
  apply ret_Ok in H as [-> _].
  change LARGEST_SIZE_ORDER with 26.
  pose proof (roundUp_bounds 26 m ltac:(lia) ltac:(lia) ltac:(lia)). lia.
Qed.

(** A Director that [create] returns, for sizes and counts in range and
    addresses that the operating system can return: the regions of the
    quantum allocators follow one another from the non-null base of the
    reservation on, the last allocator first, below the end of the
    address space. *)
Lemma create_placed abi address secure small medium large maxSlabCount
  sideDataSize e d e' :
  Director.create abi address secure small medium large maxSlabCount
    sideDataSize e = Ok (Some d, e') ->
  sizesFit abi = true ->
  inRange small medium large maxSlabCount sideDataSize = true ->
  addressable e = true ->
  exists sp base sideData0 sideData1 sideData2 slabSideData,
    d = freshDirector sp false secure small medium large maxSlabCount
          sideDataSize (base + 2 ^ 33 * large + 2 ^ 25 * medium)
          (base + 2 ^ 33 * large) base sideData0 sideData1 sideData2
          slabSideData /\
    0 < base /\
    base + 2 ^ 33 * large + 2 ^ 25 * medium + 2 ^ 17 * small < 2 ^ 64 /\
    cas e' = cas e.
Proof.
  unfold Director.create. intros H Ha Hr Ho.
  destruct (createDirector_sizing abi false secure small medium large
              maxSlabCount sideDataSize e Ha Hr) as (dry & D & T).
  rewrite (bind_eq _ _ _ _ _ D) in H. cbn [fst] in H.
  pose proof (inRange_bounds _ _ _ _ _ Hr) as (Hs & Hm & Hl & Hc & Hd).
  set (size := roundUp (Arena.allocated dry) PAGE_SIZE) in H.
  assert (Sz : Arena.allocated dry <= size < 2 ^ 52).
  { unfold size. change PAGE_SIZE with (2 ^ 12).
    pose proof (roundUp_bounds 12 (Arena.allocated dry) ltac:(lia) ltac:(lia)
                  ltac:(lia)).
    lia. }
  apply bind_Ok in H as (b & e2 & B & H).
  assert (Hb : 0 <= b < 2 ^ 53).
  { destruct (address =? ZERO).
    - eapply reserveAligned_address; eauto.
    - apply reserve_address in B; [|exact Ho].
      change MAX_ADDRESS_ORDER with 52 in B. lia. }
  assert (Ec : cas e2 = cas e).
  { destruct (address =? ZERO);
      [eapply reserveAligned_env|eapply reserve_env]; exact B. }
  destruct (b =? 0) eqn:Eb; [apply ret_Ok in H as [[=] _]|].
  apply bind_Ok in H as (r & e3 & C & H).
  apply ret_Ok in H as [Hd' ->]. destruct r as [arena' od]. cbn in Hd'.
  subst od.
  apply createDirector_fresh in C
    as (sp & a0 & b0 & b1 & b2 & s0 & s1 & s2 & ss & R & -> & Ec' & _).
  rewrite regions_placed in R;
    try (change MAX_REGISTRY_BIT_COUNT with 16384; lia);
    unfold Arena.create, Space.create in *; cbn [next arena_space limit] in *;
    rewrite ?(wrap64_small (b + size)) by lia; try lia.
  injection R as <- <- <- _.
  exists sp, b, s0, s1, s2, ss.
  split; [reflexivity|]. split; [lia|]. split; [lia|congruence].
Qed.

(** ** Addresses the Director does not manage *)

Lemma existsb_false {A} (f : A -> bool) l x :
  existsb f l = false -> In x l -> f x = false.
Proof.
  intros H I. destruct (f x) eqn:E; [|reflexivity].
  rewrite <- H. symmetry. apply existsb_exists. exists x. auto.
Qed.

Lemma isSet_returns r i :
  wellFormed r = true -> 0 <= i < MAX_REGISTRY_BIT_COUNT ->
  exists b, Registry.isSet r i = Ok b.
Proof.
  intros W Hi. unfold Registry.isSet, twoToOrder, shl64.
  unfold Registry.getBitIndex, Registry.getWordIndex, BITS_MASK,
    BITS_PER_WORD_ORDER.
  change MAX_REGISTRY_BIT_COUNT with 16384 in Hi.
  change 63 with (Z.ones 6). rewrite Z.land_ones by lia.
  pose proof (Z.mod_pos_bound i (2 ^ 6) ltac:(lia)) as B.
  change (2 ^ 6) with 64 in *.
  destruct ((0 <=? i mod 64) && (i mod 64 <? 64)) eqn:E; [|lia].
  cbn [rbind]. rewrite Z.shiftr_div_pow2 by lia. change (2 ^ 6) with 64.
  assert (0 <= i / 64 < 256).
  { split; [apply Z.div_pos; lia|apply Z.div_lt_upper_bound; lia]. }
  unfold wellFormed in W. apply andb_true_iff in W as [L _].
  unfold Registry.getBits. change MAX_REGISTRY_WORD_COUNT with 256 in *.
  destruct ((0 <=? i / 64) && (i / 64 <? 256)) eqn:E2; [|lia].
  destruct (bits r !! Z.to_nat (i / 64)) as [v|] eqn:G.
  - cbn [rbind]. eauto.
  - apply lookup_ge_None in G. lia.
Qed.

Lemma find_loop_unmanaged s p n : forall i,
  0 <= i ->
  (Z.to_nat i + n <= length (s_slabs s))%nat ->
  i + Z.of_nat n <= MAX_REGISTRY_BIT_COUNT ->
  wellFormed (s_registry s) = true ->
  (forall j, i <= j < i + Z.of_nat n -> inLiveSlab s p j = false) ->
  SlabAllocator.find_loop n s i p = Ok NOT_FOUND.
Proof.
  induction n as [|n IH]; intros i Hi Hl Hm W U; [reflexivity|].
  cbn [SlabAllocator.find_loop].
  specialize (U i ltac:(lia)) as Ui. unfold inLiveSlab in Ui.
  unfold lookupZ in *. destruct (0 <=? i) eqn:E; [|lia].
  destruct (s_slabs s !! Z.to_nat i) as [slab|] eqn:L;
    [|apply lookup_ge_None in L; lia].
  cbn [rbind].
  destruct (isSet_returns (s_registry s) i W ltac:(lia)) as [b B].
  rewrite B in Ui.
  assert (F : (if Space.in_ slab p then Registry.isSet (s_registry s) i
               else Ok false) = Ok false).
  { destruct (Space.in_ slab p); [|reflexivity].
    rewrite B. cbn in Ui. subst b. reflexivity. }
  rewrite F. cbn [rbind]. apply IH; try lia; [exact W|].
  intros j Hj. apply U. lia.
Qed.

Lemma find_unmanaged d p :
  laidOut d = true -> managed d p = false ->
  SlabAllocator.find (d_slabAllocator d) p = Ok NOT_FOUND.
Proof.
  intros L U. unfold laidOut in L.
  apply andb_true_iff in L as [L W]. apply andb_true_iff in L as [L M].
  apply andb_true_iff in L as [_ L]. apply Nat.eqb_eq in L.
  apply Z.leb_le in M.
  unfold managed in U. apply orb_false_iff in U as [_ U].
  change MAX_REGISTRY_BIT_COUNT with 16384 in M.
  unfold SlabAllocator.find.
  apply find_loop_unmanaged;
    try (change MAX_REGISTRY_BIT_COUNT with 16384; lia); [exact W|].
  intros j Hj.
  rewrite <- (Z2Nat.id j) by lia.
  apply (existsb_false _ _ (Z.to_nat j) U). apply in_seq. lia.
Qed.

Lemma quantumAllocatorOf_unmanaged d p :
  laidOut d = true -> managed d p = false ->
  Director.quantumAllocatorOf d p = Ok None.
Proof.
  intros L U. unfold laidOut in L.
  apply andb_true_iff in L as [L _]. apply andb_true_iff in L as [L _].
  apply andb_true_iff in L as [L _]. apply Z.eqb_eq in L.
  unfold managed in U. apply orb_false_iff in U as [U _].
  unfold Director.quantumAllocatorOf.
  change (Z.to_nat MAX_QUANTUM_ALLOCATORS) with 3%nat.
  cbn [Director.quantumAllocatorOf_loop]. unfold getQuantumAllocator.
  destruct (d_quantumAllocators d) as [|q0 [|q1 [|q2 [|q3 l]]]];
    try (cbn in L; change MAX_QUANTUM_ALLOCATORS with 3 in L; lia).
  cbn in U. apply orb_false_iff in U as [U0 U].
  apply orb_false_iff in U as [U1 U]. apply orb_false_iff in U as [U2 _].
  change (lookupZ [q0; q1; q2] 0) with (Ok q0).
  change (lookupZ [q0; q1; q2] (0 + 1)) with (Ok q1).
  change (lookupZ [q0; q1; q2] (0 + 1 + 1)) with (Ok q2).
  cbn [rbind]. rewrite U0, U1, U2. reflexivity.
Qed.

Lemma existsb_none {A} (f : A -> bool) l :
  (forall x, f x = false) -> existsb f l = false.
Proof.
  intros H. induction l as [|x l IH]; [reflexivity|].
  cbn [existsb]. rewrite H, IH. reflexivity.
Qed.

Lemma fresh_laidOut sp sharing secure small medium large maxSlabCount
  sideDataSize base0 base1 base2 sideData0 sideData1 sideData2 slabSideData :
  0 <= maxSlabCount <= MAX_REGISTRY_BIT_COUNT ->
  laidOut (freshDirector sp sharing secure small medium large maxSlabCount
             sideDataSize base0 base1 base2 sideData0 sideData1 sideData2
             slabSideData) = true.
Proof.
  intros H. unfold laidOut, freshDirector, freshSlabAllocator.
  cbn [d_quantumAllocators d_slabAllocator s_slabs s_maxCount s_registry].
  rewrite length_replicate, Nat.eqb_refl.
  rewrite (proj2 (Z.leb_le _ _)) by lia. reflexivity.
Qed.

Lemma fresh_null_unmanaged sp sharing secure small medium large maxSlabCount
  sideDataSize base0 base1 base2 sideData0 sideData1 sideData2 slabSideData :
  0 < base0 -> 0 < base1 -> 0 < base2 ->
  managed (freshDirector sp sharing secure small medium large maxSlabCount
             sideDataSize base0 base1 base2 sideData0 sideData1 sideData2
             slabSideData) 0 = false.
Proof.
  intros H0 H1 H2. unfold managed, freshDirector, freshTier.
  cbn [d_quantumAllocators d_slabAllocator existsb q_allocator space].
  unfold Space.in_, Space.create. cbn [base].
  rewrite (proj2 (Z.leb_gt base0 0)), (proj2 (Z.leb_gt base1 0)),
    (proj2 (Z.leb_gt base2 0)) by lia.
  cbn [andb orb]. apply existsb_none. intros i.
  unfold inLiveSlab, freshSlabAllocator. cbn [s_slabs].
  unfold lookupZ. destruct (0 <=? Z.of_nat i); [|reflexivity].
  destruct (replicate (Z.to_nat maxSlabCount) Space.empty !! Z.to_nat (Z.of_nat i))
    as [slab|] eqn:L; [|reflexivity].
  apply lookup_replicate in L as [-> _].
  destruct (Registry.isSet _ _); reflexivity.
Qed.



(** ** C10: a request of zero bytes *)

(** C10: [allocate(0)] is dispatched as a request of order 3 is,
    [sizeToOrder(0)] being 3 and [roundUpPowerOf2(0)] being 0, to the
    allocator that the roster has for 8 bytes. On a Director just created
    with at least one partition in its first quantum allocator it returns
    a non-null address, and the size of the block at that address is 8,
    whatever compare-exchanges fail spuriously. *)
Theorem allocate_zero_returns_an_8_byte_block :
  sizeToOrder 0 = SMALLEST_SIZE_ORDER /\
  roundUpPowerOf2 0 = Ok 0 /\
  forall abi address secure small medium large maxSlabCount sideDataSize
         e d e',
    Director.create abi address secure small medium large maxSlabCount
      sideDataSize e = Ok (Some d, e') ->
    sizesFit abi = true ->
    inRange small medium large maxSlabCount sideDataSize = true ->
    addressable e = true ->
    1 <= small ->
    Director.findAllocatorBySize d 0 = Director.findAllocatorBySize d 8 /\
    exists a w',
      Director.allocate 0 (mkWorld d e') = Ok (a, w') /\
      a <> 0 /\
      Director.allocationSize (director w') a = Ok 8.
Proof.
  split; [reflexivity|]. split; [reflexivity|].
  intros abi address secure small medium large maxSlabCount sideDataSize
    e d e' C Ha Hr Ho Hs.
  split; [reflexivity|].
  pose proof (inRange_bounds _ _ _ _ _ Hr) as (Bs & Bm & Bl & _ & _).
  apply create_placed in C
    as (sp & b & s0 & s1 & s2 & ss & -> & Hb & Hl & _); try assumption.
  destruct e' as [c o t].
  destruct (allocate_zero_fresh sp secure small medium large maxSlabCount
              sideDataSize (b + 2 ^ 33 * large + 2 ^ 25 * medium)
              (b + 2 ^ 33 * large) b s0 s1 s2 ss c o t)
    as (w' & A & S);
    try (change MAX_REGISTRY_BIT_COUNT with 16384; lia).
  eexists _, w'. split; [exact A|]. split; [lia|exact S].
Qed.

Lemma allocate_zero_returns_an_8_byte_block_witness :
  exists d e' a w',
    Director.create lp64 0 false 1 0 0 0 0 (quiet [2 ^ 32]) = Ok (Some d, e') /\
    Director.allocate 0 (mkWorld d e') = Ok (a, w') /\
    a <> 0 /\
    Director.allocationSize (director w') a = Ok 8.
Proof.
  assert (H : exists d e',
             Director.create lp64 0 false 1 0 0 0 0 (quiet [2 ^ 32])
             = Ok (Some d, e')).
  { eexists _, _. lazy. reflexivity. }
  destruct H as (d & e' & C).
  destruct (proj2 (proj2 allocate_zero_returns_an_8_byte_block)
              lp64 0 false 1 0 0 0 0 (quiet [2 ^ 32]) d e' C
              eq_refl eq_refl eq_refl ltac:(lia))
    as (_ & a & w' & A & N & S).
  exists d, e', a, w'. auto.
Defined.

(* ===================================================================== *)
(** * Further properties                                                   *)
(* ===================================================================== *)

(** ** Sizes and orders *)

Lemma clz_log2 x : 0 < x -> clz x = 63 - Z.log2 x.
Proof. intros H. unfold clz. destruct (x =? 0) eqn:E; [lia|reflexivity]. Qed.

Lemma twoToOrder_pow2 k : 0 <= k < 64 -> shl64 1 k = Ok (2 ^ k).
Proof.
  intros H. unfold shl64.
  destruct ((0 <=? k) && (k <? 64)) eqn:E; [|lia].
  rewrite Z.shiftl_1_l, wrap64_small; [reflexivity|].
  split; [apply Z.pow_nonneg; lia|apply Z.pow_lt_mono_r; lia].
Qed.

(** [BITS_PER_WORD - clz(value - 1)] is the order of the next power of
    two. *)
Lemma order_log2_up v :
  1 <= v < 2 ^ 64 -> BITS_PER_WORD - clz (wrap64 (v - 1)) = Z.log2_up v.
Proof.
  intros H. rewrite wrap64_small by lia. change BITS_PER_WORD with 64.
  destruct (Z.eq_dec v 1) as [->|N]; [reflexivity|].
  rewrite clz_log2 by lia. rewrite Z.log2_up_eqn by lia.
  replace (Z.pred v) with (v - 1) by lia. lia.
Qed.

Lemma log2_up_range v : 1 <= v <= 2 ^ 63 -> 0 <= Z.log2_up v <= 63.
Proof.
  intros H. split; [apply Z.log2_up_nonneg|].
  destruct (Z.eq_dec v 1) as [->|N]; [cbn; lia|].
  apply Z.log2_up_le_pow2; lia.
Qed.

(** X1. [roundUp(value, powerOf2)] is the least multiple of the power of
    two that is not below the value, as long as that multiple is below
    [2^64]; in the last quantum of the 64-bit range it wraps to zero. *)
Theorem roundUp_least_multiple : forall k x,
  0 <= k < 64 -> 0 <= x < 2 ^ 64 ->
  (x + 2 ^ k <= 2 ^ 64 ->
     x <= roundUp x (2 ^ k) < x + 2 ^ k /\
     roundUp x (2 ^ k) mod 2 ^ k = 0 /\
     (x mod 2 ^ k = 0 -> roundUp x (2 ^ k) = x)) /\
  (2 ^ 64 < x + 2 ^ k -> roundUp x (2 ^ k) = 0).
Proof.
  intros k x Hk Hx.
  assert (P : 0 < 2 ^ k) by (apply Z.pow_pos_nonneg; lia).
  assert (Q : 2 ^ k < 2 ^ 64) by (apply Z.pow_lt_mono_r; lia).
  split.
  - intros Hb. split; [apply roundUp_bounds; lia|]. split.
    + rewrite roundUp_twoToOrder by lia. apply Z.mod_mul. lia.
    + intros M.
      rewrite (Z.div_mod x (2 ^ k)) at 1 2 by lia. rewrite M, Z.add_0_r.
      rewrite (Z.mul_comm (2 ^ k)). apply roundUp_multiple; try lia.
      * apply Z.div_pos; lia.
      * pose proof (Z.div_mod x (2 ^ k) ltac:(lia)). nia.
  - intros Hb. unfold roundUp, MASK.
    rewrite (wrap64_small (2 ^ k - 1)) by lia.
    unfold wrap64 at 1.
    replace (x + (2 ^ k - 1)) with ((x + 2 ^ k - 1 - 2 ^ 64) + 1 * 2 ^ 64)
      by lia.
    rewrite Z.mod_add, Z.mod_small by lia.
    set (y := x + 2 ^ k - 1 - 2 ^ 64).
    assert (Hy : 0 <= y < 2 ^ k - 1) by (unfold y; lia).
    apply Z.bits_inj'. intros i Hi. rewrite Z.bits_0.
    unfold not64, ALL_ONES.
    replace (2 ^ 64 - 1) with (Z.ones 64) by reflexivity.
    replace (2 ^ k - 1) with (Z.ones k) by (rewrite Z.ones_equiv; lia).
    rewrite Z.land_spec, Z.lxor_spec, !Z.testbit_ones_nonneg by lia.
    destruct (Z.ltb_spec i k) as [Lk|Lk].
    + destruct (Z.ltb_spec i 64); [|lia]. apply andb_false_r.
    + destruct (Z.eq_dec y 0) as [->|]; [rewrite Z.bits_0; reflexivity|].
      rewrite Z.bits_above_log2; [reflexivity|lia|].
      assert (Z.log2 y < k) by (apply Z.log2_lt_pow2; lia). lia.
Qed.

Lemma roundUp_least_multiple_witness :
  4096 <= roundUp 4097 (2 ^ 12) < 4097 + 2 ^ 12 /\
  roundUp (2 ^ 64 - 1) (2 ^ 3) = 0.
Proof.
  split.
  - destruct (proj1 (roundUp_least_multiple 12 4097 ltac:(lia) ltac:(lia))
                ltac:(lia)) as [B _].
    lia.
  - apply (proj2 (roundUp_least_multiple 3 (2 ^ 64 - 1) ltac:(lia) ltac:(lia))).
    lia.
Defined.

Lemma roundUpPowerOf2_log2_up v :
  1 <= v <= 2 ^ 63 -> roundUpPowerOf2 v = Ok (2 ^ Z.log2_up v).
Proof.
  intros H. unfold roundUpPowerOf2.
  destruct (v =? 0) eqn:E; [lia|].
  rewrite order_log2_up by lia.
  pose proof (log2_up_range v H) as R.
  apply twoToOrder_pow2. lia.
Qed.

(** X2. [roundUpPowerOf2] leaves zero, gives a value from 1 to [2^63] the
    least power of two that is not below it, and shifts by 64, which is
    undefined, for a value above [2^63]. *)
Theorem roundUpPowerOf2_next_power :
  roundUpPowerOf2 0 = Ok 0 /\
  (forall v, 1 <= v <= 2 ^ 63 ->
     roundUpPowerOf2 v = Ok (2 ^ Z.log2_up v) /\
     v <= 2 ^ Z.log2_up v < 2 * v) /\
  (forall v, 2 ^ 63 < v < 2 ^ 64 ->
     roundUpPowerOf2 v = Err (ShiftOutOfRange 64)).
Proof.
  split; [reflexivity|]. split.
  - intros v H. split; [apply roundUpPowerOf2_log2_up; exact H|].
    pose proof (log2_up_range v H) as R.
    destruct (Z.eq_dec v 1) as [->|N]; [cbn; lia|].
    pose proof (Z.log2_up_spec v ltac:(lia)) as [L U].
    split; [exact U|].
    replace (Z.log2_up v) with (Z.succ (Z.pred (Z.log2_up v))) by lia.
    rewrite Z.pow_succ_r; [lia|].
    pose proof (Z.log2_up_pos v ltac:(lia)). lia.
  - intros v H. unfold roundUpPowerOf2.
    destruct (v =? 0) eqn:E; [lia|].
    rewrite order_log2_up by lia.
    assert (L : Z.log2_up v = 64).
    { apply Z.le_antisymm.
      - apply Z.log2_up_le_pow2; lia.
      - assert (63 < Z.log2_up v); [|lia].
        apply Z.log2_up_lt_pow2; lia. }
    rewrite L. reflexivity.
Qed.

Lemma roundUpPowerOf2_next_power_witness :
  roundUpPowerOf2 17 = Ok (2 ^ Z.log2_up 17) /\
  roundUpPowerOf2 (2 ^ 63 + 1) = Err (ShiftOutOfRange 64).
Proof.
  destruct roundUpPowerOf2_next_power as (_ & A & B). split.
  - apply A. lia.
  - apply B. lia.
Defined.

(** X3. [sizeToOrder] is 3 up to 8 bytes and the order of the next power
    of two above: the block of that order holds the size and the block of
    the order below does not; [orderToSize] takes the order back to the
    size that [roundUpPowerOf2] gives. *)
Theorem sizeToOrder_orderToSize :
  (forall size, 0 <= size <= 8 -> sizeToOrder size = 3) /\
  (forall size, 8 < size <= 2 ^ 63 ->
     3 < sizeToOrder size <= 63 /\
     2 ^ (sizeToOrder size - 1) < size <= 2 ^ sizeToOrder size /\
     orderToSize (sizeToOrder size) = roundUpPowerOf2 size) /\
  (forall order, 3 <= order <= 63 ->
     orderToSize order = Ok (2 ^ order) /\ sizeToOrder (2 ^ order) = order).
Proof.
  split; [|split].
  - intros size H. unfold sizeToOrder. destruct (8 <? size) eqn:E; [lia|].
    reflexivity.
  - intros size H. unfold sizeToOrder. destruct (8 <? size) eqn:E; [|lia].
    rewrite order_log2_up by lia.
    pose proof (log2_up_range size ltac:(lia)) as R.
    pose proof (Z.log2_up_spec size ltac:(lia)) as [L U].
    replace (Z.pred (Z.log2_up size)) with (Z.log2_up size - 1) in L by lia.
    assert (3 < Z.log2_up size).
    { apply Z.log2_up_lt_pow2; lia. }
    split; [lia|]. split; [lia|].
    rewrite roundUpPowerOf2_log2_up by lia.
    unfold orderToSize. apply twoToOrder_pow2. lia.
  - intros order H. split; [apply twoToOrder_pow2; lia|].
    assert (8 < 2 ^ order \/ order = 3) as [G| ->].
    { destruct (Z.eq_dec order 3); [right; assumption|left].
      change 8 with (2 ^ 3). apply Z.pow_lt_mono_r; lia. }
    + unfold sizeToOrder. destruct (8 <? 2 ^ order) eqn:E; [|lia].
      assert (2 ^ order < 2 ^ 64) by (apply Z.pow_lt_mono_r; lia).
      rewrite order_log2_up by lia. apply Z.log2_up_pow2. lia.
    + reflexivity.
Qed.

Lemma sizeToOrder_orderToSize_witness :
  sizeToOrder 5 = 3 /\ sizeToOrder (2 ^ 20) = 20 /\
  2 ^ (sizeToOrder 17 - 1) < 17 <= 2 ^ sizeToOrder 17.
Proof.
  destruct sizeToOrder_orderToSize as (A & B & C).
  split; [apply A; lia|]. split; [apply C; lia|].
  apply (B 17). lia.
Defined.

(** X4. [isPowerOf2] holds of zero and of the powers of two, and of no
    other 64-bit value. *)
Theorem isPowerOf2_iff : forall v,
  0 <= v < 2 ^ 64 ->
  isPowerOf2 v = true <-> v = 0 \/ exists k, 0 <= k < 64 /\ v = 2 ^ k.
Proof.
  intros v Hv. unfold isPowerOf2, MASK, ZERO. rewrite Z.eqb_eq. split.
  - intros H. destruct (Z.eq_dec v 0) as [->|N]; [left; reflexivity|right].
    rewrite wrap64_small in H by lia.
    exists (Z.log2 v).
    assert (L : 0 <= Z.log2 v < 64).
    { split; [apply Z.log2_nonneg|apply Z.log2_lt_pow2; lia]. }
    split; [exact L|].
    pose proof (Z.log2_spec v ltac:(lia)) as [Lo Hi].
    destruct (Z.eq_dec v (2 ^ Z.log2 v)) as [E|E]; [exact E|exfalso].
    assert (B1 : Z.testbit v (Z.log2 v) = true) by (apply Z.bit_log2; lia).
    assert (B2 : Z.testbit (v - 1) (Z.log2 v) = true).
    { assert (Z.log2 (v - 1) = Z.log2 v) as <-.
      { apply Z.log2_unique; [lia|]. lia. }
      apply Z.bit_log2. lia. }
    assert (B : Z.testbit (Z.land v (v - 1)) (Z.log2 v) = true)
      by (rewrite Z.land_spec, B1, B2; reflexivity).
    rewrite H, Z.bits_0 in B. discriminate.
  - intros [->|(k & Hk & ->)]; [reflexivity|].
    assert (P : 0 < 2 ^ k) by (apply Z.pow_pos_nonneg; lia).
    assert (Q : 2 ^ k < 2 ^ 64) by (apply Z.pow_lt_mono_r; lia).
    rewrite wrap64_small by lia.
    replace (2 ^ k - 1) with (Z.ones k) by (rewrite Z.ones_equiv; lia).
    rewrite Z.land_ones by lia. apply Z.mod_same. lia.
Qed.

Lemma isPowerOf2_iff_witness :
  isPowerOf2 4096 = true /\ isPowerOf2 0 = true.
Proof.
  split.
  - apply (proj2 (isPowerOf2_iff 4096 ltac:(lia))). right. exists 12. lia.
  - apply (proj2 (isPowerOf2_iff 0 ltac:(lia))). left. reflexivity.
Defined.

(** ** The bits of a registry *)

Lemma testbit_land_pow2 v b :
  0 <= b -> negb (Z.land v (2 ^ b) =? 0) = Z.testbit v b.
Proof.
  intros Hb. destruct (Z.testbit v b) eqn:T.
  - apply negb_true_iff, Z.eqb_neq. intros E.
    assert (B : Z.testbit (Z.land v (2 ^ b)) b = true)
      by (rewrite Z.land_spec, T, Z.pow2_bits_true by lia; reflexivity).
    rewrite E, Z.bits_0 in B. discriminate.
  - apply negb_false_iff, Z.eqb_eq. apply Z.bits_inj'. intros k Hk.
    rewrite Z.land_spec, Z.bits_0, Z.pow2_bits_eqb by lia.
    destruct (Z.eqb_spec b k) as [<-|]; [rewrite T; reflexivity|].
    apply andb_false_r.
Qed.

Lemma word_and_bit i :
  0 <= i < MAX_REGISTRY_BIT_COUNT ->
  Registry.getWordIndex i = i / 64 /\ Registry.getBitIndex i = i mod 64 /\
  0 <= i / 64 < MAX_REGISTRY_WORD_COUNT /\ 0 <= i mod 64 < 64.
Proof.
  intros H. change MAX_REGISTRY_BIT_COUNT with 16384 in H.
  change MAX_REGISTRY_WORD_COUNT with 256.
  unfold Registry.getWordIndex, Registry.getBitIndex, BITS_MASK,
    BITS_PER_WORD_ORDER.
  rewrite Z.shiftr_div_pow2 by lia. change 63 with (Z.ones 6).
  rewrite Z.land_ones by lia. change (2 ^ 6) with 64.
  repeat split; try (apply Z.mod_pos_bound; lia).
  - apply Z.div_pos; lia.
  - apply Z.div_lt_upper_bound; lia.
Qed.

Lemma wellFormed_getBits r w :
  wellFormed r = true -> 0 <= w < MAX_REGISTRY_WORD_COUNT ->
  exists v, Registry.getBits r w = Ok v /\ bits r !! Z.to_nat w = Some v /\
            0 <= v < 2 ^ 64.
Proof.
  intros W Hw. pose proof W as W'. unfold wellFormed in W'.
  apply andb_true_iff in W' as [L _]. apply Z.eqb_eq in L.
  destruct (bits r !! Z.to_nat w) as [v|] eqn:G.
  - exists v. split; [apply getBits_lookup; assumption|]. split; [reflexivity|].
    eapply wellFormed_word; eauto.
  - apply lookup_ge_None in G. lia.
Qed.

(** [isSet] reads the bit [index mod 64] of the word [index / 64]. *)
Lemma isSet_testbit r i v :
  0 <= i < MAX_REGISTRY_BIT_COUNT ->
  Registry.getBits r (i / 64) = Ok v ->
  Registry.isSet r i = Ok (Z.testbit v (i mod 64)).
Proof.
  intros Hi G. destruct (word_and_bit i Hi) as (Ew & Eb & Hw & Hb).
  unfold Registry.isSet, twoToOrder. rewrite Ew, Eb.
  rewrite twoToOrder_pow2 by lia. cbn [rbind]. rewrite G. cbn [rbind].
  rewrite testbit_land_pow2 by lia. reflexivity.
Qed.

Lemma wellFormed_insert r w v :
  wellFormed r = true -> 0 <= v < 2 ^ 64 ->
  wellFormed (mkRegistry (maximumIndex r) (maximumWordIndex r) (lowestIndex r)
                (<[w := v]> (bits r))) = true.
Proof.
  unfold wellFormed. cbn [bits]. intros W Hv.
  apply andb_true_iff in W as [L F]. apply andb_true_iff. split.
  - rewrite length_insert. exact L.
  - rewrite forallb_forall in *. intros x I.
    apply list_elem_of_In, list_elem_of_lookup in I as [k I].
    apply list_lookup_insert_Some in I as [(_ & <- & _)|(_ & I)].
    + apply andb_true_iff. lia.
    + apply F. apply list_elem_of_In, list_elem_of_lookup. eauto.
Qed.

(** The state after a store, read back. *)
Lemma getBits_insert r w v w' :
  0 <= w < MAX_REGISTRY_WORD_COUNT -> 0 <= w' < MAX_REGISTRY_WORD_COUNT ->
  Z.of_nat (length (bits r)) = MAX_REGISTRY_WORD_COUNT ->
  Registry.getBits
    (mkRegistry (maximumIndex r) (maximumWordIndex r) (lowestIndex r)
       (<[Z.to_nat w := v]> (bits r))) w'
  = if w' =? w then Ok v else Registry.getBits r w'.
Proof.
  intros Hw Hw' L. unfold Registry.getBits. cbn [bits].
  destruct ((0 <=? w') && (w' <? MAX_REGISTRY_WORD_COUNT)) eqn:E; [|lia].
  destruct (Z.eqb_spec w' w) as [->|N].
  - rewrite list_lookup_insert_eq by lia. reflexivity.
  - rewrite list_lookup_insert_ne by lia. reflexivity.
Qed.

Lemma wellFormed_length r :
  wellFormed r = true -> Z.of_nat (length (bits r)) = MAX_REGISTRY_WORD_COUNT.
Proof.
  unfold wellFormed. intros W. apply andb_true_iff in W as [L _].
  apply Z.eqb_eq. exact L.
Qed.

(** [setMask] and [clearMask] of a mask that is not zero, run. *)
Lemma setMask_run w m r schedule v :
  0 <= w < MAX_REGISTRY_WORD_COUNT -> m <> 0 ->
  Registry.getBits r w = Ok v ->
  Registry.setMask w m (mkRegState r schedule)
  = Ok (Z.land v m =? 0,
        mkRegState
          (mkRegistry (maximumIndex r) (maximumWordIndex r) (lowestIndex r)
             (<[Z.to_nat w := Z.lor v m]> (bits r))) schedule).
Proof.
  intros Hw Hm G. unfold Registry.setMask.
  destruct (m =? 0) eqn:E; [lia|].
  unfold Registry.orBits, bind, Registry.load, Registry.storeBits, ret.
  cbn [reg sched]. rewrite G.
  destruct ((0 <=? w) && (w <? MAX_REGISTRY_WORD_COUNT)) eqn:E2; [|lia].
  reflexivity.
Qed.

Lemma clearMask_run w m r schedule v :
  0 <= w < MAX_REGISTRY_WORD_COUNT -> m <> 0 ->
  Registry.getBits r w = Ok v ->
  Registry.clearMask w m (mkRegState r schedule)
  = Ok (negb (Z.land v m =? 0),
        mkRegState
          (mkRegistry (maximumIndex r) (maximumWordIndex r) (lowestIndex r)
             (<[Z.to_nat w := Z.land v (not64 m)]> (bits r))) schedule).
Proof.
  intros Hw Hm G. unfold Registry.clearMask.
  destruct (m =? 0) eqn:E; [lia|].
  unfold Registry.andBits, bind, Registry.load, Registry.storeBits, ret.
  cbn [reg sched]. rewrite G.
  destruct ((0 <=? w) && (w <? MAX_REGISTRY_WORD_COUNT)) eqn:E2; [|lia].
  reflexivity.
Qed.

Lemma not64_testbit v k :
  0 <= k < 64 -> Z.testbit (not64 v) k = negb (Z.testbit v k).
Proof.
  intros Hk. unfold not64, ALL_ONES.
  change (2 ^ 64 - 1) with (Z.ones 64).
  rewrite Z.lxor_spec, Z.testbit_ones_nonneg by lia.
  destruct (Z.ltb_spec k 64); [|lia]. destruct (Z.testbit v k); reflexivity.
Qed.

Lemma high_bits_clear x k :
  0 <= x < 2 ^ 64 -> 64 <= k -> Z.testbit x k = false.
Proof.
  intros Hx Hk. destruct (Z.eq_dec x 0) as [->|N]; [apply Z.bits_0|].
  apply Z.bits_above_log2; [lia|].
  assert (Z.log2 x < 64) by (apply Z.log2_lt_pow2; lia). lia.
Qed.

Lemma word_range x :
  0 <= x -> (forall k, 64 <= k -> Z.testbit x k = false) -> 0 <= x < 2 ^ 64.
Proof.
  intros Hx Hb. split; [exact Hx|].
  assert (E : x = x mod 2 ^ 64).
  { rewrite <- Z.land_ones by lia. apply Z.bits_inj'. intros k Hk.
    rewrite Z.land_spec, Z.testbit_ones_nonneg by lia.
    destruct (Z.ltb_spec k 64).
    - rewrite andb_true_r. reflexivity.
    - rewrite Hb by lia. reflexivity. }
  rewrite E. apply Z.mod_pos_bound. lia.
Qed.

Lemma lor_range v m :
  0 <= v < 2 ^ 64 -> 0 <= m < 2 ^ 64 -> 0 <= Z.lor v m < 2 ^ 64.
Proof.
  intros Hv Hm. apply word_range; [apply Z.lor_nonneg; lia|].
  intros k Hk. rewrite Z.lor_spec, !high_bits_clear by assumption. reflexivity.
Qed.

Lemma land_range v m : 0 <= v < 2 ^ 64 -> 0 <= Z.land v m < 2 ^ 64.
Proof.
  intros Hv. apply word_range; [apply Z.land_nonneg; lia|].
  intros k Hk. rewrite Z.land_spec, (high_bits_clear v) by assumption.
  reflexivity.
Qed.

Lemma pow2_range b : 0 <= b < 64 -> 0 < 2 ^ b < 2 ^ 64.
Proof.
  intros Hb. split; [apply Z.pow_pos_nonneg; lia|apply Z.pow_lt_mono_r; lia].
Qed.

Lemma isSet_insert r w v j :
  wellFormed r = true -> 0 <= w < MAX_REGISTRY_WORD_COUNT ->
  0 <= j < MAX_REGISTRY_BIT_COUNT ->
  Registry.isSet
    (mkRegistry (maximumIndex r) (maximumWordIndex r) (lowestIndex r)
       (<[Z.to_nat w := v]> (bits r))) j
  = if j / 64 =? w then Ok (Z.testbit v (j mod 64)) else Registry.isSet r j.
Proof.
  intros W Hw Hj. destruct (word_and_bit j Hj) as (Ew & Eb & Hjw & Hjb).
  pose proof (wellFormed_length r W) as L.
  destruct (Z.eqb_spec (j / 64) w) as [E|N].
  - apply isSet_testbit; [exact Hj|].
    rewrite getBits_insert by (assumption || lia).
    rewrite E, Z.eqb_refl. reflexivity.
  - destruct (wellFormed_getBits r (j / 64) W Hjw) as (x & G & _).
    rewrite (isSet_testbit r j x Hj G).
    apply isSet_testbit; [exact Hj|].
    rewrite getBits_insert by (assumption || lia).
    rewrite (proj2 (Z.eqb_neq _ _) N). exact G.
Qed.

Lemma same_word_other_bit i j :
  i <> j -> i / 64 = j / 64 -> i mod 64 <> j mod 64.
Proof.
  intros N E M. apply N.
  rewrite (Z.div_mod i 64), (Z.div_mod j 64) by lia. congruence.
Qed.

(** X5. [set] and [clear] change the one bit they are given and say whether
    they changed it: [set] returns whether the bit was clear, [clear]
    whether it was set, and [isSet] reads the new value afterwards while
    every other bit reads as before. *)
Theorem set_and_clear_change_one_bit : forall st index,
  wellFormed (reg st) = true ->
  0 <= index < MAX_REGISTRY_BIT_COUNT ->
  exists was st1 st2,
    Registry.isSet (reg st) index = Ok was /\
    Registry.set index st = Ok (negb was, st1) /\
    Registry.clear index st = Ok (was, st2) /\
    Registry.isSet (reg st1) index = Ok true /\
    Registry.isSet (reg st2) index = Ok false /\
    wellFormed (reg st1) = true /\ wellFormed (reg st2) = true /\
    forall other, 0 <= other < MAX_REGISTRY_BIT_COUNT -> other <> index ->
      Registry.isSet (reg st1) other = Registry.isSet (reg st) other /\
      Registry.isSet (reg st2) other = Registry.isSet (reg st) other.
Proof.
  intros [r schedule] index W Hi. cbn [reg] in *.
  destruct (word_and_bit index Hi) as (Ew & Eb & Hw & Hb).
  destruct (wellFormed_getBits r (index / 64) W Hw) as (v & G & _ & Hv).
  pose proof (pow2_range (index mod 64) Hb) as P.
  exists (Z.testbit v (index mod 64)). do 2 eexists.
  split; [apply isSet_testbit; assumption|].
  split.
  { unfold Registry.set, bind, lift, twoToOrder. rewrite Ew, Eb.
    rewrite twoToOrder_pow2 by lia.
    rewrite (setMask_run _ _ _ _ v) by (assumption || lia).
    rewrite <- testbit_land_pow2 by lia. rewrite negb_involutive.
    reflexivity. }
  split.
  { unfold Registry.clear, bind, lift, twoToOrder. rewrite Ew, Eb.
    rewrite twoToOrder_pow2 by lia.
    rewrite (clearMask_run _ _ _ _ v) by (assumption || lia).
    rewrite testbit_land_pow2 by lia. reflexivity. }
  cbn [reg].
  split.
  { rewrite isSet_insert by assumption. rewrite Z.eqb_refl.
    rewrite Z.lor_spec, Z.pow2_bits_true by lia. rewrite orb_true_r.
    reflexivity. }
  split.
  { rewrite isSet_insert by assumption. rewrite Z.eqb_refl.
    rewrite Z.land_spec, not64_testbit, Z.pow2_bits_true by lia.
    rewrite andb_false_r. reflexivity. }
  split; [apply wellFormed_insert; [exact W|apply lor_range; lia]|].
  split; [apply wellFormed_insert; [exact W|apply land_range; lia]|].
  intros other Ho N.
  destruct (word_and_bit other Ho) as (_ & _ & How & Hob).
  rewrite !isSet_insert by assumption.
  destruct (Z.eqb_spec (other / 64) (index / 64)) as [E|_]; [|auto].
  pose proof (same_word_other_bit other index N E) as D.
  rewrite (isSet_testbit r other v Ho) by (rewrite E; exact G).
  rewrite Z.lor_spec, Z.land_spec, not64_testbit, Z.pow2_bits_false by lia.
  rewrite orb_false_r, andb_true_r. auto.
Qed.

Lemma set_and_clear_change_one_bit_witness :
  exists was st1 st2,
    Registry.isSet (freshRegistry 128) 70 = Ok was /\
    Registry.set 70 (mkRegState (freshRegistry 128) []) = Ok (negb was, st1) /\
    Registry.clear 70 (mkRegState (freshRegistry 128) []) = Ok (was, st2) /\
    Registry.isSet (reg st1) 70 = Ok true.
Proof.
  destruct (set_and_clear_change_one_bit
              (mkRegState (freshRegistry 128) []) 70)
    as (was & st1 & st2 & A & B & C & D & _).
  - vm_compute. reflexivity.
  - vm_compute. split; [discriminate|reflexivity].
  - exists was, st1, st2. auto.
Defined.

(** ** [findFree] and [free] *)

Lemma ctz_pos_spec p :
  0 <= ctz_pos p /\ Z.testbit (Zpos p) (ctz_pos p) = true /\
  forall k, 0 <= k < ctz_pos p -> Z.testbit (Zpos p) k = false.
Proof.
  induction p as [q IH|q IH|].
  - cbn [ctz_pos]. split; [lia|]. split; [reflexivity|]. intros k Hk. lia.
  - destruct IH as (P & T & L). cbn [ctz_pos]. split; [lia|]. split.
    + change (Zpos q~0) with (2 * Zpos q).
      replace (1 + ctz_pos q) with (Z.succ (ctz_pos q)) by lia.
      rewrite Z.testbit_even_succ by lia. exact T.
    + intros k Hk. change (Zpos q~0) with (2 * Zpos q).
      destruct (Z.eq_dec k 0) as [->|N]; [apply Z.testbit_even_0|].
      replace k with (Z.succ (k - 1)) by lia.
      rewrite Z.testbit_even_succ by lia. apply L. lia.
  - cbn [ctz_pos]. split; [lia|]. split; [reflexivity|]. intros k Hk. lia.
Qed.

Lemma not64_range v : 0 <= v < 2 ^ 64 -> 0 <= not64 v < 2 ^ 64.
Proof.
  intros Hv. unfold not64, ALL_ONES. apply word_range.
  - apply Z.lxor_nonneg. lia.
  - intros k Hk. rewrite Z.lxor_spec, !high_bits_clear by lia. reflexivity.
Qed.

(** [ctz(~value)] is the lowest clear bit of a word that is not full. *)
Lemma lowest_clear_bit v :
  0 <= v < 2 ^ 64 -> v <> ALL_ONES ->
  0 <= ctz (not64 v) < 64 /\
  Z.testbit v (ctz (not64 v)) = false /\
  forall k, 0 <= k < ctz (not64 v) -> Z.testbit v k = true.
Proof.
  intros Hv N. pose proof (not64_range v Hv) as R.
  assert (P : not64 v <> 0).
  { unfold not64. intros E. apply Z.lxor_eq in E. contradiction. }
  destruct (not64 v) as [|p|p] eqn:E; [contradiction| |lia].
  cbn [ctz]. destruct (ctz_pos_spec p) as (C0 & T & L).
  assert (C : ctz_pos p < 64).
  { destruct (Z.ltb_spec (ctz_pos p) 64) as [|G]; [assumption|].
    rewrite (high_bits_clear (Zpos p)) in T by lia. discriminate. }
  split; [lia|]. split.
  - rewrite <- E, not64_testbit in T by lia.
    apply negb_true_iff in T. exact T.
  - intros k Hk. specialize (L k Hk).
    rewrite <- E, not64_testbit in L by lia.
    apply negb_false_iff in L. exact L.
Qed.

Lemma getIndex_word_and_bit w b :
  0 <= b < 64 ->
  Registry.getIndex w b = w * 64 + b /\
  (w * 64 + b) / 64 = w /\ (w * 64 + b) mod 64 = b.
Proof.
  intros Hb. unfold Registry.getIndex, BITS_PER_WORD_ORDER.
  rewrite Z.shiftl_mul_pow2 by lia. change (2 ^ 6) with 64.
  split; [reflexivity|]. split.
  - rewrite Z.add_comm, Z.div_add by lia. rewrite Z.div_small by lia. lia.
  - rewrite Z.add_comm, Z.mod_add by lia. apply Z.mod_small. lia.
Qed.

Lemma ALL_ONES_testbit k : 0 <= k < 64 -> Z.testbit ALL_ONES k = true.
Proof.
  intros Hk. unfold ALL_ONES. change (2 ^ 64 - 1) with (Z.ones 64).
  rewrite Z.testbit_ones_nonneg by lia.
  destruct (Z.ltb_spec k 64); [reflexivity|lia].
Qed.

(** Below the bit [b] of the word [w], every bit is set when the words
    below [w] are full and so are the bits of the word below [b]. *)
Lemma set_below r w v b j :
  0 <= w < MAX_REGISTRY_WORD_COUNT -> 0 <= b <= 64 ->
  fullBelow r w -> Registry.getBits r w = Ok v ->
  (forall k, 0 <= k < b -> Z.testbit v k = true) ->
  0 <= j < w * 64 + b -> Registry.isSet r j = Ok true.
Proof.
  intros Hw Hb F G L Hj. change MAX_REGISTRY_WORD_COUNT with 256 in Hw.
  assert (Hj' : 0 <= j < MAX_REGISTRY_BIT_COUNT)
    by (change MAX_REGISTRY_BIT_COUNT with 16384; lia).
  destruct (word_and_bit j Hj') as (_ & _ & Hjw & Hjb).
  assert (Hle : j / 64 <= w).
  { assert (j / 64 < w + 1); [|lia]. apply Z.div_lt_upper_bound; lia. }
  destruct (Z.eq_dec (j / 64) w) as [E|N].
  - rewrite (isSet_testbit r j v Hj') by (rewrite E; exact G).
    rewrite L; [reflexivity|].
    pose proof (Z.div_mod j 64 ltac:(lia)). lia.
  - rewrite (isSet_testbit r j ALL_ONES Hj') by (apply F; lia).
    rewrite ALL_ONES_testbit by lia. reflexivity.
Qed.

Lemma found_above r r' index :
  Registry.getBits r (lowestIndex r) = Ok ALL_ONES ->
  0 <= lowestIndex r ->
  found (mkRegistry (maximumIndex r) (maximumWordIndex r) (lowestIndex r + 1)
           (bits r)) r' index ->
  found r r' index.
Proof.
  intros G L (A & B & C & D & E). cbn [maximumIndex maximumWordIndex
    lowestIndex bits] in *.
  split; [exact A|]. split; [exact B|]. split; [lia|]. split; [exact D|].
  intros F. apply E. intros k Hk.
  destruct (Z.eq_dec k (lowestIndex r)) as [->|N]; [exact G|].
  apply (F k). lia.
Qed.

Lemma findFree_loop_S n w :
  Registry.findFree_loop (S n) w
  = (maximumWordIndex <- Registry.load (fun r => Ok (maximumWordIndex r)) ;;
     if w =? maximumWordIndex then ret NOT_FOUND
     else
       value <- Registry.load (fun r => Registry.getBits r w) ;;
       if value =? ALL_ONES
       then w' <- Registry.incrementLowestFreeWordIndex w ;;
            Registry.findFree_loop n w'
       else
         let bitIndex := ctz (not64 value) in
         let index := Registry.getIndex w bitIndex in
         maximumIndex <- Registry.load (fun r => Ok (maximumIndex r)) ;;
         if maximumIndex <=? index then ret NOT_FOUND
         else
           bit <- lift (shl64 1 bitIndex) ;;
           r <- Registry.swapBits w value (Z.lor value bit) ;;
           if fst r then ret index
           else Registry.findFree_loop n w).
Proof. reflexivity. Qed.

Lemma findFree_loop_spec : forall n r schedule,
  wellFormed r = true -> inBounds r = true ->
  (Z.to_nat (maximumWordIndex r - lowestIndex r) + length schedule < n)%nat ->
  exists index r' schedule',
    Registry.findFree_loop n (lowestIndex r) (mkRegState r schedule)
    = Ok (index, mkRegState r' schedule') /\
    wellFormed r' = true /\ inBounds r' = true /\ found r r' index.
Proof.
  induction n as [|n IH]; intros r schedule W B Hn; [lia|].
  pose proof B as B'. unfold inBounds in B'.
  change MAX_REGISTRY_WORD_COUNT with 256 in B'.
  change BITS_PER_WORD with 64 in B'.
  repeat (apply andb_true_iff in B' as [B' ?]).
  destruct (Z.eq_dec (lowestIndex r) (maximumWordIndex r)) as [E|N].
  - (* no more words *)
    exists NOT_FOUND, r, schedule. split.
    { rewrite findFree_loop_S. unfold bind, Registry.load, ret.
      lazy beta iota delta [reg sched fst snd]. rewrite (proj2 (Z.eqb_eq _ _) E). reflexivity. }
    split; [exact W|]. split; [exact B|].
    unfold found. rewrite Z.eqb_refl.
    split; [reflexivity|]. split; [reflexivity|]. split; [lia|].
    split; [reflexivity|]. intros F. split; [exact F|].
    intros j Hj.
    assert (Hj' : 0 <= j < MAX_REGISTRY_BIT_COUNT)
      by (change MAX_REGISTRY_BIT_COUNT with 16384; lia).
    destruct (word_and_bit j Hj') as (_ & _ & Hjw & Hjb).
    rewrite (isSet_testbit r j ALL_ONES Hj').
    + rewrite ALL_ONES_testbit by lia. reflexivity.
    + apply F. split; [lia|]. apply Z.div_lt_upper_bound; lia.
  - assert (Hw : 0 <= lowestIndex r < MAX_REGISTRY_WORD_COUNT)
      by (change MAX_REGISTRY_WORD_COUNT with 256; lia).
    destruct (wellFormed_getBits r (lowestIndex r) W Hw) as (v & G & Lk & Hv).
    destruct (Z.eq_dec v ALL_ONES) as [->|Nv].
    + (* a full word: on to the next one, or again after a failure *)
      assert (Step : Registry.findFree_loop (S n) (lowestIndex r)
                       (mkRegState r schedule)
                     = match schedule with
                       | false :: rest =>
                           Registry.findFree_loop n (lowestIndex r)
                             (mkRegState r rest)
                       | _ =>
                           Registry.findFree_loop n (lowestIndex r + 1)
                             (mkRegState
                                (mkRegistry (maximumIndex r)
                                   (maximumWordIndex r) (lowestIndex r + 1)
                                   (bits r)) (tl schedule))
                       end).
      { rewrite findFree_loop_S.
        unfold bind, Registry.load, ret, Registry.incrementLowestFreeWordIndex,
          Registry.swapLowestIndex, Registry.getLowestIndex, Registry.load,
          Registry.nextCas, Registry.storeLowestIndex, bind, ret.
        lazy beta iota delta [reg sched fst snd]. rewrite (proj2 (Z.eqb_neq _ _) N), G.
        lazy beta iota delta [reg sched fst snd]. rewrite Z.eqb_refl.
        destruct schedule as [|[|] rest]; lazy beta iota delta [reg sched fst snd andb tl];
          rewrite ?Z.eqb_refl; lazy beta iota delta [reg sched fst snd andb tl]; reflexivity. }
      rewrite Step.
      destruct schedule as [|[|] rest].
      * set (r1 := mkRegistry (maximumIndex r) (maximumWordIndex r)
                     (lowestIndex r + 1) (bits r)).
        destruct (IH r1 [] W) as (index & r' & s' & R & W' & B1 & F).
        { unfold inBounds, r1. cbn [lowestIndex maximumWordIndex maximumIndex].
          change MAX_REGISTRY_WORD_COUNT with 256. change BITS_PER_WORD with 64.
          repeat (apply andb_true_iff; split); lia. }
        { unfold r1. cbn [lowestIndex maximumWordIndex length] in *. lia. }
        exists index, r', s'. split; [exact R|]. split; [exact W'|].
        split; [exact B1|]. apply found_above; [exact G|lia|exact F].
      * set (r1 := mkRegistry (maximumIndex r) (maximumWordIndex r)
                     (lowestIndex r + 1) (bits r)).
        destruct (IH r1 rest W) as (index & r' & s' & R & W' & B1 & F).
        { unfold inBounds, r1. cbn [lowestIndex maximumWordIndex maximumIndex].
          change MAX_REGISTRY_WORD_COUNT with 256. change BITS_PER_WORD with 64.
          repeat (apply andb_true_iff; split); lia. }
        { unfold r1. cbn [lowestIndex maximumWordIndex length] in *. lia. }
        exists index, r', s'. split; [exact R|]. split; [exact W'|].
        split; [exact B1|]. apply found_above; [exact G|lia|exact F].
      * destruct (IH r rest W B) as (index & r' & s' & R & W' & B1 & F).
        { cbn [length] in Hn. lia. }
        exists index, r', s'. auto.
    + (* a word with a free bit *)
      destruct (lowest_clear_bit v Hv Nv) as (Hb & Tb & Lb).
      destruct (getIndex_word_and_bit (lowestIndex r) _ Hb) as (Ei & Ed & Em).
      destruct (Z.le_gt_cases (maximumIndex r)
                  (Registry.getIndex (lowestIndex r) (ctz (not64 v))))
        as [Full|Free].
      * exists NOT_FOUND, r, schedule. split.
        { rewrite findFree_loop_S. unfold bind, Registry.load, ret.
          lazy beta iota delta [reg sched fst snd]. rewrite (proj2 (Z.eqb_neq _ _) N), G. lazy beta iota delta [reg sched fst snd].
          rewrite (proj2 (Z.eqb_neq _ _) Nv).
          rewrite (proj2 (Z.leb_le _ _) Full). reflexivity. }
        split; [exact W|]. split; [exact B|].
        unfold found. rewrite Z.eqb_refl.
        split; [reflexivity|]. split; [reflexivity|]. split; [lia|].
        split; [reflexivity|]. intros F. split; [exact F|].
        intros j Hj.
        apply (set_below r (lowestIndex r) v (ctz (not64 v))); try assumption;
          lia.
      * pose proof (pow2_range _ Hb) as P.
        eexists _, _, _. split.
        { apply (findFree_loop_claims schedule (S n) (lowestIndex r) r v);
            try assumption. lia. }
        rewrite Z.shiftl_1_l, wrap64_small by lia.
        split; [apply wellFormed_insert; [exact W|apply lor_range; lia]|].
        split; [exact B|].
        unfold found. cbn [maximumIndex maximumWordIndex lowestIndex bits].
        rewrite Ei in *.
        destruct (Z.eqb_spec (lowestIndex r * 64 + ctz (not64 v)) NOT_FOUND)
          as [X|_]; [unfold NOT_FOUND in X; lia|].
        rewrite Ed, Em.
        split; [reflexivity|]. split; [reflexivity|]. split; [lia|].
        split.
        { split; [lia|]. split; [reflexivity|]. exists v. auto. }
        intros F. split.
        { intros k Hk.
          rewrite getBits_insert
            by (try apply wellFormed_length; try assumption;
                change MAX_REGISTRY_WORD_COUNT with 256 in *; lia).
          rewrite (proj2 (Z.eqb_neq _ _)) by lia. apply F. exact Hk. }
        intros j Hj.
        apply (set_below r (lowestIndex r) v (ctz (not64 v))); try assumption;
          lia.
Qed.

Lemma tight_fullBelow r :
  wellFormed r = true -> 0 <= lowestIndex r <= MAX_REGISTRY_WORD_COUNT ->
  tight r = true <-> fullBelow r (lowestIndex r).
Proof.
  intros W B. unfold tight, fullBelow. rewrite forallb_forall. split.
  - intros F k Hk.
    destruct (wellFormed_getBits r k W ltac:(lia)) as (v & G & L & _).
    rewrite G. f_equal. apply Z.eqb_eq. apply F.
    apply list_elem_of_In, list_elem_of_lookup. exists (Z.to_nat k).
    apply lookup_take_Some. split; [exact L|lia].
  - intros F x I.
    apply list_elem_of_In, list_elem_of_lookup in I as [i I].
    apply lookup_take_Some in I as [I Hi].
    specialize (F (Z.of_nat i) ltac:(lia)).
    apply getBits_Some in F as [_ F]. rewrite Nat2Z.id in F.
    apply Z.eqb_eq. congruence.
Qed.

Lemma inBounds_spec r :
  inBounds r = true <->
  0 <= lowestIndex r <= maximumWordIndex r /\
  maximumWordIndex r <= 256 /\ 0 <= maximumIndex r <= 64 * maximumWordIndex r.
Proof.
  unfold inBounds. change MAX_REGISTRY_WORD_COUNT with 256.
  change BITS_PER_WORD with 64. rewrite !andb_true_iff. lia.
Qed.

(** [findFree] returns for every schedule of compare-exchange failures. *)
Lemma findFree_spec st :
  wellFormed (reg st) = true -> inBounds (reg st) = true ->
  exists index st',
    Registry.findFree st = Ok (index, st') /\
    wellFormed (reg st') = true /\ inBounds (reg st') = true /\
    found (reg st) (reg st') index.
Proof.
  destruct st as [r schedule]. cbn [reg]. intros W B.
  destruct (findFree_loop_spec (Registry.retryBound (mkRegState r schedule))
              r schedule W B) as (index & r' & s' & R & P).
  { apply inBounds_spec in B. unfold Registry.retryBound. cbn [sched].
    change MAX_REGISTRY_WORD_COUNT with 256. lia. }
  exists index, (mkRegState r' s'). split; [|exact P].
  unfold Registry.findFree, bind, Registry.getLowestIndex, Registry.load.
  lazy beta iota delta [reg sched fst snd]. exact R.
Qed.

(** What [found] says of a bit that was claimed, in terms of [isSet]. *)
Lemma found_isSet r r' index :
  wellFormed r = true -> inBounds r = true -> found r r' index ->
  index <> NOT_FOUND ->
  0 <= index < maximumIndex r /\
  Registry.isSet r index = Ok false /\
  Registry.isSet r' index = Ok true /\
  forall other, 0 <= other < MAX_REGISTRY_BIT_COUNT -> other <> index ->
    Registry.isSet r' other = Registry.isSet r other.
Proof.
  intros W B (A1 & A2 & A3 & A4 & _) N.
  apply inBounds_spec in B.
  destruct (index =? NOT_FOUND) eqn:E; [apply Z.eqb_eq in E; contradiction|].
  destruct A4 as (Hi & Hl & v & G & T & Eb).
  assert (Hi' : 0 <= index < MAX_REGISTRY_BIT_COUNT)
    by (change MAX_REGISTRY_BIT_COUNT with 16384; lia).
  destruct (word_and_bit index Hi') as (_ & _ & Hw & Hb).
  assert (R : r' = mkRegistry (maximumIndex r) (maximumWordIndex r)
                     (lowestIndex r')
                     (<[Z.to_nat (index / 64) :=
                          Z.lor v (2 ^ (index mod 64))]> (bits r)))
    by (destruct r'; cbn in *; congruence).
  split; [exact Hi|]. split.
  { rewrite (isSet_testbit r index v Hi' G), T. reflexivity. }
  assert (Is : forall j, 0 <= j < MAX_REGISTRY_BIT_COUNT ->
            Registry.isSet r' j
            = if j / 64 =? index / 64
              then Ok (Z.testbit (Z.lor v (2 ^ (index mod 64))) (j mod 64))
              else Registry.isSet r j).
  { intros j Hj. destruct (word_and_bit j Hj) as (_ & _ & Hjw & Hjb).
    pose proof (wellFormed_length r W) as L.
    destruct (wellFormed_getBits r (j / 64) W Hjw) as (x & Gx & _).
    rewrite (isSet_testbit r j x Hj Gx).
    destruct (Z.eqb_spec (j / 64) (index / 64)) as [Ej|Nj].
    - apply isSet_testbit; [exact Hj|]. rewrite R.
      unfold Registry.getBits. cbn [bits].
      destruct ((0 <=? j / 64) && (j / 64 <? MAX_REGISTRY_WORD_COUNT)) eqn:X;
        [|lia].
      rewrite Ej, list_lookup_insert_eq by lia. reflexivity.
    - apply isSet_testbit; [exact Hj|]. rewrite R.
      unfold Registry.getBits. cbn [bits].
      destruct ((0 <=? j / 64) && (j / 64 <? MAX_REGISTRY_WORD_COUNT)) eqn:X;
        [|lia].
      rewrite list_lookup_insert_ne by lia.
      apply getBits_Some in Gx as [_ ->]. reflexivity. }
  split.
  { rewrite Is, Z.eqb_refl by exact Hi'.
    rewrite Z.lor_spec, Z.pow2_bits_true by lia.
    rewrite orb_true_r. reflexivity. }
  intros other Ho No. rewrite Is by exact Ho.
  destruct (Z.eqb_spec (other / 64) (index / 64)) as [Eo|_]; [|reflexivity].
  destruct (word_and_bit other Ho) as (_ & _ & How & Hob).
  pose proof (same_word_other_bit other index No Eo) as D.
  rewrite (isSet_testbit r other v Ho) by (rewrite Eo; exact G).
  rewrite Z.lor_spec, Z.pow2_bits_false by lia.
  rewrite orb_false_r. reflexivity.
Qed.

(** X6. [findFree] returns whatever compare-exchanges fail on the way, and
    what it returns is [NOT_FOUND], the bitmap being left as it was, or
    the index of a bit below [_maximumIndex] that was clear and is set
    now, no other bit being changed. *)
Theorem findFree_claims_a_free_bit : forall st,
  wellFormed (reg st) = true -> inBounds (reg st) = true ->
  exists index st',
    Registry.findFree st = Ok (index, st') /\
    wellFormed (reg st') = true /\ inBounds (reg st') = true /\
    ((index = NOT_FOUND /\ bits (reg st') = bits (reg st)) \/
     (0 <= index < maximumIndex (reg st) /\
      Registry.isSet (reg st) index = Ok false /\
      Registry.isSet (reg st') index = Ok true /\
      forall other, 0 <= other < MAX_REGISTRY_BIT_COUNT -> other <> index ->
        Registry.isSet (reg st') other = Registry.isSet (reg st) other)).
Proof.
  intros st W B.
  destruct (findFree_spec st W B) as (index & st' & R & W' & B' & F).
  exists index, st'. split; [exact R|]. split; [exact W'|]. split; [exact B'|].
  destruct (Z.eq_dec index NOT_FOUND) as [E|N].
  - left. split; [exact E|]. destruct F as (_ & _ & _ & F & _).
    rewrite E, Z.eqb_refl in F. exact F.
  - right. apply found_isSet; assumption.
Qed.

Lemma findFree_claims_a_free_bit_witness :
  exists index st',
    Registry.findFree (mkRegState (freshRegistry 100) [false; true; false])
    = Ok (index, st') /\
    wellFormed (reg st') = true.
Proof.
  destruct (findFree_claims_a_free_bit
              (mkRegState (freshRegistry 100) [false; true; false]))
    as (index & st' & R & W & _).
  - vm_compute. reflexivity.
  - vm_compute. reflexivity.
  - exists index, st'. auto.
Defined.

(** X7. When the words below [_lowestIndex] are full, [findFree] returns the
    lowest free bit of the registry: every bit below the one returned is
    set, [NOT_FOUND] is returned only when every bit of the registry is
    set, and the words below [_lowestIndex] are full afterwards too. *)
Theorem findFree_returns_the_lowest_free_bit : forall st,
  wellFormed (reg st) = true -> inBounds (reg st) = true ->
  tight (reg st) = true ->
  exists index st',
    Registry.findFree st = Ok (index, st') /\
    tight (reg st') = true /\
    forall j,
      0 <= j < (if index =? NOT_FOUND then maximumIndex (reg st) else index) ->
      Registry.isSet (reg st) j = Ok true.
Proof.
  intros st W B T.
  destruct (findFree_spec st W B) as (index & st' & R & W' & B' & F).
  exists index, st'. split; [exact R|].
  destruct F as (_ & _ & _ & _ & F).
  pose proof (proj1 (inBounds_spec _) B) as Bs.
  pose proof (proj1 (inBounds_spec _) B') as Bs'.
  destruct F as [F1 F2].
  { apply tight_fullBelow; [exact W| |exact T].
    change MAX_REGISTRY_WORD_COUNT with 256. lia. }
  split; [|exact F2].
  apply tight_fullBelow; [exact W'| |exact F1].
  change MAX_REGISTRY_WORD_COUNT with 256. lia.
Qed.

Lemma findFree_returns_the_lowest_free_bit_witness :
  exists index st',
    Registry.findFree
      (mkRegState (mkRegistry 200 4 1 (ALL_ONES :: 7 :: replicate 254 0))
         [false])
    = Ok (index, st') /\
    forall j, 0 <= j < (if index =? NOT_FOUND then 200 else index) ->
      Registry.isSet (mkRegistry 200 4 1 (ALL_ONES :: 7 :: replicate 254 0)) j
      = Ok true.
Proof.
  destruct (findFree_returns_the_lowest_free_bit
              (mkRegState
                 (mkRegistry 200 4 1 (ALL_ONES :: 7 :: replicate 254 0))
                 [false]))
    as (index & st' & R & _ & L).
  - vm_compute. reflexivity.
  - vm_compute. reflexivity.
  - vm_compute. reflexivity.
  - exists index, st'. split; [exact R|exact L].
Defined.

(** The loop of [updateLowestFreeWordIndex] lowers [_lowestIndex] to the
    word index, after as many rounds as compare-exchanges fail. *)
Lemma updateLowestFreeWordIndex_loop_run schedule : forall n r w,
  (length schedule < n)%nat ->
  Registry.updateLowestFreeWordIndex_loop n (lowestIndex r) w
    (mkRegState r schedule)
  = Ok (tt, mkRegState
              (mkRegistry (maximumIndex r) (maximumWordIndex r)
                 (Z.min (lowestIndex r) w) (bits r))
              (if lowestIndex r <=? w then schedule else settle schedule)).
Proof.
  induction schedule as [|outcome rest IH]; intros n r w Hn;
    (destruct n as [|n]; [cbn in Hn; lia|]);
    cbn [Registry.updateLowestFreeWordIndex_loop];
    (destruct (Z.leb_spec (lowestIndex r) w) as [Le|Gt];
     [rewrite Z.min_l by lia; destruct r; reflexivity|]);
    rewrite Z.min_r by lia;
    unfold bind, Registry.swapLowestIndex, Registry.getLowestIndex,
      Registry.load, Registry.nextCas, Registry.storeLowestIndex, bind, ret;
    lazy beta iota delta [reg sched fst snd];
    rewrite ?Z.eqb_refl.
  - reflexivity.
  - destruct outcome; lazy beta iota delta [reg sched fst snd andb negb settle];
      rewrite ?Z.eqb_refl; lazy beta iota delta [reg sched fst snd andb negb];
      [reflexivity|].
    rewrite IH by (cbn in Hn; lia).
    destruct (Z.leb_spec (lowestIndex r) w); [lia|].
    rewrite Z.min_r by lia. reflexivity.
Qed.

(** [free], run: the bit is cleared and [_lowestIndex] is not above its
    word afterwards. *)
Lemma free_run r schedule index v :
  0 <= index < MAX_REGISTRY_BIT_COUNT ->
  Registry.getBits r (index / 64) = Ok v ->
  Registry.free index (mkRegState r schedule)
  = Ok (tt, mkRegState
              (mkRegistry (maximumIndex r) (maximumWordIndex r)
                 (Z.min (lowestIndex r) (index / 64))
                 (<[Z.to_nat (index / 64) :=
                      Z.land v (not64 (2 ^ (index mod 64)))]> (bits r)))
              (if lowestIndex r <=? index / 64 then schedule
               else settle schedule)).
Proof.
  intros Hi G. destruct (word_and_bit index Hi) as (Ew & Eb & Hw & Hb).
  pose proof (pow2_range _ Hb) as P.
  unfold Registry.free, Registry.clear, Registry.updateLowestIndex,
    Registry.updateLowestFreeWordIndex, twoToOrder.
  rewrite Ew, Eb, twoToOrder_pow2 by lia.
  unfold bind at 1. unfold bind at 1. unfold lift at 1.
  rewrite (clearMask_run _ _ _ _ v) by (assumption || lia).
  unfold bind, Registry.getLowestIndex, Registry.load.
  lazy beta iota delta [reg sched fst snd].
  cbn [lowestIndex].
  set (r1 := mkRegistry _ _ _ _).
  change (lowestIndex r) with (lowestIndex r1).
  rewrite updateLowestFreeWordIndex_loop_run.
  - reflexivity.
  - unfold Registry.retryBound. cbn [sched]. lia.
Qed.

Lemma free_spec st index :
  wellFormed (reg st) = true -> inBounds (reg st) = true ->
  0 <= index < maximumIndex (reg st) ->
  exists st',
    Registry.free index st = Ok (tt, st') /\
    Registry.isSet (reg st') index = Ok false /\
    (forall other, 0 <= other < MAX_REGISTRY_BIT_COUNT -> other <> index ->
       Registry.isSet (reg st') other = Registry.isSet (reg st) other) /\
    lowestIndex (reg st') = Z.min (lowestIndex (reg st)) (index / 64) /\
    maximumIndex (reg st') = maximumIndex (reg st) /\
    wellFormed (reg st') = true /\ inBounds (reg st') = true /\
    (tight (reg st) = true -> tight (reg st') = true).
Proof.
  revert st index.
  intros [r schedule] index W B Hi. cbn [reg] in *.
  pose proof (proj1 (inBounds_spec _) B) as Bs.
  assert (Hi' : 0 <= index < MAX_REGISTRY_BIT_COUNT)
    by (change MAX_REGISTRY_BIT_COUNT with 16384; lia).
  destruct (word_and_bit index Hi') as (_ & _ & Hw & Hb).
  destruct (wellFormed_getBits r (index / 64) W Hw) as (v & G & _ & Hv).
  pose proof (pow2_range _ Hb) as P.
  assert (Hd : index / 64 < maximumWordIndex r)
    by (apply Z.div_lt_upper_bound; lia).
  eexists. split; [apply (free_run r schedule index v Hi' G)|].
  cbn [reg].
  set (r1 := mkRegistry (maximumIndex r) (maximumWordIndex r) (lowestIndex r)
               (<[Z.to_nat (index / 64) :=
                    Z.land v (not64 (2 ^ (index mod 64)))]> (bits r))).
  assert (W1 : wellFormed r1 = true)
    by (apply wellFormed_insert; [exact W|apply land_range; lia]).
  assert (Is : forall j, Registry.isSet
                 (mkRegistry (maximumIndex r) (maximumWordIndex r)
                    (Z.min (lowestIndex r) (index / 64))
                    (<[Z.to_nat (index / 64) :=
                         Z.land v (not64 (2 ^ (index mod 64)))]> (bits r))) j
               = Registry.isSet r1 j) by reflexivity.
  split.
  { rewrite Is. unfold r1. rewrite isSet_insert by assumption.
    rewrite Z.eqb_refl.
    rewrite Z.land_spec, not64_testbit, Z.pow2_bits_true by lia.
    rewrite andb_false_r. reflexivity. }
  split.
  { intros other Ho No. rewrite Is. unfold r1.
    rewrite isSet_insert by assumption.
    destruct (Z.eqb_spec (other / 64) (index / 64)) as [Eo|_]; [|reflexivity].
    destruct (word_and_bit other Ho) as (_ & _ & How & Hob).
    pose proof (same_word_other_bit other index No Eo) as D.
    rewrite (isSet_testbit r other v Ho) by (rewrite Eo; exact G).
    rewrite Z.land_spec, not64_testbit, Z.pow2_bits_false by lia.
    rewrite andb_true_r. reflexivity. }
  split; [reflexivity|]. split; [reflexivity|].
  split; [exact W1|].
  split; [apply inBounds_spec; cbn [lowestIndex maximumWordIndex maximumIndex];
          lia|].
  intros T.
  assert (W2 : wellFormed
                 (mkRegistry (maximumIndex r) (maximumWordIndex r)
                    (Z.min (lowestIndex r) (index / 64))
                    (<[Z.to_nat (index / 64) :=
                         Z.land v (not64 (2 ^ (index mod 64)))]> (bits r)))
               = true) by exact W1.
  apply tight_fullBelow;
    [exact W2|cbn [lowestIndex]; change MAX_REGISTRY_WORD_COUNT with 256; lia|].
  apply tight_fullBelow in T;
    [|exact W|change MAX_REGISTRY_WORD_COUNT with 256; lia].
  intros k Hk. cbn [lowestIndex] in Hk.
  pose proof (wellFormed_length r W) as L.
  unfold Registry.getBits. cbn [bits].
  change MAX_REGISTRY_WORD_COUNT with 256 in *.
  destruct ((0 <=? k) && (k <? 256)) eqn:X; [|lia].
  rewrite list_lookup_insert_ne by lia.
  specialize (T k ltac:(lia)). apply getBits_Some in T as [_ ->]. reflexivity.
Qed.

(** X8. [free] clears the bit it is given, whatever compare-exchanges fail,
    and changes no other bit; [_lowestIndex] is not above the word of the
    freed bit afterwards, so that the words below it are full if they
    were. *)
Theorem free_releases_the_bit : forall st index,
  wellFormed (reg st) = true -> inBounds (reg st) = true ->
  0 <= index < maximumIndex (reg st) ->
  exists st',
    Registry.free index st = Ok (tt, st') /\
    Registry.isSet (reg st') index = Ok false /\
    (forall other, 0 <= other < MAX_REGISTRY_BIT_COUNT -> other <> index ->
       Registry.isSet (reg st') other = Registry.isSet (reg st) other) /\
    lowestIndex (reg st') = Z.min (lowestIndex (reg st)) (index / 64) /\
    wellFormed (reg st') = true /\ inBounds (reg st') = true /\
    (tight (reg st) = true -> tight (reg st') = true).
Proof.
  intros st index W B Hi.
  destruct (free_spec st index W B Hi) as (st' & R & C & O & L & _ & P).
  exists st'. auto.
Qed.

Lemma free_releases_the_bit_witness :
  exists st',
    Registry.free 70
      (mkRegState (mkRegistry 200 4 2 (ALL_ONES :: ALL_ONES :: replicate 254 0))
         [false; false])
    = Ok (tt, st') /\
    Registry.isSet (reg st') 70 = Ok false /\ lowestIndex (reg st') = 1.
Proof.
  destruct (free_releases_the_bit
              (mkRegState
                 (mkRegistry 200 4 2 (ALL_ONES :: ALL_ONES :: replicate 254 0))
                 [false; false]) 70)
    as (st' & R & C & _ & L & _).
  - vm_compute. reflexivity.
  - vm_compute. reflexivity.
  - cbn [reg maximumIndex]. lia.
  - exists st'. split; [exact R|]. split; [exact C|]. rewrite L. reflexivity.
Defined.

(** X9. After [free(index)], when the words below [_lowestIndex] were full,
    [findFree] does not fail and does not return a bit above the one
    freed; it returns the freed bit itself when every bit below it is in
    use. *)
Theorem freed_bit_is_found_again : forall st index,
  wellFormed (reg st) = true -> inBounds (reg st) = true ->
  tight (reg st) = true ->
  0 <= index < maximumIndex (reg st) ->
  exists again st',
    (Registry.free index ;;; Registry.findFree) st = Ok (again, st') /\
    0 <= again <= index /\
    ((forall k, 0 <= k < index -> Registry.isSet (reg st) k = Ok true) ->
     again = index).
Proof.
  intros st index W B T Hi.
  destruct (free_spec st index W B Hi)
    as (st1 & R1 & C & O & _ & Mi & W1 & B1 & T1).
  specialize (T1 T).
  destruct (findFree_spec st1 W1 B1) as (again & st2 & R2 & W2 & B2 & F).
  exists again, st2. split.
  { unfold bind. rewrite R1. exact R2. }
  pose proof (proj1 (inBounds_spec _) B) as Bs.
  pose proof (proj1 (inBounds_spec _) B1) as Bs1.
  pose proof F as (M & _ & _ & _ & L).
  destruct L as [_ L].
  { apply tight_fullBelow; [exact W1| |exact T1].
    change MAX_REGISTRY_WORD_COUNT with 256. lia. }
  assert (N : again <> NOT_FOUND).
  { intros E. rewrite E, Z.eqb_refl in L.
    specialize (L index ltac:(lia)). congruence. }
  destruct (found_isSet _ _ _ W1 B1 F N) as (Ha & Clear & _).
  rewrite (proj2 (Z.eqb_neq _ _) N) in L.
  assert (Le : again <= index).
  { destruct (Z.le_gt_cases again index) as [|Gt]; [assumption|].
    specialize (L index ltac:(lia)). congruence. }
  split; [lia|].
  intros Below.
  destruct (Z.eq_dec again index) as [|Ne]; [assumption|exfalso].
  rewrite O in Clear
    by (try assumption; change MAX_REGISTRY_BIT_COUNT with 16384; lia).
  rewrite Below in Clear by lia. discriminate.
Qed.

Lemma freed_bit_is_found_again_witness :
  exists again st',
    (Registry.free 3 ;;; Registry.findFree)
      (mkRegState (mkRegistry 200 4 1 (ALL_ONES :: 7 :: replicate 254 0)) [])
    = Ok (again, st') /\ 0 <= again <= 3.
Proof.
  destruct (freed_bit_is_found_again
              (mkRegState
                 (mkRegistry 200 4 1 (ALL_ONES :: 7 :: replicate 254 0)) [])
              3)
    as (again & st' & R & Le & _).
  - vm_compute. reflexivity.
  - vm_compute. reflexivity.
  - vm_compute. reflexivity.
  - cbn [reg maximumIndex]. lia.
  - exists again, st'. auto.
Defined.

(** X10. [free] undoes [findFree]: once the bit that [findFree] returned is
    freed, the bitmap is what it was before the two calls. *)
Theorem free_undoes_findFree : forall st index st1,
  wellFormed (reg st) = true -> inBounds (reg st) = true ->
  Registry.findFree st = Ok (index, st1) -> index <> NOT_FOUND ->
  exists st2,
    Registry.free index st1 = Ok (tt, st2) /\
    bits (reg st2) = bits (reg st) /\
    maximumIndex (reg st2) = maximumIndex (reg st) /\
    maximumWordIndex (reg st2) = maximumWordIndex (reg st).
Proof.
  intros st index st1 W B R N.
  destruct (findFree_spec st W B) as (index' & st1' & R' & W1 & B1 & F).
  rewrite R in R'. injection R' as <- <-.
  pose proof (proj1 (inBounds_spec _) B) as Bs.
  destruct F as (M1 & M2 & _ & F & _).
  rewrite (proj2 (Z.eqb_neq _ _) N) in F.
  destruct F as (Hi & _ & v & G & Tb & Eb).
  assert (Hi' : 0 <= index < MAX_REGISTRY_BIT_COUNT)
    by (change MAX_REGISTRY_BIT_COUNT with 16384; lia).
  destruct (word_and_bit index Hi') as (_ & _ & Hw & Hb).
  pose proof (wellFormed_length _ W) as L.
  pose proof (proj2 (getBits_Some _ _ _ G)) as L0.
  destruct (wellFormed_word _ _ _ W L0) as [_ Hv].
  destruct st1 as [r1 s1]. cbn [reg] in *.
  assert (G1 : Registry.getBits r1 (index / 64)
               = Ok (Z.lor v (2 ^ (index mod 64)))).
  { unfold Registry.getBits. rewrite Eb.
    destruct ((0 <=? index / 64) && (index / 64 <? MAX_REGISTRY_WORD_COUNT))
      eqn:X; [|lia].
    rewrite list_lookup_insert_eq by lia. reflexivity. }
  eexists. split; [apply (free_run r1 s1 index _ Hi' G1)|].
  cbn [reg bits maximumIndex maximumWordIndex].
  split; [|split; assumption].
  rewrite Eb, list_insert_insert_eq. apply list_insert_id.
  rewrite L0. f_equal.
  apply Z.bits_inj'. intros k Hk.
  rewrite Z.land_spec, Z.lor_spec.
  destruct (Z.ltb_spec k 64) as [Lt|Ge].
  - rewrite not64_testbit by lia.
    destruct (Z.eq_dec k (index mod 64)) as [->|Nk].
    + rewrite Tb, Z.pow2_bits_true by lia. reflexivity.
    + rewrite Z.pow2_bits_false by lia.
      rewrite orb_false_r, andb_true_r. reflexivity.
  - rewrite (high_bits_clear v) by lia.
    rewrite Z.pow2_bits_false by lia. reflexivity.
Qed.

Lemma free_undoes_findFree_witness :
  exists st2,
    Registry.free 67
      (mkRegState
         (mkRegistry 200 4 1 (ALL_ONES :: 15 :: replicate 254 0)) [])
    = Ok (tt, st2) /\
    bits (reg st2) = ALL_ONES :: 7 :: replicate 254 0.
Proof.
  destruct (free_undoes_findFree
              (mkRegState
                 (mkRegistry 200 4 1 (ALL_ONES :: 7 :: replicate 254 0)) [])
              67
              (mkRegState
                 (mkRegistry 200 4 1 (ALL_ONES :: 15 :: replicate 254 0)) []))
    as (st2 & R & E & _).
  - vm_compute. reflexivity.
  - vm_compute. reflexivity.
  - vm_compute. reflexivity.
  - discriminate.
  - exists st2. split; [exact R|exact E].
Defined.

(** ** [findFreeRange] *)

Lemma keeps_ret {A} (a : A) : keeps (ret a).
Proof. intros st b st' [= _ <-]. reflexivity. Qed.

Lemma keeps_bind {A B} (m : Registry.R A) (k : A -> Registry.R B) :
  keeps m -> (forall a, keeps (k a)) -> keeps (bind m k).
Proof.
  intros Hm Hk st b st' H. inv_bind H as a s1 E.
  rewrite (Hk a _ _ _ H). apply (Hm _ _ _ E).
Qed.

Lemma keeps_lift {A} (r : Res A) : keeps (lift r).
Proof.
  intros st a st'. unfold lift. destruct r; [|discriminate].
  intros [= _ <-]. reflexivity.
Qed.

Lemma keeps_load {A} (f : Registry -> Res A) : keeps (Registry.load f).
Proof. intros st a st' H. apply load_Ok in H as [_ ->]. reflexivity. Qed.

Lemma keeps_storeBits w v : keeps (Registry.storeBits w v).
Proof.
  intros st a st'. unfold Registry.storeBits.
  destruct ((0 <=? w) && (w <? MAX_REGISTRY_WORD_COUNT)); [|discriminate].
  intros [= _ <-]. reflexivity.
Qed.

Lemma keeps_nextCas : keeps Registry.nextCas.
Proof. intros st a st' H. apply nextCas_Ok in H. rewrite H. reflexivity. Qed.

Ltac keeps_step :=
  first
    [ apply keeps_ret | apply keeps_lift | apply keeps_load
    | apply keeps_storeBits | apply keeps_nextCas
    | apply keeps_bind; [|intros ?]
    | match goal with
      | |- keeps (if ?b then _ else _) => destruct b
      | |- keeps (match ?x with Some _ => _ | None => _ end) => destruct x
      end
    | assumption ].

Lemma keeps_clearMask w m : keeps (Registry.clearMask w m).
Proof. unfold Registry.clearMask, Registry.andBits. repeat keeps_step. Qed.

Lemma keeps_conditionallySetMask w m :
  keeps (Registry.conditionallySetMask w m).
Proof.
  unfold Registry.conditionallySetMask, Registry.conditionallySetMask3,
    Registry.swapBits.
  repeat keeps_step.
Qed.

Lemma keeps_clearMaskRange_loop n : forall first i,
  keeps (Registry.clearMaskRange_loop n first i).
Proof.
  induction n as [|n IH]; intros first i; cbn [Registry.clearMaskRange_loop].
  - apply keeps_ret.
  - apply keeps_bind; [apply keeps_clearMask|intros _; apply IH].
Qed.

Lemma keeps_clearMaskRange first count fm lm :
  keeps (Registry.clearMaskRange first count fm lm).
Proof.
  unfold Registry.clearMaskRange.
  repeat first [apply keeps_clearMask | apply keeps_clearMaskRange_loop
               | keeps_step].
Qed.

Lemma keeps_conditionallySetMaskRange_loop n : forall first i fm,
  keeps (Registry.conditionallySetMaskRange_loop n first i fm).
Proof.
  induction n as [|n IH]; intros first i fm;
    cbn [Registry.conditionallySetMaskRange_loop].
  - apply keeps_ret.
  - apply keeps_bind; [apply keeps_conditionallySetMask|intros ok].
    destruct (negb ok); [|apply IH].
    apply keeps_bind; [apply keeps_clearMaskRange|intros _; apply keeps_ret].
Qed.

Lemma keeps_conditionallySetMaskRange first count fm lm :
  keeps (Registry.conditionallySetMaskRange first count fm lm).
Proof.
  unfold Registry.conditionallySetMaskRange.
  repeat first [apply keeps_conditionallySetMask
               | apply keeps_conditionallySetMaskRange_loop
               | apply keeps_clearMaskRange | keeps_step].
Qed.

Lemma keeps_findFreeRange_body count w :
  keeps (Registry.findFreeRange_body count w).
Proof.
  unfold Registry.findFreeRange_body.
  repeat first [apply keeps_conditionallySetMask
               | apply keeps_conditionallySetMaskRange | keeps_step].
Qed.

(** A round of [findFreeRange] returns a range only after the test
    [_maximumIndex - count <= index] has failed. *)
Lemma findFreeRange_body_bound count w st index st' :
  Registry.findFreeRange_body count w st = Ok (Some index, st') ->
  index = NOT_FOUND \/ index + count < maximumIndex (reg st).
Proof.
  unfold Registry.findFreeRange_body. intros H.
  inv_bind H as v s1 L. apply load_Ok in L as [_ ->].
  inv_bind H as mi s2 L. apply load_Ok in L as [[= <-] ->].
  destruct (count <=? BITS_PER_WORD).
  - inv_bind H as b s3 L. apply lift_Ok in L as [_ E3]. subst s3.
    cbv zeta in H. revert H.
    destruct (Z.leb_spec (maximumIndex (reg st) - count)
                (Registry.getIndex w b)) as [Le|Lt]; intros H.
    + apply ret_Ok in H as [[= ->] _]. left. reflexivity.
    + destruct (b + count <=? BITS_PER_WORD).
      * inv_bind H as lo s4 L. inv_bind H as mask s5 L2.
        inv_bind H as ok s6 L3. destruct ok.
        -- apply ret_Ok in H as [[= ->] _]. right. lia.
        -- apply ret_Ok in H as [[=] _].
      * inv_bind H as lo s4 L. inv_bind H as fm s5 L2.
        inv_bind H as lm s6 L3. inv_bind H as ok s7 L4. destruct ok.
        -- apply ret_Ok in H as [[= ->] _]. right. lia.
        -- apply ret_Ok in H as [[=] _].
  - cbv zeta in H. revert H.
    destruct (Z.leb_spec (maximumIndex (reg st) - count)
                (Registry.getIndex w (BITS_PER_WORD - clz v))) as [Le|Lt];
      intros H.
    + apply ret_Ok in H as [[= ->] _]. left. reflexivity.
    + inv_bind H as lm s4 L. inv_bind H as tm s5 L2.
      inv_bind H as ok s6 L3. destruct ok.
      * apply ret_Ok in H as [[= ->] _]. right. lia.
      * apply ret_Ok in H as [[=] _].
Qed.

Lemma findFreeRange_loop_bound count n : forall w st index st',
  Registry.findFreeRange_loop n count w st = Ok (index, st') ->
  index = NOT_FOUND \/ index + count < maximumIndex (reg st).
Proof.
  induction n as [|n IH]; intros w st index st' H;
    cbn [Registry.findFreeRange_loop] in H.
  - apply ret_Ok in H as [-> _]. left. reflexivity.
  - inv_bind H as r s1 E. destruct r as [i|].
    + apply ret_Ok in H as [-> ->].
      apply (findFreeRange_body_bound _ _ _ _ _ E).
    + rewrite <- (keeps_findFreeRange_body _ _ _ _ _ E).
      apply (IH _ _ _ _ H).
Qed.

(** X11. A range of two bits or more that [findFreeRange] returns ends below
    the last bit of the registry: [index + count < _maximumIndex], so the
    bit [_maximumIndex - 1] is never part of a range found, and a request
    for all the bits of a registry is never met. *)
Theorem findFreeRange_leaves_the_last_bit : forall count st index st',
  2 <= count ->
  Registry.findFreeRange count st = Ok (index, st') ->
  index <> NOT_FOUND ->
  index + count < maximumIndex (reg st).
Proof.
  intros count st index st' Hc H N. unfold Registry.findFreeRange in H.
  destruct (Z.eqb_spec count 0); [lia|].
  destruct (Z.eqb_spec count 1); [lia|].
  inv_bind H as w s1 L. unfold Registry.getLowestIndex in L.
  apply load_Ok in L as [_ ->].
  inv_bind H as mi s2 L. apply load_Ok in L as [_ ->].
  destruct (findFreeRange_loop_bound _ _ _ _ _ _ H); [contradiction|assumption].
Qed.

Lemma findFreeRange_leaves_the_last_bit_witness :
  0 + 199 < maximumIndex (freshRegistry 200) /\
  outcome (Registry.findFreeRange 200 (mkRegState (freshRegistry 200) []))
  = Ok NOT_FOUND.
Proof.
  split.
  - apply (findFreeRange_leaves_the_last_bit 199
             (mkRegState (freshRegistry 200) []) 0
             (mkRegState
                (mkRegistry 200 4 0
                   (ALL_ONES :: ALL_ONES :: ALL_ONES :: 127
                    :: replicate 252 0)) [])).
    + lia.
    + vm_compute. reflexivity.
    + discriminate.
  - vm_compute. reflexivity.
Defined.

Lemma findFreeRange_first_round r schedule count :
  2 <= count -> lowestIndex r < maximumIndex r ->
  Registry.findFreeRange count (mkRegState r schedule)
  = (x <- Registry.findFreeRange_body count (lowestIndex r) ;;
     match x with
     | Some index => ret index
     | None =>
         Registry.findFreeRange_loop
           (Z.to_nat (maximumIndex r - lowestIndex r - 1)) count
           (lowestIndex r + 1)
     end) (mkRegState r schedule).
Proof.
  intros Hc Hl. unfold Registry.findFreeRange.
  destruct (Z.eqb_spec count 0); [lia|].
  destruct (Z.eqb_spec count 1); [lia|].
  unfold bind at 1. unfold Registry.getLowestIndex, Registry.load at 1.
  lazy beta iota delta [reg sched fst snd].
  unfold bind at 1. unfold Registry.load at 1.
  lazy beta iota delta [reg sched fst snd].
  replace (Z.to_nat (maximumIndex r - lowestIndex r))
    with (S (Z.to_nat (maximumIndex r - lowestIndex r - 1))) by lia.
  reflexivity.
Qed.

Lemma lowestZeroBitsPosition_full n :
  lowestZeroBitsPosition ALL_ONES n = Ok NOT_FOUND.
Proof.
  unfold lowestZeroBitsPosition. change 64%nat with (S 63).
  generalize 63%nat. intros m. reflexivity.
Qed.

Lemma lowestZeroBitsPosition_64 v :
  v <> ALL_ONES -> lowestZeroBitsPosition v 64 = Err (ShiftOutOfRange 64).
Proof.
  intros N. unfold lowestZeroBitsPosition. change 64%nat with (S 63).
  generalize 63%nat. intros m. cbn [lowestZeroBitsPosition_loop].
  rewrite (proj2 (Z.eqb_neq _ _) N). reflexivity.
Qed.

(** X12. [findFreeRange] shifts by a count that is out of range, which C++
    leaves undefined, in these three cases: for a count from 2 to 63 when
    the first word it scans is full, since the position [NOT_FOUND] that
    [lowestZeroBitsPosition] returns is used as a shift count; for a
    count of 64 when that word is not full; and for a count above 64 when
    the top bit of that word is set. *)
Theorem findFreeRange_shifts_out_of_range : forall r schedule count v,
  0 <= lowestIndex r < maximumIndex r ->
  Registry.getBits r (lowestIndex r) = Ok v -> 0 <= v < 2 ^ 64 ->
  (2 <= count < 64 -> v = ALL_ONES ->
   lowestIndex r * 64 - 1 < maximumIndex r - count ->
   outcome (Registry.findFreeRange count (mkRegState r schedule))
   = Err (ShiftOutOfRange (-1))) /\
  (count = 64 -> v <> ALL_ONES ->
   outcome (Registry.findFreeRange count (mkRegState r schedule))
   = Err (ShiftOutOfRange 64)) /\
  (64 < count -> 2 ^ 63 <= v ->
   (lowestIndex r + 1) * 64 < maximumIndex r - count ->
   outcome (Registry.findFreeRange count (mkRegState r schedule))
   = Err (ShiftOutOfRange 64)).
Proof.
  intros r schedule count v Hl G Hv.
  assert (Ei : forall b, Registry.getIndex (lowestIndex r) b
                         = lowestIndex r * 64 + b).
  { intros b. unfold Registry.getIndex, BITS_PER_WORD_ORDER.
    rewrite Z.shiftl_mul_pow2 by lia. reflexivity. }
  split; [|split].
  - intros Hc -> Ht.
    rewrite findFreeRange_first_round by lia.
    unfold bind at 1. unfold Registry.findFreeRange_body.
    unfold bind at 1. unfold Registry.load at 1.
    lazy beta iota delta [reg sched fst snd]. rewrite G.
    unfold bind at 1. unfold Registry.load at 1.
    lazy beta iota delta [reg sched fst snd].
    change BITS_PER_WORD with 64.
    destruct (Z.leb_spec count 64); [|lia].
    rewrite lowestZeroBitsPosition_full.
    unfold bind at 1. unfold lift at 1. cbv zeta.
    rewrite Ei. change NOT_FOUND with (-1).
    destruct (Z.leb_spec (maximumIndex r - count) (lowestIndex r * 64 + -1));
      [lia|].
    destruct (Z.leb_spec (-1 + count) 64); [|lia].
    unfold loMask, twoToOrder. rewrite twoToOrder_pow2 by lia.
    cbn [rbind]. unfold bind at 1. unfold lift at 1.
    unfold bind at 1. unfold lift at 1. reflexivity.
  - intros -> Nv.
    rewrite findFreeRange_first_round by lia.
    unfold bind at 1. unfold Registry.findFreeRange_body.
    unfold bind at 1. unfold Registry.load at 1.
    lazy beta iota delta [reg sched fst snd]. rewrite G.
    unfold bind at 1. unfold Registry.load at 1.
    lazy beta iota delta [reg sched fst snd].
    change (64 <=? BITS_PER_WORD) with true. cbv iota.
    rewrite (lowestZeroBitsPosition_64 v Nv). reflexivity.
  - intros Hc Ht Hi.
    rewrite findFreeRange_first_round by lia.
    unfold bind at 1. unfold Registry.findFreeRange_body.
    unfold bind at 1. unfold Registry.load at 1.
    lazy beta iota delta [reg sched fst snd]. rewrite G.
    unfold bind at 1. unfold Registry.load at 1.
    lazy beta iota delta [reg sched fst snd].
    change BITS_PER_WORD with 64.
    destruct (Z.leb_spec count 64); [lia|].
    assert (C : clz v = 0).
    { unfold clz. destruct (Z.eqb_spec v 0); [lia|].
      assert (Z.log2 v = 63); [|lia].
      apply Z.log2_unique; [lia|]. change (Z.succ 63) with 64. lia. }
    cbv zeta. rewrite C, Ei. change (64 - 0) with 64.
    destruct (Z.leb_spec (maximumIndex r - count) (lowestIndex r * 64 + 64));
      [lia|].
    reflexivity.
Qed.

Lemma findFreeRange_shifts_out_of_range_witness :
  outcome (Registry.findFreeRange 2
             (mkRegState
                (mkRegistry 200 4 0 (ALL_ONES :: replicate 255 0)) []))
  = Err (ShiftOutOfRange (-1)) /\
  outcome (Registry.findFreeRange 64 (mkRegState (freshRegistry 200) []))
  = Err (ShiftOutOfRange 64) /\
  outcome (Registry.findFreeRange 65
             (mkRegState
                (mkRegistry 200 4 0 (2 ^ 63 :: replicate 255 0)) []))
  = Err (ShiftOutOfRange 64).
Proof.
  split; [|split].
  - apply (proj1 (findFreeRange_shifts_out_of_range
                    (mkRegistry 200 4 0 (ALL_ONES :: replicate 255 0)) [] 2
                    ALL_ONES ltac:(cbn; lia) ltac:(reflexivity)
                    ltac:(vm_compute; split; [discriminate|reflexivity])));
      [lia|reflexivity|cbn; lia].
  - apply (proj1 (proj2 (findFreeRange_shifts_out_of_range
                           (freshRegistry 200) [] 64 0
                           ltac:(unfold freshRegistry; cbn; lia)
                           ltac:(reflexivity) ltac:(lia))));
      [reflexivity|discriminate].
  - apply (proj2 (proj2 (findFreeRange_shifts_out_of_range
                           (mkRegistry 200 4 0 (2 ^ 63 :: replicate 255 0))
                           [] 65 (2 ^ 63)
                           ltac:(cbn; lia) ltac:(reflexivity) ltac:(lia))));
      [lia|lia|cbn; lia].
Defined.

(** ** [count] and [isEmpty] *)

Lemma popcount_double x c :
  0 <= x -> popcount (2 * x + Z.b2z c) = popcount x + Z.b2z c.
Proof.
  intros Hx. destruct x as [|p|p]; [destruct c; reflexivity| |lia].
  destruct c; cbn [Z.b2z].
  - change (2 * Z.pos p + 1) with (Z.pos p~1). cbn [popcount popcount_pos].
    lia.
  - change (2 * Z.pos p + 0) with (Z.pos p~0). cbn [popcount popcount_pos].
    lia.
Qed.

Lemma popcount_nonneg x : 0 <= popcount x.
Proof.
  destruct x as [|p|p]; cbn [popcount]; try lia.
  induction p; cbn [popcount_pos]; lia.
Qed.

Lemma popcount_zero x : 0 <= x -> popcount x = 0 -> x = 0.
Proof.
  intros Hx. destruct x as [|p|p]; [reflexivity| |lia].
  cbn [popcount]. intros E. exfalso.
  assert (0 < popcount_pos p); [|lia].
  clear E Hx. induction p; cbn [popcount_pos]; lia.
Qed.

Lemma div2_testbit v n :
  0 <= n -> Z.testbit (Z.div2 v) n = Z.testbit v (Z.succ n).
Proof.
  intros Hn. rewrite Z.div2_spec, Z.shiftr_spec by lia.
  f_equal; lia.
Qed.

(** Setting a clear bit adds one to the population count. *)
Lemma popcount_set_bit b : 0 <= b -> forall v,
  0 <= v -> Z.testbit v b = false ->
  popcount (Z.lor v (2 ^ b)) = popcount v + 1.
Proof.
  intros Hb. pattern b. apply natlike_ind; [| |exact Hb]; clear b Hb.
  - intros v Hv T. rewrite Z.bit0_odd in T.
    rewrite (Z.div2_odd v) at 1 2. rewrite T.
    change (Z.b2z false) with 0. rewrite Z.add_0_r.
    assert (E : Z.lor (2 * Z.div2 v) (2 ^ 0) = 2 * Z.div2 v + Z.b2z true).
    { apply Z.bits_inj'. intros k Hk. rewrite Z.lor_spec.
      destruct (Z.eq_dec k 0) as [->|N].
      - rewrite Z.testbit_even_0, Z.testbit_odd_0. reflexivity.
      - replace k with (Z.succ (k - 1)) by lia.
        rewrite Z.testbit_even_succ, Z.testbit_odd_succ by lia.
        rewrite Z.pow2_bits_false by lia. apply orb_false_r. }
    rewrite E.
    assert (D : 0 <= Z.div2 v) by (apply Z.div2_nonneg; exact Hv).
    rewrite popcount_double by exact D.
    replace (2 * Z.div2 v) with (2 * Z.div2 v + Z.b2z false)
      by (cbn [Z.b2z]; lia).
    rewrite popcount_double by exact D. cbn [Z.b2z]. lia.
  - intros b Hb IH v Hv T.
    assert (D : 0 <= Z.div2 v) by (apply Z.div2_nonneg; exact Hv).
    assert (E : Z.lor v (2 ^ Z.succ b)
                = 2 * Z.lor (Z.div2 v) (2 ^ b) + Z.b2z (Z.odd v)).
    { apply Z.bits_inj'. intros k Hk. rewrite Z.lor_spec.
      destruct (Z.eq_dec k 0) as [->|N].
      - rewrite Z.testbit_0_r, Z.bit0_odd.
        rewrite Z.pow2_bits_false by lia. apply orb_false_r.
      - replace k with (Z.succ (k - 1)) by lia.
        rewrite Z.testbit_succ_r by lia.
        rewrite Z.lor_spec, div2_testbit by lia.
        rewrite !Z.pow2_bits_eqb by lia.
        replace (Z.succ b =? Z.succ (k - 1)) with (b =? k - 1)
          by (destruct (Z.eqb_spec b (k - 1)), (Z.eqb_spec (Z.succ b)
                (Z.succ (k - 1))); lia || reflexivity).
        reflexivity. }
    rewrite E, popcount_double by (apply Z.lor_nonneg; split; [exact D|
      apply Z.pow_nonneg; lia]).
    rewrite IH; [| exact D |].
    + rewrite (Z.div2_odd v) at 3. rewrite popcount_double by exact D. lia.
    + rewrite div2_testbit by lia. exact T.
Qed.

(** Clearing a set bit takes one from the population count. *)
Lemma popcount_clear_bit b v :
  0 <= b < 64 -> 0 <= v < 2 ^ 64 -> Z.testbit v b = true ->
  popcount (Z.land v (not64 (2 ^ b))) = popcount v - 1.
Proof.
  intros Hb Hv T.
  assert (N : 0 <= Z.land v (not64 (2 ^ b)))
    by (apply Z.land_nonneg; left; lia).
  assert (C : Z.testbit (Z.land v (not64 (2 ^ b))) b = false).
  { rewrite Z.land_spec, not64_testbit, Z.pow2_bits_true by lia.
    apply andb_false_r. }
  pose proof (popcount_set_bit b ltac:(lia) _ N C) as P.
  assert (E : Z.lor (Z.land v (not64 (2 ^ b))) (2 ^ b) = v).
  { apply Z.bits_inj'. intros k Hk. rewrite Z.lor_spec, Z.land_spec.
    destruct (Z.eq_dec k b) as [->|Nk].
    - rewrite T, Z.pow2_bits_true by lia. apply orb_true_r.
    - rewrite Z.pow2_bits_false by lia. rewrite orb_false_r.
      destruct (Z.ltb_spec k 64).
      + rewrite not64_testbit, Z.pow2_bits_false by lia. apply andb_true_r.
      + rewrite (high_bits_clear v) by lia. reflexivity. }
  rewrite E in P. lia.
Qed.

Lemma count_loop_shift r d n : forall i c t,
  Registry.count_loop r n i c = Ok t ->
  Registry.count_loop r n i (c + d) = Ok (t + d).
Proof.
  induction n as [|n IH]; intros i c t; cbn [Registry.count_loop].
  - intros [= <-]. reflexivity.
  - destruct (Registry.getBits r i) as [v|]; [|discriminate]. cbn [rbind].
    intros H. replace (c + d + popcount v) with (c + popcount v + d) by lia.
    apply IH. exact H.
Qed.

Lemma count_loop_bits r r' n : forall i c,
  bits r' = bits r ->
  Registry.count_loop r' n i c = Registry.count_loop r n i c.
Proof.
  induction n as [|n IH]; intros i c E; cbn [Registry.count_loop].
  - reflexivity.
  - unfold Registry.getBits. rewrite E.
    destruct ((0 <=? i) && (i <? MAX_REGISTRY_WORD_COUNT)); [|reflexivity].
    destruct (bits r !! Z.to_nat i); [|reflexivity]. cbn [rbind].
    apply IH. exact E.
Qed.

(** The count after one word of the bitmap has been replaced. *)
Lemma count_loop_insert r w v v' :
  wellFormed r = true -> 0 <= w < MAX_REGISTRY_WORD_COUNT ->
  Registry.getBits r w = Ok v ->
  forall n i c t,
    0 <= i -> i + Z.of_nat n <= MAX_REGISTRY_WORD_COUNT ->
    Registry.count_loop r n i c = Ok t ->
    Registry.count_loop
      (mkRegistry (maximumIndex r) (maximumWordIndex r) (lowestIndex r)
         (<[Z.to_nat w := v']> (bits r))) n i c
    = Ok (if (i <=? w) && (w <? i + Z.of_nat n)
          then t + (popcount v' - popcount v) else t).
Proof.
  intros W Hw G. pose proof (wellFormed_length r W) as L.
  induction n as [|n IH]; intros i c t Hi Hn; cbn [Registry.count_loop].
  - intros [= <-].
    destruct (Z.leb_spec i w), (Z.ltb_spec w (i + Z.of_nat 0)); cbn [andb];
      try reflexivity; lia.
  - rewrite getBits_insert by (assumption || lia).
    destruct (Z.eqb_spec i w) as [->|N].
    + rewrite G. cbn [rbind]. intros H.
      destruct (Z.leb_spec w w), (Z.ltb_spec w (w + Z.of_nat (S n)));
        cbn [andb]; try lia.
      replace (c + popcount v')
        with (c + popcount v + (popcount v' - popcount v)) by lia.
      apply count_loop_shift.
      rewrite (IH (w + 1) (c + popcount v) t) by (lia || assumption).
      destruct (Z.leb_spec (w + 1) w); [lia|]. reflexivity.
    + destruct (Registry.getBits r i) as [x|]; [|discriminate]. cbn [rbind].
      intros H. rewrite (IH (i + 1) (c + popcount x) t) by (lia || assumption).
      destruct (Z.leb_spec (i + 1) w), (Z.ltb_spec w (i + 1 + Z.of_nat n)),
               (Z.leb_spec i w), (Z.ltb_spec w (i + Z.of_nat (S n)));
        cbn [andb]; try reflexivity; lia.
Qed.

(** [count] and [isEmpty] return, and [isEmpty] goes by the words that
    [count] counts. *)
Lemma isEmpty_count_loop r :
  wellFormed r = true ->
  forall n i c,
    0 <= i -> i + Z.of_nat n <= MAX_REGISTRY_WORD_COUNT ->
    exists b t,
      Registry.isEmpty_loop r n i = Ok b /\
      Registry.count_loop r n i c = Ok t /\ c <= t /\
      (b = true <-> t = c).
Proof.
  intros W. induction n as [|n IH]; intros i c Hi Hn;
    cbn [Registry.isEmpty_loop Registry.count_loop].
  - exists true, c. repeat split; auto; lia.
  - destruct (wellFormed_getBits r i W ltac:(lia)) as (v & G & _ & Hv).
    rewrite G. cbn [rbind].
    destruct (IH (i + 1) (c + popcount v) ltac:(lia) ltac:(lia))
      as (b & t & E1 & E2 & Le & Iff).
    pose proof (popcount_nonneg v) as P.
    destruct (Z.eqb_spec v ZERO) as [->|N]; cbn [negb].
    + exists b, t. change (popcount ZERO) with 0 in *.
      rewrite Z.add_0_r in *. auto.
    + exists false, t. split; [reflexivity|]. split; [exact E2|].
      split; [lia|]. split; [discriminate|]. intros ->. exfalso.
      apply N. apply popcount_zero; lia.
Qed.

(** X13. [isEmpty] returns [true] just when [_lowestIndex] is zero and
    [count] returns zero: the words that [count] counts are those that
    [isEmpty] tests, and a registry without a set bit whose
    [_lowestIndex] is not zero is not reported empty. *)
Theorem isEmpty_iff_count_is_zero : forall r,
  wellFormed r = true -> inBounds r = true ->
  exists empty c,
    Registry.isEmpty r = Ok empty /\ Registry.count r = Ok c /\ 0 <= c /\
    (empty = true <-> lowestIndex r = 0 /\ c = 0).
Proof.
  intros r W B. pose proof (proj1 (inBounds_spec _) B) as Bs.
  destruct (isEmpty_count_loop r W (Z.to_nat (maximumWordIndex r)) 0 0
              ltac:(lia) ltac:(change MAX_REGISTRY_WORD_COUNT with 256; lia))
    as (b & t & E1 & E2 & Le & Iff).
  unfold Registry.isEmpty, Registry.count. rewrite E2.
  destruct (Z.eqb_spec (lowestIndex r) 0) as [E|N].
  - exists b, t. rewrite E1. split; [reflexivity|]. split; [reflexivity|].
    split; [exact Le|]. split.
    + intros Hb. split; [exact E|apply Iff; exact Hb].
    + intros [_ ->]. apply Iff. reflexivity.
  - exists false, t. split; [reflexivity|]. split; [reflexivity|].
    split; [exact Le|]. split; [discriminate|].
    intros [Z0 _]. contradiction.
Qed.

Lemma isEmpty_iff_count_is_zero_witness :
  exists empty c,
    Registry.isEmpty (mkRegistry 200 4 1 (replicate 256 0)) = Ok empty /\
    Registry.count (mkRegistry 200 4 1 (replicate 256 0)) = Ok c /\
    (empty = true <-> 1 = 0 /\ c = 0).
Proof.
  destruct (isEmpty_iff_count_is_zero (mkRegistry 200 4 1 (replicate 256 0)))
    as (empty & c & E & C & _ & Iff).
  - vm_compute. reflexivity.
  - vm_compute. reflexivity.
  - exists empty, c. auto.
Defined.

(** X14. [count] follows the bits handed out: a [findFree] that returns a bit
    adds one to it, and [free] of a bit that is set takes one from it. *)
Theorem count_follows_findFree_and_free : forall st c,
  wellFormed (reg st) = true -> inBounds (reg st) = true ->
  Registry.count (reg st) = Ok c ->
  (forall index st',
     Registry.findFree st = Ok (index, st') -> index <> NOT_FOUND ->
     Registry.count (reg st') = Ok (c + 1)) /\
  (forall index,
     0 <= index < maximumIndex (reg st) ->
     Registry.isSet (reg st) index = Ok true ->
     exists st',
       Registry.free index st = Ok (tt, st') /\
       Registry.count (reg st') = Ok (c - 1)).
Proof.
  intros st c W B C. pose proof (proj1 (inBounds_spec _) B) as Bs.
  unfold Registry.count in C. split.
  - intros index st' R N.
    destruct (findFree_spec st W B) as (index' & st1 & R' & W1 & B1 & F).
    rewrite R in R'. injection R' as <- <-.
    destruct F as (M1 & M2 & _ & F & _).
    rewrite (proj2 (Z.eqb_neq _ _) N) in F.
    destruct F as (Hi & _ & v & G & Tb & Eb).
    assert (Hi' : 0 <= index < MAX_REGISTRY_BIT_COUNT)
      by (change MAX_REGISTRY_BIT_COUNT with 16384; lia).
    destruct (word_and_bit index Hi') as (_ & _ & Hw & Hb).
    assert (Hd : index / 64 < maximumWordIndex (reg st))
      by (apply Z.div_lt_upper_bound; lia).
    pose proof (proj2 (getBits_Some _ _ _ G)) as L0.
    destruct (wellFormed_word _ _ _ W L0) as [_ Hv].
    unfold Registry.count. rewrite M2.
    pose proof (count_loop_insert (reg st) (index / 64) v
                  (Z.lor v (2 ^ (index mod 64))) W Hw G
                  (Z.to_nat (maximumWordIndex (reg st))) 0 0 c
                  ltac:(lia)
                  ltac:(change MAX_REGISTRY_WORD_COUNT with 256; lia) C) as D.
    rewrite popcount_set_bit in D by (lia || assumption).
    destruct (Z.leb_spec 0 (index / 64)); [|lia].
    destruct (Z.ltb_spec (index / 64)
                (0 + Z.of_nat (Z.to_nat (maximumWordIndex (reg st)))));
      [|lia].
    cbn [andb] in D.
    replace (c + (popcount v + 1 - popcount v)) with (c + 1) in D by lia.
    rewrite <- D. apply count_loop_bits. exact Eb.
  - intros index Hi S.
    destruct st as [r schedule]. cbn [reg] in *.
    assert (Hi' : 0 <= index < MAX_REGISTRY_BIT_COUNT)
      by (change MAX_REGISTRY_BIT_COUNT with 16384; lia).
    destruct (word_and_bit index Hi') as (_ & _ & Hw & Hb).
    assert (Hd : index / 64 < maximumWordIndex r)
      by (apply Z.div_lt_upper_bound; lia).
    destruct (wellFormed_getBits r (index / 64) W Hw) as (v & G & _ & Hv).
    rewrite (isSet_testbit r index v Hi' G) in S. injection S as S.
    eexists. split; [apply (free_run r schedule index v Hi' G)|].
    cbn [reg]. unfold Registry.count. cbn [maximumWordIndex].
    pose proof (count_loop_insert r (index / 64) v
                  (Z.land v (not64 (2 ^ (index mod 64)))) W Hw G
                  (Z.to_nat (maximumWordIndex r)) 0 0 c
                  ltac:(lia)
                  ltac:(change MAX_REGISTRY_WORD_COUNT with 256; lia) C) as D.
    rewrite popcount_clear_bit in D by (assumption || lia).
    destruct (Z.leb_spec 0 (index / 64)); [|lia].
    destruct (Z.ltb_spec (index / 64)
                (0 + Z.of_nat (Z.to_nat (maximumWordIndex r)))); [|lia].
    cbn [andb] in D.
    replace (c + (popcount v - 1 - popcount v)) with (c - 1) in D by lia.
    rewrite <- D. apply count_loop_bits. reflexivity.
Qed.

Lemma count_follows_findFree_and_free_witness :
  exists st',
    Registry.free 3
      (mkRegState (mkRegistry 200 4 0 (15 :: replicate 255 0)) [])
    = Ok (tt, st') /\
    Registry.count (reg st') = Ok (4 - 1).
Proof.
  apply (proj2 (count_follows_findFree_and_free
                  (mkRegState (mkRegistry 200 4 0 (15 :: replicate 255 0)) [])
                  4 ltac:(vm_compute; reflexivity)
                  ltac:(vm_compute; reflexivity)
                  ltac:(vm_compute; reflexivity))).
  - cbn [reg maximumIndex]. lia.
  - vm_compute. reflexivity.
Defined.

(** X15. The index of a bit is split into a word index and a bit index and
    put together again without loss, for the values that [int] holds:
    [getIndex] undoes [getWordIndex] and [getBitIndex] for an index from
    0 to [2^31 - 1], and they undo it for a word index below [2^25] and a
    bit index below 64, for which [(wordIndex << 6) + bitIndex] does not
    overflow. *)
Theorem index_round_trip :
  (forall index,
     0 <= index < 2 ^ 31 ->
     0 <= Registry.getWordIndex index < 2 ^ 25 /\
     0 <= Registry.getBitIndex index < BITS_PER_WORD /\
     Registry.getIndex (Registry.getWordIndex index)
       (Registry.getBitIndex index) = index) /\
  (forall wordIndex bitIndex,
     0 <= wordIndex < 2 ^ 25 -> 0 <= bitIndex < BITS_PER_WORD ->
     0 <= Registry.getIndex wordIndex bitIndex < 2 ^ 31 /\
     Registry.getWordIndex (Registry.getIndex wordIndex bitIndex) = wordIndex /\
     Registry.getBitIndex (Registry.getIndex wordIndex bitIndex) = bitIndex).
Proof.
  assert (W : forall x, Registry.getWordIndex x = x / 64).
  { intros x. unfold Registry.getWordIndex, BITS_PER_WORD_ORDER.
    rewrite Z.shiftr_div_pow2 by lia. reflexivity. }
  assert (B : forall x, Registry.getBitIndex x = x mod 64).
  { intros x. unfold Registry.getBitIndex, BITS_MASK.
    change 63 with (Z.ones 6). rewrite Z.land_ones by lia. reflexivity. }
  change BITS_PER_WORD with 64. split.
  - intros index Hi. rewrite W, B.
    unfold Registry.getIndex, BITS_PER_WORD_ORDER.
    rewrite Z.shiftl_mul_pow2 by lia. change (2 ^ 6) with 64.
    pose proof (Z.div_mod index 64 ltac:(lia)).
    pose proof (Z.mod_pos_bound index 64 ltac:(lia)).
    assert (0 <= index / 64 < 2 ^ 25).
    { split; [apply Z.div_pos; lia|].
      apply Z.div_lt_upper_bound; lia. }
    lia.
  - intros w b Hw Hb. rewrite W, B.
    destruct (getIndex_word_and_bit w b Hb) as (-> & D & M).
    split; [lia|]. split; assumption.
Qed.

Lemma index_round_trip_witness :
  0 <= Registry.getIndex 5 17 < 2 ^ 31 /\
  Registry.getWordIndex (Registry.getIndex 5 17) = 5 /\
  Registry.getBitIndex (Registry.getIndex 5 17) = 17.
Proof.
  apply (proj2 index_round_trip); [lia|]. change BITS_PER_WORD with 64. lia.
Defined.

(** ** More on addresses the Director does not manage *)

(** X16. For a pointer that is not null and that no quantum allocator region
    and no live slab holds, [clear] does nothing, [reallocate] to zero
    bytes returns the pointer itself, and [reallocate] to a size of one
    byte or more is [allocate] of that size: the block returned is new
    and nothing is copied to it, the size of the old block being zero. *)
Theorem reallocate_of_an_unmanaged_pointer : forall (w : World) (p : Z),
  laidOut (director w) = true ->
  managed (director w) p = false ->
  p <> 0 ->
  Director.clear p w = Ok (tt, w) /\
  Director.reallocate p 0 w = Ok (p, w) /\
  forall size, 1 <= size <= 2 ^ 63 ->
    Director.reallocate p size w = Director.allocate size w.
Proof.
  intros w p L U N.
  pose proof (quantumAllocatorOf_unmanaged _ _ L U) as Q.
  pose proof (find_unmanaged _ _ L U) as F.
  assert (S : Director.allocationSize (director w) p = Ok 0).
  { unfold Director.allocationSize. rewrite Q. cbn [rbind].
    unfold SlabAllocator.allocationSize. rewrite F. reflexivity. }
  split; [|split].
  - unfold Director.clear, bind, readDirector. rewrite Q.
    unfold SlabAllocator.clear, SlabAllocator.this, bind, readDirector, lift.
    rewrite F. reflexivity.
  - unfold Director.reallocate. rewrite (proj2 (Z.eqb_neq _ _) N).
    unfold bind, readDirector, lift. rewrite S. reflexivity.
  - intros size Hs. unfold Director.reallocate.
    rewrite (proj2 (Z.eqb_neq _ _) N).
    unfold bind at 1. unfold readDirector at 1. rewrite S.
    rewrite roundUpPowerOf2_log2_up by lia.
    unfold bind at 1. unfold lift at 1.
    assert (P : 0 < 2 ^ Z.log2_up size)
      by (apply Z.pow_pos_nonneg; [lia|apply Z.log2_up_nonneg]).
    rewrite (proj2 (Z.ltb_lt 0 (2 ^ Z.log2_up size)) P). cbn [orb].
    unfold bind. destruct (Director.allocate size w) as [[a w1]|f];
      [|reflexivity].
    change (0 =? ZERO) with true. rewrite andb_false_r. reflexivity.
Qed.

Lemma reallocate_of_an_unmanaged_pointer_witness :
  exists d e',
    Director.create lp64 0 false 4 4 2 16 0 (quiet [2 ^ 32]) = Ok (Some d, e') /\
    Director.reallocate 4096 0 (mkWorld d e') = Ok (4096, mkWorld d e') /\
    Director.reallocate 4096 24 (mkWorld d e')
    = Director.allocate 24 (mkWorld d e').
Proof.
  assert (H : exists d e',
             Director.create lp64 0 false 4 4 2 16 0 (quiet [2 ^ 32])
             = Ok (Some d, e') /\
             laidOut d = true /\ managed d 4096 = false).
  { eexists _, _. split; [lazy; reflexivity|].
    split; vm_compute; reflexivity. }
  destruct H as (d & e' & C & L & U). exists d, e'. split; [exact C|].
  destruct (reallocate_of_an_unmanaged_pointer (mkWorld d e') 4096 L U
              ltac:(discriminate)) as (_ & Z0 & S).
  split; [exact Z0|]. apply S. lia.
Defined.

Lemma roster_beyond_the_slabs order :
  48 <= order <= 63 -> lookupZ initialRoster order = Ok NullAllocatorRef.
Proof.
  intros H.
  assert (E : order = 48 \/ order = 49 \/ order = 50 \/ order = 51 \/
              order = 52 \/ order = 53 \/ order = 54 \/ order = 55 \/
              order = 56 \/ order = 57 \/ order = 58 \/ order = 59 \/
              order = 60 \/ order = 61 \/ order = 62 \/ order = 63) by lia.
  repeat (destruct E as [->|E]; [reflexivity|]). subst. reflexivity.
Qed.

(** X17. A Director just created has no allocator for a block of more than
    [2^47] bytes: [allocate] of such a size, [MAX_ALLOCATION_SIZE]
    included, returns null and changes nothing. *)
Theorem allocate_beyond_the_slab_orders :
  forall abi address secure small medium large maxSlabCount sideDataSize
         e d e' size,
    Director.create abi address secure small medium large maxSlabCount
      sideDataSize e = Ok (Some d, e') ->
    sizesFit abi = true ->
    inRange small medium large maxSlabCount sideDataSize = true ->
    addressable e = true ->
    2 ^ 47 < size <= 2 ^ 63 ->
    Director.allocate size (mkWorld d e') = Ok (0, mkWorld d e').
Proof.
  intros abi address secure small medium large maxSlabCount sideDataSize
    e d e' size C Ha Hr Ho Hs.
  apply create_placed in C
    as (sp & b & s0 & s1 & s2 & ss & -> & Hb & Hl & _); try assumption.
  assert (K : 48 <= Z.log2_up size <= 63).
  { split.
    - assert (47 < Z.log2_up size); [|lia]. apply Z.log2_up_lt_pow2; lia.
    - apply Z.log2_up_le_pow2; lia. }
  assert (P : 2 ^ Z.log2_up size < 2 ^ 64) by (apply Z.pow_lt_mono_r; lia).
  assert (P8 : 8 < 2 ^ Z.log2_up size).
  { change 8 with (2 ^ 3). apply Z.pow_lt_mono_r; lia. }
  unfold Director.allocate.
  rewrite roundUpPowerOf2_log2_up by lia.
  unfold bind at 1. unfold lift at 1.
  unfold bind at 1. unfold readDirector at 1. cbn [director].
  unfold Director.findAllocatorBySize, AllocatorRoster.getAllocator.
  assert (O : sizeToOrder (2 ^ Z.log2_up size) = Z.log2_up size).
  { unfold sizeToOrder. destruct (Z.ltb_spec 8 (2 ^ Z.log2_up size)); [|lia].
    rewrite order_log2_up by lia. apply Z.log2_up_pow2. lia. }
  rewrite O. unfold freshDirector at 1. cbn [d_roster].
  rewrite roster_beyond_the_slabs by exact K.
  reflexivity.
Qed.

Lemma allocate_beyond_the_slab_orders_witness :
  exists d e',
    Director.create lp64 0 false 4 4 2 16 0 (quiet [2 ^ 32]) = Ok (Some d, e') /\
    Director.allocate MAX_ALLOCATION_SIZE (mkWorld d e')
    = Ok (0, mkWorld d e').
Proof.
  assert (H : exists d e',
             Director.create lp64 0 false 4 4 2 16 0 (quiet [2 ^ 32])
             = Ok (Some d, e')).
  { eexists _, _. lazy. reflexivity. }
  destruct H as (d & e' & C). exists d, e'. split; [exact C|].
  apply (allocate_beyond_the_slab_orders lp64 0 false 4 4 2 16 0
           (quiet [2 ^ 32]) d e' MAX_ALLOCATION_SIZE C eq_refl eq_refl eq_refl).
  change MAX_ALLOCATION_SIZE with (2 ^ 48). lia.
Defined.

(** ** The size of a Director *)

(** X18. [createSize] makes no system call and returns a whole number of
    pages that holds the regions of the three quantum allocators, of
    [2^17], [2^25] and [2^33] bytes for each partition, together with the
    administrative structures. *)
Theorem createSize_covers_the_regions :
  forall abi secure small medium large maxSlabCount sideDataSize e,
    sizesFit abi = true ->
    inRange small medium large maxSlabCount sideDataSize = true ->
    exists size,
      Director.createSize abi secure small medium large maxSlabCount
        sideDataSize e = Ok (size, e) /\
      size mod PAGE_SIZE = 0 /\
      2 ^ 17 * small + 2 ^ 25 * medium + 2 ^ 33 * large <= size < 2 ^ 52.
Proof.
  intros abi secure small medium large maxSlabCount sideDataSize e Ha Hr.
  destruct (createDirector_sizing abi false secure small medium large
              maxSlabCount sideDataSize e Ha Hr) as (dry & D & T).
  exists (roundUp (Arena.allocated dry) PAGE_SIZE).
  split.
  { unfold Director.createSize. rewrite (bind_eq _ _ _ _ _ D). reflexivity. }
  pose proof (inRange_bounds _ _ _ _ _ Hr) as (Hs & Hm & Hl & Hc & Hd).
  change PAGE_SIZE with (2 ^ 12).
  assert (N : 0 <= Arena.allocated dry) by lia.
  pose proof (roundUp_bounds 12 (Arena.allocated dry) ltac:(lia) N
                ltac:(lia)) as B.
  split.
  - rewrite roundUp_twoToOrder by lia. apply Z.mod_mul. lia.
  - lia.
Qed.

Lemma createSize_covers_the_regions_witness :
  exists size,
    Director.createSize lp64 false 4 4 2 16 0 (quiet []) = Ok (size, quiet []) /\
    size mod PAGE_SIZE = 0 /\
    2 ^ 17 * 4 + 2 ^ 25 * 4 + 2 ^ 33 * 2 <= size < 2 ^ 52.
Proof.
  apply (createSize_covers_the_regions lp64 false 4 4 2 16 0 (quiet []));
    reflexivity.
Defined.

(** ** Blocks fitted to a size *)

Lemma sizeToOrder_spec size :
  0 <= size <= 2 ^ 63 ->
  3 <= sizeToOrder size <= 63 /\ size <= 2 ^ sizeToOrder size /\
  (8 < size -> 2 ^ (sizeToOrder size - 1) < size).
Proof.
  intros H. unfold sizeToOrder. destruct (Z.ltb_spec 8 size) as [G|L].
  - rewrite order_log2_up by lia.
    pose proof (log2_up_range size ltac:(lia)) as R.
    pose proof (Z.log2_up_spec size ltac:(lia)) as [Lo Up].
    replace (Z.pred (Z.log2_up size)) with (Z.log2_up size - 1) in Lo by lia.
    assert (3 < Z.log2_up size) by (apply Z.log2_up_lt_pow2; lia).
    split; [lia|]. split; [lia|]. intros _. exact Lo.
  - change (2 ^ 3) with 8. split; [lia|]. split; [lia|]. intros G. lia.
Qed.

(** The trailing zeroes that [ctz] counts can be shifted out without
    loss. *)
Lemma ctz_divides x :
  0 < x ->
  0 <= ctz x /\ 2 ^ ctz x <= x /\ x = x / 2 ^ ctz x * 2 ^ ctz x.
Proof.
  intros Hx. destruct x as [|p|p]; try lia. cbn [ctz].
  destruct (ctz_pos_spec p) as (C0 & T & L).
  assert (P : 0 < 2 ^ ctz_pos p) by (apply Z.pow_pos_nonneg; lia).
  assert (M : Z.pos p mod 2 ^ ctz_pos p = 0).
  { rewrite <- Z.land_ones by lia. apply Z.bits_inj'. intros k Hk.
    rewrite Z.land_spec, Z.bits_0, Z.testbit_ones_nonneg by lia.
    destruct (Z.ltb_spec k (ctz_pos p)).
    - rewrite L by lia. reflexivity.
    - apply andb_false_r. }
  pose proof (Z.div_mod (Z.pos p) (2 ^ ctz_pos p) ltac:(lia)) as D.
  rewrite M, Z.add_0_r in D.
  split; [exact C0|]. split; [|lia].
  assert (0 < Z.pos p / 2 ^ ctz_pos p); [|nia].
  destruct (Z.eq_dec (Z.pos p / 2 ^ ctz_pos p) 0) as [E|N].
  - rewrite E in D. lia.
  - assert (0 <= Z.pos p / 2 ^ ctz_pos p) by (apply Z.div_pos; lia). lia.
Qed.

Lemma to_int_small x : 0 <= x < 2 ^ 31 -> to_int x = x.
Proof.
  intros H. unfold to_int. rewrite Z.mod_small by lia. lia.
Qed.

(** X19. [FitSize] replaces one block of the order of a size, from 1 byte to
    [MAX_ALLOCATION_SIZE], by [count] blocks of a smaller power of two
    that together are the size rounded up to a multiple of
    [2^lowOrder], where [lowOrder] is the order less the degree and 3 at
    least: the blocks hold the size, waste less than [2^lowOrder] bytes
    and take no more than the one block would. For a size of zero the
    constructor shifts by 64. *)
Theorem FitSize_covers_the_size : forall size degree,
  1 <= size <= MAX_ALLOCATION_SIZE -> 1 <= degree <= MAX_FIT_DEGREE ->
  let lowOrder := Z.max SMALLEST_SIZE_ORDER (sizeToOrder size - degree) in
  (exists f,
     FitSize.create size degree = Ok f /\
     1 <= f_count f <= 2 ^ degree /\
     (exists order, lowOrder <= order <= sizeToOrder size /\
                    f_size f = 2 ^ order) /\
     size <= f_size f * f_count f < size + 2 ^ lowOrder /\
     (f_size f * f_count f) mod 2 ^ lowOrder = 0 /\
     f_size f * f_count f <= 2 ^ sizeToOrder size) /\
  FitSize.create 0 degree = Err (ShiftOutOfRange 64).
Proof.
  intros size degree Hs Hd lowOrder.
  change MAX_ALLOCATION_SIZE with (2 ^ 48) in Hs.
  change MAX_FIT_DEGREE with 4 in Hd.
  change SMALLEST_SIZE_ORDER with 3 in lowOrder.
  split.
  - destruct (sizeToOrder_spec size ltac:(lia)) as (K & Up & Lo).
    set (k := sizeToOrder size) in *.
    assert (K48 : k <= 48).
    { destruct (Z.le_gt_cases size 8) as [S8|S8].
      - unfold k, sizeToOrder. destruct (Z.ltb_spec 8 size); lia.
      - specialize (Lo S8).
        assert (k - 1 < 48); [|lia].
        apply (Z.pow_lt_mono_r_iff 2); lia. }
    assert (L : 3 <= lowOrder <= k) by (unfold lowOrder; lia).
    assert (P : 0 < 2 ^ lowOrder) by (apply Z.pow_pos_nonneg; lia).
    assert (Pk : 2 ^ lowOrder <= 2 ^ k) by (apply Z.pow_le_mono_r; lia).
    assert (Pk48 : 2 ^ k <= 2 ^ 48) by (apply Z.pow_le_mono_r; lia).
    assert (Split : 2 ^ k = 2 ^ (k - lowOrder) * 2 ^ lowOrder).
    { rewrite <- Z.pow_add_r by lia. f_equal. lia. }
    assert (Pd : 0 < 2 ^ (k - lowOrder)) by (apply Z.pow_pos_nonneg; lia).
    assert (Pdd : 2 ^ (k - lowOrder) <= 2 ^ degree)
      by (apply Z.pow_le_mono_r; unfold lowOrder; lia).
    assert (P16 : 2 ^ degree <= 2 ^ 4) by (apply Z.pow_le_mono_r; lia).
    set (scaled := (size + 2 ^ lowOrder - 1) / 2 ^ lowOrder).
    assert (Sc : size <= scaled * 2 ^ lowOrder < size + 2 ^ lowOrder).
    { pose proof (Z.div_mod (size + 2 ^ lowOrder - 1) (2 ^ lowOrder)
                    ltac:(lia)) as D.
      pose proof (Z.mod_pos_bound (size + 2 ^ lowOrder - 1) (2 ^ lowOrder) P).
      fold scaled in D. lia. }
    assert (Sl : scaled <= 2 ^ (k - lowOrder)).
    { assert (scaled < 2 ^ (k - lowOrder) + 1); [|lia].
      unfold scaled. apply Z.div_lt_upper_bound; [lia|]. nia. }
    assert (S1 : 1 <= scaled) by nia.
    destruct (ctz_divides scaled ltac:(lia)) as (Z0 & Zl & Zd).
    set (z := ctz scaled) in *.
    set (c := scaled / 2 ^ z) in *.
    assert (Pz : 0 < 2 ^ z) by (apply Z.pow_pos_nonneg; lia).
    assert (C1 : 1 <= c) by nia.
    assert (Cs : c <= scaled) by nia.
    assert (Zk : lowOrder + z <= k).
    { assert (z <= k - lowOrder); [|lia].
      apply (Z.pow_le_mono_r_iff 2); lia. }
    assert (R : FitSize.create size degree
                = if 1 <? c then Ok (mkFitSize k (2 ^ (lowOrder + z)) c)
                  else Ok (mkFitSize k (2 ^ k) 1)).
    { unfold FitSize.create. fold k. unfold orderToSize.
      rewrite (twoToOrder_pow2 k) by lia. cbn [rbind].
      change SMALLEST_SIZE_ORDER with 3.
      replace (if k - degree <? 3 then 3 else k - degree) with lowOrder
        by (unfold lowOrder; destruct (Z.ltb_spec (k - degree) 3); lia).
      rewrite (twoToOrder_pow2 lowOrder) by lia. cbn [rbind].
      rewrite (wrap64_small (size + 2 ^ lowOrder)) by lia.
      rewrite (wrap64_small (size + 2 ^ lowOrder - 1)) by lia.
      unfold shr64 at 1.
      destruct (Z.leb_spec 0 lowOrder); [|lia].
      destruct (Z.ltb_spec lowOrder 64); [|lia]. cbn [andb rbind].
      rewrite Z.shiftr_div_pow2 by lia. fold scaled. fold z.
      unfold orderDiv, shr64.
      destruct (Z.leb_spec 0 z); [|lia].
      destruct (Z.ltb_spec z 64); [|lia]. cbn [andb rbind].
      rewrite Z.shiftr_div_pow2 by lia. fold c.
      rewrite to_int_small by lia.
      destruct (1 <? c); [|reflexivity].
      rewrite (twoToOrder_pow2 (lowOrder + z)) by lia. reflexivity. }
    rewrite R. destruct (Z.ltb_spec 1 c) as [G|Le].
    + eexists. split; [reflexivity|]. cbn [f_size f_count].
      rewrite Z.pow_add_r by lia.
      replace (2 ^ lowOrder * 2 ^ z * c) with (scaled * 2 ^ lowOrder) by nia.
      split; [lia|]. split.
      { exists (lowOrder + z). split; [lia|]. symmetry. apply Z.pow_add_r; lia. }
      split; [lia|]. split; [apply Z.mod_mul; lia|]. nia.
    + assert (c = 1) by lia.
      assert (E : scaled = 2 ^ z) by lia.
      assert (Ek : scaled * 2 ^ lowOrder = 2 ^ k).
      { destruct (Z.le_gt_cases size 8) as [S8|S8].
        - assert (k = 3)
            by (unfold k, sizeToOrder; destruct (Z.ltb_spec 8 size); lia).
          assert (lowOrder = 3) by lia.
          assert (One : 2 ^ (k - lowOrder) = 1)
            by (replace (k - lowOrder) with 0 by lia; reflexivity).
          assert (scaled = 1) by lia.
          rewrite Split, One. lia.
        - specialize (Lo S8).
          rewrite E, <- Z.pow_add_r by lia.
          assert (z + lowOrder = k); [|congruence].
          assert (k - 1 < z + lowOrder); [|lia].
          apply (Z.pow_lt_mono_r_iff 2); [lia|lia|].
          rewrite Z.pow_add_r by lia. rewrite <- E. lia. }
      eexists. split; [reflexivity|]. cbn [f_size f_count].
      rewrite Z.mul_1_r.
      split; [lia|]. split.
      { exists k. split; [lia|reflexivity]. }
      split; [lia|]. split; [|lia].
      rewrite Split. apply Z.mod_mul. lia.
  - unfold FitSize.create. change (sizeToOrder 0) with 3.
    change (orderToSize 3) with (Ok 8). cbn [rbind].
    change SMALLEST_SIZE_ORDER with 3.
    destruct (Z.ltb_spec (3 - degree) 3); [|lia].
    reflexivity.
Qed.

Lemma FitSize_covers_the_size_witness :
  exists f,
    FitSize.create 48 2 = Ok f /\
    48 <= f_size f * f_count f < 48 + 2 ^ 4 /\
    FitSize.create 0 2 = Err (ShiftOutOfRange 64).
Proof.
  destruct (FitSize_covers_the_size 48 2) as [(f & C & _ & _ & B & _) E].
  - change MAX_ALLOCATION_SIZE with (2 ^ 48). lia.
  - change MAX_FIT_DEGREE with 4. lia.
  - exists f. split; [exact C|]. split; [exact B|exact E].
Defined.

(** ** The blocks of a partition *)

Lemma round_down y k :
  0 <= k < 64 -> 0 <= y < 2 ^ 64 ->
  Z.land y (not64 (MASK (2 ^ k))) = y / 2 ^ k * 2 ^ k.
Proof.
  intros Hk Hy.
  assert (P : 0 < 2 ^ k) by (apply Z.pow_pos_nonneg; lia).
  assert (Q : 2 ^ k < 2 ^ 64) by (apply Z.pow_lt_mono_r; lia).
  unfold MASK. rewrite (wrap64_small (2 ^ k - 1)) by lia.
  rewrite <- Z.shiftr_div_pow2, <- Z.shiftl_mul_pow2 by lia.
  apply Z.bits_inj'. intros i Hi.
  replace (2 ^ k - 1) with (Z.ones k) by (rewrite Z.ones_equiv; lia).
  rewrite Z.land_spec.
  destruct (Z.ltb_spec i k) as [Lk|Lk].
  - rewrite Z.shiftl_spec_low by lia.
    rewrite not64_testbit, Z.testbit_ones_nonneg by lia.
    destruct (Z.ltb_spec i k); [|lia]. apply andb_false_r.
  - rewrite Z.shiftl_spec, Z.shiftr_spec by lia.
    replace (i - k + k) with i by lia.
    destruct (Z.ltb_spec i 64) as [L|L].
    + rewrite not64_testbit, Z.testbit_ones_nonneg by lia.
      destruct (Z.ltb_spec i k); [lia|]. apply andb_true_r.
    + rewrite (high_bits_clear y) by lia. reflexivity.
Qed.

(** X20. In a partition whose base is a multiple of its quantum size, every
    address of the block of index [index] is given that index by
    [quantumIndex] and the first address of the block by
    [allocationBase], and the first address is the one that [allocate]
    computes for the index; the side data of the block is the
    [index]-th entry of the side data of the partition, as long as
    [int] holds the product of the index and the size of an entry: the
    product is undefined otherwise. *)
Theorem partition_block_of_an_address : forall p index offset,
  let order := p_quantumSizeOrder p in
  let start := base (space (p_allocator p)) in
  0 <= order < 64 -> 0 <= start -> start mod 2 ^ order = 0 ->
  0 <= index < 2 ^ 31 -> 0 <= offset < 2 ^ order ->
  start + (index + 1) * 2 ^ order <= 2 ^ 64 ->
  Partition.quantumIndex p (start + index * 2 ^ order + offset) = Ok index /\
  Partition.allocationBase p (start + index * 2 ^ order + offset)
  = Ok (start + index * 2 ^ order) /\
  Partition.allocationSize p (start + index * 2 ^ order + offset)
  = Ok (2 ^ order) /\
  (- 2 ^ 31 <= index * p_sideDataSize p < 2 ^ 31 ->
   Partition.allocationSideData p (start + index * 2 ^ order + offset)
   = Ok (wrap64 (p_sidedata p + index * p_sideDataSize p))) /\
  (2 ^ 31 <= index * p_sideDataSize p ->
   Partition.allocationSideData p (start + index * 2 ^ order + offset)
   = Err (IntOverflow (index * p_sideDataSize p))) /\
  (first <~ orderMul (wrap64 index) order ;; Ok (wrap64 (start + first)))
  = Ok (start + index * 2 ^ order).
Proof.
  intros p index offset order start Ho Hs Ha Hi Hf Hl.
  assert (P : 0 < 2 ^ order) by (apply Z.pow_pos_nonneg; lia).
  assert (Q : 2 ^ order < 2 ^ 64) by (apply Z.pow_lt_mono_r; lia).
  assert (B : 0 <= index * 2 ^ order + offset < 2 ^ 64) by nia.
  assert (I : Partition.quantumIndex p (start + index * 2 ^ order + offset)
              = Ok index).
  { unfold Partition.quantumIndex. fold start. fold order.
    replace (start + index * 2 ^ order + offset - start)
      with (index * 2 ^ order + offset) by lia.
    rewrite wrap64_small by exact B.
    unfold orderDiv, shr64.
    destruct (Z.leb_spec 0 order); [|lia].
    destruct (Z.ltb_spec order 64); [|lia]. cbn [andb rbind].
    rewrite Z.shiftr_div_pow2 by lia.
    rewrite Z.div_add_l by lia. rewrite (Z.div_small offset) by lia.
    rewrite Z.add_0_r. rewrite to_int_small by lia. reflexivity. }
  split; [exact I|]. split; [|split; [|split; [|split]]].
  - unfold Partition.allocationBase, Partition.quantumSize, orderToSize.
    fold order. rewrite twoToOrder_pow2 by lia. cbn [rbind].
    rewrite round_down by nia. f_equal.
    pose proof (Z.div_mod start (2 ^ order) ltac:(lia)) as D.
    rewrite Ha, Z.add_0_r in D.
    replace (start + index * 2 ^ order + offset)
      with (offset + (start / 2 ^ order + index) * 2 ^ order) by lia.
    rewrite Z.div_add by lia. rewrite (Z.div_small offset) by lia. lia.
  - unfold Partition.allocationSize, Partition.quantumSize, orderToSize.
    fold order. apply twoToOrder_pow2. lia.
  - intros Hp. unfold Partition.allocationSideData. rewrite I.
    cbn [rbind]. unfold mulInt.
    destruct (Z.leb_spec (- 2 ^ 31) (index * p_sideDataSize p)); [|lia].
    destruct (Z.ltb_spec (index * p_sideDataSize p) (2 ^ 31)); [|lia].
    reflexivity.
  - intros Hp. unfold Partition.allocationSideData. rewrite I.
    cbn [rbind]. unfold mulInt.
    destruct (Z.ltb_spec (index * p_sideDataSize p) (2 ^ 31)); [lia|].
    rewrite andb_false_r. reflexivity.
  - unfold orderMul, shl64.
    destruct (Z.leb_spec 0 order); [|lia].
    destruct (Z.ltb_spec order 64); [|lia]. cbn [andb rbind].
    rewrite (wrap64_small index) by lia.
    rewrite Z.shiftl_mul_pow2 by lia.
    rewrite (wrap64_small (index * 2 ^ order)) by nia.
    rewrite wrap64_small by nia. reflexivity.
Qed.

Lemma partition_block_of_an_address_witness :
  let p := mkPartition
             (mkAllocator (Space.create (2 ^ 32) (2 ^ 17)) PartitionID 4 4)
             false (QuantumAllocatorRef 0) 4 (freshRegistry 8192) 8 (2 ^ 20) in
  Partition.quantumIndex p (2 ^ 32 + 5 * 2 ^ 4 + 7) = Ok 5 /\
  Partition.allocationBase p (2 ^ 32 + 5 * 2 ^ 4 + 7)
  = Ok (2 ^ 32 + 5 * 2 ^ 4) /\
  Partition.allocationSideData p (2 ^ 32 + 5 * 2 ^ 4 + 7)
  = Ok (2 ^ 20 + 5 * 8).
Proof.
  intros p.
  destruct (partition_block_of_an_address p 5 7) as (I & B & _ & S & _);
    try (cbn; lia); try reflexivity.
  split; [exact I|]. split; [exact B|].
  apply S. cbn. lia.
Defined.

(** ** The roster *)

Lemma setAllocators_loop_spec allocator n : forall i roster,
  0 <= i -> i + Z.of_nat n <= Z.of_nat (length roster) ->
  exists roster',
    AllocatorRoster.setAllocators_loop n allocator i roster = Ok roster' /\
    length roster' = length roster /\
    forall order,
      lookupZ roster' order
      = if (i <=? order) && (order <? i + Z.of_nat n) then Ok allocator
        else lookupZ roster order.
Proof.
  induction n as [|n IH]; intros i roster Hi Hn;
    cbn [AllocatorRoster.setAllocators_loop].
  - exists roster. split; [reflexivity|]. split; [reflexivity|].
    intros order.
    destruct (Z.leb_spec i order), (Z.ltb_spec order (i + Z.of_nat 0));
      cbn [andb]; reflexivity || lia.
  - unfold insertZ.
    destruct (Z.leb_spec 0 i); [|lia].
    destruct (Z.ltb_spec i (Z.of_nat (length roster))); [|lia].
    cbn [andb rbind].
    destruct (IH (i + 1) (<[Z.to_nat i := allocator]> roster) ltac:(lia))
      as (roster' & R & L & F).
    { rewrite length_insert. lia. }
    exists roster'. split; [exact R|]. split.
    { rewrite L. apply length_insert. }
    intros order. rewrite F. unfold lookupZ.
    destruct (Z.leb_spec (i + 1) order),
             (Z.ltb_spec order (i + 1 + Z.of_nat n)),
             (Z.leb_spec i order), (Z.ltb_spec order (i + Z.of_nat (S n)));
      cbn [andb]; try reflexivity; try lia;
      (destruct (Z.leb_spec 0 order); [|reflexivity || lia]);
      (destruct (Z.eq_dec order i) as [->|];
       [rewrite list_lookup_insert_eq by lia
       |rewrite list_lookup_insert_ne by lia]);
      reflexivity || lia.
Qed.

(** X21. [setAllocators(allocator, loOrder, hiOrder)] gives the allocator to
    the orders from [loOrder] up to, and not including, [hiOrder], and
    leaves the entries of the other orders as they are. *)
Theorem setAllocators_sets_the_orders_below_hiOrder :
  forall allocator loOrder hiOrder roster,
    0 <= loOrder <= hiOrder -> hiOrder <= Z.of_nat (length roster) ->
    exists roster',
      AllocatorRoster.setAllocators allocator loOrder hiOrder roster
      = Ok roster' /\
      length roster' = length roster /\
      forall order,
        lookupZ roster' order
        = if (loOrder <=? order) && (order <? hiOrder) then Ok allocator
          else lookupZ roster order.
Proof.
  intros allocator lo hi roster Hl Hh. unfold AllocatorRoster.setAllocators.
  destruct (setAllocators_loop_spec allocator (Z.to_nat (hi - lo)) lo roster
              ltac:(lia) ltac:(lia)) as (roster' & R & L & F).
  exists roster'. split; [exact R|]. split; [exact L|].
  intros order. rewrite F. replace (lo + Z.of_nat (Z.to_nat (hi - lo))) with hi
    by lia.
  reflexivity.
Qed.

Lemma setAllocators_sets_the_orders_below_hiOrder_witness :
  exists roster',
    AllocatorRoster.setAllocators (QuantumAllocatorRef 0) 1 3
      (replicate 4 NullAllocatorRef) = Ok roster' /\
    lookupZ roster' 2 = Ok (QuantumAllocatorRef 0) /\
    lookupZ roster' 3 = Ok NullAllocatorRef.
Proof.
  destruct (setAllocators_sets_the_orders_below_hiOrder
              (QuantumAllocatorRef 0) 1 3 (replicate 4 NullAllocatorRef))
    as (roster' & R & _ & F).
  - lia.
  - cbn. lia.
  - exists roster'. split; [exact R|]. rewrite !F. split; reflexivity.
Defined.

(** ** [findFreeRange] and [freeRange] on a registry without a bit in use *)

Lemma withBits_same r : withBits r (bits r) = r.
Proof. destruct r. reflexivity. Qed.

Lemma withBits_withBits r b b' : withBits (withBits r b) b' = withBits r b'.
Proof. reflexivity. Qed.

Lemma getBits_withBits r b w :
  Registry.getBits (withBits r b) w
  = if (0 <=? w) && (w <? MAX_REGISTRY_WORD_COUNT)
    then match b !! Z.to_nat w with
         | Some v => Ok v
         | None => Err (BitsOutOfRange w)
         end
    else Err (BitsOutOfRange w).
Proof. reflexivity. Qed.

(** Without a compare-exchange that fails, [conditionallySetMask] sets
    the mask. *)
Lemma conditionallySetMask_quiet w m r v :
  0 <= w < MAX_REGISTRY_WORD_COUNT -> Registry.getBits r w = Ok v ->
  Registry.conditionallySetMask w m (mkRegState r [])
  = Ok (true, mkRegState (withBits r (<[Z.to_nat w := Z.lor v m]> (bits r)))
                []).
Proof.
  intros Hw G.
  unfold Registry.conditionallySetMask, Registry.conditionallySetMask3,
    Registry.swapBits, Registry.nextCas, Registry.storeBits, bind,
    Registry.load, ret.
  lazy beta iota delta [reg sched fst snd]. rewrite G.
  destruct (Z.eqb_spec m 0) as [->|N]; cbn [negb].
  - rewrite Z.lor_0_r.
    rewrite list_insert_id by (apply getBits_Some in G as [_ G]; exact G).
    rewrite withBits_same. reflexivity.
  - lazy beta iota delta [reg sched fst snd]. rewrite G.
    lazy beta iota delta [reg sched fst snd].
    rewrite Z.eqb_refl. cbn [andb].
    destruct (Z.leb_spec 0 w); [|lia].
    destruct (Z.ltb_spec w MAX_REGISTRY_WORD_COUNT); [|lia].
    reflexivity.
Qed.

Lemma lor_ALL_ONES v : 0 <= v < 2 ^ 64 -> Z.lor v ALL_ONES = ALL_ONES.
Proof.
  intros Hv. apply Z.bits_inj'. intros k Hk. rewrite Z.lor_spec.
  destruct (Z.ltb_spec k 64).
  - rewrite ALL_ONES_testbit by lia. apply orb_true_r.
  - rewrite (high_bits_clear v), (high_bits_clear ALL_ONES)
      by (try lia; unfold ALL_ONES; lia).
    reflexivity.
Qed.

Lemma wellFormed_withBits r b :
  Z.of_nat (length b) = MAX_REGISTRY_WORD_COUNT ->
  Forall (fun v => 0 <= v < 2 ^ 64) b ->
  wellFormed (withBits r b) = true.
Proof.
  intros L F. unfold wellFormed, withBits. cbn [bits].
  apply andb_true_iff. split; [apply Z.eqb_eq; exact L|].
  apply forallb_forall. intros x I. rewrite Forall_forall in F.
  apply list_elem_of_In in I. specialize (F x I).
  apply andb_true_iff. lia.
Qed.

Lemma wellFormed_Forall r :
  wellFormed r = true -> Forall (fun v => 0 <= v < 2 ^ 64) (bits r).
Proof.
  intros W. apply Forall_forall. intros x I.
  apply list_elem_of_lookup in I as [p I].
  eapply wellFormed_word; eauto.
Qed.

Lemma conditionallySetMaskRange_loop_quiet n : forall first i fm r,
  wellFormed r = true -> 0 <= first + i + 1 ->
  first + i + 1 + Z.of_nat n <= MAX_REGISTRY_WORD_COUNT ->
  Registry.conditionallySetMaskRange_loop n first i fm (mkRegState r [])
  = Ok (true,
        mkRegState
          (withBits r (list_inserts (Z.to_nat (first + i + 1))
                         (replicate n ALL_ONES) (bits r))) []).
Proof.
  induction n as [|n IH]; intros first i fm r W Hi Hn;
    cbn [Registry.conditionallySetMaskRange_loop replicate list_inserts].
  - rewrite withBits_same. reflexivity.
  - destruct (wellFormed_getBits r (first + i + 1) W ltac:(lia))
      as (v & G & L & Hv).
    unfold bind at 1.
    rewrite (conditionallySetMask_quiet _ _ _ v) by (assumption || lia).
    cbn [negb]. rewrite lor_ALL_ONES by exact Hv.
    rewrite IH; cycle 1.
    { apply wellFormed_withBits.
      - rewrite length_insert. apply wellFormed_length. exact W.
      - apply Forall_insert; [apply wellFormed_Forall; exact W|].
        unfold ALL_ONES. lia. }
    { lia. }
    { lia. }
    rewrite withBits_withBits. cbn [withBits bits].
    replace (Z.to_nat (first + (i + 1) + 1))
      with (S (Z.to_nat (first + i + 1))) by lia.
    rewrite list_insert_inserts_lt by lia. reflexivity.
Qed.

Lemma conditionallySetMaskRange_quiet first count fm lm r v0 vl :
  wellFormed r = true -> 0 <= first -> 0 <= count ->
  first + count + 1 < MAX_REGISTRY_WORD_COUNT ->
  Registry.getBits r first = Ok v0 ->
  Registry.getBits r (first + count + 1) = Ok vl ->
  0 <= Z.lor v0 fm < 2 ^ 64 ->
  Registry.conditionallySetMaskRange first count fm lm (mkRegState r [])
  = Ok (true,
        mkRegState
          (withBits r
             (<[Z.to_nat (first + count + 1) := Z.lor vl lm]>
                (list_inserts (Z.to_nat (first + 1))
                   (replicate (Z.to_nat count) ALL_ONES)
                   (<[Z.to_nat first := Z.lor v0 fm]> (bits r))))) []).
Proof.
  intros W Hf Hc Hl G0 Gl R0.
  pose proof (wellFormed_length r W) as L.
  unfold Registry.conditionallySetMaskRange.
  unfold bind at 1.
  rewrite (conditionallySetMask_quiet _ _ _ v0) by (assumption || lia).
  cbn [negb]. unfold bind at 1.
  rewrite conditionallySetMaskRange_loop_quiet; cycle 1.
  { apply wellFormed_withBits.
    - rewrite length_insert. exact L.
    - apply Forall_insert; [apply wellFormed_Forall; exact W|exact R0]. }
  { lia. }
  { lia. }
  cbn [negb]. rewrite withBits_withBits. cbn [withBits bits].
  replace (first + 0 + 1) with (first + 1) by lia.
  unfold bind at 1.
  rewrite (conditionallySetMask_quiet _ _ _ vl); cycle 1.
  { lia. }
  { rewrite getBits_withBits.
    destruct (Z.leb_spec 0 (first + count + 1)); [|lia].
    destruct (Z.ltb_spec (first + count + 1) MAX_REGISTRY_WORD_COUNT); [|lia].
    cbn [andb].
    rewrite list_lookup_inserts_ge by (rewrite length_replicate; lia).
    rewrite list_lookup_insert_ne by lia.
    apply getBits_Some in Gl as [_ ->]. reflexivity. }
  cbn [negb]. rewrite withBits_withBits. reflexivity.
Qed.

(** [clearMask] of any mask, run. *)
Lemma clearMask_quiet w m r schedule v :
  0 <= w < MAX_REGISTRY_WORD_COUNT -> Registry.getBits r w = Ok v ->
  0 <= v < 2 ^ 64 ->
  exists cleared,
    Registry.clearMask w m (mkRegState r schedule)
    = Ok (cleared,
          mkRegState
            (withBits r (<[Z.to_nat w := Z.land v (not64 m)]> (bits r)))
            schedule).
Proof.
  intros Hw G Hv. destruct (Z.eq_dec m 0) as [->|N].
  - exists true. unfold Registry.clearMask. cbn [Z.eqb]. unfold ret.
    change (not64 0) with (Z.ones 64). rewrite Z.land_ones by lia.
    rewrite Z.mod_small by lia.
    rewrite list_insert_id by (apply getBits_Some in G as [_ G]; exact G).
    rewrite withBits_same. reflexivity.
  - eexists. apply clearMask_run; assumption.
Qed.

Lemma clearMaskRange_loop_quiet n : forall first i r schedule,
  wellFormed r = true -> 0 <= first + i + 1 ->
  first + i + 1 + Z.of_nat n <= MAX_REGISTRY_WORD_COUNT ->
  Registry.clearMaskRange_loop n first i (mkRegState r schedule)
  = Ok (tt,
        mkRegState
          (withBits r (list_inserts (Z.to_nat (first + i + 1))
                         (replicate n 0) (bits r))) schedule).
Proof.
  induction n as [|n IH]; intros first i r schedule W Hi Hn;
    cbn [Registry.clearMaskRange_loop replicate list_inserts].
  - rewrite withBits_same. reflexivity.
  - destruct (wellFormed_getBits r (first + i + 1) W ltac:(lia))
      as (v & G & L & Hv).
    unfold bind at 1.
    rewrite (clearMask_run _ _ _ _ v)
      by (assumption || lia || discriminate).
    change (not64 ALL_ONES) with 0. rewrite Z.land_0_r.
    rewrite IH; cycle 1.
    { apply wellFormed_insert; [exact W|lia]. }
    { lia. }
    { lia. }
    cbn [withBits bits maximumIndex maximumWordIndex lowestIndex].
    replace (Z.to_nat (first + (i + 1) + 1))
      with (S (Z.to_nat (first + i + 1))) by lia.
    rewrite list_insert_inserts_lt by lia. reflexivity.
Qed.

Lemma clearMaskRange_quiet first count fm lm r schedule v0 vl :
  wellFormed r = true -> 0 <= first -> 0 <= count ->
  first + count + 1 < MAX_REGISTRY_WORD_COUNT ->
  Registry.getBits r first = Ok v0 ->
  Registry.getBits r (first + count + 1) = Ok vl ->
  Registry.clearMaskRange first count fm lm (mkRegState r schedule)
  = Ok (tt,
        mkRegState
          (withBits r
             (<[Z.to_nat (first + count + 1) := Z.land vl (not64 lm)]>
                (list_inserts (Z.to_nat (first + 1))
                   (replicate (Z.to_nat count) 0)
                   (<[Z.to_nat first := Z.land v0 (not64 fm)]> (bits r)))))
          schedule).
Proof.
  intros W Hf Hc Hl G0 Gl.
  pose proof (wellFormed_length r W) as L.
  pose proof (proj2 (getBits_Some _ _ _ G0)) as L0.
  pose proof (proj2 (getBits_Some _ _ _ Gl)) as Ll.
  destruct (wellFormed_word _ _ _ W L0) as [_ R0].
  destruct (wellFormed_word _ _ _ W Ll) as [_ Rl].
  unfold Registry.clearMaskRange.
  destruct (clearMask_quiet first fm r schedule v0 ltac:(lia) G0 R0)
    as (c0 & E0).
  unfold bind at 1. rewrite E0.
  unfold bind at 1.
  rewrite clearMaskRange_loop_quiet; cycle 1.
  { apply wellFormed_insert; [exact W|]. apply land_range. exact R0. }
  { lia. }
  { lia. }
  rewrite withBits_withBits. cbn [withBits bits].
  replace (first + 0 + 1) with (first + 1) by lia.
  unfold bind at 1.
  edestruct (clearMask_quiet (first + count + 1) lm) as (cl & El);
    [| |exact Rl|rewrite El]; [lia| |reflexivity].
  rewrite getBits_withBits.
  destruct (Z.leb_spec 0 (first + count + 1)); [|lia].
  destruct (Z.ltb_spec (first + count + 1) MAX_REGISTRY_WORD_COUNT); [|lia].
  cbn [andb].
  rewrite list_lookup_inserts_ge by (rewrite length_replicate; lia).
  rewrite list_lookup_insert_ne by lia. rewrite Ll. reflexivity.
Qed.

Lemma lowestZeroBitsPosition_zero n :
  0 <= n < 64 -> lowestZeroBitsPosition 0 n = Ok 0.
Proof.
  intros Hn. unfold lowestZeroBitsPosition. change 64%nat with (S 63).
  generalize 63%nat. intros m. cbn [lowestZeroBitsPosition_loop].
  change (0 =? ALL_ONES) with false. cbv iota.
  change (lowestZeroBit 0) with 1.
  rewrite twoToOrder_pow2 by lia. cbn [rbind].
  pose proof (pow2_range n Hn).
  rewrite wrap64_small by lia. rewrite Z.land_0_l. reflexivity.
Qed.

Lemma loMask_ones n : 0 <= n < 64 -> loMask n = Ok (Z.ones n).
Proof.
  intros Hn. unfold loMask, twoToOrder. rewrite twoToOrder_pow2 by lia.
  cbn [rbind]. unfold MASK. pose proof (pow2_range n Hn).
  rewrite wrap64_small by lia. rewrite Z.ones_equiv. f_equal; lia.
Qed.

Lemma ones_range n : 0 <= n < 64 -> 0 <= Z.ones n < 2 ^ 64.
Proof.
  intros Hn. pose proof (pow2_range n Hn). rewrite Z.ones_equiv. lia.
Qed.

Lemma land_not64_same v : 0 <= v < 2 ^ 64 -> Z.land v (not64 v) = 0.
Proof.
  intros Hv. apply Z.bits_inj'. intros k Hk.
  rewrite Z.land_spec, Z.bits_0.
  destruct (Z.ltb_spec k 64).
  - rewrite not64_testbit by lia. apply andb_negb_r.
  - rewrite (high_bits_clear v) by lia. reflexivity.
Qed.

Lemma fresh_getBits n w :
  0 <= w < MAX_REGISTRY_WORD_COUNT ->
  Registry.getBits (freshRegistry n) w = Ok 0.
Proof.
  intros Hw. apply getBits_lookup; [exact Hw|].
  unfold freshRegistry. cbn [bits]. apply lookup_replicate_2. lia.
Qed.

Lemma fresh_wellFormed n : wellFormed (freshRegistry n) = true.
Proof. reflexivity. Qed.

(** The words after [findFreeRange] has claimed whole words and the low
    bits of one more, and after [freeRange] has cleared them. *)
Lemma span_lookup (a : nat) (x y A : Z) (l : list Z) (p : nat) :
  (a + 1 < length l)%nat ->
  <[S a := x]> (list_inserts 1 (replicate a A) (<[0%nat := y]> l)) !! p
  = if decide (p = 0)%nat then Some y
    else if decide (p <= a)%nat then Some A
    else if decide (p = S a) then Some x
    else l !! p.
Proof.
  intros Hl.
  destruct (decide (p = S a)) as [->|N1].
  - rewrite list_lookup_insert_eq
      by (rewrite length_inserts, length_insert; lia).
    destruct (decide (S a = 0)%nat); [lia|].
    destruct (decide (S a <= a)%nat); [lia|]. reflexivity.
  - rewrite list_lookup_insert_ne by lia.
    destruct (decide (p = 0)%nat) as [->|N0].
    + rewrite list_lookup_inserts_lt by lia.
      rewrite list_lookup_insert_eq by lia. reflexivity.
    + destruct (decide (p <= a)%nat) as [Le|Gt].
      * rewrite list_lookup_inserts
          by (rewrite ?length_replicate, ?length_insert; lia).
        apply lookup_replicate_2. lia.
      * rewrite list_lookup_inserts_ge by (rewrite length_replicate; lia).
        rewrite list_lookup_insert_ne by lia. reflexivity.
Qed.

(** X22. On a registry of [n] bits without a bit in use, and without a
    compare-exchange that fails, [findFreeRange(count)] for a count from
    2 up to [n - 1], other than 64, returns 0 and sets the bits from 0 to
    [count - 1] and no other, and [freeRange(0, count)] then leaves the
    registry as it was at first. *)
Theorem freeRange_undoes_findFreeRange : forall n count,
  2 <= count < n -> n <= MAX_REGISTRY_BIT_COUNT -> count <> 64 ->
  exists st1 st2,
    Registry.findFreeRange count (mkRegState (freshRegistry n) [])
    = Ok (0, st1) /\
    (forall j, 0 <= j < MAX_REGISTRY_BIT_COUNT ->
               Registry.isSet (reg st1) j = Ok (j <? count)) /\
    Registry.freeRange 0 count st1 = Ok (tt, st2) /\
    st2 = mkRegState (freshRegistry n) [].
Proof.
  intros n count Hc Hn N64.
  change MAX_REGISTRY_BIT_COUNT with 16384 in *.
  pose proof (fresh_wellFormed n) as W.
  assert (Len : length (bits (freshRegistry n)) = 256%nat) by reflexivity.
  assert (Zero : forall p : nat, (p < 256)%nat ->
                   bits (freshRegistry n) !! p = Some 0).
  { intros p Hp. unfold freshRegistry. cbn [bits].
    apply lookup_replicate_2. exact Hp. }
  assert (Update : forall r schedule,
             lowestIndex r = 0 ->
             Registry.updateLowestFreeWordIndex 0 (mkRegState r schedule)
             = Ok (tt, mkRegState r schedule)).
  { intros r schedule L0.
    unfold Registry.updateLowestFreeWordIndex, bind, Registry.getLowestIndex,
      Registry.load.
    lazy beta iota delta [reg sched fst snd].
    rewrite updateLowestFreeWordIndex_loop_run
      by (unfold Registry.retryBound; cbn [sched]; lia).
    rewrite L0. change (0 <=? 0) with true. cbv iota.
    change (Z.min 0 0) with 0. rewrite <- L0. destruct r. reflexivity. }
  rewrite findFreeRange_first_round
    by (try lia; unfold freshRegistry; cbn [lowestIndex maximumIndex]; lia).
  change (lowestIndex (freshRegistry n)) with 0.
  unfold Registry.findFreeRange_body, Registry.freeRange.
  change (Registry.getWordIndex 0) with 0.
  change (Registry.getBitIndex 0) with 0.
  change BITS_PER_WORD with 64.
  unfold bind at 1. unfold bind at 1. unfold Registry.load at 1.
  lazy beta iota delta [reg sched fst snd].
  rewrite fresh_getBits by (change MAX_REGISTRY_WORD_COUNT with 256; lia).
  unfold bind at 1. unfold Registry.load at 1.
  lazy beta iota delta [reg sched fst snd].
  change (maximumIndex (freshRegistry n)) with n.
  destruct (Z.leb_spec count 64) as [Small|Large].
  - (* the bits of one word *)
    assert (C : 0 <= count < 64) by lia.
    rewrite lowestZeroBitsPosition_zero by exact C.
    unfold bind at 1. unfold lift at 1. cbv zeta.
    change (Registry.getIndex 0 0) with 0.
    destruct (Z.leb_spec (n - count) 0); [lia|].
    destruct (Z.leb_spec (0 + count) 64); [|lia].
    rewrite loMask_ones by exact C.
    unfold bind at 1. unfold lift at 1.
    assert (S0 : shl64 (Z.ones count) 0 = Ok (Z.ones count)).
    { unfold shl64. cbn [Z.leb Z.ltb andb Z.compare]. rewrite Z.shiftl_0_r.
      rewrite wrap64_small by (apply ones_range; exact C). reflexivity. }
    rewrite S0. unfold bind at 1. unfold lift at 1.
    unfold bind at 1.
    rewrite (conditionallySetMask_quiet 0 _ _ 0)
      by (try apply fresh_getBits; change MAX_REGISTRY_WORD_COUNT with 256;
          lia).
    rewrite Z.lor_0_l. unfold ret at 1. unfold ret at 1.
    eexists _, _. split; [reflexivity|]. cbn [reg].
    split.
    { intros j Hj. change 16384 with MAX_REGISTRY_BIT_COUNT in Hj.
      unfold withBits.
      rewrite isSet_insert
        by (try exact W; try exact Hj;
            change MAX_REGISTRY_WORD_COUNT with 256; lia).
      destruct (word_and_bit j Hj) as (_ & _ & Hw & Hb).
      destruct (Z.eqb_spec (j / 64) 0) as [E|Ne].
      - rewrite Z.testbit_ones_nonneg by lia.
        pose proof (Z.div_mod j 64 ltac:(lia)) as D.
        destruct (Z.ltb_spec (j mod 64) count), (Z.ltb_spec j count);
          reflexivity || lia.
      - rewrite (isSet_testbit _ j 0 Hj) by (apply fresh_getBits; exact Hw).
        rewrite Z.bits_0.
        assert (64 <= j).
        { pose proof (Z.div_mod j 64 ltac:(lia)) as D. lia. }
        destruct (Z.ltb_spec j count); [lia|reflexivity]. }
    split; [|reflexivity].
    unfold bind, lift. rewrite S0.
    edestruct (clearMask_quiet 0 (Z.ones count)) as (cleared & E);
      [| | |rewrite E].
    + change MAX_REGISTRY_WORD_COUNT with 256. lia.
    + rewrite getBits_withBits. cbn [Z.leb Z.ltb andb Z.compare Z.to_nat].
      change MAX_REGISTRY_WORD_COUNT with 256.
      cbn [Z.ltb Z.compare].
      rewrite list_lookup_insert_eq by (rewrite Len; lia). reflexivity.
    + apply ones_range. exact C.
    + unfold ret at 1.
      rewrite land_not64_same by (apply ones_range; exact C).
      cbn [withBits bits maximumIndex maximumWordIndex lowestIndex].
      rewrite list_insert_insert_eq.
      rewrite (list_insert_id (bits (freshRegistry n)) (Z.to_nat 0) 0)
        by (apply Zero; lia).
      change (mkRegistry n (wordsFor n) 0 (bits (freshRegistry n)))
        with (freshRegistry n).
      rewrite Update by reflexivity. reflexivity.
  - (* whole words and the low bits of one more *)
    change (clz 0) with 64. cbv zeta. change (64 - 64) with 0.
    change (Registry.getIndex 0 0) with 0.
    destruct (Z.leb_spec (n - count) 0); [lia|].
    change (hiMask 64) with (Ok ALL_ONES).
    unfold bind at 1. unfold lift at 1.
    assert (Rm : 0 <= count - 64 < 16384) by lia.
    destruct (word_and_bit (count - 64) Rm) as (Ew & Eb & Hw & Hb).
    change MAX_REGISTRY_WORD_COUNT with 256 in *.
    rewrite Ew, Eb.
    set (words := (count - 64) / 64) in *.
    set (low := (count - 64) mod 64) in *.
    assert (Hww : words <= 254).
    { assert (words < 255); [|lia].
      unfold words. apply Z.div_lt_upper_bound; lia. }
    assert (D : count = 64 + words * 64 + low).
    { pose proof (Z.div_mod (count - 64) 64 ltac:(lia)). unfold words, low.
      lia. }
    rewrite loMask_ones by exact Hb.
    unfold bind at 1. unfold lift at 1.
    unfold bind at 1.
    rewrite (conditionallySetMaskRange_quiet 0 words ALL_ONES (Z.ones low) _
               0 0)
      by (try exact W; try apply fresh_getBits;
          change MAX_REGISTRY_WORD_COUNT with 256;
          try (rewrite Z.lor_0_l; unfold ALL_ONES); lia).
    rewrite !Z.lor_0_l. unfold ret at 1. unfold ret at 1.
    replace (Z.to_nat (0 + words + 1)) with (S (Z.to_nat words)) by lia.
    change (Z.to_nat (0 + 1)) with 1%nat. change (Z.to_nat 0) with 0%nat.
    set (B1 := <[S (Z.to_nat words) := Z.ones low]> _).
    assert (L1 : forall p : nat,
               B1 !! p
               = if decide (p = 0)%nat then Some ALL_ONES
                 else if decide (p <= Z.to_nat words)%nat then Some ALL_ONES
                 else if decide (p = S (Z.to_nat words)) then Some (Z.ones low)
                 else bits (freshRegistry n) !! p).
    { intros p. unfold B1. apply span_lookup. rewrite Len. lia. }
    assert (Len1 : length B1 = 256%nat).
    { unfold B1. rewrite length_insert, length_inserts, length_insert.
      exact Len. }
    assert (W1 : wellFormed (withBits (freshRegistry n) B1) = true).
    { apply wellFormed_withBits.
      - rewrite Len1. reflexivity.
      - unfold B1. apply Forall_insert; [|apply ones_range; exact Hb].
        apply Forall_inserts.
        + apply Forall_insert; [apply wellFormed_Forall; exact W|].
          unfold ALL_ONES. lia.
        + apply Forall_replicate. unfold ALL_ONES. lia. }
    eexists _, _. split; [reflexivity|]. cbn [reg].
    split.
    { intros j Hj. change 16384 with MAX_REGISTRY_BIT_COUNT in Hj.
      destruct (word_and_bit j Hj) as (_ & _ & Hjw & Hjb).
      change MAX_REGISTRY_WORD_COUNT with 256 in Hjw.
      pose proof (Z.div_mod j 64 ltac:(lia)) as Dj.
      assert (G : Registry.getBits (withBits (freshRegistry n) B1) (j / 64)
                  = match B1 !! Z.to_nat (j / 64) with
                    | Some v => Ok v
                    | None => Err (BitsOutOfRange (j / 64))
                    end).
      { rewrite getBits_withBits. change MAX_REGISTRY_WORD_COUNT with 256.
        destruct (Z.leb_spec 0 (j / 64)); [|lia].
        destruct (Z.ltb_spec (j / 64) 256); [|lia]. reflexivity. }
      rewrite L1 in G.
      destruct (decide (Z.to_nat (j / 64) = 0)%nat) as [E0|N0].
      { rewrite (isSet_testbit _ j _ Hj G), ALL_ONES_testbit by lia.
        destruct (Z.ltb_spec j count); [reflexivity|lia]. }
      destruct (decide (Z.to_nat (j / 64) <= Z.to_nat words)%nat) as [Le|Gt].
      { rewrite (isSet_testbit _ j _ Hj G), ALL_ONES_testbit by lia.
        destruct (Z.ltb_spec j count); [reflexivity|nia]. }
      destruct (decide (Z.to_nat (j / 64) = S (Z.to_nat words))) as [El|Nl].
      { rewrite (isSet_testbit _ j _ Hj G), Z.testbit_ones_nonneg by lia.
        assert (j / 64 = words + 1) by lia.
        destruct (Z.ltb_spec (j mod 64) low), (Z.ltb_spec j count);
          reflexivity || nia. }
      rewrite Zero in G by lia.
      rewrite (isSet_testbit _ j _ Hj G), Z.bits_0.
      assert (words + 1 < j / 64) by lia.
      destruct (Z.ltb_spec j count); [nia|reflexivity]. }
    split; [|reflexivity].
    destruct (Z.leb_spec (0 + count) 64); [lia|].
    destruct (Z.leb_spec count 64); [lia|].
    cbv zeta. change (64 - 0) with 64.
    change (hiMask 64) with (Ok ALL_ONES).
    rewrite Ew, Eb. fold words. fold low.
    rewrite loMask_ones by exact Hb.
    unfold bind at 1. unfold bind at 1. unfold lift at 1.
    unfold bind at 1. unfold lift at 1.
    rewrite (clearMaskRange_quiet 0 words ALL_ONES (Z.ones low) _ _
               ALL_ONES (Z.ones low)); cycle 1.
    { exact W1. }
    { lia. }
    { lia. }
    { change MAX_REGISTRY_WORD_COUNT with 256. lia. }
    { rewrite getBits_withBits. cbn [Z.leb Z.ltb andb Z.compare Z.to_nat].
      change MAX_REGISTRY_WORD_COUNT with 256. cbn [Z.ltb Z.compare].
      rewrite L1. reflexivity. }
    { rewrite getBits_withBits. change MAX_REGISTRY_WORD_COUNT with 256.
      destruct (Z.leb_spec 0 (0 + words + 1)); [|lia].
      destruct (Z.ltb_spec (0 + words + 1) 256); [|lia]. cbn [andb].
      rewrite L1.
      destruct (decide (Z.to_nat (0 + words + 1) = 0)%nat); [lia|].
      destruct (decide (Z.to_nat (0 + words + 1) <= Z.to_nat words)%nat);
        [lia|].
      destruct (decide (Z.to_nat (0 + words + 1) = S (Z.to_nat words)));
        [reflexivity|lia]. }
    cbn [withBits bits maximumIndex maximumWordIndex lowestIndex].
    change (not64 ALL_ONES) with 0. rewrite Z.land_0_r.
    rewrite land_not64_same by (apply ones_range; exact Hb).
    replace (Z.to_nat (0 + words + 1)) with (S (Z.to_nat words)) by lia.
    change (Z.to_nat (0 + 1)) with 1%nat. change (Z.to_nat 0) with 0%nat.
    assert (Back : <[S (Z.to_nat words) := 0]>
                     (list_inserts 1 (replicate (Z.to_nat words) 0)
                        (<[0%nat := 0]> B1))
                   = bits (freshRegistry n)).
    { apply list_eq. intros p. rewrite span_lookup by (rewrite Len1; lia).
      rewrite L1.
      destruct (decide (p = 0)%nat) as [->|]; [rewrite Zero by lia; reflexivity|].
      destruct (decide (p <= Z.to_nat words)%nat);
        [rewrite Zero by lia; reflexivity|].
      destruct (decide (p = S (Z.to_nat words))) as [->|];
        [rewrite Zero by lia; reflexivity|reflexivity]. }
    rewrite Back.
    change (mkRegistry n (wordsFor n) 0 (bits (freshRegistry n)))
      with (freshRegistry n).
    rewrite Update by reflexivity. reflexivity.
Qed.

Lemma freeRange_undoes_findFreeRange_witness :
  exists st1 st2,
    Registry.findFreeRange 100 (mkRegState (freshRegistry 200) [])
    = Ok (0, st1) /\
    Registry.isSet (reg st1) 99 = Ok true /\
    Registry.isSet (reg st1) 100 = Ok false /\
    Registry.freeRange 0 100 st1 = Ok (tt, st2) /\
    st2 = mkRegState (freshRegistry 200) [].
Proof.
  destruct (freeRange_undoes_findFreeRange 200 100)
    as (st1 & st2 & F & S & R & E).
  - lia.
  - change MAX_REGISTRY_BIT_COUNT with 16384. lia.
  - discriminate.
  - exists st1, st2. split; [exact F|].
    split; [apply (S 99); change MAX_REGISTRY_BIT_COUNT with 16384; lia|].
    split; [apply (S 100); change MAX_REGISTRY_BIT_COUNT with 16384; lia|].
    split; [exact R|exact E].
Defined.

(** ** Reservations *)

(** [reserveAligned] when the reservation succeeds. *)
Lemma reserveAligned_run size order m schedule rest calls :
  12 <= order < 52 -> 0 <= size ->
  0 < m -> m mod PAGE_SIZE = 0 -> m + size + 2 ^ order <= 2 ^ 64 ->
  let start := roundUp m (2 ^ order) in
  let reserveSize := size + 2 ^ order - PAGE_SIZE in
  System.reserveAligned size (2 ^ order) (mkEnv schedule (m :: rest) calls)
  = Ok (start,
        mkEnv schedule rest
          ((if start + size =? m + reserveSize then []
            else [SysRelease (start + size)
                    (m + reserveSize - (start + size))])
           ++ (if start =? m then [] else [SysRelease m (start - m)])
           ++ SysReserve reserveSize 0 m :: calls)) /\
  start mod 2 ^ order = 0 /\ m <= start /\ start + size <= m + reserveSize.
Proof.
  intros Ho Hs Hm Hp Hl start reserveSize.
  change PAGE_SIZE with 4096 in *.
  assert (P : 2 ^ order = 2 ^ (order - 12) * 4096).
  { change 4096 with (2 ^ 12). rewrite <- Z.pow_add_r by lia. f_equal. lia. }
  assert (Pp : 0 < 2 ^ (order - 12)) by (apply Z.pow_pos_nonneg; lia).
  assert (Q : 2 ^ order < 2 ^ 64) by (apply Z.pow_lt_mono_r; lia).
  assert (R1 : wrap64 (wrap64 (size + 2 ^ order) - 4096) = reserveSize).
  { unfold reserveSize. rewrite (wrap64_small (size + 2 ^ order))
      by lia.
    apply wrap64_small. lia. }
  pose proof (roundUp_bounds order m ltac:(lia) ltac:(lia) ltac:(lia)) as B.
  pose proof (roundUp_twoToOrder order m ltac:(lia) ltac:(lia) ltac:(lia))
    as E.
  fold start in B, E.
  set (q := (m + 2 ^ order - 1) / 2 ^ order) in *.
  assert (A : start mod 2 ^ order = 0) by (rewrite E; apply Z.mod_mul; lia).
  pose proof (Z.div_mod m 4096 ltac:(lia)) as Dm.
  rewrite Hp, Z.add_0_r in Dm.
  assert (T : start - m <= 2 ^ order - 4096).
  { assert (S4 : start - m = (q * 2 ^ (order - 12) - m / 4096) * 4096)
      by (rewrite E; lia).
    assert (q * 2 ^ (order - 12) - m / 4096 < 2 ^ (order - 12)) by nia.
    nia. }
  split; [|split; [exact A|split; [lia|unfold reserveSize; lia]]].
  unfold System.reserveAligned. change PAGE_SIZE with 4096.
  rewrite R1.
  unfold System.reserve, System.mmap, System.call, System.release,
    System.call, bind, modify, ret.
  cbn [os cas trace].
  assert (NF : m <> MAP_FAILED) by (unfold MAP_FAILED, ALL_ONES; lia).
  rewrite (proj2 (Z.eqb_neq _ _) NF). cbn [os cas trace].
  rewrite (proj2 (Z.eqb_neq _ _) NF).
  fold start.
  rewrite (wrap64_small (start - m)) by lia.
  rewrite (wrap64_small (reserveSize - size)) by (unfold reserveSize; lia).
  rewrite (wrap64_small (reserveSize - size - (start - m)))
    by (unfold reserveSize; lia).
  rewrite (wrap64_small (start + size)) by lia.
  replace (start + size =? m + reserveSize)
    with (reserveSize - size - (start - m) =? 0)
    by (destruct (Z.eqb_spec (reserveSize - size - (start - m)) 0),
                 (Z.eqb_spec (start + size) (m + reserveSize));
        reflexivity || lia).
  replace (start =? m) with (start - m =? 0)
    by (destruct (Z.eqb_spec (start - m) 0), (Z.eqb_spec start m);
        reflexivity || lia).
  replace (m + reserveSize - (start + size))
    with (reserveSize - size - (start - m)) by lia.
  destruct (start - m =? 0), (reserveSize - size - (start - m) =? 0);
    reflexivity.
Qed.

(** X23. [reserveAligned] over-reserves by the alignment less a page, returns
    the aligned address in the reservation and gives the parts before and
    after the aligned range back, so that the parts released and the
    range returned make up the reservation. When the reservation fails it
    returns null, after it has released the [alignment - PAGE_SIZE] bytes
    that follow the address [size], which it never reserved: [reserve]
    has turned [MAP_FAILED] into null, which the test against
    [MAP_FAILED] lets pass. *)
Theorem reserveAligned_excises_an_aligned_range :
  forall size order m schedule rest calls,
    12 <= order < 52 -> 0 <= size ->
    0 < m -> m mod PAGE_SIZE = 0 -> m + size + 2 ^ order <= 2 ^ 64 ->
    let alignment := 2 ^ order in
    let reserveSize := size + alignment - PAGE_SIZE in
    (exists start calls',
       System.reserveAligned size alignment (mkEnv schedule (m :: rest) calls)
       = Ok (start, mkEnv schedule rest calls') /\
       start mod alignment = 0 /\ m <= start /\
       start + size <= m + reserveSize /\
       calls' =
         (if start + size =? m + reserveSize then []
          else [SysRelease (start + size) (m + reserveSize - (start + size))])
         ++ (if start =? m then [] else [SysRelease m (start - m)])
         ++ SysReserve reserveSize 0 m :: calls) /\
    System.reserveAligned size alignment (mkEnv schedule [] calls)
    = Ok (0, mkEnv schedule []
               ((if alignment =? PAGE_SIZE then []
                 else [SysRelease size (alignment - PAGE_SIZE)])
                ++ SysReserve reserveSize 0 MAP_FAILED :: calls)).
Proof.
  intros size order m schedule rest calls Ho Hs Hm Hp Hl alignment reserveSize.
  subst alignment.
  destruct (reserveAligned_run size order m schedule rest calls Ho Hs Hm Hp Hl)
    as (R & A & L & U).
  change PAGE_SIZE with 4096 in *.
  assert (Q : 2 ^ order < 2 ^ 64) by (apply Z.pow_lt_mono_r; lia).
  assert (P12 : 2 ^ 12 <= 2 ^ order) by (apply Z.pow_le_mono_r; lia).
  assert (R1 : wrap64 (wrap64 (size + 2 ^ order) - 4096) = reserveSize).
  { unfold reserveSize. rewrite (wrap64_small (size + 2 ^ order))
      by lia.
    apply wrap64_small. lia. }
  split.
  - eexists _, _. split; [exact R|]. split; [exact A|]. split; [exact L|].
    split; [exact U|reflexivity].
  - unfold System.reserveAligned. change PAGE_SIZE with 4096.
      rewrite R1.
    unfold System.reserve, System.mmap, System.call, System.release,
      System.call, bind, modify, ret.
    cbn [os cas trace]. rewrite Z.eqb_refl.
    change (0 =? MAP_FAILED) with false. cbv iota.
    assert (Z0 : roundUp 0 (2 ^ order) = 0).
    { pose proof (roundUp_multiple order 0 ltac:(lia) ltac:(lia) ltac:(lia))
        as M.
      rewrite Z.mul_0_l in M. exact M. }
    rewrite Z0. change (wrap64 (0 - 0)) with 0. cbn [negb Z.eqb].
    rewrite (wrap64_small (reserveSize - size)) by (unfold reserveSize; lia).
    rewrite Z.sub_0_r, Z.add_0_l.
    rewrite (wrap64_small (reserveSize - size)) by (unfold reserveSize; lia).
    replace (reserveSize - size) with (2 ^ order - 4096)
      by (unfold reserveSize; lia).
    replace (2 ^ order =? 4096) with (2 ^ order - 4096 =? 0)
      by (destruct (Z.eqb_spec (2 ^ order - 4096) 0),
                   (Z.eqb_spec (2 ^ order) 4096); reflexivity || lia).
    destruct (2 ^ order - 4096 =? 0).
    + reflexivity.
    + cbn [negb os cas trace]. rewrite (wrap64_small size) by lia.
      reflexivity.
Qed.

Lemma reserveAligned_excises_an_aligned_range_witness :
  exists start calls',
    System.reserveAligned (2 ^ 27) (2 ^ 26) (mkEnv [] [2 ^ 32 + 4096] [])
    = Ok (start, mkEnv [] [] calls') /\
    start mod 2 ^ 26 = 0 /\ 2 ^ 32 + 4096 <= start.
Proof.
  destruct (proj1 (reserveAligned_excises_an_aligned_range
                     (2 ^ 27) 26 (2 ^ 32 + 4096) [] [] []
                     ltac:(lia) ltac:(lia) ltac:(lia) ltac:(reflexivity)
                     ltac:(lia)))
    as (start & calls' & R & A & L & _).
  exists start, calls'. split; [exact R|]. split; [exact A|exact L].
Defined.

(** ** The first block of every size that a quantum allocator serves *)

(** [PartitionIterator::next] on a quantum allocator without a partition
    on line brings the partition 0 on line. *)
Ltac bringOnLine base :=
  unfold QuantumAllocator.PartitionIterator.next; exec;
  rewrite nextSet_fresh by lia; simpl;
  unfold QuantumAllocator.getFreePartition,
    QuantumAllocator.newOrderPartition, QuantumAllocator.allocatePartition,
    QuantumAllocator.this;
  exec;
  rewrite fresh_findFree by lia;
  exec;
  unfold QuantumAllocator.newPartition, QuantumAllocator.this; exec;
  rewrite ?mulInt_0_r; exec; rewrite ?mulInt_0_l; exec;
  rewrite ?(Z.add_0_r base), ?(wrap64_small base) by lia;
  exec; reflexivity.

(** The first [allocate] of a Director just created, for a size that is
    a power of two: the partition 0 of the quantum allocator of the size
    is brought on line for its order and its first quantum is
    returned. *)
Ltac firstBlock base En :=
  rewrite En;
  unfold Director.allocate;
  match goal with
  | |- context [roundUpPowerOf2 ?size] => evaluate (roundUpPowerOf2 size)
  end;
  exec;
  unfold QuantumAllocator.allocate, QuantumAllocator.this,
    QuantumAllocator.PartitionIterator.create,
    QuantumAllocator.getOrderIndex;
  exec;
  unfold QuantumAllocator.rounds; simpl; rewrite allocate_loop_S;
  eapply bind_step;
  [ bringOnLine base | ];
  cbv beta iota delta [fst snd];
  eapply bind_step;
  [ unfold Partition.allocate; eapply bind_step;
    [ eapply onRegistry_eq;
      [ simpl; reflexivity
      | cbn [env cas]; apply findFree_first_bit; try reflexivity;
        cbn [maximumWordIndex]; discriminate
      | simpl; reflexivity ]
    | cbv beta; unfold Partition.this; exec;
      rewrite ?(Z.add_0_r base), ?(wrap64_small base) by lia;
      reflexivity ]
  | cbv beta; rewrite (proj2 (Z.eqb_neq base 0)) by lia; reflexivity ].

(** The size of that block, once the quantum allocator of the address is
    found. *)
Ltac firstBlockSize :=
  simpl;
  unfold QuantumAllocator.allocationSize, QuantumAllocator.getPartitionIndex;
  cbn [base space q_allocator setPartitions setOrderRegistry
       setPartitionRegistry q_partitionSizeOrder];
  rewrite Z.sub_diag; unfold orderDiv, shr64; arith; simpl; arith; simpl;
  reflexivity.

Ltac smallBlock base0 small En :=
  eexists; split;
  [ unfold freshDirector; unfold freshTier at 1; constants; arith;
    firstBlock base0 En
  | cbn [director]; unfold Director.allocationSize, Director.quantumAllocatorOf;
    simpl; unfold Space.in_, Space.create; cbn [base limit];
    rewrite (wrap64_small small), (wrap64_small (131072 * small)),
      (wrap64_small (base0 + 131072 * small)) by lia;
    rewrite Z.leb_refl;
    rewrite (proj2 (Z.ltb_lt base0 (base0 + 131072 * small))) by lia;
    firstBlockSize ].

Ltac mediumBlock base0 base1 medium En :=
  eexists; split;
  [ unfold freshDirector; unfold freshTier at 2; constants; arith;
    firstBlock base1 En
  | cbn [director]; unfold Director.allocationSize, Director.quantumAllocatorOf;
    simpl; unfold Space.in_, Space.create; cbn [base limit];
    rewrite (proj2 (Z.leb_gt base0 base1)) by lia; cbn [andb];
    rewrite (wrap64_small medium), (wrap64_small (33554432 * medium)),
      (wrap64_small (base1 + 33554432 * medium)) by lia;
    rewrite Z.leb_refl;
    rewrite (proj2 (Z.ltb_lt base1 (base1 + 33554432 * medium))) by lia;
    firstBlockSize ].

Ltac largeBlock base0 base1 base2 large En :=
  eexists; split;
  [ unfold freshDirector; unfold freshTier at 3; constants; arith;
    firstBlock base2 En
  | cbn [director]; unfold Director.allocationSize, Director.quantumAllocatorOf;
    simpl; unfold Space.in_, Space.create; cbn [base limit];
    rewrite (proj2 (Z.leb_gt base0 base2)) by lia; cbn [andb];
    rewrite (proj2 (Z.leb_gt base1 base2)) by lia; cbn [andb];
    rewrite (wrap64_small large), (wrap64_small (8589934592 * large)),
      (wrap64_small (base2 + 8589934592 * large)) by lia;
    rewrite Z.leb_refl;
    rewrite (proj2 (Z.ltb_lt base2 (base2 + 8589934592 * large))) by lia;
    firstBlockSize ].

Lemma allocate_small_fresh sp secure small medium large maxSlabCount
  sideDataSize base0 base1 base2 sideData0 sideData1 sideData2 slabSideData
  schedule os trace order :
  1 <= small <= MAX_REGISTRY_BIT_COUNT ->
  0 < base0 -> base0 + 2 ^ 17 * small < 2 ^ 64 ->
  0 <= order <= 10 ->
  exists w',
    Director.allocate (2 ^ order)
      (mkWorld
         (freshDirector sp false secure small medium large maxSlabCount
            sideDataSize base0 base1 base2 sideData0 sideData1 sideData2
            slabSideData)
         (mkEnv schedule os trace))
    = Ok (base0, w') /\
    Director.allocationSize (director w') base0 = Ok (2 ^ Z.max 3 order).
Proof.
  intros Hs Hb Hl Ho.
  assert (En : exists n, Z.to_nat small = S n)
    by (exists (Z.to_nat (small - 1)); lia).
  destruct En as [n En].
  assert (E : order = 0 \/ order = 1 \/ order = 2 \/ order = 3 \/ order = 4 \/
              order = 5 \/ order = 6 \/ order = 7 \/ order = 8 \/ order = 9 \/
              order = 10) by lia.
  destruct E as [->|[->|[->|[->|[->|[->|[->|[->|[->|[->| ->]]]]]]]]]];
    smallBlock base0 small En.
Qed.

Lemma allocate_medium_fresh sp secure small medium large maxSlabCount
  sideDataSize base0 base1 base2 sideData0 sideData1 sideData2 slabSideData
  schedule os trace order :
  1 <= medium <= MAX_REGISTRY_BIT_COUNT ->
  0 < base1 -> base1 + 2 ^ 25 * medium <= base0 -> base0 < 2 ^ 64 ->
  11 <= order <= 18 ->
  exists w',
    Director.allocate (2 ^ order)
      (mkWorld
         (freshDirector sp false secure small medium large maxSlabCount
            sideDataSize base0 base1 base2 sideData0 sideData1 sideData2
            slabSideData)
         (mkEnv schedule os trace))
    = Ok (base1, w') /\
    Director.allocationSize (director w') base1 = Ok (2 ^ order).
Proof.
  intros Hm Hb Hl Hl0 Ho.
  assert (En : exists n, Z.to_nat medium = S n)
    by (exists (Z.to_nat (medium - 1)); lia).
  destruct En as [n En].
  assert (E : order = 11 \/ order = 12 \/ order = 13 \/ order = 14 \/
              order = 15 \/ order = 16 \/ order = 17 \/ order = 18) by lia.
  destruct E as [->|[->|[->|[->|[->|[->|[->| ->]]]]]]];
    mediumBlock base0 base1 medium En.
Qed.

Lemma allocate_large_fresh sp secure small medium large maxSlabCount
  sideDataSize base0 base1 base2 sideData0 sideData1 sideData2 slabSideData
  schedule os trace order :
  1 <= large <= MAX_REGISTRY_BIT_COUNT ->
  0 < base2 -> base2 + 2 ^ 33 * large <= base1 -> base1 <= base0 ->
  base0 < 2 ^ 64 ->
  19 <= order <= 26 ->
  exists w',
    Director.allocate (2 ^ order)
      (mkWorld
         (freshDirector sp false secure small medium large maxSlabCount
            sideDataSize base0 base1 base2 sideData0 sideData1 sideData2
            slabSideData)
         (mkEnv schedule os trace))
    = Ok (base2, w') /\
    Director.allocationSize (director w') base2 = Ok (2 ^ order).
Proof.
  intros Hg Hb Hl Hl1 Hl0 Ho.
  assert (En : exists n, Z.to_nat large = S n)
    by (exists (Z.to_nat (large - 1)); lia).
  destruct En as [n En].
  assert (E : order = 19 \/ order = 20 \/ order = 21 \/ order = 22 \/
              order = 23 \/ order = 24 \/ order = 25 \/ order = 26) by lia.
  destruct E as [->|[->|[->|[->|[->|[->|[->| ->]]]]]]];
    largeBlock base0 base1 base2 large En.
Qed.

Lemma allocate_rounds size w :
  1 <= size <= 2 ^ 63 ->
  Director.allocate size w = Director.allocate (2 ^ Z.log2_up size) w.
Proof.
  intros H. unfold Director.allocate.
  pose proof (log2_up_range size H).
  rewrite roundUpPowerOf2_log2_up by exact H.
  rewrite roundUpPowerOf2_twoToOrder by lia. reflexivity.
Qed.

(** X24. The first [allocate] of a Director just created, for a size from 1
    byte to 64 MB whose quantum allocator has a partition, returns an
    address that is not null, and the size of the block at that address
    is the power of two of the order of the size, which holds the size;
    this whatever compare-exchanges fail spuriously. *)
Theorem first_allocation_holds_the_size :
  forall abi address secure small medium large maxSlabCount sideDataSize
         e d e' size,
    Director.create abi address secure small medium large maxSlabCount
      sideDataSize e = Ok (Some d, e') ->
    sizesFit abi = true ->
    inRange small medium large maxSlabCount sideDataSize = true ->
    addressable e = true ->
    1 <= size <= 2 ^ LARGEST_SIZE_ORDER ->
    1 <= (if size <=? 2 ^ 10 then small
          else if size <=? 2 ^ 18 then medium else large) ->
    exists block w',
      Director.allocate size (mkWorld d e') = Ok (block, w') /\
      block <> 0 /\
      Director.allocationSize (director w') block
      = Ok (2 ^ sizeToOrder size) /\
      size <= 2 ^ sizeToOrder size.
Proof.
  intros abi address secure small medium large maxSlabCount sideDataSize
    e d e' size C Ha Hr Ho Hs Hc.
  change LARGEST_SIZE_ORDER with 26 in Hs.
  pose proof (inRange_bounds _ _ _ _ _ Hr) as (Bs & Bm & Bl & Bc & _).
  apply create_placed in C
    as (sp & b & s0 & s1 & s2 & ss & -> & Hb & Hl & _); try assumption.
  destruct (sizeToOrder_spec size ltac:(lia)) as (K & Up & Lo).
  assert (O : sizeToOrder size = Z.max 3 (Z.log2_up size)).
  { unfold sizeToOrder. destruct (Z.ltb_spec 8 size) as [G|L].
    - rewrite order_log2_up by lia.
      assert (3 < Z.log2_up size) by (apply Z.log2_up_lt_pow2; lia). lia.
    - assert (Z.log2_up size <= 3); [|lia].
      destruct (Z.eq_dec size 1) as [->|]; [cbn; lia|].
      apply Z.log2_up_le_pow2; lia. }
  assert (R : 0 <= Z.log2_up size <= 26).
  { split; [apply Z.log2_up_nonneg|].
    destruct (Z.eq_dec size 1) as [->|]; [cbn; lia|].
    apply Z.log2_up_le_pow2; lia. }
  assert (T : forall k, 0 <= k -> (size <= 2 ^ k <-> Z.log2_up size <= k)).
  { intros k Hk. destruct (Z.eq_dec size 1) as [->|].
    - pose proof (Z.pow_pos_nonneg 2 k ltac:(lia) Hk).
      change (Z.log2_up 1) with 0. lia.
    - apply Z.log2_up_le_pow2; lia. }
  assert (P33 : 0 <= 2 ^ 33 * large) by lia.
  assert (P25 : 0 <= 2 ^ 25 * medium) by lia.
  assert (P17 : 0 <= 2 ^ 17 * small) by lia.
  rewrite allocate_rounds by lia. destruct e' as [schedule os trace].
  rewrite O in Up. rewrite O. revert Hc.
  change MAX_REGISTRY_BIT_COUNT with 16384.
  destruct (Z.leb_spec size (2 ^ 10)) as [S10|S10].
  - intros Hc. apply T in S10; [|lia].
    destruct (allocate_small_fresh sp secure small medium large maxSlabCount
                sideDataSize (b + 2 ^ 33 * large + 2 ^ 25 * medium)
                (b + 2 ^ 33 * large) b s0 s1 s2 ss schedule os trace
                (Z.log2_up size)) as (w' & A & S);
        try (change MAX_REGISTRY_BIT_COUNT with 16384; lia).
    exists (b + 2 ^ 33 * large + 2 ^ 25 * medium), w'.
    split; [exact A|]. split; [lia|]. split; [exact S|exact Up].
  - assert (G10 : 10 < Z.log2_up size).
    { destruct (Z.le_gt_cases (Z.log2_up size) 10) as [L|G]; [|exact G].
      apply T in L; lia. }
    replace (Z.max 3 (Z.log2_up size)) with (Z.log2_up size) in * by lia.
    destruct (Z.leb_spec size (2 ^ 18)) as [S18|S18].
    + intros Hc. apply T in S18; [|lia].
      destruct (allocate_medium_fresh sp secure small medium large
                  maxSlabCount sideDataSize
                  (b + 2 ^ 33 * large + 2 ^ 25 * medium)
                  (b + 2 ^ 33 * large) b s0 s1 s2 ss schedule os trace
                  (Z.log2_up size)) as (w' & A & S);
        try (change MAX_REGISTRY_BIT_COUNT with 16384; lia).
      exists (b + 2 ^ 33 * large), w'.
      split; [exact A|]. split; [lia|]. split; [exact S|exact Up].
    + intros Hc.
      assert (G18 : 18 < Z.log2_up size).
      { destruct (Z.le_gt_cases (Z.log2_up size) 18) as [L|G]; [|exact G].
        apply T in L; lia. }
      destruct (allocate_large_fresh sp secure small medium large
                  maxSlabCount sideDataSize
                  (b + 2 ^ 33 * large + 2 ^ 25 * medium)
                  (b + 2 ^ 33 * large) b s0 s1 s2 ss schedule os trace
                  (Z.log2_up size)) as (w' & A & S);
        try (change MAX_REGISTRY_BIT_COUNT with 16384; lia).
      exists b, w'.
      split; [exact A|]. split; [lia|]. split; [exact S|exact Up].
Qed.

Lemma first_allocation_holds_the_size_witness :
  exists d e' block w',
    Director.create lp64 0 false 4 4 2 16 0 (quiet [2 ^ 32]) = Ok (Some d, e') /\
    Director.allocate 3000 (mkWorld d e') = Ok (block, w') /\
    block <> 0 /\
    Director.allocationSize (director w') block = Ok (2 ^ sizeToOrder 3000).
Proof.
  assert (H : exists d e',
             Director.create lp64 0 false 4 4 2 16 0 (quiet [2 ^ 32])
             = Ok (Some d, e')).
  { eexists _, _. lazy. reflexivity. }
  destruct H as (d & e' & C).
  destruct (first_allocation_holds_the_size lp64 0 false 4 4 2 16 0
              (quiet [2 ^ 32]) d e' 3000 C eq_refl eq_refl eq_refl)
    as (block & w' & A & N & S & _).
  - change LARGEST_SIZE_ORDER with 26. lia.
  - vm_compute. discriminate.
  - exists d, e', block, w'. auto.
Defined.

(** ** The blocks a partition hands out *)

Lemma lookupZ_insertZ {A} (l : list A) i a x :
  lookupZ l i = Ok a ->
  exists l', insertZ l i x = Ok l' /\ lookupZ l' i = Ok x /\
             length l' = length l.
Proof.
  unfold lookupZ, insertZ. destruct (Z.leb_spec 0 i) as [Hi|]; [|discriminate].
  destruct (l !! Z.to_nat i) as [y|] eqn:L; [|discriminate]. intros _.
  apply lookup_lt_Some in L.
  destruct (Z.ltb_spec i (Z.of_nat (length l))); [|lia]. cbn [andb].
  eexists. split; [reflexivity|].
  rewrite list_lookup_insert_eq by lia. split; [reflexivity|].
  apply length_insert.
Qed.

(** Writing the quantum registry of a partition back. *)
Lemma setRegistryAt_partition d a i p g :
  getPartitionAt d a i = Ok p ->
  exists d',
    setRegistryAt (QuantumRegistry a i) g d = Ok d' /\
    getPartitionAt d' a i = Ok (setRegistry g p).
Proof.
  unfold setRegistryAt, setPartitionAt, getPartitionAt, getQuantumAllocator,
    setQuantumAllocator.
  intros H. destruct (lookupZ (d_quantumAllocators d) a) as [q|] eqn:Q;
    [|discriminate].
  cbn [rbind] in *. rewrite H. cbn [rbind].
  destruct (lookupZ_insertZ _ _ _ (setRegistry g p) H) as (ps & I & L & _).
  rewrite I. cbn [rbind].
  destruct (lookupZ_insertZ _ _ _ (setPartitions ps q) Q) as (qs & I' & L' & _).
  rewrite I'. cbn [rbind]. eexists. split; [reflexivity|].
  cbn [d_quantumAllocators]. rewrite L'. cbn [rbind q_partitions setPartitions].
  exact L.
Qed.

(** [Partition::allocate] claims a quantum with [findFree] and returns
    its address. *)
Lemma partition_allocate_spec w a i p size :
  getPartitionAt (director w) a i = Ok p ->
  wellFormed (p_registry p) = true -> inBounds (p_registry p) = true ->
  0 <= p_quantumSizeOrder p < 64 ->
  0 <= base (space (p_allocator p)) ->
  base (space (p_allocator p))
    + maximumIndex (p_registry p) * 2 ^ p_quantumSizeOrder p <= 2 ^ 64 ->
  exists index r1 w1,
    Partition.allocate a i size w
    = Ok ((if index =? NOT_FOUND then 0
           else base (space (p_allocator p))
                + index * 2 ^ p_quantumSizeOrder p), w1) /\
    getPartitionAt (director w1) a i = Ok (setRegistry r1 p) /\
    wellFormed r1 = true /\ inBounds r1 = true /\
    found (p_registry p) r1 index.
Proof.
  intros G W B Hk Hs Hl.
  destruct (findFree_spec (mkRegState (p_registry p) (cas (env w))) W B)
    as (index & [r1 s1] & F & W1 & B1 & Fd).
  cbn [reg] in *.
  destruct (setRegistryAt_partition _ _ _ _ r1 G) as (d1 & S & G1).
  exists index, r1, (mkWorld d1 (mkEnv s1 (os (env w)) (trace (env w)))).
  split; [|auto].
  unfold Partition.allocate. unfold bind at 1.
  unfold onRegistry. cbn [getRegistry]. rewrite G. cbn [rbind].
  rewrite F. cbn [reg sched]. rewrite S.
  destruct (Z.eqb_spec index NOT_FOUND) as [E|N]; [reflexivity|].
  unfold Partition.this, bind, readDirector, lift. cbn [director].
  rewrite G1. cbn [setRegistry p_quantumSizeOrder p_allocator].
  destruct Fd as (_ & _ & _ & Fd & _).
  rewrite (proj2 (Z.eqb_neq _ _) N) in Fd. destruct Fd as (Hi & _).
  apply inBounds_spec in B.
  pose proof (pow2_range _ Hk) as P.
  unfold orderMul, shl64.
  destruct (Z.leb_spec 0 (p_quantumSizeOrder p)); [|lia].
  destruct (Z.ltb_spec (p_quantumSizeOrder p) 64); [|lia]. cbn [andb].
  rewrite (wrap64_small index) by lia.
  rewrite Z.shiftl_mul_pow2 by lia.
  rewrite (wrap64_small (index * 2 ^ p_quantumSizeOrder p)) by nia.
  rewrite wrap64_small by nia. reflexivity.
Qed.

(** [Partition::deallocate] frees the quantum of the address. *)
Lemma partition_deallocate_spec w a i p index :
  getPartitionAt (director w) a i = Ok p ->
  wellFormed (p_registry p) = true -> inBounds (p_registry p) = true ->
  0 <= p_quantumSizeOrder p < 64 ->
  0 <= base (space (p_allocator p)) ->
  base (space (p_allocator p))
    + maximumIndex (p_registry p) * 2 ^ p_quantumSizeOrder p <= 2 ^ 64 ->
  0 <= index < maximumIndex (p_registry p) ->
  exists st' w',
    Registry.free index (mkRegState (p_registry p) (cas (env w)))
    = Ok (tt, st') /\
    Partition.deallocate a i
      (base (space (p_allocator p)) + index * 2 ^ p_quantumSizeOrder p) w
    = Ok (tt, w') /\
    getPartitionAt (director w') a i = Ok (setRegistry (reg st') p).
Proof.
  intros G W B Hk Hs Hl Hi.
  destruct (free_spec (mkRegState (p_registry p) (cas (env w))) index W B Hi)
    as (st' & F & _).
  destruct (setRegistryAt_partition _ _ _ _ (reg st') G) as (d1 & S & G1).
  exists st', (mkWorld d1 (mkEnv (sched st') (os (env w)) (trace (env w)))).
  split; [exact F|]. split; [|exact G1].
  unfold Partition.deallocate, Partition.this, bind, readDirector, lift.
  rewrite G.
  pose proof (pow2_range _ Hk) as P.
  apply inBounds_spec in B.
  assert (Q : Partition.quantumIndex p
                (base (space (p_allocator p))
                 + index * 2 ^ p_quantumSizeOrder p) = Ok index).
  { unfold Partition.quantumIndex.
    replace (base (space (p_allocator p)) + index * 2 ^ p_quantumSizeOrder p
             - base (space (p_allocator p)))
      with (index * 2 ^ p_quantumSizeOrder p) by lia.
    rewrite wrap64_small by nia. unfold orderDiv, shr64.
    destruct (Z.leb_spec 0 (p_quantumSizeOrder p)); [|lia].
    destruct (Z.ltb_spec (p_quantumSizeOrder p) 64); [|lia]. cbn [andb rbind].
    rewrite Z.shiftr_div_pow2 by lia. rewrite Z.div_mul by lia.
    rewrite to_int_small by lia. reflexivity. }
  rewrite Q. unfold onRegistry. cbn [getRegistry]. rewrite G. cbn [rbind].
  rewrite F. rewrite S. reflexivity.
Qed.

(** X25. Two blocks that a partition hands out one after the other lie in the
    partition, on quantum boundaries, and do not overlap; when the first
    is deallocated before the second is asked for, the quantum registry of
    the partition is back to the bits it had. This for every state of the
    registry and every schedule of compare-exchange failures. *)
Theorem partition_blocks_do_not_overlap : forall w a i p size size',
  let order := p_quantumSizeOrder p in
  let start := base (space (p_allocator p)) in
  let quanta := maximumIndex (p_registry p) in
  getPartitionAt (director w) a i = Ok p ->
  wellFormed (p_registry p) = true -> inBounds (p_registry p) = true ->
  0 <= order < 64 -> 0 < start -> start + quanta * 2 ^ order <= 2 ^ 64 ->
  exists first w1 second w2,
    Partition.allocate a i size w = Ok (first, w1) /\
    Partition.allocate a i size' w1 = Ok (second, w2) /\
    (first <> 0 ->
     start <= first /\ first + 2 ^ order <= start + quanta * 2 ^ order /\
     (first - start) mod 2 ^ order = 0) /\
    (first <> 0 -> second <> 0 ->
     first + 2 ^ order <= second \/ second + 2 ^ order <= first) /\
    (first <> 0 ->
     exists w3 p3,
       Partition.deallocate a i first w1 = Ok (tt, w3) /\
       getPartitionAt (director w3) a i = Ok p3 /\
       bits (p_registry p3) = bits (p_registry p)).
Proof.
  intros w a i p size size' order start quanta G W B Hk Hs Hl.
  destruct (partition_allocate_spec w a i p size G W B Hk ltac:(lia) Hl)
    as (i1 & r1 & w1 & A1 & G1 & W1 & B1 & F1).
  pose proof F1 as (M1 & _).
  destruct (partition_allocate_spec w1 a i (setRegistry r1 p) size' G1 W1 B1
              Hk ltac:(cbn [setRegistry p_allocator]; lia)
              ltac:(cbn [setRegistry p_allocator p_registry
                         p_quantumSizeOrder]; rewrite M1; exact Hl))
    as (i2 & r2 & w2 & A2 & G2 & W2 & B2 & F2).
  cbn [setRegistry p_allocator p_registry p_quantumSizeOrder] in A2.
  fold order start in A1, A2.
  pose proof (pow2_range _ Hk) as P. fold order in P.
  pose proof (proj1 (inBounds_spec _) B) as Bs.
  revert A1. destruct (Z.eqb_spec i1 NOT_FOUND) as [E1|N1]; intros A1.
  { eexists _, w1, _, w2. split; [exact A1|]. split; [exact A2|].
    split; [intros X; contradiction|].
    split; intros X; contradiction. }
  eexists _, w1, _, w2. split; [exact A1|]. split; [exact A2|].
  destruct (found_isSet _ _ _ W B F1 N1) as (H1 & C1 & S1 & O1).
  fold quanta in H1.
  split.
  { intros _. split; [nia|]. split; [nia|].
    replace (start + i1 * 2 ^ order - start) with (i1 * 2 ^ order) by lia.
    apply Z.mod_mul. lia. }
  split.
  { intros _ Y. destruct (Z.eqb_spec i2 NOT_FOUND) as [E2|N2];
      [contradiction|].
    destruct (found_isSet _ _ _ W1 B1 F2 N2) as (H2 & C2 & _).
    assert (i1 <> i2) by (intros ->; congruence).
    nia. }
  intros _.
  destruct (partition_deallocate_spec w1 a i (setRegistry r1 p) i1 G1 W1 B1
              Hk ltac:(cbn [setRegistry p_allocator]; lia)
              ltac:(cbn [setRegistry p_allocator p_registry
                         p_quantumSizeOrder]; rewrite M1; exact Hl)
              ltac:(cbn [setRegistry p_registry]; rewrite M1; exact H1))
    as (st3 & w3 & Fr & D & G3).
  cbn [setRegistry p_allocator p_registry p_quantumSizeOrder] in D, Fr.
  fold order start in D.
  exists w3, (setRegistry (reg st3) (setRegistry r1 p)).
  split; [exact D|]. split; [exact G3|].
  cbn [setRegistry p_registry].
  destruct F1 as (_ & _ & _ & F1 & _).
  rewrite (proj2 (Z.eqb_neq _ _) N1) in F1.
  destruct F1 as (_ & _ & v & Gv & Tb & Eb).
  assert (Hi' : 0 <= i1 < MAX_REGISTRY_BIT_COUNT)
    by (change MAX_REGISTRY_BIT_COUNT with 16384; lia).
  destruct (word_and_bit i1 Hi') as (_ & _ & Hw & Hb).
  pose proof (wellFormed_length _ W) as L.
  pose proof (proj2 (getBits_Some _ _ _ Gv)) as L0.
  destruct (wellFormed_word _ _ _ W L0) as [_ Hv].
  assert (G1' : Registry.getBits r1 (i1 / 64)
                = Ok (Z.lor v (2 ^ (i1 mod 64)))).
  { unfold Registry.getBits. rewrite Eb.
    destruct (Z.leb_spec 0 (i1 / 64)); [|lia].
    destruct (Z.ltb_spec (i1 / 64) MAX_REGISTRY_WORD_COUNT); [|lia].
    cbn [andb]. rewrite list_lookup_insert_eq by lia. reflexivity. }
  rewrite (free_run r1 _ i1 _ Hi' G1') in Fr. injection Fr as <-.
  cbn [reg bits]. rewrite Eb, list_insert_insert_eq.
  apply list_insert_id. rewrite L0. f_equal. symmetry.
  apply land_lor_not64; [exact Hv|pose proof (pow2_range _ Hb); lia|].
  apply Z.bits_inj'. intros k Hk'. rewrite Z.land_spec, Z.bits_0.
  destruct (Z.eq_dec k (i1 mod 64)) as [->|Nk].
  - rewrite Tb. reflexivity.
  - rewrite Z.pow2_bits_false by lia. apply andb_false_r.
Qed.

Lemma partition_blocks_do_not_overlap_witness :
  exists first w1 second w2,
    Partition.allocate 0 0 16 (worldOf16 [false; true]) = Ok (first, w1) /\
    Partition.allocate 0 0 16 w1 = Ok (second, w2) /\
    (first <> 0 -> second <> 0 ->
     first + 2 ^ 4 <= second \/ second + 2 ^ 4 <= first).
Proof.
  destruct (partition_blocks_do_not_overlap (worldOf16 [false; true]) 0 0
              partitionOf16 16 16)
    as (first & w1 & second & w2 & A1 & A2 & _ & D & _).
  - reflexivity.
  - reflexivity.
  - vm_compute. reflexivity.
  - cbn. lia.
  - cbn. lia.
  - vm_compute. discriminate.
  - exists first, w1, second, w2. split; [exact A1|]. split; [exact A2|].
    exact D.
Defined.

(** ** Slabs *)

Lemma roster_of_the_slabs order :
  27 <= order <= 47 -> lookupZ initialRoster order = Ok SlabAllocatorRef.
Proof.
  intros H.
  assert (E : order = 27 \/ order = 28 \/ order = 29 \/ order = 30 \/
              order = 31 \/ order = 32 \/ order = 33 \/ order = 34 \/
              order = 35 \/ order = 36 \/ order = 37 \/ order = 38 \/
              order = 39 \/ order = 40 \/ order = 41 \/ order = 42 \/
              order = 43 \/ order = 44 \/ order = 45 \/ order = 46 \/
              order = 47) by lia.
  repeat (destruct E as [->|E]; [reflexivity|]). subst. reflexivity.
Qed.

Lemma sizeToOrder_twoToOrder k : 4 <= k <= 63 -> sizeToOrder (2 ^ k) = k.
Proof.
  intros H.
  assert (P : 2 ^ k < 2 ^ 64) by (apply Z.pow_lt_mono_r; lia).
  assert (P8 : 8 < 2 ^ k) by (change 8 with (2 ^ 3); apply Z.pow_lt_mono_r; lia).
  unfold sizeToOrder. destruct (Z.ltb_spec 8 (2 ^ k)); [|lia].
  rewrite order_log2_up by lia. apply Z.log2_up_pow2. lia.
Qed.

Lemma quantumAllocatorOf_loop_ext d d' p n : forall i,
  d_quantumAllocators d = d_quantumAllocators d' ->
  Director.quantumAllocatorOf_loop n d i p
  = Director.quantumAllocatorOf_loop n d' i p.
Proof.
  induction n as [|n IH]; intros i E; [reflexivity|].
  cbn [Director.quantumAllocatorOf_loop]. unfold getQuantumAllocator.
  rewrite E, (IH (i + 1) E). reflexivity.
Qed.

(** [allocate] of a size of an order that the roster gives to the slab
    allocator is [SlabAllocator::reserve] of that size. *)
Lemma allocate_of_a_slab_order k w :
  d_roster (director w) = initialRoster ->
  ID (s_allocator (d_slabAllocator (director w))) = SlabAllocatorID ->
  27 <= k <= 47 ->
  Director.allocate (2 ^ k) w = SlabAllocator.reserve (2 ^ k) w.
Proof.
  intros Hr Hi Hk.
  assert (P : 2 ^ k <= 2 ^ 47) by (apply Z.pow_le_mono_r; lia).
  assert (M1 : roundUp (2 ^ k) MB = 2 ^ k).
  { change MB with (2 ^ 20).
    replace (2 ^ k) with (2 ^ (k - 20) * 2 ^ 20)
      by (rewrite <- Z.pow_add_r by lia; f_equal; lia).
    apply roundUp_multiple; [lia|apply Z.pow_nonneg; lia|].
    rewrite <- Z.pow_add_r by lia. replace (k - 20 + 20) with k by lia.
    change (2 ^ 20) with 1048576. lia. }
  unfold Director.allocate.
  rewrite roundUpPowerOf2_twoToOrder by lia.
  unfold bind at 1. unfold lift at 1.
  unfold bind at 1. unfold readDirector at 1.
  unfold Director.findAllocatorBySize, AllocatorRoster.getAllocator.
  rewrite sizeToOrder_twoToOrder by lia.
  rewrite Hr, roster_of_the_slabs by lia.
  unfold bind at 1. unfold readDirector at 1. cbn [allocatorAt].
  unfold isPartition at 1. rewrite Hi.
  change (SlabAllocatorID =? PartitionID) with false. cbv iota.
  unfold bind at 1. unfold ret at 1. cbn [fst snd].
  unfold bind at 1. unfold readDirector at 1. cbn [allocatorAt].
  unfold isQuantumAllocator, isSlabAllocator. rewrite Hi.
  change (SlabAllocatorID =? QuantumAllocatorID) with false.
  change (SlabAllocatorID =? SlabAllocatorID) with true. cbv iota.
  unfold SlabAllocator.allocate. rewrite M1. reflexivity.
Qed.

(** The first slab of a Director just created: the memory is reserved,
    cut to the alignment of a slab and committed. *)
Lemma allocate_slab_fresh sp secure small medium large n sds b0 b1 b2 s0 s1
  s2 ss schedule m rest calls k :
  1 <= n <= MAX_REGISTRY_BIT_COUNT -> 27 <= k <= 47 ->
  0 < m -> m mod PAGE_SIZE = 0 -> m + 2 ^ k + 2 ^ 26 <= 2 ^ 64 ->
  let d := freshDirector sp false secure small medium large n sds
             b0 b1 b2 s0 s1 s2 ss in
  let start := roundUp m (2 ^ 26) in
  Director.allocate (2 ^ k) (mkWorld d (mkEnv schedule (m :: rest) calls))
  = Ok (start,
        mkWorld (withSlab d (Space.create start (2 ^ k)) 1)
          (mkEnv (settle schedule) rest
             (SysCommit start (2 ^ k)
              :: (if start + 2 ^ k =? m + (2 ^ k + 2 ^ 26 - PAGE_SIZE)
                  then []
                  else [SysRelease (start + 2 ^ k)
                          (m + (2 ^ k + 2 ^ 26 - PAGE_SIZE)
                           - (start + 2 ^ k))])
                 ++ (if start =? m then [] else [SysRelease m (start - m)])
                 ++ SysReserve (2 ^ k + 2 ^ 26 - PAGE_SIZE) 0 m :: calls))).
Proof.
  intros Hn Hk Hm Hp Hl d start.
  assert (En : exists n', Z.to_nat n = S n')
    by (exists (Z.to_nat (n - 1)); lia).
  destruct En as [n' En].
  assert (P : 2 ^ k < 2 ^ 64) by (apply Z.pow_lt_mono_r; lia).
  assert (P26 : 2 ^ 26 < 2 ^ k) by (apply Z.pow_lt_mono_r; lia).
  destruct (reserveAligned_run (2 ^ k) 26 m (settle schedule) rest calls
              ltac:(lia) ltac:(lia) Hm Hp Hl) as (R & A & L & B).
  fold start in R, A, L, B.
  rewrite allocate_of_a_slab_order by (reflexivity || lia).
  unfold SlabAllocator.reserve.
  eapply bind_step.
  { eapply onRegistry_eq.
    - reflexivity.
    - exact (fresh_findFree n schedule Hn).
    - reflexivity. }
  change (0 =? NOT_FOUND) with false. cbv iota.
  cbn [reg sched director env os trace].
  unfold d, freshDirector, freshSlabAllocator, setSlabAllocator.
  cbn [d_slabAllocator s_allocator s_secure s_maxCount s_slabs s_sideDataSize
       s_sideData s_registry d_space d_sharing d_secure d_roster
       d_quantumAllocators d_nullAllocator d_reference].
  unfold bind at 1. unfold SlabAllocator.this at 1, readDirector at 1.
  cbn [director d_slabAllocator].
  unfold bind at 1. unfold lift at 1. cbn [s_slabs]. rewrite En.
  change (lookupZ (replicate (S n') Space.empty) 0) with (Ok Space.empty).
  cbv iota. change (Space.size Space.empty) with 0.
  change (base Space.empty) with 0.
  rewrite (proj2 (Z.ltb_ge (2 ^ k) 0)) by lia.
  rewrite (proj2 (Z.leb_gt (2 ^ k) 0)) by lia.
  change (negb (0 =? 0)) with false. cbv iota.
  unfold bind at 1. unfold ret at 1.
  unfold bind at 1. unfold ret at 1.
  unfold bind at 1. unfold sys at 1. cbn [env].
  change SlabAllocator.SLAB_ALIGNMENT with (2 ^ 26). rewrite R.
  cbn [director].
  rewrite (proj2 (Z.eqb_neq start 0)) by lia.
  unfold bind, sys, System.commit, System.call, modify, SlabAllocator.setSlab,
    writeDirector, ret, insertZ, setSlabAllocator.
  cbn [director env cas os trace d_slabAllocator s_slabs s_allocator s_secure
       s_maxCount s_sideDataSize s_sideData s_registry d_space d_sharing
       d_secure d_roster d_quantumAllocators d_nullAllocator d_reference
       fst snd].
  rewrite length_replicate.
  change (0 <=? 0) with true.
  replace (0 <? Z.of_nat (S n')) with true by (symmetry; apply Z.ltb_lt; lia).
  cbn [andb rbind]. change (Z.to_nat 0) with 0%nat.
  rewrite <- En. reflexivity.
Qed.

Lemma in_empty p : Space.in_ Space.empty p = false.
Proof.
  unfold Space.in_, Space.empty. cbn [base limit].
  destruct (Z.leb_spec 0 p), (Z.ltb_spec p 0); reflexivity || lia.
Qed.

(** [find] on a slab allocator whose slots other than 0 have not been
    used. *)
Lemma withSlab_find sp secure small medium large n sds b0 b1 b2 s0 s1
  s2 ss slab word p :
  1 <= n <= MAX_REGISTRY_BIT_COUNT -> 0 <= word < 2 ^ 64 ->
  let d := freshDirector sp false secure small medium large n sds
             b0 b1 b2 s0 s1 s2 ss in
  SlabAllocator.find (d_slabAllocator (withSlab d slab word)) p
  = Ok (if Space.in_ slab p && Z.testbit word 0 then 0 else NOT_FOUND).
Proof.
  intros Hn Hw d.
  assert (En : exists n', Z.to_nat n = S n')
    by (exists (Z.to_nat (n - 1)); lia).
  destruct En as [n' En].
  set (s := d_slabAllocator (withSlab d slab word)).
  assert (W : wellFormed (s_registry s) = true).
  { apply wellFormed_withBits.
    - rewrite length_insert. reflexivity.
    - apply Forall_insert; [|lia]. apply Forall_replicate. lia. }
  assert (L : length (s_slabs s) = S n').
  { unfold s, withSlab, d, freshDirector, freshSlabAllocator.
    cbn [d_slabAllocator setSlabAllocator s_slabs].
    rewrite length_insert, length_replicate. exact En. }
  assert (S0 : lookupZ (s_slabs s) 0 = Ok slab).
  { unfold s, withSlab, d, freshDirector, freshSlabAllocator.
    cbn [d_slabAllocator setSlabAllocator s_slabs]. rewrite En. reflexivity. }
  assert (I0 : Registry.isSet (s_registry s) 0 = Ok (Z.testbit word 0)).
  { apply (isSet_testbit _ 0 word); [change MAX_REGISTRY_BIT_COUNT with 16384; lia|].
    reflexivity. }
  unfold SlabAllocator.find.
  change (s_maxCount s) with n. rewrite En.
  cbn [SlabAllocator.find_loop]. rewrite S0. cbn [rbind].
  assert (T : SlabAllocator.find_loop n' s (0 + 1) p = Ok NOT_FOUND).
  { apply find_loop_unmanaged; try assumption; try lia.
    intros j Hj. unfold inLiveSlab.
    assert (Sj : lookupZ (s_slabs s) j = Ok Space.empty).
    { unfold s, withSlab, d, freshDirector, freshSlabAllocator.
      cbn [d_slabAllocator setSlabAllocator s_slabs]. unfold lookupZ.
      destruct (Z.leb_spec 0 j); [|lia].
      rewrite list_lookup_insert_ne by lia.
      rewrite lookup_replicate_2; [reflexivity|lia]. }
    rewrite Sj, in_empty.
    destruct (Registry.isSet (s_registry s) j); reflexivity. }
  destruct (Space.in_ slab p); cbn [andb rbind].
  - rewrite I0. cbn [rbind]. destruct (Z.testbit word 0); [reflexivity|exact T].
  - exact T.
Qed.

Lemma withSlab_allocationSize sp secure small medium large n sds b0 b1 b2
  s0 s1 s2 ss slab word p :
  1 <= n <= MAX_REGISTRY_BIT_COUNT -> 0 <= word < 2 ^ 64 ->
  let d := freshDirector sp false secure small medium large n sds
             b0 b1 b2 s0 s1 s2 ss in
  managed d p = false ->
  Director.allocationSize (withSlab d slab word) p
  = Ok (if Space.in_ slab p && Z.testbit word 0 then Space.size slab else 0).
Proof.
  intros Hn Hw d U.
  assert (En : exists n', Z.to_nat n = S n')
    by (exists (Z.to_nat (n - 1)); lia).
  destruct En as [n' En].
  assert (Q : Director.quantumAllocatorOf d p = Ok None).
  { apply quantumAllocatorOf_unmanaged; [|exact U].
    apply fresh_laidOut. lia. }
  unfold Director.allocationSize.
  replace (Director.quantumAllocatorOf (withSlab d slab word) p)
    with (Director.quantumAllocatorOf d p)
    by (apply quantumAllocatorOf_loop_ext; reflexivity).
  rewrite Q. cbn [rbind]. unfold SlabAllocator.allocationSize.
  unfold d. rewrite withSlab_find by assumption.
  destruct (Space.in_ slab p && Z.testbit word 0); cbn [rbind].
  - change (0 =? NOT_FOUND) with false. cbv iota.
    unfold withSlab, freshDirector, freshSlabAllocator.
    cbn [d_slabAllocator setSlabAllocator s_slabs]. rewrite En. reflexivity.
  - reflexivity.
Qed.

(** [deallocate] of a block in the slab of slot 0 frees the slot in the
    registry and makes no call to the operating system. *)
Lemma withSlab_deallocate sp secure small medium large n sds b0 b1 b2
  s0 s1 s2 ss slab p e :
  1 <= n <= MAX_REGISTRY_BIT_COUNT ->
  let d := freshDirector sp false secure small medium large n sds
             b0 b1 b2 s0 s1 s2 ss in
  managed d p = false -> Space.in_ slab p = true ->
  Director.deallocate p (mkWorld (withSlab d slab 1) e)
  = Ok (tt, mkWorld (withSlab d slab 0) e).
Proof.
  intros Hn d U I.
  assert (Q : Director.quantumAllocatorOf d p = Ok None).
  { apply quantumAllocatorOf_unmanaged; [|exact U].
    apply fresh_laidOut. lia. }
  unfold Director.deallocate.
  unfold bind at 1. unfold readDirector at 1. cbn [director].
  replace (Director.quantumAllocatorOf (withSlab d slab 1) p)
    with (Director.quantumAllocatorOf d p)
    by (apply quantumAllocatorOf_loop_ext; reflexivity).
  rewrite Q. unfold SlabAllocator.deallocate.
  unfold bind at 1. unfold SlabAllocator.this at 1, readDirector at 1.
  cbn [director]. unfold bind at 1. unfold lift at 1.
  unfold d. rewrite withSlab_find by (assumption || lia).
  rewrite I. change (Z.testbit 1 0) with true. cbn [andb].
  change (0 =? NOT_FOUND) with false. cbv iota.
  unfold SlabAllocator.erase.
  destruct e as [schedule os calls].
  assert (F : Registry.free 0
                 (mkRegState
                    (withBits (freshRegistry n)
                       (<[0%nat := 1]> (bits (freshRegistry n)))) schedule)
               = Ok (tt,
                     mkRegState
                       (withBits (freshRegistry n)
                          (<[0%nat := 0]> (bits (freshRegistry n))))
                       schedule)).
  { rewrite (free_run _ schedule 0 1)
      by (reflexivity || (change MAX_REGISTRY_BIT_COUNT with 16384; lia)).
    unfold withBits, freshRegistry.
    cbn [maximumIndex maximumWordIndex lowestIndex bits].
    change (0 / 64) with 0. change (0 mod 64) with 0.
    change (Z.min 0 0) with 0. change (0 <=? 0) with true.
    change (Z.land 1 (not64 (2 ^ 0))) with 0. change (Z.to_nat 0) with 0%nat.
    rewrite list_insert_insert_eq. reflexivity. }
  rewrite (onRegistry_eq SlabRegistry (Registry.free 0)
             (mkWorld
                (withSlab
                   (freshDirector sp false secure small medium large n sds
                      b0 b1 b2 s0 s1 s2 ss) slab 1)
                (mkEnv schedule os calls)) _ tt _ _ eq_refl F eq_refl).
  unfold withSlab, setSlabAllocator, freshDirector, freshSlabAllocator.
  reflexivity.
Qed.

(** [allocate] after the slab of slot 0 has been deallocated: the slot is
    found free and its memory, large enough, is used again; what the
    new block does not need is released. *)
Lemma withSlab_recycle sp secure small medium large n sds b0 b1 b2 s0 s1
  s2 ss start k j schedule maps calls :
  1 <= n <= MAX_REGISTRY_BIT_COUNT -> 27 <= j <= k -> k <= 47 ->
  0 <= start -> start + 2 ^ k < 2 ^ 64 ->
  let d := freshDirector sp false secure small medium large n sds
             b0 b1 b2 s0 s1 s2 ss in
  Director.allocate (2 ^ j)
    (mkWorld (withSlab d (Space.create start (2 ^ k)) 0)
       (mkEnv schedule maps calls))
  = Ok (start,
        mkWorld (withSlab d (Space.create start (2 ^ j)) 1)
          (mkEnv (settle schedule) maps
             ((if secure then [SysCommit start (2 ^ j)] else [])
              ++ (if j <? k
                  then [SysRelease (start + 2 ^ j) (2 ^ k - 2 ^ j)]
                  else [])
              ++ calls))).
Proof.
  intros Hn Hj Hk Hs Hl d.
  assert (En : exists n', Z.to_nat n = S n')
    by (exists (Z.to_nat (n - 1)); lia).
  destruct En as [n' En].
  assert (Pj : 0 < 2 ^ j) by (apply Z.pow_pos_nonneg; lia).
  assert (Pk : 2 ^ j <= 2 ^ k) by (apply Z.pow_le_mono_r; lia).
  assert (Pjk : j < k -> 2 ^ j < 2 ^ k) by (intros; apply Z.pow_lt_mono_r; lia).
  pose proof (wordsFor_range n Hn) as Hw.
  rewrite allocate_of_a_slab_order by (reflexivity || lia).
  unfold SlabAllocator.reserve.
  assert (F : Registry.findFree
                (mkRegState
                   (withBits (freshRegistry n)
                      (<[0%nat := 0]> (bits (freshRegistry n)))) schedule)
              = Ok (0, mkRegState
                         (withBits (freshRegistry n)
                            (<[0%nat := 1]> (bits (freshRegistry n))))
                         (settle schedule))).
  { rewrite findFree_first_bit; try reflexivity.
    - unfold withBits, freshRegistry. cbn [maximumWordIndex]. lia.
    - unfold withBits, freshRegistry. cbn [maximumIndex]. lia. }
  rewrite (bind_eq _ _ _ _ _
             (onRegistry_eq SlabRegistry Registry.findFree
                (mkWorld
                   (withSlab d (Space.create start (2 ^ k)) 0)
                   (mkEnv schedule maps calls)) _ 0 _ _ eq_refl F eq_refl)).
  change (0 =? NOT_FOUND) with false. cbv iota.
  cbn [reg sched director env os trace].
  unfold d, freshDirector, freshSlabAllocator, withSlab, setSlabAllocator,
    setRegistryAt.
  cbn [d_slabAllocator s_allocator s_secure s_maxCount s_slabs s_sideDataSize
       s_sideData s_registry d_space d_sharing d_secure d_roster
       d_quantumAllocators d_nullAllocator d_reference].
  unfold bind at 1. unfold SlabAllocator.this at 1, readDirector at 1.
  cbn [director d_slabAllocator].
  unfold bind at 1. unfold lift at 1. cbn [s_slabs]. rewrite En.
  change (lookupZ (<[0%nat := Space.create start (2 ^ k)]>
                     (replicate (S n') Space.empty)) 0)
    with (Ok (Space.create start (2 ^ k))).
  cbv iota.
  assert (Sz : Space.size (Space.create start (2 ^ k)) = 2 ^ k).
  { unfold Space.size, Space.create. cbn [base limit].
    rewrite (wrap64_small (start + 2 ^ k)) by lia.
    replace (start + 2 ^ k - start) with (2 ^ k) by lia.
    apply wrap64_small. lia. }
  rewrite Sz. change (base (Space.create start (2 ^ k))) with start.
  rewrite (proj2 (Z.leb_le (2 ^ j) (2 ^ k))) by lia.
  cbn [s_secure].
  rewrite (wrap64_small (start + 2 ^ j)), (wrap64_small (2 ^ k - 2 ^ j))
    by lia.
  replace (2 ^ j <? 2 ^ k) with (j <? k)
    by (destruct (Z.ltb_spec j k) as [Lt|Ge];
        [symmetry; apply Z.ltb_lt; auto
        |symmetry; apply Z.ltb_ge; replace j with k by lia; lia]).
  assert (I : insertZ (<[0%nat := Space.create start (2 ^ k)]>
                         (replicate (S n') Space.empty)) 0
                (Space.create start (2 ^ j))
              = Ok (<[0%nat := Space.create start (2 ^ j)]>
                      (replicate (S n') Space.empty))).
  { unfold insertZ. rewrite length_insert, length_replicate.
    change (0 <=? 0) with true.
    replace (0 <? Z.of_nat (S n')) with true
      by (symmetry; apply Z.ltb_lt; lia).
    cbn [andb]. change (Z.to_nat 0) with 0%nat.
    rewrite list_insert_insert_eq. reflexivity. }
  destruct secure, (j <? k);
    unfold bind, sys, System.commit, System.release, System.call, modify,
      SlabAllocator.setSlab, writeDirector, ret, setSlabAllocator;
    cbn [director env cas os trace d_slabAllocator s_slabs
         s_allocator s_secure s_maxCount s_sideDataSize s_sideData
         s_registry d_space d_sharing d_secure d_roster d_quantumAllocators
         d_nullAllocator d_reference fst snd];
    rewrite I; reflexivity.
Qed.

Lemma slab_order size :
  2 ^ 26 < size <= 2 ^ 47 ->
  27 <= Z.log2_up size <= 47 /\ sizeToOrder size = Z.log2_up size /\
  size <= 2 ^ Z.log2_up size.
Proof.
  intros H.
  assert (K : 27 <= Z.log2_up size <= 47).
  { split.
    - assert (26 < Z.log2_up size); [|lia]. apply Z.log2_up_lt_pow2; lia.
    - apply Z.log2_up_le_pow2; lia. }
  split; [exact K|]. split.
  - unfold sizeToOrder. destruct (Z.ltb_spec 8 size); [|lia].
    apply order_log2_up. lia.
  - apply Z.log2_up_spec. lia.
Qed.

Lemma in_create start size :
  0 <= start -> 0 < size -> start + size < 2 ^ 64 ->
  Space.in_ (Space.create start size) start = true /\
  Space.size (Space.create start size) = size.
Proof.
  intros Hs Hz Hl. unfold Space.in_, Space.size, Space.create.
  cbn [base limit]. rewrite (wrap64_small (start + size)) by lia.
  replace (start + size - start) with size by lia.
  rewrite wrap64_small by lia. split; [|reflexivity].
  apply andb_true_iff. split; [apply Z.leb_le|apply Z.ltb_lt]; lia.
Qed.

(** X26. A request of more than 64 MB and at most [2^47] bytes, the first one
    that a Director just created gets, is served by the slab allocator:
    the block starts at the first multiple of 64 MB in the reservation
    that the operating system grants, and it holds the size rounded up
    to a power of two. [deallocate] of the block frees the slot of the
    slab, after which the address is no longer taken for a block, and
    makes no call to the operating system: the memory stays reserved. *)
Theorem slab_allocation_and_release :
  forall abi address secure small medium large maxSlabCount sideDataSize
         e d schedule m rest calls size,
    Director.create abi address secure small medium large maxSlabCount
      sideDataSize e = Ok (Some d, mkEnv schedule (m :: rest) calls) ->
    sizesFit abi = true ->
    inRange small medium large maxSlabCount sideDataSize = true ->
    addressable e = true ->
    1 <= maxSlabCount ->
    2 ^ LARGEST_SIZE_ORDER < size <= 2 ^ (MAX_ALLOCATION_ORDER - 1) ->
    0 < m < 2 ^ MAX_ADDRESS_ORDER -> m mod PAGE_SIZE = 0 ->
    managed d (roundUp m SlabAllocator.SLAB_ALIGNMENT) = false ->
    let block := roundUp m SlabAllocator.SLAB_ALIGNMENT in
    exists w1 w2,
      Director.allocate size (mkWorld d (mkEnv schedule (m :: rest) calls))
      = Ok (block, w1) /\
      block <> 0 /\ block mod SlabAllocator.SLAB_ALIGNMENT = 0 /\
      Director.allocationSize (director w1) block
      = Ok (2 ^ sizeToOrder size) /\
      size <= 2 ^ sizeToOrder size /\
      Director.deallocate block w1 = Ok (tt, w2) /\
      env w2 = env w1 /\
      Director.allocationSize (director w2) block = Ok 0.
Proof.
  intros abi address secure small medium large maxSlabCount sideDataSize
    e d schedule m rest calls size C Ha Hr Ho Hc Hs Hm Hp U block.
  change LARGEST_SIZE_ORDER with 26 in Hs.
  change (MAX_ALLOCATION_ORDER - 1) with 47 in Hs.
  change MAX_ADDRESS_ORDER with 52 in Hm.
  change SlabAllocator.SLAB_ALIGNMENT with (2 ^ 26) in *.
  pose proof (inRange_bounds _ _ _ _ _ Hr) as (_ & _ & _ & Bc & _).
  apply create_placed in C
    as (sp & b & s0 & s1 & s2 & ss & -> & Hb & Hl & _); try assumption.
  destruct (slab_order size Hs) as (K & O & Up).
  assert (P : 2 ^ Z.log2_up size <= 2 ^ 47)
    by (apply Z.pow_le_mono_r; lia).
  assert (P0 : 0 < 2 ^ Z.log2_up size) by (apply Z.pow_pos_nonneg; lia).
  assert (Hn : 1 <= maxSlabCount <= MAX_REGISTRY_BIT_COUNT)
    by (change MAX_REGISTRY_BIT_COUNT with 16384; lia).
  pose proof (roundUp_bounds 26 m ltac:(lia) ltac:(lia) ltac:(lia)) as B.
  pose proof (roundUp_twoToOrder 26 m ltac:(lia) ltac:(lia) ltac:(lia)) as E.
  subst block.
  destruct (in_create (roundUp m (2 ^ 26)) (2 ^ Z.log2_up size))
    as (I & Sz); try lia.
  rewrite allocate_rounds by lia. rewrite O.
  eexists _, _. split.
  { apply allocate_slab_fresh; try assumption; lia. }
  cbn [director env].
  split; [lia|]. split; [rewrite E; apply Z.mod_mul; lia|].
  split.
  { rewrite withSlab_allocationSize by (assumption || lia).
    rewrite I, Sz. reflexivity. }
  split; [exact Up|]. split.
  { apply withSlab_deallocate; assumption. }
  cbn [director env]. split; [reflexivity|].
  rewrite withSlab_allocationSize by (assumption || lia).
  rewrite I. reflexivity.
Qed.

Lemma slab_allocation_and_release_witness :
  exists d calls w1 w2,
    Director.create lp64 0 false 4 4 2 16 0 (quiet [2 ^ 32; 2 ^ 40 + 4096])
    = Ok (Some d, mkEnv [] [2 ^ 40 + 4096] calls) /\
    Director.allocate (2 ^ 27 + 1)
      (mkWorld d (mkEnv [] [2 ^ 40 + 4096] calls))
    = Ok (2 ^ 40 + 2 ^ 26, w1) /\
    Director.allocationSize (director w1) (2 ^ 40 + 2 ^ 26) = Ok (2 ^ 28) /\
    Director.deallocate (2 ^ 40 + 2 ^ 26) w1 = Ok (tt, w2) /\
    env w2 = env w1 /\
    Director.allocationSize (director w2) (2 ^ 40 + 2 ^ 26) = Ok 0.
Proof.
  evar (d : Director). evar (calls : list SysCall).
  assert (C : Director.create lp64 0 false 4 4 2 16 0
                (quiet [2 ^ 32; 2 ^ 40 + 4096])
              = Ok (Some d, mkEnv [] [2 ^ 40 + 4096] calls))
    by (subst d calls; lazy; reflexivity).
  destruct (slab_allocation_and_release lp64 0 false 4 4 2 16 0
              (quiet [2 ^ 32; 2 ^ 40 + 4096]) d [] (2 ^ 40 + 4096) [] calls
              (2 ^ 27 + 1) C eq_refl eq_refl eq_refl)
    as (w1 & w2 & A & _ & _ & S & _ & D & E & Z).
  - lia.
  - change LARGEST_SIZE_ORDER with 26.
    change (MAX_ALLOCATION_ORDER - 1) with 47. lia.
  - change MAX_ADDRESS_ORDER with 52. lia.
  - reflexivity.
  - subst d. vm_compute. reflexivity.
  - exists d, calls, w1, w2.
    split; [exact C|]. split; [exact A|]. split; [exact S|].
    split; [exact D|]. split; [exact E|exact Z].
Defined.



(** ** The iterator over the bits in use *)

Lemma seen_bits_masked v b k :
  0 <= v < 2 ^ 64 -> 0 <= b < 64 -> 0 <= k < 64 ->
  Z.testbit (Z.land v (not64 (MASK (2 ^ b)))) k
  = Z.testbit v k && (b <=? k).
Proof.
  intros Hv Hb Hk. pose proof (pow2_range b Hb) as P.
  unfold MASK. rewrite wrap64_small by lia.
  rewrite Z.land_spec, not64_testbit by lia. f_equal.
  replace (2 ^ b - 1) with (Z.ones b) by (rewrite Z.ones_equiv; lia).
  destruct (Z.leb_spec b k) as [Le|Lt].
  - rewrite Z.ones_spec_high by lia. reflexivity.
  - rewrite Z.ones_spec_low by lia. reflexivity.
Qed.

Lemma nextSet_loop_spec r n : forall w b,
  wellFormed r = true ->
  0 <= w -> w + Z.of_nat n = maximumWordIndex r ->
  maximumWordIndex r <= MAX_REGISTRY_WORD_COUNT ->
  maximumIndex r <= 64 * maximumWordIndex r ->
  0 <= b < 64 ->
  exists found index',
    RegistryIsSetIterator.nextSet_loop r n w b = Ok (found, index') /\
    ((found = NOT_FOUND /\ index' = maximumIndex r /\
      forall i, 64 * w + b <= i < maximumIndex r ->
                Registry.isSet r i = Ok false) \/
     (64 * w + b <= found < maximumIndex r /\ index' = found + 1 /\
      Registry.isSet r found = Ok true /\
      forall i, 64 * w + b <= i < found -> Registry.isSet r i = Ok false)).
Proof.
  induction n as [|n IH]; intros w b W Hw Hn Hm Hi Hb.
  - exists NOT_FOUND, (maximumIndex r). split; [reflexivity|]. left.
    split; [reflexivity|]. split; [reflexivity|]. intros i Hi'. lia.
  - change MAX_REGISTRY_WORD_COUNT with 256 in *.
    destruct (wellFormed_getBits r w W ltac:(change MAX_REGISTRY_WORD_COUNT with 256; lia))
      as (v & G & _ & Hv).
    assert (B : forall k, 0 <= k < 64 ->
                Registry.isSet r (64 * w + k) = Ok (Z.testbit v k)).
    { intros k Hk.
      assert (E : (64 * w + k) / 64 = w /\ (64 * w + k) mod 64 = k).
      { replace (64 * w + k) with (k + w * 64) by lia.
        rewrite Z.div_add, Z.mod_add, Z.div_small, Z.mod_small by lia. lia. }
      destruct E as [E1 E2].
      rewrite (isSet_testbit r (64 * w + k) v);
        [rewrite E2; reflexivity
        |change MAX_REGISTRY_BIT_COUNT with 16384; lia
        |rewrite E1; exact G]. }
    cbn [RegistryIsSetIterator.nextSet_loop]. rewrite G. cbn [rbind].
    unfold twoToOrder. rewrite twoToOrder_pow2 by exact Hb. cbn [rbind].
    set (value := Z.land v (not64 (MASK (2 ^ b)))).
    assert (Hr : 0 <= value < 2 ^ 64) by (apply land_range; exact Hv).
    destruct (Z.eqb_spec value 0) as [Z0|NZ]; cbn [negb].
    + destruct (IH (w + 1) 0 W ltac:(lia) ltac:(lia) Hm Hi ltac:(lia))
        as (found & index' & R & S).
      exists found, index'. split; [exact R|].
      assert (C : forall i, 64 * w + b <= i < 64 * (w + 1) ->
                  Registry.isSet r i = Ok false).
      { intros i Hi'. replace i with (64 * w + (i - 64 * w)) by lia.
        rewrite B by lia. f_equal.
        pose proof (seen_bits_masked v b (i - 64 * w) Hv Hb ltac:(lia)) as T.
        fold value in T. rewrite Z0, Z.bits_0 in T.
        destruct (Z.leb_spec b (i - 64 * w)); [|lia].
        rewrite andb_true_r in T. symmetry. exact T. }
      destruct S as [(-> & -> & N)|(Hf & -> & I & N)].
      * left. split; [reflexivity|]. split; [reflexivity|].
        intros i Hi'. destruct (Z.lt_ge_cases i (64 * (w + 1))).
        -- apply C. lia.
        -- apply N. lia.
      * right. split; [lia|]. split; [reflexivity|]. split; [exact I|].
        intros i Hi'. destruct (Z.lt_ge_cases i (64 * (w + 1))).
        -- apply C. lia.
        -- apply N. lia.
    + destruct value as [|p|p] eqn:Ev; [lia| |lia].
      cbn [ctz]. destruct (ctz_pos_spec p) as (C0 & C1 & C2).
      set (c := ctz_pos p) in *.
      assert (C64 : c < 64).
      { destruct (Z.lt_ge_cases c 64) as [L|Ge]; [exact L|].
        rewrite (high_bits_clear (Z.pos p) c Hr Ge) in C1. discriminate. }
      pose proof (seen_bits_masked v b c Hv Hb ltac:(lia)) as T.
      fold value in T. rewrite Ev, C1 in T. symmetry in T.
      apply andb_true_iff in T as [Tv Tb]. apply Z.leb_le in Tb.
      assert (N : forall i, 64 * w + b <= i < 64 * w + c ->
                  Registry.isSet r i = Ok false).
      { intros i Hi'. replace i with (64 * w + (i - 64 * w)) by lia.
        rewrite B by lia. f_equal.
        pose proof (seen_bits_masked v b (i - 64 * w) Hv Hb ltac:(lia)) as T.
        fold value in T. rewrite Ev, C2 in T by lia.
        destruct (Z.leb_spec b (i - 64 * w)); [|lia].
        rewrite andb_true_r in T. symmetry. exact T. }
      destruct (getIndex_word_and_bit w c ltac:(lia)) as (-> & _ & _).
      replace (w * 64 + c) with (64 * w + c) by lia.
      destruct (Z.leb_spec (maximumIndex r) (64 * w + c)) as [Le|Lt].
      * exists NOT_FOUND, (maximumIndex r). split; [reflexivity|]. left.
        split; [reflexivity|]. split; [reflexivity|].
        intros i Hi'. apply N. lia.
      * exists (64 * w + c), (64 * w + c + 1). split; [reflexivity|]. right.
        split; [lia|]. split; [reflexivity|]. split; [|exact N].
        rewrite B by lia. rewrite Tv. reflexivity.
Qed.

(** X28. [nextSet] returns the lowest bit in use at or above the index of the
    iterator, and leaves the iterator just above it; when no bit at or
    above the index is in use it returns [NOT_FOUND] and leaves the
    iterator at [maximumIndex]. *)
Theorem nextSet_returns_the_next_bit_in_use :
  forall r index,
    wellFormed r = true -> inBounds r = true ->
    0 <= index <= maximumIndex r ->
    exists found index',
      RegistryIsSetIterator.nextSet r index = Ok (found, index') /\
      ((found = NOT_FOUND /\ index' = maximumIndex r /\
        forall i, index <= i < maximumIndex r ->
                  Registry.isSet r i = Ok false) \/
       (index <= found < maximumIndex r /\ index' = found + 1 /\
        Registry.isSet r found = Ok true /\
        forall i, index <= i < found -> Registry.isSet r i = Ok false)).
Proof.
  intros r index W B Hi.
  pose proof (proj1 (inBounds_spec r) B) as (_ & Hm & Hx).
  unfold RegistryIsSetIterator.nextSet.
  assert (E : Registry.getWordIndex index = index / 64 /\
              Registry.getBitIndex index = index mod 64).
  { unfold Registry.getWordIndex, Registry.getBitIndex.
    change BITS_PER_WORD_ORDER with 6. change BITS_MASK with (Z.ones 6).
    rewrite Z.shiftr_div_pow2, Z.land_ones by lia. split; reflexivity. }
  destruct E as [-> ->].
  pose proof (Z.div_mod index 64 ltac:(lia)) as D.
  pose proof (Z.mod_pos_bound index 64 ltac:(lia)) as M.
  assert (Q : 0 <= index / 64 <= maximumWordIndex r).
  { split; [apply Z.div_pos; lia|].
    apply Z.div_le_upper_bound; lia. }
  destruct (nextSet_loop_spec r (Z.to_nat (maximumWordIndex r - index / 64))
              (index / 64) (index mod 64) W ltac:(lia) ltac:(lia)
              ltac:(change MAX_REGISTRY_WORD_COUNT with 256; lia)
              ltac:(lia) M) as (found & index' & R & S).
  exists found, index'. split; [exact R|].
  replace (64 * (index / 64) + index mod 64) with index in S by lia.
  exact S.
Qed.

Lemma nextSet_returns_the_next_bit_in_use_witness :
  exists found index',
    RegistryIsSetIterator.nextSet
      (withBits (freshRegistry 200)
         (<[1%nat := 2 ^ 7 + 2 ^ 9]> (bits (freshRegistry 200)))) 72
    = Ok (found, index') /\
    ((found = NOT_FOUND /\ index' = 200 /\
      forall i, 72 <= i < 200 ->
        Registry.isSet
          (withBits (freshRegistry 200)
             (<[1%nat := 2 ^ 7 + 2 ^ 9]> (bits (freshRegistry 200)))) i
        = Ok false) \/
     (72 <= found < 200 /\ index' = found + 1 /\
      Registry.isSet
        (withBits (freshRegistry 200)
           (<[1%nat := 2 ^ 7 + 2 ^ 9]> (bits (freshRegistry 200)))) found
      = Ok true /\
      forall i, 72 <= i < found ->
        Registry.isSet
          (withBits (freshRegistry 200)
             (<[1%nat := 2 ^ 7 + 2 ^ 9]> (bits (freshRegistry 200)))) i
        = Ok false)).
Proof.
  apply (nextSet_returns_the_next_bit_in_use
           (withBits (freshRegistry 200)
              (<[1%nat := 2 ^ 7 + 2 ^ 9]> (bits (freshRegistry 200)))) 72).
  - vm_compute. reflexivity.
  - vm_compute. reflexivity.
  - vm_compute. split; discriminate.
Defined.

(** ** Runs of free bits in a word *)

Lemma pred_bits x z :
  0 <= z -> Z.testbit x z = true ->
  (forall k, 0 <= k < z -> Z.testbit x k = false) ->
  forall k, 0 <= k ->
    Z.testbit (x - 1) k
    = if k <? z then true else if k =? z then false else Z.testbit x k.
Proof.
  intros Hz T L k Hk.
  assert (E1 : x - 2 ^ z = Z.ldiff x (2 ^ z)).
  { apply Z.sub_nocarry_ldiff. apply Z.bits_inj'. intros j Hj.
    rewrite Z.ldiff_spec, Z.bits_0, Z.pow2_bits_eqb by lia.
    destruct (Z.eqb_spec z j) as [<-|]; [rewrite T|]; reflexivity. }
  assert (E2 : Z.land (Z.ldiff x (2 ^ z)) (Z.ones z) = 0).
  { apply Z.bits_inj'. intros j Hj.
    rewrite Z.land_spec, Z.ldiff_spec, Z.bits_0, Z.testbit_ones_nonneg
      by lia.
    destruct (Z.ltb_spec j z); [rewrite L by lia; reflexivity|].
    apply andb_false_r. }
  replace (x - 1) with (Z.ldiff x (2 ^ z) + Z.ones z)
    by (rewrite <- E1, Z.ones_equiv; lia).
  rewrite (Z.add_nocarry_lxor _ _ E2).
  rewrite Z.lxor_spec, Z.ldiff_spec, Z.pow2_bits_eqb,
    Z.testbit_ones_nonneg by lia.
  destruct (Z.ltb_spec k z) as [Lt|Ge].
  - rewrite L by lia. reflexivity.
  - rewrite (Z.eqb_sym z k). destruct (Z.eqb_spec k z) as [->|N].
    + rewrite T. reflexivity.
    + cbn [negb]. rewrite andb_true_r, xorb_false_r. reflexivity.
Qed.

(** [lowestZeroBit] is the power of two of the lowest clear bit. *)
Lemma lowestZeroBit_pow2 v :
  0 <= v < 2 ^ 64 -> v <> ALL_ONES ->
  lowestZeroBit v = 2 ^ ctz (not64 v).
Proof.
  intros Hv N. destruct (lowest_clear_bit v Hv N) as (Hz & T & L).
  set (z := ctz (not64 v)) in *.
  pose proof (not64_range v Hv) as R.
  assert (Tu : Z.testbit (not64 v) z = true)
    by (rewrite not64_testbit, T by lia; reflexivity).
  assert (Lu : forall k, 0 <= k < z -> Z.testbit (not64 v) k = false).
  { intros k Hk. rewrite not64_testbit, L by lia. reflexivity. }
  unfold lowestZeroBit, neg64, wrap64. apply Z.bits_inj'. intros k Hk.
  rewrite Z.land_spec, Z.pow2_bits_eqb by lia.
  destruct (Z.lt_ge_cases k 64) as [Lt|Ge].
  - rewrite Z.mod_pow2_bits_low by lia.
    replace (- not64 v) with (Z.lnot (not64 v - 1))
      by (unfold Z.lnot; lia).
    rewrite Z.lnot_spec, (pred_bits (not64 v) z) by (assumption || lia).
    rewrite (Z.eqb_sym z k).
    destruct (Z.ltb_spec k z) as [Lz|Gz].
    + rewrite Lu by lia. destruct (Z.eqb_spec k z); [lia|reflexivity].
    + destruct (Z.eqb_spec k z) as [->|Nz].
      * rewrite Tu. reflexivity.
      * apply andb_negb_r.
  - rewrite (high_bits_clear (not64 v) k R Ge).
    destruct (Z.eqb_spec z k); [lia|reflexivity].
Qed.

(** The mask of the [n] bits from the bit [z] up, cut at the top of the
    word. *)
Lemma rangeMask_bits z n :
  0 <= z < 64 -> 1 <= n < 64 ->
  exists shifted rangeMask,
    shl64 (2 ^ z) n = Ok shifted /\
    wrap64 (shifted - 2 ^ z) = rangeMask /\
    0 <= rangeMask < 2 ^ 64 /\
    forall k, 0 <= k ->
      Z.testbit rangeMask k = (z <=? k) && (k <? Z.min (z + n) 64).
Proof.
  intros Hz Hn. pose proof (pow2_range z Hz) as P.
  remember (Z.min (z + n) 64) as e eqn:He.
  assert (Pe : 2 ^ z < 2 ^ e <= 2 ^ 64).
  { split; [apply Z.pow_lt_mono_r|apply Z.pow_le_mono_r]; lia. }
  exists (wrap64 (Z.shiftl (2 ^ z) n)), (2 ^ e - 2 ^ z).
  split.
  { unfold shl64. destruct (Z.leb_spec 0 n); [|lia].
    destruct (Z.ltb_spec n 64); [reflexivity|lia]. }
  split.
  { rewrite Z.shiftl_mul_pow2, <- Z.pow_add_r by lia. unfold wrap64.
    destruct (Z.lt_ge_cases (z + n) 64) as [Lt|Ge].
    - assert (Ee : e = z + n) by lia. rewrite Ee in Pe. rewrite Ee.
      assert (2 ^ (z + n) < 2 ^ 64) by (apply Z.pow_lt_mono_r; lia).
      rewrite (Z.mod_small (2 ^ (z + n))) by lia.
      apply Z.mod_small. lia.
    - assert (Ee : e = 64) by lia. rewrite Ee.
      replace (2 ^ (z + n)) with (2 ^ (z + n - 64) * 2 ^ 64)
        by (rewrite <- Z.pow_add_r by lia; f_equal; lia).
      rewrite Z.mod_mul by lia.
      replace (0 - 2 ^ z) with (2 ^ 64 - 2 ^ z + (-1) * 2 ^ 64) by lia.
      rewrite Z.mod_add by lia. apply Z.mod_small. lia. }
  split; [lia|].
  intros k Hk.
  replace (2 ^ e - 2 ^ z) with (Z.shiftl (Z.ones (e - z)) z).
  - rewrite Z.shiftl_spec by lia.
    destruct (Z.leb_spec z k) as [Le|Lt].
    + rewrite Z.testbit_ones_nonneg by lia.
      destruct (Z.ltb_spec (k - z) (e - z)), (Z.ltb_spec k e);
        reflexivity || lia.
    + rewrite Z.testbit_neg_r by lia. reflexivity.
  - rewrite Z.shiftl_mul_pow2, Z.ones_equiv by lia.
    replace (2 ^ e) with (2 ^ (e - z) * 2 ^ z)
      by (rewrite <- Z.pow_add_r by lia; f_equal; lia).
    lia.
Qed.

(** One round of [value |= value - lowestBit]: the clear bits below the
    next bit in use are filled. *)
Lemma fill_bits v z s :
  0 <= v < 2 ^ 64 -> 0 <= z < s -> s < 64 ->
  (forall k, 0 <= k < z -> Z.testbit v k = true) ->
  (forall k, z <= k < s -> Z.testbit v k = false) ->
  Z.testbit v s = true ->
  let v' := Z.lor v (wrap64 (v - 2 ^ z)) in
  0 <= v' < 2 ^ 64 /\
  forall k, 0 <= k -> Z.testbit v' k = Z.testbit v k || (k <? s).
Proof.
  intros Hv Hz Hs L0 L1 T v'.
  assert (E1 : v - Z.ones z = Z.ldiff v (Z.ones z)).
  { apply Z.sub_nocarry_ldiff. apply Z.bits_inj'. intros j Hj.
    rewrite Z.ldiff_spec, Z.bits_0, Z.testbit_ones_nonneg by lia.
    destruct (Z.ltb_spec j z); [rewrite L0 by lia; reflexivity|].
    reflexivity. }
  set (x := Z.ldiff v (Z.ones z)) in *.
  assert (Bx : forall k, 0 <= k ->
               Z.testbit x k = Z.testbit v k && negb (k <? z)).
  { intros k Hk. unfold x.
    rewrite Z.ldiff_spec, Z.testbit_ones_nonneg by lia. reflexivity. }
  assert (Tx : Z.testbit x s = true).
  { rewrite Bx, T by lia. destruct (Z.ltb_spec s z); [lia|reflexivity]. }
  assert (Lx : forall k, 0 <= k < s -> Z.testbit x k = false).
  { intros k Hk. rewrite Bx by lia.
    destruct (Z.ltb_spec k z); [apply andb_false_r|].
    rewrite L1 by lia. reflexivity. }
  assert (E2 : v - 2 ^ z = x - 1) by (rewrite <- E1, Z.ones_equiv; lia).
  assert (Px : 2 ^ s <= x).
  { destruct (Z.le_gt_cases (2 ^ s) x) as [Le|Gt]; [exact Le|].
    assert (X0 : 0 <= x) by (unfold x; apply Z.ldiff_nonneg; lia).
    destruct (Z.eq_dec x 0) as [E0|N0];
      [rewrite E0, Z.bits_0 in Tx; discriminate|].
    assert (Z.log2 x < s) by (apply Z.log2_lt_pow2; lia).
    rewrite Z.bits_above_log2 in Tx by lia. discriminate. }
  assert (Ux : x <= v).
  { rewrite <- E1. pose proof (Z.ones_equiv z).
    assert (0 < 2 ^ z) by (apply Z.pow_pos_nonneg; lia). lia. }
  assert (P2 : 0 < 2 ^ s) by (apply Z.pow_pos_nonneg; lia).
  assert (R : 0 <= v - 2 ^ z < 2 ^ 64) by lia.
  unfold v'. rewrite wrap64_small by exact R.
  split; [apply lor_range; assumption|].
  intros k Hk. rewrite Z.lor_spec, E2.
  rewrite (pred_bits x s) by (assumption || lia).
  destruct (Z.ltb_spec k s) as [Lt|Ge].
  - rewrite !orb_true_r. reflexivity.
  - rewrite orb_false_r. destruct (Z.eqb_spec k s) as [->|N].
    + rewrite T. reflexivity.
    + rewrite Bx by lia. destruct (Z.ltb_spec k z); [lia|].
      cbn [negb]. rewrite andb_true_r. apply orb_diag.
Qed.

Lemma all_bits_set v :
  0 <= v < 2 ^ 64 -> (forall k, 0 <= k < 64 -> Z.testbit v k = true) ->
  v = ALL_ONES.
Proof.
  intros Hv H. apply Z.bits_inj'. intros k Hk.
  destruct (Z.lt_ge_cases k 64) as [Lt|Ge].
  - rewrite H, ALL_ONES_testbit by lia. reflexivity.
  - rewrite !high_bits_clear by (assumption || (unfold ALL_ONES; lia)).
    reflexivity.
Qed.

(** The lowest clear bit of a word, 64 when the word is full. *)
Lemma lowest_clear_bit_or_none v :
  0 <= v < 2 ^ 64 ->
  exists m, 0 <= m <= 64 /\
    (forall k, 0 <= k < m -> Z.testbit v k = true) /\
    (m < 64 -> Z.testbit v m = false).
Proof.
  intros Hv. destruct (Z.eq_dec v ALL_ONES) as [->|N].
  - exists 64. split; [lia|]. split; [|lia].
    intros k Hk. apply ALL_ONES_testbit. exact Hk.
  - destruct (lowest_clear_bit v Hv N) as (Hz & T & L).
    exists (ctz (not64 v)). split; [lia|]. split; [exact L|]. intros _. exact T.
Qed.

Lemma lowestZeroBitsPosition_loop_spec v n :
  1 <= n < 64 ->
  forall fuel cur m,
    0 <= cur < 2 ^ 64 -> 0 <= m <= 64 ->
    (forall k, 0 <= k < m -> Z.testbit cur k = true) ->
    (m < 64 -> Z.testbit cur m = false) ->
    64 - m <= Z.of_nat fuel ->
    (forall k, m <= k < 64 -> Z.testbit cur k = Z.testbit v k) ->
    (forall q, 0 <= q < m -> ~ freeRun v q n) ->
    exists p,
      lowestZeroBitsPosition_loop fuel cur n = Ok p /\
      ((p = NOT_FOUND /\ forall q, 0 <= q < 64 -> ~ freeRun v q n) \/
       (0 <= p < 64 /\ freeRun v p n /\
        forall q, 0 <= q < p -> ~ freeRun v q n)).
Proof.
  intros Hn. induction fuel as [|fuel IH];
    intros cur m Hc Hm L0 T0 Hf A I.
  - assert (m = 64) by lia. subst m.
    rewrite (all_bits_set cur Hc L0). exists NOT_FOUND.
    split; [reflexivity|]. left. split; [reflexivity|exact I].
  - destruct (Z.eq_dec cur ALL_ONES) as [E|N].
    + assert (m = 64).
      { destruct (Z.eq_dec m 64) as [|N]; [assumption|].
        rewrite E, ALL_ONES_testbit in T0 by lia.
        specialize (T0 ltac:(lia)). discriminate. }
      subst m cur. exists NOT_FOUND.
      split; [reflexivity|]. left. split; [reflexivity|exact I].
    + destruct (lowest_clear_bit cur Hc N) as (Hz & Tz & Lz).
      assert (Em : ctz (not64 cur) = m).
      { destruct (Z.lt_trichotomy (ctz (not64 cur)) m) as [Lt|[Eq|Gt]].
        - rewrite L0 in Tz by lia. discriminate.
        - exact Eq.
        - rewrite Lz in T0 by lia. specialize (T0 ltac:(lia)).
          discriminate. }
      rewrite Em in *. clear Tz Lz.
      specialize (T0 ltac:(lia)).
      destruct (rangeMask_bits m n ltac:(lia) Hn)
        as (shifted & rangeMask & Sh & Rm & Rr & Rb).
      cbn [lowestZeroBitsPosition_loop].
      rewrite (proj2 (Z.eqb_neq _ _) N).
      rewrite lowestZeroBit_pow2, Em by assumption.
      rewrite Sh. cbn [rbind]. rewrite Rm.
      assert (Hx : 0 <= Z.land cur rangeMask < 2 ^ 64)
        by (apply land_range; exact Hc).
      destruct (Z.eqb_spec (Z.land cur rangeMask) 0) as [Z0|NZ].
      * exists (BITS_PER_WORD - 1 - clz (2 ^ m)). split; [reflexivity|].
        assert (P : 0 < 2 ^ m) by (apply Z.pow_pos_nonneg; lia).
        rewrite clz_log2, Z.log2_pow2 by lia.
        change BITS_PER_WORD with 64.
        replace (64 - 1 - (63 - m)) with m by lia.
        right. split; [lia|]. split; [|exact I].
        intros k Hk. change BITS_PER_WORD with 64 in Hk.
        rewrite <- A by lia.
        assert (B : Z.testbit (Z.land cur rangeMask) k = false)
          by (rewrite Z0; apply Z.bits_0).
        rewrite Z.land_spec, Rb in B by lia.
        destruct (Z.leb_spec m k); [|lia].
        destruct (Z.ltb_spec k (Z.min (m + n) 64)); [|lia].
        rewrite andb_true_r in B. exact B.
      * destruct (Z.land cur rangeMask) as [|x|x] eqn:Ex; [lia| |lia].
        destruct (ctz_pos_spec x) as (S0 & S1 & S2).
        set (s := ctz_pos x) in *.
        rewrite <- Ex in S1, S2.
        rewrite Z.land_spec, Rb in S1 by lia.
        apply andb_true_iff in S1 as [Ts Ws].
        apply andb_true_iff in Ws as [W1 W2].
        apply Z.leb_le in W1. apply Z.ltb_lt in W2.
        assert (Ns : s <> m) by (intros ->; rewrite T0 in Ts; discriminate).
        assert (L1 : forall k, m <= k < s -> Z.testbit cur k = false).
        { intros k Hk. specialize (S2 k ltac:(lia)).
          rewrite Z.land_spec, Rb in S2 by lia.
          destruct (Z.leb_spec m k); [|lia].
          destruct (Z.ltb_spec k (Z.min (m + n) 64)); [|lia].
          rewrite andb_true_r in S2. exact S2. }
        destruct (fill_bits cur m s Hc ltac:(lia) ltac:(lia) L0 L1 Ts)
          as (Hc' & B').
        set (cur' := Z.lor cur (wrap64 (cur - 2 ^ m))) in *.
        destruct (lowest_clear_bit_or_none cur' Hc')
          as (m' & Hm' & L0' & T0').
        assert (G : s < m').
        { destruct (Z.lt_ge_cases s m') as [Lt|Ge]; [exact Lt|].
          specialize (T0' ltac:(lia)). rewrite B' in T0' by lia.
          apply orb_false_iff in T0' as [U1 U2]. apply Z.ltb_ge in U2.
          assert (m' = s) by lia. subst m'.
          rewrite Ts in U1. discriminate. }
        apply (IH cur' m' Hc' Hm' L0' T0' ltac:(lia)).
        -- intros k Hk. rewrite B' by lia.
           destruct (Z.ltb_spec k s); [lia|].
           rewrite orb_false_r. apply A. lia.
        -- intros q Hq F.
           destruct (Z.lt_ge_cases q m) as [Qm|Qm]; [apply (I q); [lia|exact F]|].
           destruct (Z.le_gt_cases q s) as [Qs|Qs].
           ++ unfold freeRun in F. change BITS_PER_WORD with 64 in F.
              specialize (F s ltac:(lia)).
              rewrite <- A, Ts in F by lia. discriminate.
           ++ unfold freeRun in F. change BITS_PER_WORD with 64 in F.
              specialize (F q ltac:(lia)).
              rewrite <- A in F by lia.
              pose proof (L0' q ltac:(lia)) as Q1.
              rewrite B' in Q1 by lia.
              destruct (Z.ltb_spec q s); [lia|].
              rewrite orb_false_r in Q1. rewrite Q1 in F. discriminate.
Qed.

(** X29. [lowestZeroBitsPosition(value, n)], for [n] from 1 to 63, returns
    the lowest position from which [n] bits of the word are clear, or
    from which all the bits up to the top of the word, fewer than [n],
    are clear; it returns [NOT_FOUND] when there is no such position.
    The loop ends within 64 rounds. *)
Theorem lowestZeroBitsPosition_finds_the_lowest_run :
  forall value n,
    0 <= value < 2 ^ 64 -> 1 <= n < BITS_PER_WORD ->
    exists p,
      lowestZeroBitsPosition value n = Ok p /\
      ((p = NOT_FOUND /\
        forall q, 0 <= q < BITS_PER_WORD -> ~ freeRun value q n) \/
       (0 <= p < BITS_PER_WORD /\ freeRun value p n /\
        forall q, 0 <= q < p -> ~ freeRun value q n)).
Proof.
  intros value n Hv Hn. change BITS_PER_WORD with 64 in *.
  destruct (lowest_clear_bit_or_none value Hv) as (m & Hm & L0 & T0).
  apply (lowestZeroBitsPosition_loop_spec value n Hn 64 value m Hv Hm L0 T0).
  - lia.
  - reflexivity.
  - intros q Hq F. unfold freeRun in F. change BITS_PER_WORD with 64 in F.
    specialize (F q ltac:(lia)). rewrite L0 in F by lia. discriminate.
Qed.

Lemma lowestZeroBitsPosition_finds_the_lowest_run_witness :
  exists p,
    lowestZeroBitsPosition 3967 2 = Ok p /\
    ((p = NOT_FOUND /\
      forall q, 0 <= q < BITS_PER_WORD -> ~ freeRun 3967 q 2) \/
     (0 <= p < BITS_PER_WORD /\ freeRun 3967 p 2 /\
      forall q, 0 <= q < p -> ~ freeRun 3967 q 2)).
Proof.
  apply (lowestZeroBitsPosition_finds_the_lowest_run 3967 2).
  - lia.
  - change BITS_PER_WORD with 64. lia.
Defined.

(** ** C2: eight contiguous blocks *)

Lemma failuresAhead_settle schedule :
  (failuresAhead (settle schedule) <= failures schedule)%nat.
Proof.
  induction schedule as [|[|] rest IH]; cbn [settle failures].
  - cbn. lia.
  - clear IH. induction rest as [|[|] rest IH]; cbn; lia.
  - lia.
Qed.

(** One round of [findFreeRange(8)] on a registry of 8192 bits none of
    which is in use: the eight lowest bits of the word are taken, unless
    the compare-exchange fails, in which case the word is given up. *)
Lemma findFreeRange_body_fresh w schedule :
  0 <= w < 128 ->
  Registry.findFreeRange_body 8 w (mkRegState (freshRegistry 8192) schedule)
  = match schedule with
    | false :: rest => Ok (None, mkRegState (freshRegistry 8192) rest)
    | _ =>
        Ok (Some (64 * w),
            mkRegState
              (withBits (freshRegistry 8192)
                 (<[Z.to_nat w := 255]> (bits (freshRegistry 8192))))
              (tail schedule))
    end.
Proof.
  intros Hw.
  assert (G : Registry.getBits (freshRegistry 8192) w = Ok 0)
    by (apply fresh_getBits; change MAX_REGISTRY_WORD_COUNT with 256; lia).
  unfold Registry.findFreeRange_body.
  unfold bind at 1. unfold Registry.load at 1.
  lazy beta iota delta [reg sched fst snd]. rewrite G.
  unfold bind at 1. unfold Registry.load at 1.
  lazy beta iota delta [reg sched fst snd].
  change (maximumIndex (freshRegistry 8192)) with 8192.
  change (8 <=? BITS_PER_WORD) with true. cbv iota.
  unfold bind at 1. unfold lift at 1.
  rewrite lowestZeroBitsPosition_zero by lia.
  destruct (getIndex_word_and_bit w 0 ltac:(lia)) as (-> & _ & _).
  destruct (Z.leb_spec (8192 - 8) (w * 64 + 0)) as [Le|Lt]; [lia|].
  change (0 + 8 <=? BITS_PER_WORD) with true. cbv iota.
  unfold bind at 1. unfold lift at 1. change (loMask 8) with (Ok 255).
  unfold bind at 1. unfold lift at 1. change (shl64 255 0) with (Ok 255).
  unfold Registry.conditionallySetMask, Registry.conditionallySetMask3,
    Registry.swapBits, Registry.nextCas, Registry.storeBits, bind,
    Registry.load, ret.
  lazy beta iota delta [reg sched fst snd]. rewrite G.
  change (negb (255 =? 0)) with true. cbv iota.
  lazy beta iota delta [reg sched fst snd]. rewrite G.
  change (Z.lor 0 255) with 255.
  replace (w * 64 + 0) with (64 * w) by lia.
  change MAX_REGISTRY_WORD_COUNT with 256.
  destruct schedule as [|[|] rest];
    lazy beta iota delta [reg sched fst snd];
    change (0 =? 0) with true; cbn [andb];
    lazy beta iota delta [reg sched fst snd];
    destruct (Z.leb_spec 0 w); try lia;
    destruct (Z.ltb_spec w 256); try lia;
    reflexivity.
Qed.

Lemma findFreeRange_loop_fresh schedule : forall n w,
  0 <= w -> w + Z.of_nat (failuresAhead schedule) < 128 ->
  (failuresAhead schedule < n)%nat ->
  Registry.findFreeRange_loop n 8 w (mkRegState (freshRegistry 8192) schedule)
  = Ok (64 * (w + Z.of_nat (failuresAhead schedule)),
        mkRegState
          (withBits (freshRegistry 8192)
             (<[Z.to_nat (w + Z.of_nat (failuresAhead schedule)) := 255]>
                (bits (freshRegistry 8192))))
          (drop (S (failuresAhead schedule)) schedule)).
Proof.
  induction schedule as [|[|] rest IH]; intros n w Hw Hf Hn;
    cbn [failuresAhead] in *.
  - destruct n as [|n]; [lia|]. cbn [Registry.findFreeRange_loop].
    unfold bind at 1. rewrite findFreeRange_body_fresh by lia.
    rewrite Z.add_0_r. reflexivity.
  - destruct n as [|n]; [lia|]. cbn [Registry.findFreeRange_loop].
    unfold bind at 1. rewrite findFreeRange_body_fresh by lia.
    rewrite Z.add_0_r. reflexivity.
  - destruct n as [|n]; [lia|]. cbn [Registry.findFreeRange_loop].
    unfold bind at 1. rewrite findFreeRange_body_fresh by lia.
    rewrite (IH n (w + 1)) by lia.
    replace (w + 1 + Z.of_nat (failuresAhead rest))
      with (w + Z.of_nat (S (failuresAhead rest))) by lia.
    reflexivity.
Qed.

(** [findFreeRange(8)] on such a registry gives up one word for each
    compare-exchange that fails ahead of the first success, and takes the
    eight lowest bits of the next word. *)
Lemma findFreeRange_fresh schedule :
  Z.of_nat (failuresAhead schedule) < 128 ->
  Registry.findFreeRange 8 (mkRegState (freshRegistry 8192) schedule)
  = Ok (64 * Z.of_nat (failuresAhead schedule),
        mkRegState
          (withBits (freshRegistry 8192)
             (<[failuresAhead schedule := 255]>
                (bits (freshRegistry 8192))))
          (drop (S (failuresAhead schedule)) schedule)).
Proof.
  intros Hf. unfold Registry.findFreeRange.
  change (8 =? 0) with false. change (8 =? 1) with false. cbv iota.
  unfold bind at 1. unfold Registry.getLowestIndex, Registry.load at 1.
  lazy beta iota delta [reg sched fst snd].
  unfold bind at 1. unfold Registry.load at 1.
  lazy beta iota delta [reg sched fst snd].
  change (lowestIndex (freshRegistry 8192)) with 0.
  change (maximumIndex (freshRegistry 8192)) with 8192.
  rewrite findFreeRange_loop_fresh by lia.
  rewrite Z.add_0_l, Nat2Z.id. reflexivity.
Qed.

Lemma block_in_partition base f i :
  0 <= base -> base + 2 ^ 25 < 2 ^ 64 -> 0 <= f < 128 -> 0 <= i < 8 ->
  wrap64 (base + wrap64 (Z.shiftl (wrap64 (64 * f + i)) 12))
  = base + 4096 * (64 * f) + 4096 * i.
Proof.
  intros Hb Hl Hf Hi.
  rewrite (wrap64_small (64 * f + i)) by lia.
  rewrite Z.shiftl_mul_pow2 by lia. change (2 ^ 12) with 4096.
  rewrite (wrap64_small ((64 * f + i) * 4096)) by lia.
  rewrite wrap64_small by lia. lia.
Qed.

Lemma allocateBulk_fresh sp secure small medium large maxSlabCount
  sideDataSize base0 base1 base2 sideData0 sideData1 sideData2 slabSideData
  schedule os trace a0 a1 a2 a3 a4 a5 a6 a7 :
  1 <= medium <= MAX_REGISTRY_BIT_COUNT ->
  0 <= base1 -> base1 + 2 ^ 25 * medium < 2 ^ 64 ->
  Z.of_nat (failuresAhead (settle schedule)) < 128 ->
  let first :=
    base1 + 4096 * (64 * Z.of_nat (failuresAhead (settle schedule))) in
  exists w',
    Director.allocateBulk 4096 8 [a0; a1; a2; a3; a4; a5; a6; a7] true
      (mkWorld
         (freshDirector sp false secure small medium large maxSlabCount
            sideDataSize base0 base1 base2 sideData0 sideData1 sideData2
            slabSideData)
         (mkEnv schedule os trace))
    = Ok ((8, [first; first + 4096; first + 8192; first + 12288;
               first + 16384; first + 20480; first + 24576;
               first + 28672]), w').
Proof.
  intros Hs Hb Hl Hf first.
  assert (En : exists n, Z.to_nat medium = S n)
    by (exists (Z.to_nat (medium - 1)); lia).
  destruct En as [n En].
  set (f := Z.of_nat (failuresAhead (settle schedule))) in *.
  eexists.
  unfold freshDirector. unfold freshTier at 2. constants. arith.
  rewrite En.
  unfold Director.allocateBulk. exec.
  unfold QuantumAllocator.allocateBulk, QuantumAllocator.this,
    QuantumAllocator.PartitionIterator.create, QuantumAllocator.getOrderIndex.
  exec.
  unfold orderDiv, shr64. arith. simpl. arith. simpl.
  unfold QuantumAllocator.rounds. simpl. rewrite allocateBulkContiguous_loop_S.
  simpl.
  eapply bind_step.
  { firstPartition base1. }
  cbv beta iota delta [fst snd].
  eapply bind_step.
  { unfold Partition.allocateBulkContiguous.
    eapply bind_step.
    { eapply onRegistry_eq.
      - simpl. reflexivity.
      - cbn [env cas]. exact (findFreeRange_fresh (settle schedule) Hf).
      - simpl. reflexivity. }
    cbv beta. fold f.
    rewrite (proj2 (Z.eqb_neq (64 * f) NOT_FOUND))
      by (change NOT_FOUND with (-1); lia).
    unfold Partition.this. exec.
    rewrite !block_in_partition by lia.
    change (4096 * 0) with 0. rewrite Z.add_0_r.
    reflexivity. }
  cbv beta iota delta [fst snd]. arith.
  rewrite allocateBulkContiguous_loop_S. simpl. reflexivity.
Qed.

(** C2 (as amended): on a Director just created whose second quantum
    allocator, the one of the blocks of 4096 bytes, has at least one
    partition, [allocateBulk(4096, 8, addresses, true)] returns 8 and
    fills the buffer with eight non-null addresses 4096 bytes apart, as
    long as fewer than 128 compare-exchanges fail spuriously: the scan of
    [findFreeRange] gives up a word of the registry on a failure, and the
    registry of a partition of 4096-byte blocks has 128 words. *)
Theorem allocateBulk_contiguous_blocks :
  forall abi address secure small medium large maxSlabCount sideDataSize
         e d e' addresses,
    Director.create abi address secure small medium large maxSlabCount
      sideDataSize e = Ok (Some d, e') ->
    sizesFit abi = true ->
    inRange small medium large maxSlabCount sideDataSize = true ->
    addressable e = true ->
    (failures (cas e) < 128)%nat ->
    1 <= medium ->
    length addresses = 8%nat ->
    exists first out w',
      Director.allocateBulk 4096 8 addresses true (mkWorld d e')
      = Ok ((8, out), w') /\
      length out = 8%nat /\
      0 < first /\
      (forall i, (i < 8)%nat -> out !! i = Some (first + 4096 * Z.of_nat i)) /\
      (forall i x y, (i < 7)%nat ->
         out !! i = Some x -> out !! S i = Some y -> y - x = 4096).
Proof.
  intros abi address secure small medium large maxSlabCount sideDataSize
    e d e' addresses C Ha Hr Ho Hc Hs Hn.
  pose proof (inRange_bounds _ _ _ _ _ Hr) as (Bs & Bm & Bl & _ & _).
  apply create_placed in C
    as (sp & b & s0 & s1 & s2 & ss & -> & Hb & Hl & Ec); try assumption.
  destruct e' as [c o t]. cbn [cas] in Ec. subst c.
  pose proof (failuresAhead_settle (cas e)) as Hf.
  destruct addresses as [|a0 [|a1 [|a2 [|a3 [|a4 [|a5 [|a6 [|a7 [|a8 l]]]]]]]]];
    try discriminate.
  destruct (allocateBulk_fresh sp secure small medium large maxSlabCount
              sideDataSize (b + 2 ^ 33 * large + 2 ^ 25 * medium)
              (b + 2 ^ 33 * large) b s0 s1 s2 ss (cas e) o t
              a0 a1 a2 a3 a4 a5 a6 a7)
    as (w' & A);
    try (change MAX_REGISTRY_BIT_COUNT with 16384; lia).
  eexists (b + 2 ^ 33 * large
           + 4096 * (64 * Z.of_nat (failuresAhead (settle (cas e))))), _, w'.
  split; [exact A|]. split; [reflexivity|]. split; [lia|]. split.
  - intros i Hi.
    do 8 (destruct i as [|i];
          [cbn [lookup list_lookup]; f_equal; cbn [Z.of_nat]; lia|]).
    lia.
  - intros i x y Hi X Y.
    do 7 (destruct i as [|i];
          [cbn [lookup list_lookup] in X, Y; injection X as <-;
           injection Y as <-; lia|]).
    lia.
Qed.

Lemma allocateBulk_contiguous_blocks_witness :
  exists d e' out w',
    Director.create lp64 0 false 4 4 2 16 0
      (mkEnv [false; true; false; false] [2 ^ 32] []) = Ok (Some d, e') /\
    Director.allocateBulk 4096 8 (replicate 8 0) true (mkWorld d e')
    = Ok ((8, out), w') /\
    (forall i x y, (i < 7)%nat ->
       out !! i = Some x -> out !! S i = Some y -> y - x = 4096).
Proof.
  assert (H : exists d e',
             Director.create lp64 0 false 4 4 2 16 0
               (mkEnv [false; true; false; false] [2 ^ 32] [])
             = Ok (Some d, e')).
  { eexists _, _. lazy. reflexivity. }
  destruct H as (d & e' & C).
  destruct (allocateBulk_contiguous_blocks
              lp64 0 false 4 4 2 16 0
              (mkEnv [false; true; false; false] [2 ^ 32] []) d e'
              (replicate 8 0)
              C eq_refl eq_refl eq_refl ltac:(cbn; lia) ltac:(lia) eq_refl)
    as (first & out & w' & A & _ & _ & _ & D).
  exists d, e', out, w'. auto.
Defined.

(** C2 (as stated) fails: when the compare-exchange of [findFreeRange]
    fails spuriously on each of the 128 words of the registry of the
    partition, the scan finds no range and [allocateBulk(4096, 8,
    addresses, true)] returns 0 and leaves the buffer as it was. *)
Lemma allocateBulk_contiguous_blocks_counterexample :
  failures (true :: replicate 128 false) = 128%nat /\
  outcome (withDirector lp64 0 false 4 4 2 16 0
             (Director.allocateBulk 4096 8 (replicate 8 0) true)
             (mkEnv (true :: replicate 128 false) [2 ^ 32] []))
  = Ok (Some (0, replicate 8 0)).
Proof. split; vm_compute; reflexivity. Qed.

(** ** C5: reallocation to the size of the block *)

(** [reallocate(a, size(a))] leaves the block where it is when
    [roundUpPowerOf2] leaves [size(a)] as it is. The size of a block of a
    partition is [2^order]. The size of a slab is the one it was recorded
    with, and the calls record powers of two only: most computations
    leave the slabs alone, and those of the slab allocator that record a
    slab record one whose size is a power of two. *)

(** *** Computations that leave the slabs alone *)

Lemma keepsSlabs_ret {A} (a : A) : keepsSlabs (ret a).
Proof. intros w x w' [= _ <-]. reflexivity. Qed.

Lemma keepsSlabs_fault {A} f : keepsSlabs (A := A) (fault f).
Proof. intros w x w' H. discriminate. Qed.

Lemma keepsSlabs_lift {A} (r : Res A) : keepsSlabs (lift r).
Proof. intros w x w' H. apply lift_Ok in H as [_ ->]. reflexivity. Qed.

Lemma keepsSlabs_bind {A B} (m : M World A) (k : A -> M World B) :
  keepsSlabs m -> (forall a, keepsSlabs (k a)) -> keepsSlabs (bind m k).
Proof.
  intros Hm Hk w b w' H. inv_bind H as a w1 E.
  rewrite (Hk a _ _ _ H). exact (Hm _ _ _ E).
Qed.

Lemma keepsSlabs_readDirector {A} (f : Director -> Res A) :
  keepsSlabs (readDirector f).
Proof.
  intros w x w' H. unfold readDirector in H.
  destruct (f (director w)); [|discriminate]. injection H as _ <-.
  reflexivity.
Qed.

Lemma keepsSlabs_sys {A} (m : M Env A) : keepsSlabs (sys m).
Proof.
  intros w x w' H. unfold sys in H.
  destruct (m (env w)) as [[y e]|]; [|discriminate]. injection H as _ <-.
  reflexivity.
Qed.

Lemma setQuantumAllocator_slabs a q d d' :
  setQuantumAllocator a q d = Ok d' -> d_slabAllocator d' = d_slabAllocator d.
Proof.
  unfold setQuantumAllocator. intros H.
  apply rbind_Ok in H as (qs & _ & [= <-]). reflexivity.
Qed.

Lemma setPartitionAt_slabs a i p d d' :
  setPartitionAt a i p d = Ok d' -> d_slabAllocator d' = d_slabAllocator d.
Proof.
  unfold setPartitionAt. intros H.
  apply rbind_Ok in H as (q & _ & H). apply rbind_Ok in H as (ps & _ & H).
  exact (setQuantumAllocator_slabs _ _ _ _ H).
Qed.

Lemma setRegistryAt_slabs r g d d' :
  setRegistryAt r g d = Ok d' ->
  s_slabs (d_slabAllocator d') = s_slabs (d_slabAllocator d).
Proof.
  destruct r as [a i|a|a k|]; cbn [setRegistryAt]; intros H.
  - apply rbind_Ok in H as (p & _ & H).
    rewrite (setPartitionAt_slabs _ _ _ _ _ H). reflexivity.
  - apply rbind_Ok in H as (q & _ & H).
    rewrite (setQuantumAllocator_slabs _ _ _ _ H). reflexivity.
  - apply rbind_Ok in H as (q & _ & H). apply rbind_Ok in H as (rs & _ & H).
    rewrite (setQuantumAllocator_slabs _ _ _ _ H). reflexivity.
  - injection H as <-. reflexivity.
Qed.

Lemma keepsSlabs_onRegistry {A} r (m : Registry.R A) :
  keepsSlabs (onRegistry r m).
Proof.
  intros w x w' H. unfold onRegistry in H.
  destruct (getRegistry (director w) r); [|discriminate].
  destruct (m _) as [[y st]|]; [|discriminate].
  destruct (setRegistryAt r (reg st) (director w)) eqn:S; [|discriminate].
  injection H as _ <-. exact (setRegistryAt_slabs _ _ _ _ S).
Qed.

Lemma keepsSlabs_setPartitionAt a i p :
  keepsSlabs (writeDirector (setPartitionAt a i p)).
Proof.
  intros w x w' H. unfold writeDirector in H.
  destruct (setPartitionAt a i p (director w)) eqn:S; [|discriminate].
  injection H as _ <-. cbn [director].
  rewrite (setPartitionAt_slabs _ _ _ _ _ S). reflexivity.
Qed.

Lemma keepsSlabs_setAllocator allocator order :
  keepsSlabs (AllocatorRoster.setAllocator allocator order).
Proof.
  intros w x w' H. unfold AllocatorRoster.setAllocator, writeDirector in H.
  destruct (insertZ (d_roster (director w)) order allocator);
    cbn [rbind] in H; [|discriminate].
  injection H as _ <-. reflexivity.
Qed.

Create HintDb frame.

#[local] Hint Resolve keepsSlabs_ret keepsSlabs_fault keepsSlabs_lift
  keepsSlabs_readDirector keepsSlabs_sys keepsSlabs_onRegistry
  keepsSlabs_setPartitionAt keepsSlabs_setAllocator : frame.

Ltac frame_step :=
  first
    [ solve [auto with frame]
    | apply keepsSlabs_bind; [|intros ?]
    | match goal with
      | |- keepsSlabs (if ?b then _ else _) => destruct b
      | |- keepsSlabs (match ?x with Some _ => _ | None => _ end) =>
          destruct x
      end ].

Ltac frame := repeat frame_step.

Lemma keepsSlabs_readRegistry {A} r (f : Registry -> Res A) :
  keepsSlabs (readRegistry r f).
Proof. unfold readRegistry. frame. Qed.

#[local] Hint Resolve keepsSlabs_readRegistry : frame.

Lemma keepsSlabs_Partition_this a i : keepsSlabs (Partition.this a i).
Proof. unfold Partition.this. frame. Qed.

Lemma keepsSlabs_QuantumAllocator_this a :
  keepsSlabs (QuantumAllocator.this a).
Proof. unfold QuantumAllocator.this. frame. Qed.

#[local] Hint Resolve keepsSlabs_Partition_this
  keepsSlabs_QuantumAllocator_this : frame.

Lemma keepsSlabs_Partition_allocate a i size :
  keepsSlabs (Partition.allocate a i size).
Proof. unfold Partition.allocate. frame. Qed.

Lemma keepsSlabs_Partition_deallocate a i address :
  keepsSlabs (Partition.deallocate a i address).
Proof. unfold Partition.deallocate. frame. Qed.

Lemma keepsSlabs_Partition_clear a i address :
  keepsSlabs (Partition.clear a i address).
Proof. unfold Partition.clear. frame. Qed.

Lemma keepsSlabs_Partition_allocateBulk a i count addresses :
  keepsSlabs (Partition.allocateBulk a i count addresses).
Proof. unfold Partition.allocateBulk. frame. Qed.

Lemma keepsSlabs_Partition_allocateBulkContiguous a i count addresses :
  keepsSlabs (Partition.allocateBulkContiguous a i count addresses).
Proof. unfold Partition.allocateBulkContiguous. frame. Qed.

#[local] Hint Resolve keepsSlabs_Partition_allocate
  keepsSlabs_Partition_deallocate keepsSlabs_Partition_clear
  keepsSlabs_Partition_allocateBulk
  keepsSlabs_Partition_allocateBulkContiguous : frame.

Lemma keepsSlabs_newPartition a i size :
  keepsSlabs (QuantumAllocator.newPartition a i size).
Proof. unfold QuantumAllocator.newPartition. frame. Qed.

Lemma keepsSlabs_onlinePartition a i k :
  keepsSlabs (QuantumAllocator.onlinePartition a i k).
Proof. unfold QuantumAllocator.onlinePartition. frame. Qed.

Lemma keepsSlabs_offlinePartition a i k :
  keepsSlabs (QuantumAllocator.offlinePartition a i k).
Proof. unfold QuantumAllocator.offlinePartition. frame. Qed.

#[local] Hint Resolve keepsSlabs_newPartition keepsSlabs_onlinePartition
  keepsSlabs_offlinePartition : frame.

Lemma keepsSlabs_addToOrder a k p i :
  keepsSlabs (QuantumAllocator.addToOrder a k p i).
Proof. unfold QuantumAllocator.addToOrder. frame. Qed.

Lemma keepsSlabs_allocatePartition a :
  keepsSlabs (QuantumAllocator.allocatePartition a).
Proof. unfold QuantumAllocator.allocatePartition. frame. Qed.

#[local] Hint Resolve keepsSlabs_addToOrder keepsSlabs_allocatePartition
  : frame.

Lemma keepsSlabs_newOrderPartition a k :
  keepsSlabs (QuantumAllocator.newOrderPartition a k).
Proof. unfold QuantumAllocator.newOrderPartition. frame. Qed.

Lemma keepsSlabs_freeUpPartition_loop n a k :
  keepsSlabs (QuantumAllocator.freeUpPartition_loop n a k).
Proof.
  induction n as [|n IH]; cbn [QuantumAllocator.freeUpPartition_loop];
    [frame|].
  frame.
Qed.

#[local] Hint Resolve keepsSlabs_newOrderPartition
  keepsSlabs_freeUpPartition_loop : frame.

Lemma keepsSlabs_getFreePartition a k :
  keepsSlabs (QuantumAllocator.getFreePartition a k).
Proof.
  unfold QuantumAllocator.getFreePartition, QuantumAllocator.freeUpPartition.
  frame.
Qed.

#[local] Hint Resolve keepsSlabs_getFreePartition : frame.

Lemma keepsSlabs_next a it :
  keepsSlabs (QuantumAllocator.PartitionIterator.next a it).
Proof. unfold QuantumAllocator.PartitionIterator.next. frame. Qed.

#[local] Hint Resolve keepsSlabs_next : frame.

Lemma keepsSlabs_allocate_loop n : forall a size it,
  keepsSlabs (QuantumAllocator.allocate_loop n a size it).
Proof.
  induction n as [|n IH]; intros a size it;
    [apply keepsSlabs_fault|].
  unfold QuantumAllocator.allocate_loop; fold QuantumAllocator.allocate_loop.
  frame.
Qed.

Lemma keepsSlabs_allocateBulkContiguous_loop n :
  forall a count it allocated addresses,
  keepsSlabs (QuantumAllocator.allocateBulkContiguous_loop n a count it
                allocated addresses).
Proof.
  induction n as [|n IH]; intros a count it allocated addresses;
    [apply keepsSlabs_fault|].
  unfold QuantumAllocator.allocateBulkContiguous_loop; fold QuantumAllocator.allocateBulkContiguous_loop.
  frame.
Qed.

Lemma keepsSlabs_allocateBulk_loop n :
  forall a count it allocated addresses,
  keepsSlabs (QuantumAllocator.allocateBulk_loop n a count it
                allocated addresses).
Proof.
  induction n as [|n IH]; intros a count it allocated addresses;
    [apply keepsSlabs_fault|].
  unfold QuantumAllocator.allocateBulk_loop; fold QuantumAllocator.allocateBulk_loop.
  frame.
Qed.

#[local] Hint Resolve keepsSlabs_allocate_loop
  keepsSlabs_allocateBulkContiguous_loop keepsSlabs_allocateBulk_loop
  : frame.

Lemma keepsSlabs_QuantumAllocator_allocate a size :
  keepsSlabs (QuantumAllocator.allocate a size).
Proof. unfold QuantumAllocator.allocate. frame. Qed.

Lemma keepsSlabs_QuantumAllocator_deallocate a address :
  keepsSlabs (QuantumAllocator.deallocate a address).
Proof. unfold QuantumAllocator.deallocate. frame. Qed.

Lemma keepsSlabs_QuantumAllocator_clear a address :
  keepsSlabs (QuantumAllocator.clear a address).
Proof. unfold QuantumAllocator.clear. frame. Qed.

Lemma keepsSlabs_QuantumAllocator_allocateBulk a size count addresses c :
  keepsSlabs (QuantumAllocator.allocateBulk a size count addresses c).
Proof. unfold QuantumAllocator.allocateBulk. frame. Qed.

#[local] Hint Resolve keepsSlabs_QuantumAllocator_allocate
  keepsSlabs_QuantumAllocator_deallocate keepsSlabs_QuantumAllocator_clear
  keepsSlabs_QuantumAllocator_allocateBulk : frame.

Lemma keepsSlabs_SlabAllocator_this : keepsSlabs SlabAllocator.this.
Proof. unfold SlabAllocator.this. frame. Qed.

#[local] Hint Resolve keepsSlabs_SlabAllocator_this : frame.

Lemma keepsSlabs_SlabAllocator_deallocate address :
  keepsSlabs (SlabAllocator.deallocate address).
Proof. unfold SlabAllocator.deallocate, SlabAllocator.erase. frame. Qed.

Lemma keepsSlabs_SlabAllocator_clear address :
  keepsSlabs (SlabAllocator.clear address).
Proof. unfold SlabAllocator.clear. frame. Qed.

#[local] Hint Resolve keepsSlabs_SlabAllocator_deallocate
  keepsSlabs_SlabAllocator_clear : frame.

Lemma keepsSlabs_deallocate address :
  keepsSlabs (Director.deallocate address).
Proof. unfold Director.deallocate. frame. Qed.

Lemma keepsSlabs_clear address : keepsSlabs (Director.clear address).
Proof. unfold Director.clear. frame. Qed.

(** *** Computations that keep the slabs sound *)

Lemma keepsSlabs_keepsSound {A} (m : M World A) :
  keepsSlabs m -> keepsSound m.
Proof.
  intros K w a w' S H. unfold slabsSound. rewrite (K _ _ _ H). exact S.
Qed.

Lemma keepsSound_bind {A B} (m : M World A) (k : A -> M World B) :
  keepsSound m -> (forall a, keepsSound (k a)) -> keepsSound (bind m k).
Proof.
  intros Hm Hk w b w' S H. inv_bind H as a w1 E.
  exact (Hk a _ _ _ (Hm _ _ _ S E) H).
Qed.

Lemma keepsSound_bind_lift {A B} (r : Res A) (k : A -> M World B) :
  (forall a, r = Ok a -> keepsSound (k a)) -> keepsSound (bind (lift r) k).
Proof.
  intros Hk w b w' S H. inv_bind H as a w1 E.
  apply lift_Ok in E as [E ->]. exact (Hk a E _ _ _ S H).
Qed.

Lemma size_create address size :
  Space.size (Space.create address size) = wrap64 size.
Proof.
  unfold Space.size, Space.create, wrap64. cbn [limit base].
  rewrite Zminus_mod_idemp_l. f_equal. lia.
Qed.

Lemma powerOfTwoOrZero_create address size :
  powerOfTwoOrZero size ->
  powerOfTwoOrZero (Space.size (Space.create address size)).
Proof.
  intros P. rewrite size_create.
  destruct P as [->|(k & Hk & ->)]; [left; reflexivity|].
  right. exists k. split; [exact Hk|]. apply wrap64_small.
  split; [lia|]. apply Z.pow_lt_mono_r; lia.
Qed.

Lemma keepsSound_setSlab index address size :
  powerOfTwoOrZero size ->
  keepsSound (SlabAllocator.setSlab index (Space.create address size)).
Proof.
  intros P w x w' S H. unfold SlabAllocator.setSlab, writeDirector in H.
  destruct (rbind _ _) as [d|] eqn:E; [|discriminate].
  injection H as _ <-. apply rbind_Ok in E as (slabs & I & [= <-]).
  unfold insertZ in I. destruct (_ && _); [|discriminate].
  injection I as <-. unfold slabsSound. cbn.
  apply Forall_insert; [exact S|]. apply powerOfTwoOrZero_create. exact P.
Qed.

Lemma roundUpPowerOf2_sound value size :
  roundUpPowerOf2 value = Ok size -> powerOfTwoOrZero size.
Proof.
  unfold roundUpPowerOf2, shl64. destruct (value =? 0).
  - intros [= <-]. left. reflexivity.
  - set (c := BITS_PER_WORD - clz (wrap64 (value - 1))).
    destruct (Z.leb_spec 0 c); [|discriminate].
    destruct (Z.ltb_spec c 64); [|discriminate].
    cbn [andb]. intros [= <-]. right. exists c. split; [lia|].
    rewrite Z.shiftl_1_l. apply wrap64_small.
    split; [lia|]. apply Z.pow_lt_mono_r; lia.
Qed.

Lemma roundUp_powerOfTwo order size :
  0 <= order < 64 -> powerOfTwoOrZero size ->
  powerOfTwoOrZero (roundUp size (2 ^ order)).
Proof.
  intros Ho [->|(k & Hk & ->)].
  - left. rewrite <- (Z2Nat.id order) by lia.
    assert (B : (Z.to_nat order < 64)%nat) by lia. revert B.
    generalize (Z.to_nat order) as n. intros n B.
    do 64 (destruct n as [|n]; [reflexivity|]). lia.
  - right. exists (Z.max k order). split; [lia|].
    rewrite <- (Z2Nat.id order), <- (Z2Nat.id k) by lia.
    assert (B : (Z.to_nat order < 64)%nat) by lia.
    assert (C : (Z.to_nat k < 64)%nat) by lia. revert B C.
    generalize (Z.to_nat order) as n. generalize (Z.to_nat k) as m.
    intros m n B C.
    do 64 (destruct n as [|n];
           [do 64 (destruct m as [|m]; [vm_compute; reflexivity|]); lia|]).
    lia.
Qed.

Create HintDb sound.

#[local] Hint Resolve keepsSound_setSlab : sound.

Ltac sound_step :=
  first
    [ solve [auto with sound]
    | solve [apply keepsSlabs_keepsSound; frame]
    | apply keepsSound_bind; [|intros ?]
    | match goal with
      | |- keepsSound (if ?b then _ else _) => destruct b
      | |- keepsSound (match ?x with Some _ => _ | None => _ end) =>
          destruct x
      end ].

Ltac sound := repeat sound_step.

Lemma keepsSound_record address size :
  powerOfTwoOrZero size -> keepsSound (SlabAllocator.record address size).
Proof. intros P. unfold SlabAllocator.record. sound. Qed.

Lemma keepsSound_reserve size :
  powerOfTwoOrZero size -> keepsSound (SlabAllocator.reserve size).
Proof. intros P. unfold SlabAllocator.reserve. sound. Qed.

Lemma keepsSound_SlabAllocator_allocate size :
  powerOfTwoOrZero size -> keepsSound (SlabAllocator.allocate size).
Proof.
  intros P. unfold SlabAllocator.allocate. apply keepsSound_reserve.
  exact (roundUp_powerOfTwo 20 size ltac:(lia) P).
Qed.

#[local] Hint Resolve keepsSound_record keepsSound_SlabAllocator_allocate
  : sound.

Lemma keepsSound_SlabAllocator_allocateBulk_loop n :
  forall address roundedSize count i addresses,
  powerOfTwoOrZero roundedSize ->
  keepsSound (SlabAllocator.allocateBulk_loop n address roundedSize count i
                addresses).
Proof.
  induction n as [|n IH]; intros address roundedSize count i addresses P.
  - apply keepsSlabs_keepsSound, keepsSlabs_ret.
  - unfold SlabAllocator.allocateBulk_loop;
      fold SlabAllocator.allocateBulk_loop.
    sound.
Qed.

Lemma keepsSound_SlabAllocator_allocateBulk size count addresses c :
  powerOfTwoOrZero size ->
  keepsSound (SlabAllocator.allocateBulk size count addresses c).
Proof.
  intros P. unfold SlabAllocator.allocateBulk.
  pose proof (roundUp_powerOfTwo 26 size ltac:(lia) P) as R.
  pose proof keepsSound_SlabAllocator_allocateBulk_loop as L.
  sound.
Qed.

#[local] Hint Resolve keepsSound_SlabAllocator_allocateBulk : sound.

Lemma keepsSound_allocate size : keepsSound (Director.allocate size).
Proof.
  unfold Director.allocate. apply keepsSound_bind_lift.
  intros alignedSize R. apply roundUpPowerOf2_sound in R. sound.
Qed.

Lemma keepsSound_deallocate address :
  keepsSound (Director.deallocate address).
Proof. apply keepsSlabs_keepsSound, keepsSlabs_deallocate. Qed.

Lemma keepsSound_clear address : keepsSound (Director.clear address).
Proof. apply keepsSlabs_keepsSound, keepsSlabs_clear. Qed.

#[local] Hint Resolve keepsSound_allocate keepsSound_deallocate
  keepsSound_clear : sound.

Lemma keepsSound_reallocate address size :
  keepsSound (Director.reallocate address size).
Proof. unfold Director.reallocate. sound. Qed.

Lemma keepsSound_allocateBulk order count addresses c :
  0 <= order < 64 ->
  keepsSound (Director.allocateBulk (2 ^ order) count addresses c).
Proof.
  intros H. unfold Director.allocateBulk.
  assert (P : powerOfTwoOrZero (2 ^ order)) by (right; exists order; auto).
  sound.
Qed.

Lemma step_sound w w' :
  step w w' -> slabsSound (director w) -> slabsSound (director w').
Proof.
  intros [size a w1 w2 H|address w1 w2 H|address size a w1 w2 H
         |address w1 w2 H|order count addresses c r w1 w2 Ho H] S.
  - exact (keepsSound_allocate _ _ _ _ S H).
  - exact (keepsSound_deallocate _ _ _ _ S H).
  - exact (keepsSound_reallocate _ _ _ _ _ S H).
  - exact (keepsSound_clear _ _ _ _ S H).
  - exact (keepsSound_allocateBulk _ _ _ _ Ho _ _ _ S H).
Qed.

Lemma reachable_sound w0 w :
  reachable w0 w -> slabsSound (director w0) -> slabsSound (director w).
Proof.
  induction 1 as [|w w' _ IH St]; intros S; [exact S|].
  exact (step_sound _ _ St (IH S)).
Qed.

Lemma create_sound abi address secure small medium large maxSlabCount
  sideDataSize e d e' :
  Director.create abi address secure small medium large maxSlabCount
    sideDataSize e = Ok (Some d, e') ->
  slabsSound d.
Proof.
  intros C. apply create_fresh in C
    as (sp & b0 & b1 & b2 & s0 & s1 & s2 & ss & -> & _).
  unfold slabsSound. cbn. apply Forall_replicate. left. reflexivity.
Qed.

Lemma find_loop_range n : forall s i address index,
  SlabAllocator.find_loop n s i address = Ok index ->
  index = NOT_FOUND \/ i <= index.
Proof.
  induction n as [|n IH]; intros s i address index H; cbn in H.
  - injection H as <-. left. reflexivity.
  - apply rbind_Ok in H as (slab & _ & H).
    apply rbind_Ok in H as (found & _ & H). destruct found.
    + injection H as <-. right. lia.
    + apply IH in H as [H|H]; [left; exact H|right; lia].
Qed.

(** The size of a block is a power of two, or zero for an address that
    is not managed. *)
Lemma allocationSize_sound d address size :
  slabsSound d -> Director.allocationSize d address = Ok size ->
  powerOfTwoOrZero size.
Proof.
  intros S H. unfold Director.allocationSize in H.
  apply rbind_Ok in H as (found & _ & H). destruct found as [a|].
  - apply rbind_Ok in H as (q & _ & H).
    unfold QuantumAllocator.allocationSize in H.
    apply rbind_Ok in H as (i & _ & H). apply rbind_Ok in H as (p & _ & H).
    unfold Partition.allocationSize, Partition.quantumSize, orderToSize,
      shl64 in H.
    set (c := p_quantumSizeOrder p) in H.
    destruct (Z.leb_spec 0 c); [|discriminate].
    destruct (Z.ltb_spec c 64); [|discriminate].
    cbn [andb] in H. injection H as <-. right. exists c. split; [lia|].
    rewrite Z.shiftl_1_l. apply wrap64_small.
    split; [lia|]. apply Z.pow_lt_mono_r; lia.
  - unfold SlabAllocator.allocationSize in H.
    apply rbind_Ok in H as (index & _ & H).
    destruct (index =? NOT_FOUND); [injection H as <-; left; reflexivity|].
    apply rbind_Ok in H as (slab & L & [= <-]).
    unfold lookupZ in L. destruct (0 <=? index); [|discriminate].
    destruct (_ !! _) as [slab'|] eqn:E; [|discriminate].
    injection L as ->. unfold slabsSound in S.
    rewrite Forall_lookup in S. exact (S _ _ E).
Qed.

(** A block whose size is a power of two stays where it is when it is
    reallocated to its size. *)
Lemma reallocate_fits w a size :
  a <> 0 -> powerOfTwoOrZero size ->
  Director.allocationSize (director w) a = Ok size ->
  Director.reallocate a size w = Ok (a, w).
Proof.
  intros Ha P S. unfold Director.reallocate.
  destruct (a =? 0) eqn:E; [lia|].
  unfold bind at 1. unfold readDirector. rewrite S.
  unfold bind at 1. unfold lift.
  destruct P as [->|(k & Hk & ->)].
  - reflexivity.
  - rewrite (roundUpPowerOf2_twoToOrder k Hk).
    rewrite Z.ltb_irrefl, Z.ltb_irrefl. reflexivity.
Qed.



(** ** The roll back of [conditionallySetMaskRange] *)

(** X30. When the bits of the first mask and the middle words are free on
    entry, a call of [conditionallySetMaskRange] that returns [false]
    leaves the registry as it found it: the words it set before the
    compare-exchange that failed are cleared again. *)
Theorem conditionallySetMaskRange_rollback :
  forall (st st' : RegState) (firstWordIndex count firstMask lastMask : Z),
    wellFormed (reg st) = true ->
    0 <= count ->
    0 <= firstMask < 2 ^ 64 ->
    (forall v, Registry.getBits (reg st) firstWordIndex = Ok v ->
               Z.land v firstMask = 0) ->
    (forall i v, 0 <= i < count ->
                 Registry.getBits (reg st) (firstWordIndex + i + 1) = Ok v ->
                 v = 0) ->
    Registry.conditionallySetMaskRange firstWordIndex count firstMask
      lastMask st = Ok (false, st') ->
    reg st' = reg st.
Proof.
  intros st st' first count fm lm W Hc Hfm Hfirst Hmid H.
  assert (F : 0 <= first).
  { pose proof H as H'. unfold Registry.conditionallySetMaskRange in H'.
    inv_bind H' as a s E. apply conditionallySetMask_Ok in E as [[v G] _].
    apply getBits_Some in G. lia. }
  rewrite <- (Z2Nat.id count Hc) in H.
  eapply (conditionallySetMaskRange_false (reg st) first fm (Z.to_nat count));
    [exact F|exact Hfm| | |reflexivity|exact H].
  - intros v L. destruct (wellFormed_word _ _ _ W L) as [Hp Hv].
    split; [exact Hv|]. apply Hfirst, getBits_lookup; [|exact L].
    unfold MAX_REGISTRY_WORD_COUNT. lia.
  - intros p v Hp L. destruct (wellFormed_word _ _ _ W L) as [Hp' _].
    apply (Hmid (Z.of_nat p - first - 1)); [lia|].
    apply getBits_lookup; [unfold MAX_REGISTRY_WORD_COUNT; lia|].
    replace (first + (Z.of_nat p - first - 1) + 1) with (Z.of_nat p) by lia.
    rewrite Nat2Z.id. exact L.
Qed.

(** An instance: the first word is set, the compare-exchange on the last
    word fails and the first word is cleared again. *)
Lemma conditionallySetMaskRange_rollback_witness :
  let st := mkRegState (freshRegistry 128) [true; false] in
  exists st',
    Registry.conditionallySetMaskRange 0 0 1 1 st = Ok (false, st') /\
    reg st' = reg st.
Proof.
  intros st.
  assert (H : exists st', Registry.conditionallySetMaskRange 0 0 1 1 st
                          = Ok (false, st')).
  { eexists. lazy. reflexivity. }
  destruct H as [st' H]. exists st'. split; [exact H|].
  apply (conditionallySetMaskRange_rollback st st' 0 0 1 1).
  - reflexivity.
  - lia.
  - lia.
  - intros v G. vm_compute in G. injection G as <-. reflexivity.
  - intros i v Hi. lia.
  - exact H.
Defined.
